(** * JerryScript: compact byte code layout and the lexer of the new parser

    A shallow embedding of [byte-code.h] (the CBC opcode lists) and of
    [jerry-core/parser/js/new-parser/src/js-lexer.c], with the properties
    of both that the specification of the lexer relies on.

    Conventions of the embedding.
    - A C unsigned integer of width [w] is a [Z] in [0, 2^w); every
      operation that can leave the range is wrapped explicitly.
    - The source text is a [list Z] of bytes; a pointer into it is its
      offset, a [Z].  A read outside the buffer is undefined behaviour in
      C and is the outcome [Fault] here.
    - [parser_raise_error] does not return (it unwinds to the top-level
      compile call); it is the outcome [Raised e ctx], where [ctx] is the
      context as it was when the error was raised.
    - [PARSER_ASSERT] expands to nothing in a release build and is not
      modelled.
    - Every [CONFIG_DISABLE_ES2015_*] macro is left undefined (the default
      configuration), so classes, template strings, arrow functions, rest
      parameters and computed property names are compiled in. *)

From Stdlib Require Import ZArith List Bool Lia String Ascii.
Import ListNotations.
Local Open Scope Z_scope.

(** ** Fixed-width unsigned integers *)

Definition to_uint8 (z : Z) : Z := z mod 2 ^ 8.
Definition to_uint16 (z : Z) : Z := z mod 2 ^ 16.
Definition to_uint32 (z : Z) : Z := z mod 2 ^ 32.

(** [~mask] on a 32-bit [unsigned int]. *)
Definition not_uint32 (mask : Z) : Z := to_uint32 (Z.lnot mask).

(** [value & flag] as a C condition. *)
Definition has_flag (value flag : Z) : bool := negb (Z.land value flag =? 0).

(** ** byte-code.h *)

Module CBC.

Definition CBC_NO_FLAG : Z := 0x00.
Definition CBC_HAS_LITERAL_ARG : Z := 0x01.
Definition CBC_HAS_LITERAL_ARG2 : Z := 0x02.
Definition CBC_HAS_BYTE_ARG : Z := 0x04.
Definition CBC_HAS_BRANCH_ARG : Z := 0x08.

(* These flags are shared *)
Definition CBC_FORWARD_BRANCH_ARG : Z := 0x10.
Definition CBC_POP_STACK_BYTE_ARG : Z := 0x10.

Definition CBC_HAS_POP_STACK_BYTE_ARG : Z :=
  Z.lor CBC_HAS_BYTE_ARG CBC_POP_STACK_BYTE_ARG.

(** One [CBC_OPCODE (arg1, arg2, arg3)] line of the X-macro list: the
    enumerator's name, its flags and its stack adjustment. *)
Record cbc_opcode_entry : Type := {
  op_name : string;
  op_flags : Z;
  op_stack : Z
}.

Definition CBC_OPCODE (name : string) (flags stack : Z) : list cbc_opcode_entry :=
  [ {| op_name := name; op_flags := flags; op_stack := stack |} ].

Definition CBC_UNARY_OPERATION (name : string) : list cbc_opcode_entry :=
  CBC_OPCODE name CBC_NO_FLAG 0 ++
  CBC_OPCODE (name ++ "_LITERAL"%string) CBC_HAS_LITERAL_ARG 1.

Definition CBC_BINARY_OPERATION (name : string) : list cbc_opcode_entry :=
  CBC_OPCODE name CBC_NO_FLAG (-1) ++
  CBC_OPCODE (name ++ "_RIGHT_LITERAL"%string) CBC_HAS_LITERAL_ARG 0 ++
  CBC_OPCODE (name ++ "_TWO_LITERALS"%string)
             (Z.lor CBC_HAS_LITERAL_ARG CBC_HAS_LITERAL_ARG2) 1.

Definition CBC_UNARY_LVALUE_OPERATION (name : string) : list cbc_opcode_entry :=
  CBC_OPCODE name CBC_NO_FLAG (-2) ++
  CBC_OPCODE (name ++ "_PUSH_RESULT"%string) CBC_NO_FLAG (-1) ++
  CBC_OPCODE (name ++ "_BLOCK"%string) CBC_NO_FLAG (-2) ++
  CBC_OPCODE (name ++ "_IDENT"%string) CBC_HAS_LITERAL_ARG 0 ++
  CBC_OPCODE (name ++ "_IDENT_PUSH_RESULT"%string) CBC_HAS_LITERAL_ARG 1 ++
  CBC_OPCODE (name ++ "_IDENT_BLOCK"%string) CBC_HAS_LITERAL_ARG 0.

Definition CBC_FORWARD_BRANCH (name : string) (stack : Z) : list cbc_opcode_entry :=
  CBC_OPCODE name (Z.lor CBC_HAS_BRANCH_ARG CBC_FORWARD_BRANCH_ARG) stack ++
  CBC_OPCODE (name ++ "_2"%string) (Z.lor CBC_HAS_BRANCH_ARG CBC_FORWARD_BRANCH_ARG) stack ++
  CBC_OPCODE (name ++ "_3"%string) (Z.lor CBC_HAS_BRANCH_ARG CBC_FORWARD_BRANCH_ARG) stack.

Definition CBC_BACKWARD_BRANCH (name : string) (stack : Z) : list cbc_opcode_entry :=
  CBC_OPCODE name CBC_HAS_BRANCH_ARG stack ++
  CBC_OPCODE (name ++ "_2"%string) CBC_HAS_BRANCH_ARG stack ++
  CBC_OPCODE (name ++ "_3"%string) CBC_HAS_BRANCH_ARG stack.

Definition CBC_BRANCH_OFFSET_LENGTH (opcode : Z) : Z := Z.land opcode 0x3.

Definition CBC_BRANCH_IS_FORWARD (flags : Z) : bool :=
  has_flag flags CBC_FORWARD_BRANCH_ARG.

Section BranchDirection.

(** [CBC_BRANCH_IS_BACKWARD(opcode)] does not use its parameter: it reads
    [flags], a variable of the function in which it is expanded. *)
Variable flags : Z.

Definition CBC_BRANCH_IS_BACKWARD (opcode : Z) : bool :=
  negb (has_flag flags CBC_FORWARD_BRANCH_ARG).

End BranchDirection.

(* Stack consumption of opcodes with context. *)
Definition PARSER_FOR_IN_CONTEXT_STACK_ALLOCATION : Z := 3.
Definition PARSER_WITH_CONTEXT_STACK_ALLOCATION : Z := 1.
Definition PARSER_SUPER_CLASS_CONTEXT_STACK_ALLOCATION : Z := 1.
Definition PARSER_TRY_CONTEXT_STACK_ALLOCATION : Z := 3.

Definition CBC_OPCODE_LIST : list cbc_opcode_entry :=
  (* Branch opcodes first. Some other opcodes are mixed. *)
  CBC_OPCODE "CBC_EXT_OPCODE" CBC_NO_FLAG 0 ++
  CBC_FORWARD_BRANCH "CBC_JUMP_FORWARD" 0 ++
  CBC_OPCODE "CBC_POP" CBC_NO_FLAG (-1) ++
  CBC_BACKWARD_BRANCH "CBC_JUMP_BACKWARD" 0 ++
  CBC_OPCODE "CBC_POP_BLOCK" CBC_NO_FLAG (-1) ++
  CBC_FORWARD_BRANCH "CBC_BRANCH_IF_TRUE_FORWARD" (-1) ++
  CBC_OPCODE "CBC_THROW" CBC_NO_FLAG (-1) ++
  CBC_BACKWARD_BRANCH "CBC_BRANCH_IF_TRUE_BACKWARD" (-1) ++
  CBC_OPCODE "CBC_CONTEXT_END" CBC_NO_FLAG 0 ++
  CBC_FORWARD_BRANCH "CBC_BRANCH_IF_FALSE_FORWARD" (-1) ++
  CBC_OPCODE "CBC_CREATE_OBJECT" CBC_NO_FLAG 1 ++
  CBC_BACKWARD_BRANCH "CBC_BRANCH_IF_FALSE_BACKWARD" (-1) ++
  CBC_OPCODE "CBC_SET_PROPERTY" CBC_HAS_LITERAL_ARG (-1) ++
  CBC_FORWARD_BRANCH "CBC_JUMP_FORWARD_EXIT_CONTEXT" 0 ++
  CBC_OPCODE "CBC_CREATE_ARRAY" CBC_NO_FLAG 1 ++
  CBC_FORWARD_BRANCH "CBC_BRANCH_IF_LOGICAL_TRUE" (-1) ++
  CBC_OPCODE "CBC_ARRAY_APPEND" CBC_HAS_POP_STACK_BYTE_ARG 0 ++
  CBC_FORWARD_BRANCH "CBC_BRANCH_IF_LOGICAL_FALSE" (-1) ++
  CBC_OPCODE "CBC_PUSH_ELISION" CBC_NO_FLAG 1 ++
  CBC_FORWARD_BRANCH "CBC_BRANCH_IF_STRICT_EQUAL" (-1) ++
  (* Basic opcodes. *)
  CBC_OPCODE "CBC_PUSH_LITERAL" CBC_HAS_LITERAL_ARG 1 ++
  CBC_OPCODE "CBC_PUSH_TWO_LITERALS" (Z.lor CBC_HAS_LITERAL_ARG CBC_HAS_LITERAL_ARG2) 2 ++
  CBC_OPCODE "CBC_PUSH_THREE_LITERALS" CBC_HAS_LITERAL_ARG2 3 ++
  CBC_OPCODE "CBC_PUSH_UNDEFINED" CBC_NO_FLAG 1 ++
  CBC_OPCODE "CBC_PUSH_TRUE" CBC_NO_FLAG 1 ++
  CBC_OPCODE "CBC_PUSH_FALSE" CBC_NO_FLAG 1 ++
  CBC_OPCODE "CBC_PUSH_NULL" CBC_NO_FLAG 1 ++
  CBC_OPCODE "CBC_PUSH_THIS" CBC_NO_FLAG 1 ++
  CBC_OPCODE "CBC_PUSH_THIS_LITERAL" CBC_HAS_LITERAL_ARG 2 ++
  CBC_OPCODE "CBC_PUSH_NUMBER_0" CBC_NO_FLAG 1 ++
  CBC_OPCODE "CBC_PUSH_NUMBER_POS_BYTE" CBC_HAS_BYTE_ARG 1 ++
  CBC_OPCODE "CBC_PUSH_NUMBER_NEG_BYTE" CBC_HAS_BYTE_ARG 1 ++
  CBC_OPCODE "CBC_PUSH_PROP" CBC_NO_FLAG (-1) ++
  CBC_OPCODE "CBC_PUSH_PROP_LITERAL" CBC_HAS_LITERAL_ARG 0 ++
  CBC_OPCODE "CBC_PUSH_PROP_LITERAL_LITERAL" (Z.lor CBC_HAS_LITERAL_ARG CBC_HAS_LITERAL_ARG2) 1 ++
  CBC_OPCODE "CBC_PUSH_PROP_THIS_LITERAL" CBC_HAS_LITERAL_ARG 1 ++
  CBC_OPCODE "CBC_PUSH_IDENT_REFERENCE" CBC_HAS_LITERAL_ARG 3 ++
  CBC_OPCODE "CBC_PUSH_PROP_REFERENCE" CBC_NO_FLAG 1 ++
  CBC_OPCODE "CBC_PUSH_PROP_LITERAL_REFERENCE" CBC_HAS_LITERAL_ARG 2 ++
  CBC_OPCODE "CBC_PUSH_PROP_LITERAL_LITERAL_REFERENCE" (Z.lor CBC_HAS_LITERAL_ARG CBC_HAS_LITERAL_ARG2) 3 ++
  CBC_OPCODE "CBC_PUSH_PROP_THIS_LITERAL_REFERENCE" CBC_HAS_LITERAL_ARG 3 ++
  CBC_OPCODE "CBC_NEW" CBC_HAS_POP_STACK_BYTE_ARG 0 ++
  CBC_OPCODE "CBC_NEW0" CBC_NO_FLAG 0 ++
  CBC_OPCODE "CBC_NEW1" CBC_NO_FLAG (-1) ++
  CBC_OPCODE "CBC_EVAL" CBC_NO_FLAG 0 ++
  CBC_OPCODE "CBC_DEFINE_VARS" CBC_HAS_LITERAL_ARG 0 ++
  CBC_OPCODE "CBC_INITIALIZE_VAR" (Z.lor CBC_HAS_LITERAL_ARG CBC_HAS_LITERAL_ARG2) 0 ++
  CBC_OPCODE "CBC_INITIALIZE_VARS" (Z.lor CBC_HAS_LITERAL_ARG CBC_HAS_LITERAL_ARG2) 0 ++
  CBC_OPCODE "CBC_RETURN" CBC_NO_FLAG (-1) ++
  CBC_OPCODE "CBC_RETURN_WITH_BLOCK" CBC_NO_FLAG 0 ++
  CBC_OPCODE "CBC_RETURN_WITH_LITERAL" CBC_HAS_LITERAL_ARG 0 ++
  CBC_OPCODE "CBC_SET_LITERAL_PROPERTY" (Z.lor CBC_HAS_LITERAL_ARG CBC_HAS_LITERAL_ARG2) 0 ++
  (* Unary opcodes. *)
  CBC_UNARY_OPERATION "CBC_PLUS" ++
  CBC_UNARY_OPERATION "CBC_NEGATE" ++
  CBC_UNARY_OPERATION "CBC_LOGICAL_NOT" ++
  CBC_UNARY_OPERATION "CBC_BIT_NOT" ++
  CBC_UNARY_OPERATION "CBC_VOID" ++
  CBC_OPCODE "CBC_TYPEOF" CBC_NO_FLAG 0 ++
  CBC_OPCODE "CBC_TYPEOF_IDENT" CBC_HAS_LITERAL_ARG 1 ++
  (* Binary opcodes. *)
  CBC_BINARY_OPERATION "CBC_BIT_OR" ++
  CBC_BINARY_OPERATION "CBC_BIT_XOR" ++
  CBC_BINARY_OPERATION "CBC_BIT_AND" ++
  CBC_BINARY_OPERATION "CBC_EQUAL" ++
  CBC_BINARY_OPERATION "CBC_NOT_EQUAL" ++
  CBC_BINARY_OPERATION "CBC_STRICT_EQUAL" ++
  CBC_BINARY_OPERATION "CBC_STRICT_NOT_EQUAL" ++
  CBC_BINARY_OPERATION "CBC_LESS" ++
  CBC_BINARY_OPERATION "CBC_GREATER" ++
  CBC_BINARY_OPERATION "CBC_LESS_EQUAL" ++
  CBC_BINARY_OPERATION "CBC_GREATER_EQUAL" ++
  CBC_BINARY_OPERATION "CBC_IN" ++
  CBC_BINARY_OPERATION "CBC_INSTANCEOF" ++
  CBC_BINARY_OPERATION "CBC_LEFT_SHIFT" ++
  CBC_BINARY_OPERATION "CBC_RIGHT_SHIFT" ++
  CBC_BINARY_OPERATION "CBC_UNS_RIGHT_SHIFT" ++
  CBC_BINARY_OPERATION "CBC_ADD" ++
  CBC_BINARY_OPERATION "CBC_SUBTRACT" ++
  CBC_BINARY_OPERATION "CBC_MULTIPLY" ++
  CBC_BINARY_OPERATION "CBC_DIVIDE" ++
  CBC_BINARY_OPERATION "CBC_MODULO" ++
  (* Unary lvalue opcodes. *)
  CBC_OPCODE "CBC_DELETE_PUSH_RESULT" CBC_NO_FLAG (-1) ++
  CBC_OPCODE "CBC_DELETE_IDENT_PUSH_RESULT" CBC_HAS_LITERAL_ARG 1 ++
  CBC_UNARY_LVALUE_OPERATION "CBC_PRE_INCR" ++
  CBC_UNARY_LVALUE_OPERATION "CBC_PRE_DECR" ++
  CBC_UNARY_LVALUE_OPERATION "CBC_POST_INCR" ++
  CBC_UNARY_LVALUE_OPERATION "CBC_POST_DECR" ++
  (* Call opcodes. *)
  CBC_OPCODE "CBC_CALL" CBC_HAS_POP_STACK_BYTE_ARG (-1) ++
  CBC_OPCODE "CBC_CALL_PUSH_RESULT" CBC_HAS_POP_STACK_BYTE_ARG 0 ++
  CBC_OPCODE "CBC_CALL_BLOCK" CBC_HAS_POP_STACK_BYTE_ARG (-1) ++
  CBC_OPCODE "CBC_CALL_PROP" CBC_HAS_POP_STACK_BYTE_ARG (-3) ++
  CBC_OPCODE "CBC_CALL_PROP_PUSH_RESULT" CBC_HAS_POP_STACK_BYTE_ARG (-2) ++
  CBC_OPCODE "CBC_CALL_PROP_BLOCK" CBC_HAS_POP_STACK_BYTE_ARG (-3) ++
  CBC_OPCODE "CBC_CALL0" CBC_NO_FLAG (-1) ++
  CBC_OPCODE "CBC_CALL0_PUSH_RESULT" CBC_NO_FLAG 0 ++
  CBC_OPCODE "CBC_CALL0_BLOCK" CBC_NO_FLAG (-1) ++
  CBC_OPCODE "CBC_CALL0_PROP" CBC_NO_FLAG (-3) ++
  CBC_OPCODE "CBC_CALL0_PROP_PUSH_RESULT" CBC_NO_FLAG (-2) ++
  CBC_OPCODE "CBC_CALL0_PROP_BLOCK" CBC_NO_FLAG (-3) ++
  CBC_OPCODE "CBC_CALL1" CBC_NO_FLAG (-2) ++
  CBC_OPCODE "CBC_CALL1_PUSH_RESULT" CBC_NO_FLAG (-1) ++
  CBC_OPCODE "CBC_CALL1_BLOCK" CBC_NO_FLAG (-2) ++
  CBC_OPCODE "CBC_CALL1_PROP" CBC_NO_FLAG (-4) ++
  CBC_OPCODE "CBC_CALL1_PROP_PUSH_RESULT" CBC_NO_FLAG (-3) ++
  CBC_OPCODE "CBC_CALL1_PROP_BLOCK" CBC_NO_FLAG (-4) ++
  CBC_OPCODE "CBC_CALL2" CBC_NO_FLAG (-3) ++
  CBC_OPCODE "CBC_CALL2_PUSH_RESULT" CBC_NO_FLAG (-2) ++
  CBC_OPCODE "CBC_CALL2_BLOCK" CBC_NO_FLAG (-3) ++
  CBC_OPCODE "CBC_CALL2_PROP" CBC_NO_FLAG (-4) ++
  CBC_OPCODE "CBC_CALL2_PROP_PUSH_RESULT" CBC_NO_FLAG (-3) ++
  CBC_OPCODE "CBC_CALL2_PROP_BLOCK" CBC_NO_FLAG (-4) ++
  (* Binary assignment opcodes. *)
  CBC_OPCODE "CBC_ASSIGN" CBC_NO_FLAG (-3) ++
  CBC_OPCODE "CBC_ASSIGN_PUSH_RESULT" CBC_NO_FLAG (-2) ++
  CBC_OPCODE "CBC_ASSIGN_BLOCK" CBC_NO_FLAG (-3) ++
  CBC_OPCODE "CBC_ASSIGN_SET_IDENT" CBC_HAS_LITERAL_ARG (-1) ++
  CBC_OPCODE "CBC_ASSIGN_SET_IDENT_PUSH_RESULT" CBC_HAS_LITERAL_ARG 0 ++
  CBC_OPCODE "CBC_ASSIGN_SET_IDENT_BLOCK" CBC_HAS_LITERAL_ARG (-1) ++
  CBC_OPCODE "CBC_ASSIGN_LITERAL_SET_IDENT" (Z.lor CBC_HAS_LITERAL_ARG CBC_HAS_LITERAL_ARG2) 0 ++
  CBC_OPCODE "CBC_ASSIGN_LITERAL_SET_IDENT_PUSH_RESULT" (Z.lor CBC_HAS_LITERAL_ARG CBC_HAS_LITERAL_ARG2) 1 ++
  CBC_OPCODE "CBC_ASSIGN_LITERAL_SET_IDENT_BLOCK" (Z.lor CBC_HAS_LITERAL_ARG CBC_HAS_LITERAL_ARG2) 0 ++
  CBC_OPCODE "CBC_ASSIGN_PROP_LITERAL" CBC_HAS_LITERAL_ARG (-2) ++
  CBC_OPCODE "CBC_ASSIGN_PROP_LITERAL_PUSH_RESULT" CBC_HAS_LITERAL_ARG (-1) ++
  CBC_OPCODE "CBC_ASSIGN_PROP_LITERAL_BLOCK" CBC_HAS_LITERAL_ARG (-2) ++
  CBC_OPCODE "CBC_ASSIGN_PROP_THIS_LITERAL" CBC_HAS_LITERAL_ARG (-1) ++
  CBC_OPCODE "CBC_ASSIGN_PROP_THIS_LITERAL_PUSH_RESULT" CBC_HAS_LITERAL_ARG 0 ++
  CBC_OPCODE "CBC_ASSIGN_PROP_THIS_LITERAL_BLOCK" CBC_HAS_LITERAL_ARG (-1) ++
  (* Last opcode (not a real opcode). *)
  CBC_OPCODE "CBC_END" CBC_NO_FLAG 0.

Definition CBC_EXT_OPCODE_LIST : list cbc_opcode_entry :=
  (* Branch opcodes first. Some other opcodes are mixed. *)
  CBC_OPCODE "CBC_EXT_NOP" CBC_NO_FLAG 0 ++
  CBC_FORWARD_BRANCH "CBC_EXT_WITH_CREATE_CONTEXT" (-1 + PARSER_WITH_CONTEXT_STACK_ALLOCATION) ++
  CBC_OPCODE "CBC_EXT_FOR_IN_GET_NEXT" CBC_NO_FLAG 1 ++
  CBC_FORWARD_BRANCH "CBC_EXT_FOR_IN_CREATE_CONTEXT" (-1 + PARSER_FOR_IN_CONTEXT_STACK_ALLOCATION) ++
  CBC_OPCODE "CBC_EXT_SET_GETTER" (Z.lor CBC_HAS_LITERAL_ARG CBC_HAS_LITERAL_ARG2) 0 ++
  CBC_BACKWARD_BRANCH "CBC_EXT_BRANCH_IF_FOR_IN_HAS_NEXT" 0 ++
  CBC_OPCODE "CBC_EXT_SET_SETTER" (Z.lor CBC_HAS_LITERAL_ARG CBC_HAS_LITERAL_ARG2) 0 ++
  CBC_FORWARD_BRANCH "CBC_EXT_TRY_CREATE_CONTEXT" PARSER_TRY_CONTEXT_STACK_ALLOCATION ++
  CBC_OPCODE "CBC_EXT_THROW_REFERENCE_ERROR" CBC_NO_FLAG 1 ++
  CBC_FORWARD_BRANCH "CBC_EXT_CATCH" 1 ++
  CBC_OPCODE "CBC_EXT_PUSH_UNDEFINED_BASE" CBC_NO_FLAG 1 ++
  CBC_FORWARD_BRANCH "CBC_EXT_FINALLY" 0 ++
  CBC_OPCODE "CBC_EXT_CLASS_EXPR_CONTEXT_END" CBC_NO_FLAG 0 ++
  CBC_FORWARD_BRANCH "CBC_EXT_SUPER_CLASS_CREATE_CONTEXT" (-1 + PARSER_SUPER_CLASS_CONTEXT_STACK_ALLOCATION) ++
  (* Basic opcodes. *)
  CBC_OPCODE "CBC_EXT_DEBUGGER" CBC_NO_FLAG 0 ++
  CBC_OPCODE "CBC_EXT_PUSH_NAMED_FUNC_EXPRESSION" (Z.lor CBC_HAS_LITERAL_ARG CBC_HAS_LITERAL_ARG2) 1 ++
  CBC_OPCODE "CBC_EXT_PUSH_LITERAL_PUSH_NUMBER_0" CBC_HAS_LITERAL_ARG 2 ++
  CBC_OPCODE "CBC_EXT_PUSH_LITERAL_PUSH_NUMBER_POS_BYTE" (Z.lor CBC_HAS_LITERAL_ARG CBC_HAS_BYTE_ARG) 2 ++
  CBC_OPCODE "CBC_EXT_PUSH_LITERAL_PUSH_NUMBER_NEG_BYTE" (Z.lor CBC_HAS_LITERAL_ARG CBC_HAS_BYTE_ARG) 2 ++
  CBC_OPCODE "CBC_EXT_SET_COMPUTED_PROPERTY" CBC_NO_FLAG (-2) ++
  CBC_OPCODE "CBC_EXT_SET_COMPUTED_PROPERTY_LITERAL" CBC_HAS_LITERAL_ARG (-1) ++
  CBC_OPCODE "CBC_EXT_SET_COMPUTED_GETTER" CBC_HAS_LITERAL_ARG (-1) ++
  CBC_OPCODE "CBC_EXT_SET_COMPUTED_SETTER" CBC_HAS_LITERAL_ARG (-1) ++
  CBC_OPCODE "CBC_EXT_SET_STATIC_PROPERTY_LITERAL" (Z.lor CBC_HAS_LITERAL_ARG CBC_HAS_LITERAL_ARG2) 0 ++
  CBC_OPCODE "CBC_EXT_SET_STATIC_COMPUTED_PROPERTY_LITERAL" CBC_HAS_LITERAL_ARG (-1) ++
  CBC_OPCODE "CBC_EXT_SET_STATIC_GETTER" (Z.lor CBC_HAS_LITERAL_ARG CBC_HAS_LITERAL_ARG2) 0 ++
  CBC_OPCODE "CBC_EXT_SET_STATIC_SETTER" (Z.lor CBC_HAS_LITERAL_ARG CBC_HAS_LITERAL_ARG2) 0 ++
  CBC_OPCODE "CBC_EXT_SET_STATIC_COMPUTED_GETTER" CBC_HAS_LITERAL_ARG (-1) ++
  CBC_OPCODE "CBC_EXT_SET_STATIC_COMPUTED_SETTER" CBC_HAS_LITERAL_ARG (-1) ++
  CBC_OPCODE "CBC_EXT_RESOLVE_BASE" CBC_NO_FLAG 0 ++
  (* Class opcodes *)
  CBC_OPCODE "CBC_EXT_INHERIT_AND_SET_CONSTRUCTOR" CBC_NO_FLAG 0 ++
  CBC_OPCODE "CBC_EXT_PUSH_CLASS_CONSTRUCTOR" CBC_NO_FLAG 1 ++
  CBC_OPCODE "CBC_EXT_IMPLICIT_CONSTRUCTOR_CALL" CBC_NO_FLAG 0 ++
  CBC_OPCODE "CBC_EXT_SET_CLASS_LITERAL" CBC_HAS_LITERAL_ARG 0 ++
  CBC_OPCODE "CBC_EXT_CLASS_EVAL" CBC_HAS_BYTE_ARG 0 ++
  CBC_OPCODE "CBC_EXT_SUPER_CALL" CBC_HAS_POP_STACK_BYTE_ARG (-1) ++
  CBC_OPCODE "CBC_EXT_SUPER_CALL_PUSH_RESULT" CBC_HAS_POP_STACK_BYTE_ARG 0 ++
  CBC_OPCODE "CBC_EXT_SUPER_CALL_BLOCK" CBC_HAS_POP_STACK_BYTE_ARG (-1) ++
  CBC_OPCODE "CBC_EXT_PUSH_CONSTRUCTOR_SUPER" CBC_NO_FLAG 1 ++
  CBC_OPCODE "CBC_EXT_PUSH_CONSTRUCTOR_SUPER_PROP" CBC_NO_FLAG 1 ++
  CBC_OPCODE "CBC_EXT_PUSH_SUPER" CBC_NO_FLAG 1 ++
  CBC_OPCODE "CBC_EXT_PUSH_STATIC_SUPER" CBC_NO_FLAG 1 ++
  CBC_OPCODE "CBC_EXT_PUSH_CONSTRUCTOR_THIS" CBC_NO_FLAG 1 ++
  CBC_OPCODE "CBC_EXT_SUPER_PROP_CALL" CBC_NO_FLAG 0 ++
  CBC_OPCODE "CBC_EXT_SUPER_PROP_ASSIGN" CBC_NO_FLAG 0 ++
  CBC_OPCODE "CBC_EXT_CONSTRUCTOR_RETURN" CBC_NO_FLAG (-1) ++
  (* Last opcode (not a real opcode). *)
  CBC_OPCODE "CBC_EXT_END" CBC_NO_FLAG 0.

Definition CBC_PUSH_NUMBER_BYTE_RANGE_END : Z := 256.

(** The value of an enumerator of [cbc_opcode_t] (or [cbc_ext_opcode_t])
    is its position in the expanded list. *)
Fixpoint opcode_ordinal_from (k : Z) (l : list cbc_opcode_entry) (name : string)
  : option Z :=
  match l with
  | [] => None
  | e :: rest =>
      if String.eqb (op_name e) name then Some k
      else opcode_ordinal_from (k + 1) rest name
  end.

Definition opcode_ordinal (l : list cbc_opcode_entry) (name : string) : option Z :=
  opcode_ordinal_from 0 l name.

Definition opcode_at (l : list cbc_opcode_entry) (ordinal : Z) : option cbc_opcode_entry :=
  if ordinal <? 0 then None else nth_error l (Z.to_nat ordinal).

Definition is_branch (e : cbc_opcode_entry) : bool :=
  has_flag (op_flags e) CBC_HAS_BRANCH_ARG.

Definition has_suffix (suffix s : string) : bool :=
  let n := String.length suffix in
  let m := String.length s in
  (n <=? m)%nat && String.eqb (substring (m - n) n s) suffix.

(** Width in bytes of the offset a branch opcode carries: the branch
    macros expand to [name] (one byte), [name_2] and [name_3]. *)
Definition branch_offset_width (e : cbc_opcode_entry) : Z :=
  if has_suffix "_2" (op_name e) then 2
  else if has_suffix "_3" (op_name e) then 3
  else 1.

(** The name of the backward branch that matches a forward branch: the
    same name with [FORWARD] replaced by [BACKWARD]; [None] for a name
    without [FORWARD]. *)
Definition matching_backward_name (name : string) : option string :=
  match index 0 "FORWARD" name with
  | None => None
  | Some i =>
      Some (substring 0 i name ++ "BACKWARD"%string
            ++ substring (i + 7) (String.length name - (i + 7)) name)%string
  end.

(** A check of every enumerator of a list together with its value. *)
Fixpoint forall_indexed (P : Z -> cbc_opcode_entry -> bool) (k : Z)
  (l : list cbc_opcode_entry) : bool :=
  match l with
  | [] => true
  | e :: rest => P k e && forall_indexed P (k + 1) rest
  end.

(** The suffix that [CBC_FORWARD_BRANCH] and [CBC_BACKWARD_BRANCH] give
    the opcode whose offset has [width] bytes. *)
Definition branch_width_suffix (width : Z) : string :=
  if width =? 2 then "_2" else if width =? 3 then "_3" else "".

(** What the expansion of a branch macro gives for the enumerator [e] of
    value [i] in the list [l]: the low two bits of [i] are the width of
    the offset of [e], and the opcode with the offset of one byte, the
    first of the expansion, has the name of [e] without the suffix, its
    flags and its stack change. *)
Definition branch_forms_ok (l : list cbc_opcode_entry) (i : Z) (e : cbc_opcode_entry)
  : bool :=
  implb (is_branch e)
    ((CBC_BRANCH_OFFSET_LENGTH i =? branch_offset_width e)
     && (1 <=? branch_offset_width e) && (branch_offset_width e <=? 3)
     && match opcode_at l (i - (branch_offset_width e - 1)) with
        | Some first =>
            String.eqb (op_name e)
                       (op_name first ++ branch_width_suffix (branch_offset_width e))
            && (op_flags first =? op_flags e) && (op_stack first =? op_stack e)
        | None => false
        end).

(** What the groups of 8 give for a backward branch [e] of value [i] in
    [l]: bit 2 of [i] is set, and the opcode 4 positions before it, in
    the same group, is the forward branch of the matching name, with an
    offset of the same width and bit 2 clear. *)
Definition backward_branch_ok (l : list cbc_opcode_entry) (i : Z) (e : cbc_opcode_entry)
  : bool :=
  implb (is_branch e && CBC_BRANCH_IS_BACKWARD (op_flags e) i)
    ((Z.land i 0x4 =? 0x4)
     && match opcode_at l (i - 4) with
        | Some f =>
            is_branch f && CBC_BRANCH_IS_FORWARD (op_flags f)
            && (Z.land (i - 4) 0x4 =? 0) && ((i - 4) / 8 =? i / 8)
            && (branch_offset_width f =? branch_offset_width e)
            && match matching_backward_name (op_name f) with
               | Some backward => String.eqb backward (op_name e)
               | None => false
               end
        | None => false
        end).

End CBC.

(** ** js-lexer.h, js-parser-internal.h: the data of the lexer *)

(** Error codes passed to [parser_raise_error] by the lexer. *)
Inductive parser_error_t : Type :=
| PARSER_ERR_OUT_OF_MEMORY
| PARSER_ERR_INVALID_ESCAPE_SEQUENCE
| PARSER_ERR_INVALID_UNICODE_ESCAPE_SEQUENCE
| PARSER_ERR_INVALID_IDENTIFIER_START
| PARSER_ERR_INVALID_IDENTIFIER_PART
| PARSER_ERR_IDENTIFIER_TOO_LONG
| PARSER_ERR_STRICT_IDENT_NOT_ALLOWED
| PARSER_ERR_UNTERMINATED_MULTILINE_COMMENT
| PARSER_ERR_UNTERMINATED_STRING
| PARSER_ERR_OCTAL_ESCAPE_NOT_ALLOWED
| PARSER_ERR_NEWLINE_NOT_ALLOWED
| PARSER_ERR_STRING_TOO_LONG
| PARSER_ERR_LITERAL_LIMIT_REACHED
| PARSER_ERR_UNTERMINATED_REGEXP
| PARSER_ERR_DUPLICATED_REGEXP_FLAG
| PARSER_ERR_UNKNOWN_REGEXP_FLAG
| PARSER_ERR_REGEXP_TOO_LONG
| PARSER_ERR_INVALID_REGEXP
| PARSER_ERR_IDENTIFIER_EXPECTED
| PARSER_ERR_PROPERTY_IDENTIFIER_EXPECTED
| PARSER_ERR_RIGHT_SQUARE_EXPECTED.

(** The enumerators of [lexer_token_type_t] that the modelled functions
    name; [LEXER_OTHER_TOKEN] stands for the remaining ones (the
    punctuators set by [lexer_next_token]). *)
Inductive lexer_token_type_t : Type :=
| LEXER_EOS
| LEXER_LITERAL
| LEXER_TEMPLATE_LITERAL
| LEXER_KEYW_DO | LEXER_KEYW_IF | LEXER_KEYW_IN
| LEXER_KEYW_FOR | LEXER_KEYW_LET | LEXER_KEYW_NEW | LEXER_KEYW_TRY | LEXER_KEYW_VAR
| LEXER_KEYW_CASE | LEXER_KEYW_ELSE | LEXER_KEYW_ENUM | LEXER_LIT_NULL
| LEXER_KEYW_THIS | LEXER_LIT_TRUE | LEXER_KEYW_VOID | LEXER_KEYW_WITH
| LEXER_KEYW_AWAIT | LEXER_KEYW_BREAK | LEXER_KEYW_CATCH | LEXER_KEYW_CLASS
| LEXER_KEYW_CONST | LEXER_LIT_FALSE | LEXER_KEYW_SUPER | LEXER_KEYW_THROW
| LEXER_KEYW_WHILE | LEXER_KEYW_YIELD
| LEXER_KEYW_DELETE | LEXER_KEYW_EXPORT | LEXER_KEYW_IMPORT | LEXER_KEYW_PUBLIC
| LEXER_KEYW_RETURN | LEXER_KEYW_STATIC | LEXER_KEYW_SWITCH | LEXER_KEYW_TYPEOF
| LEXER_KEYW_DEFAULT | LEXER_KEYW_EXTENDS | LEXER_KEYW_FINALLY | LEXER_KEYW_PACKAGE
| LEXER_KEYW_PRIVATE
| LEXER_KEYW_CONTINUE | LEXER_KEYW_DEBUGGER | LEXER_KEYW_FUNCTION
| LEXER_KEYW_INTERFACE | LEXER_KEYW_PROTECTED
| LEXER_KEYW_IMPLEMENTS | LEXER_KEYW_INSTANCEOF
| LEXER_PROPERTY_GETTER
| LEXER_PROPERTY_SETTER
| LEXER_CLASS_CONSTRUCTOR
| LEXER_RIGHT_BRACE
| LEXER_LEFT_SQUARE
| LEXER_RIGHT_SQUARE
| LEXER_DIVIDE
| LEXER_ASSIGN_DIVIDE
| LEXER_OTHER_TOKEN (code : Z).

Scheme Equality for lexer_token_type_t.

(** Literal types ([lexer_literal_t.type], [lexer_lit_location_t.type]). *)
Inductive lexer_literal_type_t : Type :=
| LEXER_IDENT_LITERAL
| LEXER_STRING_LITERAL
| LEXER_NUMBER_LITERAL
| LEXER_FUNCTION_LITERAL
| LEXER_REGEXP_LITERAL
| LEXER_UNUSED_LITERAL.

Scheme Equality for lexer_literal_type_t.

(** [lexer_lit_object_t.type]. *)
Inductive lexer_literal_object_type_t : Type :=
| LEXER_LITERAL_OBJECT_ANY
| LEXER_LITERAL_OBJECT_EVAL
| LEXER_LITERAL_OBJECT_ARGUMENTS.

(** [lexer_lit_location_t]: where a literal sits in the source.
    [char_p] is the offset of its first byte. *)
Record lexer_lit_location_t : Type := {
  char_p : Z;
  lit_length : Z;               (* uint16_t length *)
  lit_type : lexer_literal_type_t;
  has_escape : bool
}.

(** [lexer_token_t], the fields js-lexer.c assigns. *)
Record lexer_token_t : Type := {
  token_type : lexer_token_type_t;
  literal_is_reserved : bool;
  token_flags : Z;              (* uint8_t flags *)
  token_line : Z;               (* parser_line_counter_t *)
  token_column : Z;             (* parser_line_counter_t *)
  lit_location : lexer_lit_location_t
}.

(** [lexer_literal_t], an entry of the literal pool.  [u_char_p] holds
    the bytes [u.char_p] points to: bytes of the source text when
    [LEXER_FLAG_SOURCE_PTR] is set, the bytes of an owned buffer
    otherwise.  The value of a number, function or regexp literal is not
    modelled: [u_char_p] is empty for them. *)
Record lexer_literal_t : Type := {
  u_char_p : list Z;
  prop_length : Z;              (* uint16_t prop.length *)
  entry_type : lexer_literal_type_t;   (* type *)
  status_flags : Z              (* uint8_t *)
}.

(** [lexer_lit_object_t].  [literal_p] points into the literal pool: it
    is the position of the entry, so that a write through it is a write
    to the pool. *)
Record lexer_lit_object_t : Type := {
  literal_p : option nat;
  lit_index : Z;                (* uint16_t index *)
  lit_object_type : lexer_literal_object_type_t
}.

(** [parser_context_t], the fields the lexer uses.  [source_p] and
    [source_end_p] are offsets into the source text. *)
Record parser_context_t : Type := {
  ctx_status_flags : Z;         (* uint32_t status_flags *)
  source_p : Z;
  source_end_p : Z;
  line : Z;                     (* parser_line_counter_t *)
  column : Z;                   (* parser_line_counter_t *)
  token : lexer_token_t;
  lit_object : lexer_lit_object_t;
  literal_pool : list lexer_literal_t;
  literal_count : Z;            (* uint16_t *)
  allocated_buffer_p : bool     (* whether it is not NULL *)
}.

(** *** Field updates *)

Definition set_token_type (t : lexer_token_type_t) (k : lexer_token_t) : lexer_token_t :=
  {| token_type := t; literal_is_reserved := literal_is_reserved k;
     token_flags := token_flags k; token_line := token_line k;
     token_column := token_column k; lit_location := lit_location k |}.

Definition set_literal_is_reserved (b : bool) (k : lexer_token_t) : lexer_token_t :=
  {| token_type := token_type k; literal_is_reserved := b;
     token_flags := token_flags k; token_line := token_line k;
     token_column := token_column k; lit_location := lit_location k |}.

Definition set_token_flags (f : Z) (k : lexer_token_t) : lexer_token_t :=
  {| token_type := token_type k; literal_is_reserved := literal_is_reserved k;
     token_flags := f; token_line := token_line k;
     token_column := token_column k; lit_location := lit_location k |}.

Definition set_token_line (l : Z) (k : lexer_token_t) : lexer_token_t :=
  {| token_type := token_type k; literal_is_reserved := literal_is_reserved k;
     token_flags := token_flags k; token_line := l;
     token_column := token_column k; lit_location := lit_location k |}.

Definition set_token_column (c : Z) (k : lexer_token_t) : lexer_token_t :=
  {| token_type := token_type k; literal_is_reserved := literal_is_reserved k;
     token_flags := token_flags k; token_line := token_line k;
     token_column := c; lit_location := lit_location k |}.

Definition set_lit_location (l : lexer_lit_location_t) (k : lexer_token_t) : lexer_token_t :=
  {| token_type := token_type k; literal_is_reserved := literal_is_reserved k;
     token_flags := token_flags k; token_line := token_line k;
     token_column := token_column k; lit_location := l |}.

Definition set_lit_type (t : lexer_literal_type_t) (l : lexer_lit_location_t)
  : lexer_lit_location_t :=
  {| char_p := char_p l; lit_length := lit_length l; lit_type := t;
     has_escape := has_escape l |}.

Definition set_has_escape (b : bool) (l : lexer_lit_location_t) : lexer_lit_location_t :=
  {| char_p := char_p l; lit_length := lit_length l; lit_type := lit_type l;
     has_escape := b |}.

Definition set_char_p_length (p n : Z) (l : lexer_lit_location_t) : lexer_lit_location_t :=
  {| char_p := p; lit_length := n; lit_type := lit_type l;
     has_escape := has_escape l |}.

Definition set_literal_status_flags (f : Z) (l : lexer_literal_t) : lexer_literal_t :=
  {| u_char_p := u_char_p l; prop_length := prop_length l;
     entry_type := entry_type l; status_flags := f |}.

Definition set_literal_type (t : lexer_literal_type_t) (l : lexer_literal_t) : lexer_literal_t :=
  {| u_char_p := u_char_p l; prop_length := prop_length l;
     entry_type := t; status_flags := status_flags l |}.

Definition set_u_char_p (bytes : list Z) (l : lexer_literal_t) : lexer_literal_t :=
  {| u_char_p := bytes; prop_length := prop_length l;
     entry_type := entry_type l; status_flags := status_flags l |}.

Definition set_lit_object_type (t : lexer_literal_object_type_t) (o : lexer_lit_object_t)
  : lexer_lit_object_t :=
  {| literal_p := literal_p o; lit_index := lit_index o; lit_object_type := t |}.

Definition with_status_flags (f : Z) (c : parser_context_t) : parser_context_t :=
  {| ctx_status_flags := f; source_p := source_p c; source_end_p := source_end_p c;
     line := line c; column := column c; token := token c;
     lit_object := lit_object c; literal_pool := literal_pool c;
     literal_count := literal_count c; allocated_buffer_p := allocated_buffer_p c |}.

Definition with_source_p (p : Z) (c : parser_context_t) : parser_context_t :=
  {| ctx_status_flags := ctx_status_flags c; source_p := p; source_end_p := source_end_p c;
     line := line c; column := column c; token := token c;
     lit_object := lit_object c; literal_pool := literal_pool c;
     literal_count := literal_count c; allocated_buffer_p := allocated_buffer_p c |}.

Definition with_line (l : Z) (c : parser_context_t) : parser_context_t :=
  {| ctx_status_flags := ctx_status_flags c; source_p := source_p c;
     source_end_p := source_end_p c;
     line := l; column := column c; token := token c;
     lit_object := lit_object c; literal_pool := literal_pool c;
     literal_count := literal_count c; allocated_buffer_p := allocated_buffer_p c |}.

Definition with_column (n : Z) (c : parser_context_t) : parser_context_t :=
  {| ctx_status_flags := ctx_status_flags c; source_p := source_p c;
     source_end_p := source_end_p c;
     line := line c; column := n; token := token c;
     lit_object := lit_object c; literal_pool := literal_pool c;
     literal_count := literal_count c; allocated_buffer_p := allocated_buffer_p c |}.

Definition with_token (k : lexer_token_t) (c : parser_context_t) : parser_context_t :=
  {| ctx_status_flags := ctx_status_flags c; source_p := source_p c;
     source_end_p := source_end_p c;
     line := line c; column := column c; token := k;
     lit_object := lit_object c; literal_pool := literal_pool c;
     literal_count := literal_count c; allocated_buffer_p := allocated_buffer_p c |}.

Definition with_lit_object (o : lexer_lit_object_t) (c : parser_context_t) : parser_context_t :=
  {| ctx_status_flags := ctx_status_flags c; source_p := source_p c;
     source_end_p := source_end_p c;
     line := line c; column := column c; token := token c;
     lit_object := o; literal_pool := literal_pool c;
     literal_count := literal_count c; allocated_buffer_p := allocated_buffer_p c |}.

Definition with_literal_pool (p : list lexer_literal_t) (c : parser_context_t)
  : parser_context_t :=
  {| ctx_status_flags := ctx_status_flags c; source_p := source_p c;
     source_end_p := source_end_p c;
     line := line c; column := column c; token := token c;
     lit_object := lit_object c; literal_pool := p;
     literal_count := literal_count c; allocated_buffer_p := allocated_buffer_p c |}.

Definition with_literal_count (n : Z) (c : parser_context_t) : parser_context_t :=
  {| ctx_status_flags := ctx_status_flags c; source_p := source_p c;
     source_end_p := source_end_p c;
     line := line c; column := column c; token := token c;
     lit_object := lit_object c; literal_pool := literal_pool c;
     literal_count := n; allocated_buffer_p := allocated_buffer_p c |}.

Definition with_allocated_buffer_p (b : bool) (c : parser_context_t) : parser_context_t :=
  {| ctx_status_flags := ctx_status_flags c; source_p := source_p c;
     source_end_p := source_end_p c;
     line := line c; column := column c; token := token c;
     lit_object := lit_object c; literal_pool := literal_pool c;
     literal_count := literal_count c; allocated_buffer_p := b |}.

(** [context_p->token.f = v] *)
Definition upd_token (f : lexer_token_t -> lexer_token_t) (c : parser_context_t)
  : parser_context_t :=
  with_token (f (token c)) c.

(** [context_p->token.lit_location.f = v] *)
Definition upd_lit_location (f : lexer_lit_location_t -> lexer_lit_location_t)
  (c : parser_context_t) : parser_context_t :=
  upd_token (fun k => set_lit_location (f (lit_location k)) k) c.

(** ** Outcomes *)

Inductive result (A : Type) : Type :=
| Done (a : A)
| Raised (e : parser_error_t) (ctx : parser_context_t)
| Fault
| OutOfFuel.

Arguments Done {A} a.
Arguments Raised {A} e ctx.
Arguments Fault {A}.
Arguments OutOfFuel {A}.

Definition bind {A B : Type} (r : result A) (k : A -> result B) : result B :=
  match r with
  | Done a => k a
  | Raised e ctx => Raised e ctx
  | Fault => Fault
  | OutOfFuel => OutOfFuel
  end.

Notation "x <- c ;; k" := (bind c (fun x => k))
  (at level 61, c at next level, right associativity).

Notation "' pat <- c ;; k" := (bind c (fun x => match x with pat => k end))
  (at level 61, pat pattern, c at next level, right associativity).

(** [returns P r]: when the computation returns, its value satisfies [P]. *)
Definition returns {A : Type} (P : A -> Prop) (r : result A) : Prop :=
  match r with
  | Done a => P a
  | _ => True
  end.

(** [parser_raise_error (context_p, error)] *)
Definition parser_raise_error {A : Type} (ctx : parser_context_t) (e : parser_error_t)
  : result A :=
  Raised e ctx.

(** What a loop body does next: go round again or leave the loop. *)
Inductive loop_ctl (S : Type) : Type :=
| Next (s : S)
| Exit (s : S).

Arguments Next {S} s.
Arguments Exit {S} s.

(** A [while (PARSER_TRUE)] or [do ... while] loop whose body is [step];
    [fuel] bounds the number of rounds. *)
Fixpoint run_loop {S : Type} (step : S -> result (loop_ctl S)) (fuel : nat) (s : S)
  : result S :=
  match fuel with
  | O => OutOfFuel
  | Datatypes.S fuel' =>
      c <- step s ;;
      match c with
      | Next s' => run_loop step fuel' s'
      | Exit s' => Done s'
      end
  end.

(** [loop_reaches step n s s']: [n] rounds of the loop, each ending in
    [continue] or at the end of the body, lead from [s] to [s']. *)
Fixpoint loop_reaches {S : Type} (step : S -> result (loop_ctl S)) (n : nat) (s s' : S)
  : Prop :=
  match n with
  | O => s = s'
  | Datatypes.S n' => exists s1, step s = Done (Next s1) /\ loop_reaches step n' s1 s'
  end.

(** ** Reading the source text *)

(** [p[0]] for a pointer [p] into the buffer [mem]. *)
Definition read (mem : list Z) (p : Z) : result Z :=
  if p <? 0 then Fault
  else match nth_error mem (Z.to_nat p) with
       | Some b => Done b
       | None => Fault
       end.

(** The [n] bytes at [p], as [memcmp] and [memcpy] read them. *)
Fixpoint load_bytes (mem : list Z) (p : Z) (n : nat) : result (list Z) :=
  match n with
  | O => Done []
  | Datatypes.S n' =>
      b <- read mem p ;;
      rest <- load_bytes mem (p + 1) n' ;;
      Done (b :: rest)
  end.

(** The sign of [memcmp (a, b, n)] on two byte strings of the same length. *)
Fixpoint memcmp (a b : list Z) : Z :=
  match a, b with
  | x :: a', y :: b' =>
      if x <? y then -1 else if y <? x then 1 else memcmp a' b'
  | _, _ => 0
  end.

(** Whether two byte strings are the same: [memcmp (a, b, n) == 0] for
    two strings of [n] bytes. *)
Fixpoint bytes_eqb (a b : list Z) : bool :=
  match a, b with
  | [], [] => true
  | x :: a', y :: b' => (x =? y) && bytes_eqb a' b'
  | _, _ => false
  end.

(** The bytes of a C string literal. *)
Fixpoint bytes_of_string (s : string) : list Z :=
  match s with
  | EmptyString => []
  | String c s' => Z.of_N (N_of_ascii c) :: bytes_of_string s'
  end.

Definition IS_UTF8_INTERMEDIATE_OCTET (byte : Z) : bool :=
  Z.land byte 0xc0 =? 0x80.

(** ** Constants, macros and helpers of headers that are not part of the sources *)

(** Modelled from the spec: [parser_line_counter_t] (js-parser.h is not
    part of the sources).  A position is [{line: uint, column: uint}]:
    an unsigned 32-bit counter. *)
Definition to_lc (z : Z) : Z := to_uint32 z.

(** Modelled from the spec: [PARSER_PLUS_EQUAL_LC (base, value)], the
    macro that advances a line or column counter; the sum is cast back to
    [parser_line_counter_t]. *)
Definition PARSER_PLUS_EQUAL_LC (base value : Z) : Z := to_lc (base + value).

(** Modelled from the spec: the character codes of js-lexer.h.  Tab, line
    feed and carriage return are the ASCII codes; U+2028 and U+2029 are
    the fixed 3-byte sequences E2 80 A8 and E2 80 A9; a byte >= 0xF0
    leads a 4-byte UTF-8 sequence. *)
Definition LEXER_TAB : Z := 0x09.
Definition LEXER_NEWLINE_LF : Z := 0x0a.
Definition LEXER_NEWLINE_CR : Z := 0x0d.
Definition LEXER_NEWLINE_LS_PS_BYTE_1 : Z := 0xe2.
Definition LEXER_UTF8_4BYTE_START : Z := 0xf0.

(** Modelled from the spec: [LEXER_NEWLINE_LS_PS_BYTE_23 (source)], true
    when [source[1]] and [source[2]] complete U+2028 or U+2029. *)
Definition LEXER_NEWLINE_LS_PS_BYTE_23 (mem : list Z) (source : Z) : result bool :=
  b1 <- read mem (source + 1) ;;
  if b1 =? 0x80 then
    b2 <- read mem (source + 2) ;;
    Done (Z.lor b2 0x1 =? 0xa9)
  else Done false.

(** Modelled from the spec: [LEXER_TO_ASCII_LOWERCASE (character)]. *)
Definition LEXER_TO_ASCII_LOWERCASE (character : Z) : Z := Z.lor character 0x20.

(** Modelled from the spec: [util_get_utf8_length] of common.c, the
    number of bytes of the UTF-8 encoding of a 16-bit code unit (the
    engine's strings hold 1- to 3-byte sequences). *)
Definition util_get_utf8_length (chr : Z) : Z :=
  if Z.land chr (Z.lnot 0x007f) =? 0 then 1
  else if Z.land chr (Z.lnot 0x07ff) =? 0 then 2
  else 3.

(** Modelled from the spec: [util_to_utf8_bytes] of common.c, the UTF-8
    encoding of a 16-bit code unit; the bytes written to the destination
    (the function returns their number). *)
Definition util_to_utf8_bytes (chr : Z) : list Z :=
  if Z.land chr (Z.lnot 0x007f) =? 0 then
    (* 00000000 0xxxxxxx -> 0xxxxxxx *)
    [ to_uint8 chr ]
  else if Z.land chr (Z.lnot 0x07ff) =? 0 then
    (* 00000yyy yyxxxxxx -> 110yyyyy 10xxxxxx *)
    [ to_uint8 (Z.lor 0xc0 (Z.land (Z.shiftr chr 6) 0x1f));
      to_uint8 (Z.lor 0x80 (Z.land chr 0x3f)) ]
  else
    (* zzzzyyyy yyxxxxxx -> 1110zzzz 10yyyyyy 10xxxxxx *)
    [ to_uint8 (Z.lor 0xe0 (Z.land (Z.shiftr chr 12) 0x0f));
      to_uint8 (Z.lor 0x80 (Z.land (Z.shiftr chr 6) 0x3f));
      to_uint8 (Z.lor 0x80 (Z.land chr 0x3f)) ].

(** The remaining constants and helpers of js-parser-limits.h,
    js-parser-internal.h, js-lexer.h and common.h that js-lexer.c uses.
    Their definitions are not part of the sources: they are parameters of
    the development. *)
Class js_parser_headers : Type := {
  (** width of [size_t] on the target *)
  size_t_bits : Z;
  (* js-parser-limits.h *)
  PARSER_MAXIMUM_NUMBER_OF_LITERALS : Z;
  PARSER_MAXIMUM_IDENT_LENGTH : Z;
  PARSER_MAXIMUM_STRING_LENGTH : Z;
  (* js-parser-internal.h: bits of context_p->status_flags *)
  PARSER_IS_STRICT : Z;
  PARSER_INSIDE_WITH : Z;
  PARSER_ARGUMENTS_NEEDED : Z;
  PARSER_ARGUMENTS_NOT_NEEDED : Z;
  PARSER_LEXICAL_ENV_NEEDED : Z;
  (* js-lexer.h: bits of token.flags *)
  LEXER_WAS_NEWLINE : Z;
  LEXER_NO_SKIP_SPACES : Z;
  (* js-lexer.h: bits of lexer_literal_t.status_flags *)
  LEXER_FLAG_NO_REG_STORE : Z;
  LEXER_FLAG_UNUSED_IDENT : Z;
  LEXER_FLAG_SOURCE_PTR : Z;
  (* js-lexer.h: lexer_obj_ident_opts_t *)
  LEXER_OBJ_IDENT_ONLY_IDENTIFIERS : Z;
  LEXER_OBJ_IDENT_CLASS_METHOD : Z;
  (** [type >= LEXER_FIRST_FUTURE_STRICT_RESERVED_WORD] *)
  is_future_strict_reserved_word : lexer_token_type_t -> bool;
  (* common.h: character classes; the first two look at the UTF-8
     sequence a pointer into the source points to *)
  util_is_identifier_start : list Z -> Z -> bool;
  util_is_identifier_part : list Z -> Z -> bool;
  util_is_identifier_start_character : Z -> bool;
  util_is_identifier_part_character : Z -> bool;
  (** [util_get_number (char_p, length)], an [int32_t]; the first
      argument is the source text [char_p] points into *)
  util_get_number : list Z -> Z -> Z -> Z;
  (** whether the heap can supply a block of the given size *)
  jmem_heap_has_block : Z -> bool;
  (** [util_set_number_literal (literal_p, char_p)] and
      [util_set_regexp_literal (literal_p, regex_start_p)], given the source
      text, the pointer and [literal_p->prop.length]: non-zero when the
      literal cannot be stored *)
  util_set_number_literal : list Z -> Z -> Z -> Z;
  util_set_regexp_literal : list Z -> Z -> Z -> Z
}.

Section JsLexer.

Context {headers : js_parser_headers}.

Definition to_size_t (z : Z) : Z := z mod 2 ^ size_t_bits.

(** Modelled from the spec: [util_compare_char_literals] of common.c.
    Content equality of a pool entry and the decoded bytes of the query;
    the caller has compared type and length. *)
Definition util_compare_char_literals (literal : lexer_literal_t) (chars : list Z) : bool :=
  bytes_eqb (u_char_p literal) chars.

(** Modelled from the spec: [util_set_char_literal] of common.c.  An
    escape-free literal ([LEXER_FLAG_SOURCE_PTR]) keeps a pointer into the
    source; an escape-bearing one gets an owned copy of the decoded bytes,
    and the result is non-zero when that buffer cannot be allocated. *)
Definition util_set_char_literal (literal : lexer_literal_t) (chars : list Z)
  : lexer_literal_t * Z :=
  if has_flag (status_flags literal) LEXER_FLAG_SOURCE_PTR then
    (set_u_char_p chars literal, 0)
  else if jmem_heap_has_block (prop_length literal) then
    (set_u_char_p chars literal, 0)
  else (literal, 1).

(** ** js-lexer.c *)

(** Align column to the next tab position. *)
Definition align_column_to_tab (column : Z) : Z :=
  (* Tab aligns to zero column start position. *)
  to_lc (to_uint32 (Z.land (to_uint32 (column + (8 - 1))) (not_uint32 0x7)) + 1).

(** Parse hexadecimal character sequence. *)
Fixpoint lexer_hex_to_character_from (mem : list Z) (ctx : parser_context_t)
  (source_p : Z) (length : nat) (value : Z) : result Z :=
  byte <- read mem source_p ;;
  let value := to_uint32 (Z.shiftl value 4) in
  value <-
    (if (48 <=? byte) && (byte <=? 57) then
       Done (to_uint32 (value + (byte - 48)))
     else
       let byte := Z.lor byte 0x20 in
       if (97 <=? byte) && (byte <=? 102) then
         Done (to_uint32 (value + (byte - (97 - 10))))
       else parser_raise_error ctx PARSER_ERR_INVALID_ESCAPE_SEQUENCE) ;;
  match length with
  | S (S _ as length') =>
      lexer_hex_to_character_from mem ctx (source_p + 1) length' value
  | _ => Done (to_uint16 value)
  end.

Definition lexer_hex_to_character (mem : list Z) (ctx : parser_context_t)
  (source_p : Z) (length : nat) : result Z :=
  lexer_hex_to_character_from mem ctx source_p length 0.

(** Skip space mode *)
Inductive skip_mode_t : Type :=
| LEXER_SKIP_SPACES
| LEXER_SKIP_SINGLE_LINE_COMMENT
| LEXER_SKIP_MULTI_LINE_COMMENT.

(** [limit && test (p[0])], the second operand read only when the first holds. *)
Definition and_read (limit : bool) (mem : list Z) (p : Z) (test : Z -> bool) : result bool :=
  if limit then b <- read mem p ;; Done (test b) else Done false.

(** One round of the loop of [lexer_skip_spaces]. *)
Definition lexer_skip_spaces_step (mem : list Z) (st : skip_mode_t * parser_context_t)
  : result (loop_ctl (skip_mode_t * parser_context_t)) :=
  let '(mode, ctx) := st in
  let source_end_p := source_end_p ctx in
  if source_p ctx >=? source_end_p then
    match mode with
    | LEXER_SKIP_MULTI_LINE_COMMENT =>
        parser_raise_error ctx PARSER_ERR_UNTERMINATED_MULTILINE_COMMENT
    | _ => Done (Exit st)
    end
  else
    c0 <- read mem (source_p ctx) ;;
    (* after the switch *)
    let break_switch : result (loop_ctl (skip_mode_t * parser_context_t)) :=
      match mode with
      | LEXER_SKIP_SPACES => Done (Exit st)
      | _ =>
          let ctx := with_source_p (source_p ctx + 1) ctx in
          inter <- and_read (source_p ctx <? source_end_p) mem (source_p ctx)
                            IS_UTF8_INTERMEDIATE_OCTET ;;
          if inter then Done (Next (mode, with_column (to_lc (column ctx + 1)) ctx))
          else Done (Next (mode, ctx))
      end in
    (* case 0x0b, 0x0c, 0x20 *)
    let space (mode : skip_mode_t) (ctx : parser_context_t) :=
      let ctx := with_source_p (source_p ctx + 1) ctx in
      let ctx := with_column (to_lc (column ctx + 1)) ctx in
      Done (Next (mode, ctx)) in
    (* case LEXER_NEWLINE_LF, falling through to the space case *)
    let newline (ctx : parser_context_t) :=
      let ctx := with_line (to_lc (line ctx + 1)) ctx in
      let ctx := with_column 0 ctx in
      let ctx := upd_token (set_token_flags LEXER_WAS_NEWLINE) ctx in
      let mode := match mode with
                  | LEXER_SKIP_SINGLE_LINE_COMMENT => LEXER_SKIP_SPACES
                  | _ => mode
                  end in
      space mode ctx in
    if c0 =? LEXER_NEWLINE_CR then
      lf <- and_read (source_p ctx + 1 <? source_end_p) mem (source_p ctx + 1)
                     (fun b => b =? LEXER_NEWLINE_LF) ;;
      if lf then newline (with_source_p (source_p ctx + 1) ctx) else newline ctx
    else if c0 =? LEXER_NEWLINE_LF then newline ctx
    else if (c0 =? 0x0b) || (c0 =? 0x0c) || (c0 =? 0x20) then space mode ctx
    else if c0 =? LEXER_TAB then
      let ctx := with_column (align_column_to_tab (column ctx)) ctx in
      let ctx := with_source_p (source_p ctx + 1) ctx in
      Done (Next (mode, ctx))
    else if c0 =? 47 (* '/' *) then
      match mode with
      | LEXER_SKIP_SPACES =>
          if source_p ctx + 1 <? source_end_p then
            c1 <- read mem (source_p ctx + 1) ;;
            let '(mode, ctx) :=
              if c1 =? 47 (* '/' *) then (LEXER_SKIP_SINGLE_LINE_COMMENT, ctx)
              else if c1 =? 42 (* '*' *) then
                (LEXER_SKIP_MULTI_LINE_COMMENT,
                 upd_token (set_token_column (column ctx))
                           (upd_token (set_token_line (line ctx)) ctx))
              else (mode, ctx) in
            match mode with
            | LEXER_SKIP_SPACES => break_switch
            | _ =>
                let ctx := with_source_p (source_p ctx + 2) ctx in
                let ctx := with_column (PARSER_PLUS_EQUAL_LC (column ctx) 2) ctx in
                Done (Next (mode, ctx))
            end
          else break_switch
      | _ => break_switch
      end
    else if c0 =? 42 (* '*' *) then
      match mode with
      | LEXER_SKIP_MULTI_LINE_COMMENT =>
          slash <- and_read (source_p ctx + 1 <? source_end_p) mem (source_p ctx + 1)
                            (fun b => b =? 47) ;;
          if slash then
            let ctx := with_source_p (source_p ctx + 2) ctx in
            let ctx := with_column (PARSER_PLUS_EQUAL_LC (column ctx) 2) ctx in
            Done (Next (LEXER_SKIP_SPACES, ctx))
          else break_switch
      | _ => break_switch
      end
    else if c0 =? 0xc2 then
      nbsp <- and_read (source_p ctx + 1 <? source_end_p) mem (source_p ctx + 1)
                       (fun b => b =? 0xa0) ;;
      if nbsp then
        (* Codepoint U+00A0 *)
        let ctx := with_source_p (source_p ctx + 2) ctx in
        let ctx := with_column (to_lc (column ctx + 1)) ctx in
        Done (Next (mode, ctx))
      else break_switch
    else if c0 =? LEXER_NEWLINE_LS_PS_BYTE_1 then
      ls_ps <- LEXER_NEWLINE_LS_PS_BYTE_23 mem (source_p ctx) ;;
      if ls_ps then
        (* Codepoint U+2028 and U+2029 *)
        let ctx := with_source_p (source_p ctx + 3) ctx in
        let ctx := with_line (to_lc (line ctx + 1)) ctx in
        let ctx := with_column 1 ctx in
        let ctx := upd_token (set_token_flags LEXER_WAS_NEWLINE) ctx in
        let mode := match mode with
                    | LEXER_SKIP_SINGLE_LINE_COMMENT => LEXER_SKIP_SPACES
                    | _ => mode
                    end in
        Done (Next (mode, ctx))
      else break_switch
    else if c0 =? 0xef then
      if source_p ctx + 2 <? source_end_p then
        b1 <- read mem (source_p ctx + 1) ;;
        b2 <- (if b1 =? 0xbb then read mem (source_p ctx + 2) else Done 0) ;;
        if (b1 =? 0xbb) && (b2 =? 0xbf) then
          (* Codepoint U+FEFF *)
          let ctx := with_source_p (source_p ctx + 3) ctx in
          let ctx := with_column (to_lc (column ctx + 1)) ctx in
          Done (Next (mode, ctx))
        else break_switch
      else break_switch
    else break_switch.

(** Number of rounds that bounds a scan from [p] to [source_end_p]: every
    round moves the cursor forward. *)
Definition scan_fuel (p source_end_p : Z) : nat := S (Z.to_nat (source_end_p - p)).

(** Skip spaces. *)
Definition lexer_skip_spaces (mem : list Z) (ctx : parser_context_t)
  : result parser_context_t :=
  if has_flag (token_flags (token ctx)) LEXER_NO_SKIP_SPACES then
    Done (upd_token
            (set_token_flags
               (to_uint8 (Z.land (token_flags (token ctx)) (Z.lnot LEXER_NO_SKIP_SPACES))))
            ctx)
  else
    let ctx := upd_token (set_token_flags 0) ctx in
    st <- run_loop (lexer_skip_spaces_step mem)
                   (scan_fuel (source_p ctx) (source_end_p ctx))
                   (LEXER_SKIP_SPACES, ctx) ;;
    Done (snd st).

(** Keyword data. *)
Record keyword_string_t : Type := {
  keyword_p : string;                 (* keyword string *)
  keyword_type : lexer_token_type_t   (* keyword token type *)
}.

Definition LEXER_KEYWORD (name : string) (type : lexer_token_type_t) : keyword_string_t :=
  {| keyword_p := name; keyword_type := type |}.

(** Keywords with 2 characters. *)
Definition keywords_with_length_2 : list keyword_string_t :=
  [ LEXER_KEYWORD "do" LEXER_KEYW_DO;
    LEXER_KEYWORD "if" LEXER_KEYW_IF;
    LEXER_KEYWORD "in" LEXER_KEYW_IN ].

(** Keywords with 3 characters. *)
Definition keywords_with_length_3 : list keyword_string_t :=
  [ LEXER_KEYWORD "for" LEXER_KEYW_FOR;
    LEXER_KEYWORD "let" LEXER_KEYW_LET;
    LEXER_KEYWORD "new" LEXER_KEYW_NEW;
    LEXER_KEYWORD "try" LEXER_KEYW_TRY;
    LEXER_KEYWORD "var" LEXER_KEYW_VAR ].

(** Keywords with 4 characters. *)
Definition keywords_with_length_4 : list keyword_string_t :=
  [ LEXER_KEYWORD "case" LEXER_KEYW_CASE;
    LEXER_KEYWORD "else" LEXER_KEYW_ELSE;
    LEXER_KEYWORD "enum" LEXER_KEYW_ENUM;
    LEXER_KEYWORD "null" LEXER_LIT_NULL;
    LEXER_KEYWORD "this" LEXER_KEYW_THIS;
    LEXER_KEYWORD "true" LEXER_LIT_TRUE;
    LEXER_KEYWORD "void" LEXER_KEYW_VOID;
    LEXER_KEYWORD "with" LEXER_KEYW_WITH ].

(** Keywords with 5 characters. *)
Definition keywords_with_length_5 : list keyword_string_t :=
  [ LEXER_KEYWORD "await" LEXER_KEYW_AWAIT;
    LEXER_KEYWORD "break" LEXER_KEYW_BREAK;
    LEXER_KEYWORD "catch" LEXER_KEYW_CATCH;
    LEXER_KEYWORD "class" LEXER_KEYW_CLASS;
    LEXER_KEYWORD "const" LEXER_KEYW_CONST;
    LEXER_KEYWORD "false" LEXER_LIT_FALSE;
    LEXER_KEYWORD "super" LEXER_KEYW_SUPER;
    LEXER_KEYWORD "throw" LEXER_KEYW_THROW;
    LEXER_KEYWORD "while" LEXER_KEYW_WHILE;
    LEXER_KEYWORD "yield" LEXER_KEYW_YIELD ].

(** Keywords with 6 characters. *)
Definition keywords_with_length_6 : list keyword_string_t :=
  [ LEXER_KEYWORD "delete" LEXER_KEYW_DELETE;
    LEXER_KEYWORD "export" LEXER_KEYW_EXPORT;
    LEXER_KEYWORD "import" LEXER_KEYW_IMPORT;
    LEXER_KEYWORD "public" LEXER_KEYW_PUBLIC;
    LEXER_KEYWORD "return" LEXER_KEYW_RETURN;
    LEXER_KEYWORD "static" LEXER_KEYW_STATIC;
    LEXER_KEYWORD "switch" LEXER_KEYW_SWITCH;
    LEXER_KEYWORD "typeof" LEXER_KEYW_TYPEOF ].

(** Keywords with 7 characters. *)
Definition keywords_with_length_7 : list keyword_string_t :=
  [ LEXER_KEYWORD "default" LEXER_KEYW_DEFAULT;
    LEXER_KEYWORD "extends" LEXER_KEYW_EXTENDS;
    LEXER_KEYWORD "finally" LEXER_KEYW_FINALLY;
    LEXER_KEYWORD "package" LEXER_KEYW_PACKAGE;
    LEXER_KEYWORD "private" LEXER_KEYW_PRIVATE ].

(** Keywords with 8 characters. *)
Definition keywords_with_length_8 : list keyword_string_t :=
  [ LEXER_KEYWORD "continue" LEXER_KEYW_CONTINUE;
    LEXER_KEYWORD "debugger" LEXER_KEYW_DEBUGGER;
    LEXER_KEYWORD "function" LEXER_KEYW_FUNCTION ].

(** Keywords with 9 characters. *)
Definition keywords_with_length_9 : list keyword_string_t :=
  [ LEXER_KEYWORD "interface" LEXER_KEYW_INTERFACE;
    LEXER_KEYWORD "protected" LEXER_KEYW_PROTECTED ].

(** Keywords with 10 characters. *)
Definition keywords_with_length_10 : list keyword_string_t :=
  [ LEXER_KEYWORD "implements" LEXER_KEYW_IMPLEMENTS;
    LEXER_KEYWORD "instanceof" LEXER_KEYW_INSTANCEOF ].

(** List of the keyword groups. *)
Definition keyword_strings_list : list (list keyword_string_t) :=
  [ keywords_with_length_2;
    keywords_with_length_3;
    keywords_with_length_4;
    keywords_with_length_5;
    keywords_with_length_6;
    keywords_with_length_7;
    keywords_with_length_8;
    keywords_with_length_9;
    keywords_with_length_10 ].

Definition LEXER_KEYWORD_LIST_LENGTH (name : list keyword_string_t) : Z :=
  to_uint8 (Z.of_nat (List.length name)).

(** List of the keyword groups length. *)
Definition keyword_lengths_list : list Z :=
  [ LEXER_KEYWORD_LIST_LENGTH keywords_with_length_2;
    LEXER_KEYWORD_LIST_LENGTH keywords_with_length_3;
    LEXER_KEYWORD_LIST_LENGTH keywords_with_length_4;
    LEXER_KEYWORD_LIST_LENGTH keywords_with_length_5;
    LEXER_KEYWORD_LIST_LENGTH keywords_with_length_6;
    LEXER_KEYWORD_LIST_LENGTH keywords_with_length_7;
    LEXER_KEYWORD_LIST_LENGTH keywords_with_length_8;
    LEXER_KEYWORD_LIST_LENGTH keywords_with_length_9;
    LEXER_KEYWORD_LIST_LENGTH keywords_with_length_10 ].

(** [table[i]] for a static table; an index outside it is a stray read. *)
Definition table_at {A : Type} (table : list A) (i : Z) : result A :=
  if i <? 0 then Fault
  else match nth_error table (Z.to_nat i) with
       | Some a => Done a
       | None => Fault
       end.

(** [while (source_p < source_end_p && IS_UTF8_INTERMEDIATE_OCTET (source_p[0]))]
    with [source_p++; length++] as its body: the new [source_p] and
    [length]. *)
Fixpoint skip_intermediate_octets (fuel : nat) (mem : list Z) (source_end_p : Z)
  (source_p length : Z) : result (Z * Z) :=
  match fuel with
  | O => OutOfFuel
  | S fuel' =>
      inter <- and_read (source_p <? source_end_p) mem source_p
                        IS_UTF8_INTERMEDIATE_OCTET ;;
      if inter then
        skip_intermediate_octets fuel' mem source_end_p (source_p + 1) (to_size_t (length + 1))
      else Done (source_p, length)
  end.

(** The local variables of [lexer_parse_identifier] that its scanning
    loop changes, with the context. *)
Record ident_scan_t : Type := {
  is_source_p : Z;
  is_column : Z;
  is_length : Z;
  is_ctx : parser_context_t
}.

(** One round of the [do ... while] loop of [lexer_parse_identifier]. *)
Definition lexer_parse_identifier_step (mem : list Z) (st : ident_scan_t)
  : result (loop_ctl ident_scan_t) :=
  let source_p := is_source_p st in
  let column := is_column st in
  let length := is_length st in
  let ctx := is_ctx st in
  let source_end_p := source_end_p ctx in
  (* the condition of the do ... while *)
  let while_cond (st : ident_scan_t) : result (loop_ctl ident_scan_t) :=
    if is_source_p st <? source_end_p then
      if util_is_identifier_part mem (is_source_p st) then Done (Next st)
      else
        c <- read mem (is_source_p st) ;;
        if c =? 92 (* '\\' *) then Done (Next st) else Done (Exit st)
    else Done (Exit st) in
  c0 <- read mem source_p ;;
  if c0 =? 92 (* '\\' *) then
    let ctx := upd_lit_location (set_has_escape true) ctx in
    let ctx := with_source_p source_p ctx in
    let ctx := upd_token (set_token_column column) ctx in
    bad <- (if source_p + 6 >? source_end_p then Done true
            else c1 <- read mem (source_p + 1) ;; Done (negb (c1 =? 117 (* 'u' *)))) ;;
    if bad : bool then parser_raise_error ctx PARSER_ERR_INVALID_UNICODE_ESCAPE_SEQUENCE
    else
      character <- lexer_hex_to_character mem ctx (source_p + 2) 4 ;;
      if (length =? 0) && negb (util_is_identifier_start_character character) then
        parser_raise_error ctx PARSER_ERR_INVALID_IDENTIFIER_START
      else if negb (length =? 0) && negb (util_is_identifier_part_character character) then
        parser_raise_error ctx PARSER_ERR_INVALID_IDENTIFIER_PART
      else
        while_cond {| is_source_p := source_p + 6;
                      is_column := PARSER_PLUS_EQUAL_LC column 6;
                      is_length := to_size_t (length + util_get_utf8_length character);
                      is_ctx := ctx |}
  else
    (* Valid identifiers cannot contain 4 byte long utf-8 characters. *)
    let source_p := source_p + 1 in
    let length := to_size_t (length + 1) in
    let column := to_lc (column + 1) in
    '(source_p, length) <-
       skip_intermediate_octets (scan_fuel source_p source_end_p) mem source_end_p
                                source_p length ;;
    while_cond {| is_source_p := source_p; is_column := column;
                  is_length := length; is_ctx := ctx |}.

(** The local variables of the keyword search of [lexer_parse_identifier]. *)
Record keyword_search_t : Type := {
  ks_start : Z;
  ks_end : Z;
  ks_middle : Z;
  ks_found : option keyword_string_t
}.

(** One round of the binary search in a keyword group. *)
Definition keyword_search_step (mem : list Z) (keyword_list_p : list keyword_string_t)
  (ident_start_p length : Z) (st : keyword_search_t) : result (loop_ctl keyword_search_t) :=
  keyword <- table_at keyword_list_p (ks_middle st) ;;
  let keyword_bytes := bytes_of_string (keyword_p keyword) in
  c0 <- read mem ident_start_p ;;
  k0 <- table_at keyword_bytes 0 ;;
  let compare_result := c0 - k0 in
  compare_result <-
    (if compare_result =? 0 then
       ident <- load_bytes mem ident_start_p (Z.to_nat length) ;;
       Done (memcmp ident keyword_bytes)
     else Done compare_result) ;;
  if compare_result =? 0 then
    Done (Exit {| ks_start := ks_start st; ks_end := ks_end st;
                  ks_middle := ks_middle st; ks_found := Some keyword |})
  else
    let '(start, end_) :=
      if compare_result >? 0 then (ks_middle st + 1, ks_end st)
      else (ks_start st, ks_middle st) in
    let st := {| ks_start := start; ks_end := end_;
                 ks_middle := (start + end_) / 2; ks_found := None |} in
    if start <? end_ then Done (Next st) else Done (Exit st).

(** The first part of [lexer_parse_identifier]: the token is set up as
    an identifier literal and the [do ... while] loop scans it. *)
Definition lexer_parse_identifier_scan (mem : list Z) (ctx : parser_context_t)
  : result ident_scan_t :=
  (* Only very few identifiers contains \u escape sequences. *)
  let ctx := upd_token (set_token_type LEXER_LITERAL) ctx in
  let ctx := upd_token (set_literal_is_reserved false) ctx in
  let ctx := upd_lit_location (set_lit_type LEXER_IDENT_LITERAL) ctx in
  let ctx := upd_lit_location (set_has_escape false) ctx in
  run_loop (lexer_parse_identifier_step mem)
           (scan_fuel (source_p ctx) (source_end_p ctx))
           {| is_source_p := source_p ctx; is_column := column ctx;
              is_length := 0; is_ctx := ctx |}.

(** The keyword search of [lexer_parse_identifier], for an identifier of
    [length] bytes at [ident_start_p]. *)
Definition lexer_parse_identifier_keyword (mem : list Z) (ctx : parser_context_t)
  (ident_start_p length : Z) : result parser_context_t :=
  keyword_list_p <- table_at keyword_strings_list (length - 2) ;;
  end_ <- table_at keyword_lengths_list (length - 2) ;;
  found <- run_loop (keyword_search_step mem keyword_list_p ident_start_p length)
                    (S (Z.to_nat end_))
                    {| ks_start := 0; ks_end := end_; ks_middle := end_ / 2;
                       ks_found := None |} ;;
  match ks_found found with
  | Some keyword =>
      if is_future_strict_reserved_word (keyword_type keyword) then
        if has_flag (ctx_status_flags ctx) PARSER_IS_STRICT then
          parser_raise_error ctx PARSER_ERR_STRICT_IDENT_NOT_ALLOWED
        else Done (upd_token (set_literal_is_reserved true) ctx)
      else Done (upd_token (set_token_type (keyword_type keyword)) ctx)
  | None => Done ctx
  end.

(** Parse identifier. *)
Definition lexer_parse_identifier (mem : list Z) (ctx : parser_context_t)
  (check_keywords : bool) : result parser_context_t :=
  let ident_start_p := source_p ctx in
  st <- lexer_parse_identifier_scan mem ctx ;;
  let source_p := is_source_p st in
  let column_ := is_column st in
  let length := is_length st in
  let ctx := is_ctx st in
  let ctx := with_source_p ident_start_p ctx in
  let ctx := upd_token (set_token_column (column ctx)) ctx in
  if length >? PARSER_MAXIMUM_IDENT_LENGTH then
    parser_raise_error ctx PARSER_ERR_IDENTIFIER_TOO_LONG
  else
    (* Check keywords (Only if there is no \u escape sequence in the pattern). *)
    ctx <-
      (if check_keywords
          && negb (has_escape (lit_location (token ctx)))
          && ((length >=? 2) && (length <=? 10))
       then lexer_parse_identifier_keyword mem ctx ident_start_p length
       else Done ctx) ;;
    let ctx :=
      match token_type (token ctx) with
      | LEXER_LITERAL =>
          (* Fill literal data. *)
          upd_lit_location (set_char_p_length ident_start_p (to_uint16 length)) ctx
      | _ => ctx
      end in
    let ctx := with_source_p source_p ctx in
    let ctx := with_column column_ ctx in
    Done ctx.

(** The local variables of [lexer_parse_string] that its loop changes,
    with the context. *)
Record string_scan_t : Type := {
  ss_source_p : Z;
  ss_line : Z;
  ss_column : Z;
  ss_length : Z;
  ss_has_escape : bool;
  ss_ctx : parser_context_t
}.

Definition is_octal_digit (byte : Z) : bool := (48 <=? byte) && (byte <=? 55).

(** One round of the [while (PARSER_TRUE)] loop of [lexer_parse_string].
    [str_end_character], [original_line] and [original_column] are the
    locals the loop only reads. *)
Definition lexer_parse_string_step (mem : list Z)
  (str_end_character original_line original_column : Z) (st : string_scan_t)
  : result (loop_ctl string_scan_t) :=
  let source_p := ss_source_p st in
  let line := ss_line st in
  let column := ss_column st in
  let length := ss_length st in
  let has_escape := ss_has_escape st in
  let ctx := ss_ctx st in
  let source_end_p := source_end_p ctx in
  let state (source_p line column length : Z) (has_escape : bool) (ctx : parser_context_t) :=
    {| ss_source_p := source_p; ss_line := line; ss_column := column;
       ss_length := length; ss_has_escape := has_escape; ss_ctx := ctx |} in
  (* the part of the body after the escape sequences, at [source_p] *)
  let unescaped (source_p column : Z) (has_escape : bool) (ctx : parser_context_t)
    : result (loop_ctl string_scan_t) :=
    (* the last statements of the body *)
    let advance (column : Z) : result (loop_ctl string_scan_t) :=
      let source_p := source_p + 1 in
      let column := to_lc (column + 1) in
      let length := to_size_t (length + 1) in
      '(source_p, length) <-
         skip_intermediate_octets (scan_fuel source_p source_end_p) mem source_end_p
                                  source_p length ;;
      Done (Next (state source_p line column length has_escape ctx)) in
    c <- read mem source_p ;;
    if c >=? LEXER_UTF8_4BYTE_START then
      (* Processing 4 byte unicode sequence (even if it is
         after a backslash). Always converted to two 3 byte
         long sequence. *)
      Done (Next (state (source_p + 4) line (to_lc (column + 1))
                        (to_size_t (length + 2 * 3)) true ctx))
    else if c =? LEXER_TAB then
      let column := align_column_to_tab column in
      (* Subtract -1 because column is increased below. *)
      let column := to_lc (column - 1) in
      advance column
    else if str_end_character =? 96 (* '`' *) then
      dollar <- (if c =? 123 (* '{' *) then
                   p1 <- read mem (source_p - 1) ;;
                   if p1 =? 36 (* '$' *) then
                     p2 <- read mem (source_p - 2) ;;
                     Done (negb (p2 =? 92 (* '\\' *)))
                   else Done false
                 else Done false) ;;
      if dollar : bool then
        Done (Exit (state source_p line column (to_size_t (length - 1)) has_escape ctx))
      (* Newline (without backslash) is part of the string. *)
      else if c =? LEXER_NEWLINE_CR then
        let source_p := source_p + 1 in
        let length := to_size_t (length + 1) in
        lf <- and_read (source_p <? source_end_p) mem source_p
                       (fun b => b =? LEXER_NEWLINE_LF) ;;
        let '(source_p, length) :=
          if lf then (source_p + 1, to_size_t (length + 1)) else (source_p, length) in
        Done (Next (state source_p (to_lc (line + 1)) 1 length has_escape ctx))
      else if c =? LEXER_NEWLINE_LF then
        Done (Next (state (source_p + 1) (to_lc (line + 1)) 1 (to_size_t (length + 1))
                          has_escape ctx))
      else
        ls_ps <- (if c =? LEXER_NEWLINE_LS_PS_BYTE_1
                  then LEXER_NEWLINE_LS_PS_BYTE_23 mem source_p else Done false) ;;
        if ls_ps then
          Done (Next (state (source_p + 3) (to_lc (line + 1)) 1 (to_size_t (length + 3))
                            has_escape ctx))
        else advance column
    else
      newline <- (if (c =? LEXER_NEWLINE_CR) || (c =? LEXER_NEWLINE_LF) then Done true
                  else if c =? LEXER_NEWLINE_LS_PS_BYTE_1
                  then LEXER_NEWLINE_LS_PS_BYTE_23 mem source_p
                  else Done false) ;;
      if newline then
        let ctx := upd_token (set_token_line line) ctx in
        let ctx := upd_token (set_token_column column) ctx in
        parser_raise_error ctx PARSER_ERR_NEWLINE_NOT_ALLOWED
      else advance column in
  if source_p >=? source_end_p then
    let ctx := upd_token (set_token_line original_line) ctx in
    let ctx := upd_token (set_token_column (to_lc (original_column - 1))) ctx in
    parser_raise_error ctx PARSER_ERR_UNTERMINATED_STRING
  else
    c0 <- read mem source_p ;;
    if c0 =? str_end_character then Done (Exit st)
    else if c0 =? 92 (* '\\' *) then
      let source_p := source_p + 1 in
      let column := to_lc (column + 1) in
      if source_p >=? source_end_p then
        (* Will throw an unterminated string error. *)
        Done (Next (state source_p line column length has_escape ctx))
      else
        let has_escape := true in
        c <- read mem source_p ;;
        ls_ps <- (if c =? LEXER_NEWLINE_LS_PS_BYTE_1
                  then LEXER_NEWLINE_LS_PS_BYTE_23 mem source_p else Done false) ;;
        (* Newline is ignored. *)
        if c =? LEXER_NEWLINE_CR then
          let source_p := source_p + 1 in
          lf <- and_read (source_p <? source_end_p) mem source_p
                         (fun b => b =? LEXER_NEWLINE_LF) ;;
          let source_p := if lf then source_p + 1 else source_p in
          Done (Next (state source_p (to_lc (line + 1)) 1 length has_escape ctx))
        else if c =? LEXER_NEWLINE_LF then
          Done (Next (state (source_p + 1) (to_lc (line + 1)) 1 length has_escape ctx))
        else if ls_ps then
          Done (Next (state (source_p + 3) (to_lc (line + 1)) 1 length has_escape ctx))
        (* Except \x, \u, and octal numbers, everything is
           converted to a character which has the same byte length. *)
        else if (48 <=? c) && (c <=? 51) (* '0' .. '3' *) then
          if has_flag (ctx_status_flags ctx) PARSER_IS_STRICT then
            parser_raise_error ctx PARSER_ERR_OCTAL_ESCAPE_NOT_ALLOWED
          else
            let source_p := source_p + 1 in
            let column := to_lc (column + 1) in
            octal2 <- and_read (source_p <? source_end_p) mem source_p is_octal_digit ;;
            if octal2 then
              let source_p := source_p + 1 in
              let column := to_lc (column + 1) in
              octal3 <- and_read (source_p <? source_end_p) mem source_p is_octal_digit ;;
              if octal3 then
                (* Numbers >= 0x200 (0x80) requires
                   two bytes for encoding in UTF-8. *)
                first <- read mem (source_p - 2) ;;
                let length := if first >=? 50 (* '2' *) then to_size_t (length + 1)
                              else length in
                Done (Next (state (source_p + 1) line (to_lc (column + 1))
                                  (to_size_t (length + 1)) has_escape ctx))
              else
                Done (Next (state source_p line column (to_size_t (length + 1))
                                  has_escape ctx))
            else
              Done (Next (state source_p line column (to_size_t (length + 1))
                                has_escape ctx))
        else if (52 <=? c) && (c <=? 55) (* '4' .. '7' *) then
          if has_flag (ctx_status_flags ctx) PARSER_IS_STRICT then
            parser_raise_error ctx PARSER_ERR_OCTAL_ESCAPE_NOT_ALLOWED
          else
            let source_p := source_p + 1 in
            let column := to_lc (column + 1) in
            octal2 <- and_read (source_p <? source_end_p) mem source_p is_octal_digit ;;
            let '(source_p, column) :=
              if octal2 then (source_p + 1, to_lc (column + 1)) else (source_p, column) in
            (* The maximum number is 0x4d so the UTF-8
               representation is always one byte. *)
            Done (Next (state source_p line column (to_size_t (length + 1))
                              has_escape ctx))
        else if (c =? 120 (* 'x' *)) || (c =? 117 (* 'u' *)) then
          let hex_part_length := if c =? 120 then 2 else 4 in
          let ctx := upd_token (set_token_line line) ctx in
          let ctx := upd_token (set_token_column (to_lc (column - 1))) ctx in
          if source_p + 1 + hex_part_length >? source_end_p then
            parser_raise_error ctx PARSER_ERR_INVALID_ESCAPE_SEQUENCE
          else
            character <- lexer_hex_to_character mem ctx (source_p + 1)
                                                (Z.to_nat hex_part_length) ;;
            Done (Next (state (source_p + (hex_part_length + 1)) line
                              (PARSER_PLUS_EQUAL_LC column (hex_part_length + 1))
                              (to_size_t (length + util_get_utf8_length character))
                              has_escape ctx))
        else unescaped source_p column has_escape ctx
    else unescaped source_p column has_escape ctx.

(** Parse string. *)
Definition lexer_parse_string (mem : list Z) (ctx : parser_context_t)
  : result parser_context_t :=
  str_end_character <- read mem (source_p ctx) ;;
  let source_p_ := source_p ctx + 1 in
  let string_start_p := source_p_ in
  let line_ := line ctx in
  let column_ := to_lc (column ctx + 1) in
  let original_line := line_ in
  let original_column := column_ in
  let str_end_character :=
    if str_end_character =? 125 (* '}' *) then 96 (* '`' *) else str_end_character in
  st <- run_loop (lexer_parse_string_step mem str_end_character original_line original_column)
                 (scan_fuel source_p_ (source_end_p ctx))
                 {| ss_source_p := source_p_; ss_line := line_; ss_column := column_;
                    ss_length := 0; ss_has_escape := false; ss_ctx := ctx |} ;;
  let ctx := ss_ctx st in
  if ss_length st >? PARSER_MAXIMUM_STRING_LENGTH then
    parser_raise_error ctx PARSER_ERR_STRING_TOO_LONG
  else
    let ctx :=
      upd_token (set_token_type (if negb (str_end_character =? 96) then LEXER_LITERAL
                                 else LEXER_TEMPLATE_LITERAL)) ctx in
    (* Fill literal data. *)
    let ctx :=
      upd_lit_location
        (fun _ => {| char_p := string_start_p;
                     lit_length := to_uint16 (ss_length st);
                     lit_type := LEXER_STRING_LITERAL;
                     has_escape := ss_has_escape st |}) ctx in
    let ctx := with_source_p (ss_source_p st + 1) ctx in
    let ctx := with_line (ss_line st) ctx in
    let ctx := with_column (to_lc (ss_column st + 1)) ctx in
    Done ctx.

(** The local variables of the first loop of
    [lexer_construct_regexp_object]. *)
Record regexp_scan_t : Type := {
  rs_source_p : Z;
  rs_column : Z;
  rs_in_class : bool
}.

(** One round of the loop of [lexer_construct_regexp_object] that scans
    the body of the regular expression. *)
Definition lexer_construct_regexp_object_step (mem : list Z) (ctx : parser_context_t)
  (st : regexp_scan_t) : result (loop_ctl regexp_scan_t) :=
  let source_p := rs_source_p st in
  let column := rs_column st in
  let in_class := rs_in_class st in
  let source_end_p := source_end_p ctx in
  (* the statements after the switch *)
  let advance (source_p column : Z) (in_class : bool) : result (loop_ctl regexp_scan_t) :=
    let source_p := source_p + 1 in
    let column := to_lc (column + 1) in
    '(source_p, _) <-
       skip_intermediate_octets (scan_fuel source_p source_end_p) mem source_end_p
                                source_p 0 ;;
    Done (Next {| rs_source_p := source_p; rs_column := column;
                  rs_in_class := in_class |}) in
  if source_p >=? source_end_p then
    parser_raise_error ctx PARSER_ERR_UNTERMINATED_REGEXP
  else
    c <- read mem source_p ;;
    if negb in_class && (c =? 47 (* '/' *)) then
      Done (Exit {| rs_source_p := source_p + 1; rs_column := to_lc (column + 1);
                    rs_in_class := in_class |})
    else if (c =? LEXER_NEWLINE_CR) || (c =? LEXER_NEWLINE_LF) then
      parser_raise_error ctx PARSER_ERR_NEWLINE_NOT_ALLOWED
    else if c =? LEXER_NEWLINE_LS_PS_BYTE_1 then
      ls_ps <- LEXER_NEWLINE_LS_PS_BYTE_23 mem source_p ;;
      if ls_ps then parser_raise_error ctx PARSER_ERR_NEWLINE_NOT_ALLOWED
      else advance source_p column in_class
    else if c =? LEXER_TAB then
      let column := align_column_to_tab column in
      (* Subtract -1 because column is increased below. *)
      let column := to_lc (column - 1) in
      advance source_p column in_class
    else if c =? 91 (* '[' *) then advance source_p column true
    else if c =? 93 (* ']' *) then advance source_p column false
    else if c =? 92 (* '\\' *) then
      if source_p + 1 >=? source_end_p then
        parser_raise_error ctx PARSER_ERR_UNTERMINATED_REGEXP
      else
        c1 <- read mem (source_p + 1) ;;
        if (c1 >=? 0x20) && (c1 <=? 0x7f) then
          advance (source_p + 1) (to_lc (column + 1)) in_class
        else advance source_p column in_class
    else advance source_p column in_class.

(** The local variables of the loop of [lexer_construct_regexp_object]
    that reads the flags. *)
Record regexp_flags_t : Type := {
  rf_source_p : Z;
  rf_column : Z;
  rf_current_flags : Z
}.

Definition lexer_construct_regexp_object_flag_step (mem : list Z) (ctx : parser_context_t)
  (st : regexp_flags_t) : result (loop_ctl regexp_flags_t) :=
  if rf_source_p st <? source_end_p ctx then
    c <- read mem (rf_source_p st) ;;
    let flag := if c =? 103 (* 'g' *) then 0x1
                else if c =? 105 (* 'i' *) then 0x2
                else if c =? 109 (* 'm' *) then 0x4
                else 0 in
    if flag =? 0 then Done (Exit st)
    else if has_flag (rf_current_flags st) flag then
      parser_raise_error ctx PARSER_ERR_DUPLICATED_REGEXP_FLAG
    else
      Done (Next {| rf_source_p := rf_source_p st + 1;
                    rf_column := to_lc (rf_column st + 1);
                    rf_current_flags := Z.lor (rf_current_flags st) flag |})
  else Done (Exit st).

(** [parser_list_append (context_p, &context_p->literal_pool)] followed
    by the assignments to the new entry: the pool grows at its end. *)
Definition parser_list_append (entry : lexer_literal_t) (ctx : parser_context_t)
  : parser_context_t :=
  with_literal_pool (literal_pool ctx ++ [entry]) ctx.

(** A write to the pool entry at position [i]. *)
Fixpoint update_literal (f : lexer_literal_t -> lexer_literal_t) (i : nat)
  (pool : list lexer_literal_t) : list lexer_literal_t :=
  match pool, i with
  | [], _ => []
  | e :: rest, O => f e :: rest
  | e :: rest, S i' => e :: update_literal f i' rest
  end.

(** Construct a regular expression object. *)
Definition lexer_construct_regexp_object (mem : list Z) (ctx : parser_context_t)
  (parse_only : bool) : result parser_context_t :=
  let source_p_ := source_p ctx in
  let regex_start_p := source_p ctx - 1 in
  let regex_start_p :=
    match token_type (token ctx) with
    | LEXER_ASSIGN_DIVIDE => regex_start_p - 1
    | _ => regex_start_p
    end in
  st <- run_loop (lexer_construct_regexp_object_step mem ctx)
                 (scan_fuel source_p_ (source_end_p ctx))
                 {| rs_source_p := source_p_; rs_column := column ctx;
                    rs_in_class := false |} ;;
  fl <- run_loop (lexer_construct_regexp_object_flag_step mem ctx)
                 (scan_fuel (rs_source_p st) (source_end_p ctx))
                 {| rf_source_p := rs_source_p st; rf_column := rs_column st;
                    rf_current_flags := 0 |} ;;
  let source_p_ := rf_source_p fl in
  let column_ := rf_column fl in
  if (source_p_ <? source_end_p ctx) && util_is_identifier_part mem source_p_ then
    parser_raise_error ctx PARSER_ERR_UNKNOWN_REGEXP_FLAG
  else
    let ctx := with_source_p source_p_ ctx in
    let ctx := with_column column_ ctx in
    let length := to_size_t (source_p_ - regex_start_p) in
    if length >? PARSER_MAXIMUM_STRING_LENGTH then
      parser_raise_error ctx PARSER_ERR_REGEXP_TOO_LONG
    else if parse_only then Done ctx
    else if literal_count ctx >=? PARSER_MAXIMUM_NUMBER_OF_LITERALS then
      parser_raise_error ctx PARSER_ERR_LITERAL_LIMIT_REACHED
    else
      let position := List.length (literal_pool ctx) in
      let ctx :=
        parser_list_append {| u_char_p := []; prop_length := to_uint16 length;
                              entry_type := LEXER_UNUSED_LITERAL;
                              status_flags := 0 |} ctx in
      let ctx := with_literal_count (to_uint16 (literal_count ctx + 1)) ctx in
      if negb (util_set_regexp_literal mem regex_start_p (to_uint16 length) =? 0) then
        parser_raise_error ctx PARSER_ERR_INVALID_REGEXP
      else
        let ctx :=
          with_literal_pool
            (update_literal (set_literal_type LEXER_REGEXP_LITERAL) position
                            (literal_pool ctx)) ctx in
        let ctx := upd_token (set_token_type LEXER_LITERAL) ctx in
        let ctx := upd_token (set_literal_is_reserved false) ctx in
        let ctx := upd_lit_location (set_lit_type LEXER_REGEXP_LITERAL) ctx in
        let ctx :=
          with_lit_object {| literal_p := Some position;
                             lit_index := to_uint16 (literal_count ctx - 1);
                             lit_object_type := LEXER_LITERAL_OBJECT_ANY |} ctx in
        Done ctx.

(** The test of the search loop of [lexer_process_char_literal]. *)
Definition literal_matches (literal : lexer_literal_t) (chars : list Z) (length : Z)
  (type : lexer_literal_type_t) : bool :=
  lexer_literal_type_t_beq (entry_type literal) type
  && (prop_length literal =? length)
  && util_compare_char_literals literal chars.

(** The search loop of [lexer_process_char_literal], from the entry
    [literal_index] on: the index of the first entry that matches, or
    the index one past the last entry. *)
Fixpoint find_char_literal (pool : list lexer_literal_t) (chars : list Z) (length : Z)
  (type : lexer_literal_type_t) (literal_index : Z) : bool * Z :=
  match pool with
  | [] => (false, literal_index)
  | literal :: rest =>
      if literal_matches literal chars length type then (true, literal_index)
      else find_char_literal rest chars length type (to_uint32 (literal_index + 1))
  end.

(** Search or append the string to the literal pool.  [char_p] and
    [length] are given as the bytes [chars] the pointer points to (at
    least [length] of them) and [length]. *)
Definition lexer_process_char_literal (ctx : parser_context_t) (chars : list Z)
  (length : Z) (literal_type : lexer_literal_type_t) (has_escape : bool)
  : result parser_context_t :=
  let chars := firstn (Z.to_nat length) chars in
  let '(found, literal_index) :=
    find_char_literal (literal_pool ctx) chars length literal_type 0 in
  if found then
    let position := Z.to_nat literal_index in
    let ctx :=
      with_lit_object {| literal_p := Some position;
                         lit_index := to_uint16 literal_index;
                         lit_object_type := lit_object_type (lit_object ctx) |} ctx in
    let ctx :=
      with_literal_pool
        (update_literal
           (fun literal =>
              set_literal_status_flags
                (to_uint8 (Z.land (status_flags literal) (Z.lnot LEXER_FLAG_UNUSED_IDENT)))
                literal)
           position (literal_pool ctx)) ctx in
    Done ctx
  else if literal_index >=? PARSER_MAXIMUM_NUMBER_OF_LITERALS then
    parser_raise_error ctx PARSER_ERR_LITERAL_LIMIT_REACHED
  else
    let has_escape := if length =? 0 then false else has_escape in
    let position := List.length (literal_pool ctx) in
    let literal := {| u_char_p := []; prop_length := to_uint16 length;
                      entry_type := literal_type;
                      status_flags := if has_escape then 0 else LEXER_FLAG_SOURCE_PTR |} in
    let '(literal, failed) := util_set_char_literal literal chars in
    let ctx := parser_list_append literal ctx in
    if negb (failed =? 0) then
      parser_raise_error ctx PARSER_ERR_OUT_OF_MEMORY
    else
      let ctx :=
        with_lit_object {| literal_p := Some position;
                           lit_index := to_uint16 literal_index;
                           lit_object_type := lit_object_type (lit_object ctx) |} ctx in
      let ctx := with_literal_count (to_uint16 (literal_count ctx + 1)) ctx in
      Done ctx.

(* Maximum buffer size for identifiers which contains escape sequences. *)
Definition LEXER_MAX_LITERAL_LOCAL_BUFFER_SIZE : Z := 48.

(** The decoding loops of [lexer_construct_literal_object] write through
    [destination_p]; their state is the source pointer and the bytes
    written so far. *)
Record decode_t : Type := {
  dc_source_p : Z;
  dc_destination : list Z
}.

(** [while (limit && IS_UTF8_INTERMEDIATE_OCTET ( *source_p))
      *destination_p++ = *source_p++;]
    [source_end_p] is [None] for the loop that does not check the end of
    the source. *)
Fixpoint copy_intermediate_octets (fuel : nat) (mem : list Z) (source_end_p : option Z)
  (st : decode_t) : result decode_t :=
  match fuel with
  | O => OutOfFuel
  | S fuel' =>
      let limit := match source_end_p with
                   | Some e => dc_source_p st <? e
                   | None => true
                   end in
      if limit then
        b <- read mem (dc_source_p st) ;;
        if IS_UTF8_INTERMEDIATE_OCTET b then
          copy_intermediate_octets fuel' mem source_end_p
            {| dc_source_p := dc_source_p st + 1;
               dc_destination := dc_destination st ++ [b] |}
        else Done st
      else Done st
  end.

(** Rounds that bound a scan from [p] to the end of the buffer. *)
Definition buffer_fuel (mem : list Z) (p : Z) : nat :=
  scan_fuel p (Z.of_nat (List.length mem)).

(** One round of the loop of [lexer_construct_literal_object] that
    decodes an identifier. *)
Definition decode_identifier_step (mem : list Z) (ctx : parser_context_t) (st : decode_t)
  : result (loop_ctl decode_t) :=
  let source_end_p := source_end_p ctx in
  let while_cond (st : decode_t) : result (loop_ctl decode_t) :=
    if dc_source_p st <? source_end_p then
      if util_is_identifier_part mem (dc_source_p st) then Done (Next st)
      else
        c <- read mem (dc_source_p st) ;;
        if c =? 92 (* '\\' *) then Done (Next st) else Done (Exit st)
    else Done (Exit st) in
  c0 <- read mem (dc_source_p st) ;;
  if c0 =? 92 (* '\\' *) then
    character <- lexer_hex_to_character mem ctx (dc_source_p st + 2) 4 ;;
    while_cond {| dc_source_p := dc_source_p st + 6;
                  dc_destination := dc_destination st ++ util_to_utf8_bytes character |}
  else
    st <- copy_intermediate_octets
            (scan_fuel (dc_source_p st + 1) source_end_p) mem (Some source_end_p)
            {| dc_source_p := dc_source_p st + 1;
               dc_destination := dc_destination st ++ [c0] |} ;;
    while_cond st.

(** One round of the loop of [lexer_construct_literal_object] that
    decodes a string or a template literal. *)
Definition decode_string_step (mem : list Z) (ctx : parser_context_t)
  (str_end_character : Z) (st : decode_t) : result (loop_ctl decode_t) :=
  let source_p := dc_source_p st in
  let destination := dc_destination st in
  let state (source_p : Z) (destination : list Z) :=
    {| dc_source_p := source_p; dc_destination := destination |} in
  (* the part of the body after the escape sequences, at [source_p] *)
  let unescaped (source_p : Z) : result (loop_ctl decode_t) :=
    c <- read mem source_p ;;
    if c >=? LEXER_UTF8_4BYTE_START then
      (* Processing 4 byte unicode sequence (even if it is
         after a backslash). Always converted to two 3 byte
         long sequence. *)
      b1 <- read mem (source_p + 1) ;;
      b2 <- read mem (source_p + 2) ;;
      b3 <- read mem (source_p + 3) ;;
      let character := Z.shiftl (Z.land c 0x7) 18 in
      let character := Z.lor character (Z.shiftl (Z.land b1 0x3f) 12) in
      let character := Z.lor character (Z.shiftl (Z.land b2 0x3f) 6) in
      let character := Z.lor character (Z.land b3 0x3f) in
      let character := to_uint32 (character - 0x10000) in
      let destination :=
        destination
        ++ util_to_utf8_bytes (to_uint16 (Z.lor 0xd800 (Z.shiftr character 10))) in
      let destination :=
        destination
        ++ util_to_utf8_bytes (to_uint16 (Z.lor 0xdc00 (Z.land character 0x3ff))) in
      Done (Next (state (source_p + 4) destination))
    else
      (* There is no need to check the source_end_p
         since the string is terminated by a quotation mark. *)
      st <- copy_intermediate_octets (buffer_fuel mem (source_p + 1)) mem None
              (state (source_p + 1) (destination ++ [c])) ;;
      Done (Next st) in
  c0 <- read mem source_p ;;
  if c0 =? str_end_character then Done (Exit st)
  else if c0 =? 92 (* '\\' *) then
    let source_p := source_p + 1 in
    c <- read mem source_p ;;
    ls_ps <- (if c =? LEXER_NEWLINE_LS_PS_BYTE_1
              then LEXER_NEWLINE_LS_PS_BYTE_23 mem source_p else Done false) ;;
    (* Newline is ignored. *)
    if c =? LEXER_NEWLINE_CR then
      let source_p := source_p + 1 in
      b <- read mem source_p ;;
      Done (Next (state (if b =? LEXER_NEWLINE_LF then source_p + 1 else source_p)
                        destination))
    else if c =? LEXER_NEWLINE_LF then Done (Next (state (source_p + 1) destination))
    else if ls_ps then Done (Next (state (source_p + 3) destination))
    else if (48 <=? c) && (c <=? 51) (* '0' .. '3' *) then
      let octal_number := to_uint32 (c - 48) in
      let source_p := source_p + 1 in
      d2 <- read mem source_p ;;
      '(octal_number, source_p) <-
        (if is_octal_digit d2 then
           let octal_number := to_uint32 (octal_number * 8 + to_uint32 (d2 - 48)) in
           let source_p := source_p + 1 in
           d3 <- read mem source_p ;;
           if is_octal_digit d3 then
             Done (to_uint32 (octal_number * 8 + to_uint32 (d3 - 48)), source_p + 1)
           else Done (octal_number, source_p)
         else Done (octal_number, source_p)) ;;
      Done (Next (state source_p
                        (destination ++ util_to_utf8_bytes (to_uint16 octal_number))))
    else if (52 <=? c) && (c <=? 55) (* '4' .. '7' *) then
      let octal_number := to_uint32 (c - 48) in
      let source_p := source_p + 1 in
      d2 <- read mem source_p ;;
      let '(octal_number, source_p) :=
        if is_octal_digit d2 then
          (to_uint32 (octal_number * 8 + to_uint32 (d2 - 48)), source_p + 1)
        else (octal_number, source_p) in
      Done (Next (state source_p (destination ++ [to_uint8 octal_number])))
    else if (c =? 120 (* 'x' *)) || (c =? 117 (* 'u' *)) then
      let hex_part_length := if c =? 120 then 2 else 4 in
      character <- lexer_hex_to_character mem ctx (source_p + 1)
                                          (Z.to_nat hex_part_length) ;;
      Done (Next (state (source_p + (hex_part_length + 1))
                        (destination ++ util_to_utf8_bytes character)))
    else
      let conv_character :=
        if c =? 98 (* 'b' *) then 0x08
        else if c =? 116 (* 't' *) then 0x09
        else if c =? 110 (* 'n' *) then 0x0a
        else if c =? 118 (* 'v' *) then 0x0b
        else if c =? 102 (* 'f' *) then 0x0c
        else if c =? 114 (* 'r' *) then 0x0d
        else c in
      if negb (conv_character =? c) then
        Done (Next (state (source_p + 1) (destination ++ [conv_character])))
      else unescaped source_p
  else
    dollar <- (if (str_end_character =? 96 (* '`' *)) && (c0 =? 36 (* '$' *)) then
                 b <- read mem (source_p + 1) ;; Done (b =? 123 (* '{' *))
               else Done false) ;;
    if dollar : bool then Done (Exit (state (source_p + 1) destination))
    else unescaped source_p.

(** Modelled from the spec: [parser_malloc_local (context_p, size)] of
    js-parser-mem.c.  A decode buffer larger than the local one is
    allocated by its exact size, and a failed allocation is reported
    through the fatal-error channel. *)
Definition parser_malloc_local (ctx : parser_context_t) (size : Z) : result unit :=
  if jmem_heap_has_block size then Done tt
  else parser_raise_error ctx PARSER_ERR_OUT_OF_MEMORY.

(** [lit_object.literal_p->status_flags |= flag] *)
Definition or_literal_status_flags (flag : Z) (ctx : parser_context_t) : parser_context_t :=
  match literal_p (lit_object ctx) with
  | Some position =>
      with_literal_pool
        (update_literal
           (fun literal =>
              set_literal_status_flags (to_uint8 (Z.lor (status_flags literal) flag)) literal)
           position (literal_pool ctx)) ctx
  | None => ctx
  end.

(** Whether the [length] bytes at [source_p] (given as [chars]) spell
    the C string [name]. *)
Definition chars_spell (chars : list Z) (length : Z) (name : string) : bool :=
  (length =? Z.of_nat (String.length name))
  && bytes_eqb (firstn (Z.to_nat length) chars) (bytes_of_string name).

(** Construct a literal object from an identifier. *)
Definition lexer_construct_literal_object (mem : list Z) (ctx : parser_context_t)
  (literal : lexer_lit_location_t) (literal_type : lexer_literal_type_t)
  : result parser_context_t :=
  let source_p_ := char_p literal in
  '(ctx, chars, heap_buffer) <-
    (if has_escape literal then
       '(ctx, heap_buffer) <-
         (if lit_length literal >? LEXER_MAX_LITERAL_LOCAL_BUFFER_SIZE then
            _ <- parser_malloc_local ctx (lit_length literal) ;;
            Done (with_allocated_buffer_p true ctx, true)
          else Done (ctx, false)) ;;
       st <-
         match lit_type literal with
         | LEXER_IDENT_LITERAL =>
             run_loop (decode_identifier_step mem ctx)
                      (scan_fuel source_p_ (source_end_p ctx))
                      {| dc_source_p := source_p_; dc_destination := [] |}
         | _ =>
             str_end_character <- read mem (source_p_ - 1) ;;
             let str_end_character :=
               if str_end_character =? 125 (* '}' *) then 96 (* '`' *)
               else str_end_character in
             run_loop (decode_string_step mem ctx str_end_character)
                      (buffer_fuel mem source_p_)
                      {| dc_source_p := source_p_; dc_destination := [] |}
         end ;;
       Done (ctx, dc_destination st, heap_buffer)
     else
       chars <- load_bytes mem source_p_ (Z.to_nat (lit_length literal)) ;;
       Done (ctx, chars, false)) ;;
  ctx <- lexer_process_char_literal ctx chars (lit_length literal) literal_type
                                    (has_escape literal) ;;
  let ctx := with_lit_object (set_lit_object_type LEXER_LITERAL_OBJECT_ANY (lit_object ctx))
                             ctx in
  let pointed_type :=
    match literal_p (lit_object ctx) with
    | Some position => option_map entry_type (nth_error (literal_pool ctx) position)
    | None => None
    end in
  let ctx :=
    match literal_type, pointed_type with
    | LEXER_IDENT_LITERAL, Some LEXER_IDENT_LITERAL =>
        if has_flag (ctx_status_flags ctx) PARSER_INSIDE_WITH
        then or_literal_status_flags LEXER_FLAG_NO_REG_STORE ctx
        else ctx
    | _, _ => ctx
    end in
  let ctx :=
    if chars_spell chars (lit_length literal) "eval" then
      with_lit_object (set_lit_object_type LEXER_LITERAL_OBJECT_EVAL (lit_object ctx)) ctx
    else ctx in
  let ctx :=
    if chars_spell chars (lit_length literal) "arguments" then
      let ctx :=
        with_lit_object (set_lit_object_type LEXER_LITERAL_OBJECT_ARGUMENTS (lit_object ctx))
                        ctx in
      match literal_type with
      | LEXER_IDENT_LITERAL =>
          if negb (has_flag (ctx_status_flags ctx) PARSER_ARGUMENTS_NOT_NEEDED) then
            let ctx :=
              with_status_flags
                (Z.lor (ctx_status_flags ctx)
                       (Z.lor PARSER_ARGUMENTS_NEEDED PARSER_LEXICAL_ENV_NEEDED)) ctx in
            or_literal_status_flags LEXER_FLAG_NO_REG_STORE ctx
          else ctx
      | _ => ctx
      end
    else ctx in
  let ctx := if heap_buffer : bool then with_allocated_buffer_p false ctx else ctx in
  Done ctx.

(** Construct a number object: whether the number is a small number,
    and the context. *)
Definition lexer_construct_number_object (mem : list Z) (ctx : parser_context_t)
  (is_expr is_negative_number : bool) : result (bool * parser_context_t) :=
  let literal_count_ := literal_count ctx in
  let location := lit_location (token ctx) in
  let number := util_get_number mem (char_p location) (lit_length location) in
  if is_expr
     && ((number <=? CBC.CBC_PUSH_NUMBER_BYTE_RANGE_END)
         && (negb (number =? 0) || negb is_negative_number))
  then
    Done (true,
          with_lit_object {| literal_p := literal_p (lit_object ctx);
                             lit_index := to_uint16 number;
                             lit_object_type := lit_object_type (lit_object ctx) |} ctx)
  else if literal_count_ >=? PARSER_MAXIMUM_NUMBER_OF_LITERALS then
    parser_raise_error ctx PARSER_ERR_LITERAL_LIMIT_REACHED
  else
    let position := List.length (literal_pool ctx) in
    let ctx :=
      parser_list_append {| u_char_p := []; prop_length := lit_length location;
                            entry_type := LEXER_UNUSED_LITERAL;
                            status_flags := 0 |} ctx in
    let ctx := with_literal_count (to_uint16 (literal_count ctx + 1)) ctx in
    if negb (util_set_number_literal mem (char_p location) (lit_length location) =? 0) then
      parser_raise_error ctx PARSER_ERR_OUT_OF_MEMORY
    else
      let ctx :=
        with_literal_pool
          (update_literal (set_literal_type LEXER_NUMBER_LITERAL) position
                          (literal_pool ctx)) ctx in
      let ctx :=
        with_lit_object {| literal_p := Some position;
                           lit_index := literal_count_;
                           lit_object_type := LEXER_LITERAL_OBJECT_ANY |} ctx in
      Done (false, ctx).

(** Converts a "\uxxxx" sequence into a unicode character. *)
Fixpoint lexer_decode_unicode_sequence_from (mem : list Z) (source_p : Z) (rounds : nat)
  (chr : Z) : result Z :=
  match rounds with
  | O => Done chr
  | S rounds' =>
      byte <- read mem source_p ;;
      let chr := to_uint16 (Z.shiftl chr 4) in
      let chr :=
        if byte <=? 57 (* '9' *) then to_uint16 (chr + byte - 48)
        else to_uint16 (chr + LEXER_TO_ASCII_LOWERCASE byte - (97 - 10)) in
      lexer_decode_unicode_sequence_from mem (source_p + 1) rounds' chr
  end.

(** The loop runs from [source_p + 2] to [source_p + 6]: four rounds. *)
Definition lexer_decode_unicode_sequence (mem : list Z) (source_p : Z) : result Z :=
  lexer_decode_unicode_sequence_from mem (source_p + 2) 4 0.

(** The local variables of the loop of
    [lexer_compare_identifier_to_current]. *)
Record compare_t : Type := {
  cmp_left_p : Z;
  cmp_right_p : Z;
  cmp_count : Z
}.

(** [do { if (utf8_buf[offset] != *right_p++) return PARSER_FALSE; offset++; }
     while (offset < utf8_len);]: whether all bytes agree. *)
Fixpoint compare_utf8_buf (mem : list Z) (utf8_buf : list Z) (right_p : Z) : result bool :=
  match utf8_buf with
  | [] => Done true
  | b :: rest =>
      r <- read mem right_p ;;
      if negb (b =? r) then Done false
      else compare_utf8_buf mem rest (right_p + 1)
  end.

(** One round of the loop of [lexer_compare_identifier_to_current]:
    [inl v] when the function returns [v] from inside the loop. *)
Definition lexer_compare_identifier_to_current_step (mem : list Z) (st : compare_t)
  : result (loop_ctl (bool + compare_t)) :=
  let left_p := cmp_left_p st in
  let right_p := cmp_right_p st in
  let count := cmp_count st in
  let while_cond (st : compare_t) : result (loop_ctl (bool + compare_t)) :=
    if cmp_count st >? 0 then Done (Next (inr st)) else Done (Exit (inr st)) in
  l <- read mem left_p ;;
  r <- read mem right_p ;;
  (* Backslash cannot be part of a multibyte UTF-8 character. *)
  if negb (l =? 92) && negb (r =? 92) then
    if negb (l =? r) then Done (Exit (inl false))
    else
      while_cond {| cmp_left_p := left_p + 1; cmp_right_p := right_p + 1;
                    cmp_count := to_size_t (count - 1) |}
  else if (l =? 92) && (r =? 92) then
    left_chr <- lexer_decode_unicode_sequence mem left_p ;;
    right_chr <- lexer_decode_unicode_sequence mem right_p ;;
    if negb (left_chr =? right_chr) then Done (Exit (inl false))
    else
      while_cond {| cmp_left_p := left_p + 6; cmp_right_p := right_p + 6;
                    cmp_count := to_size_t (count + util_get_utf8_length left_chr) |}
  else
    (* One character is encoded as unicode sequence. *)
    let '(left_p, right_p) :=
      if r =? 92 then
        (* The pointers can be swapped. *)
        (right_p, left_p)
      else (left_p, right_p) in
    chr <- lexer_decode_unicode_sequence mem left_p ;;
    let utf8_buf := util_to_utf8_bytes chr in
    let utf8_len := Z.of_nat (List.length utf8_buf) in
    let count := to_size_t (count - utf8_len) in
    same <- compare_utf8_buf mem utf8_buf right_p ;;
    if negb same then Done (Exit (inl false))
    else
      while_cond {| cmp_left_p := left_p + 6; cmp_right_p := right_p + utf8_len;
                    cmp_count := count |}.

(** The step on [bool + compare_t]: a returned value stays. *)
Definition compare_loop_step (mem : list Z) (st : bool + compare_t)
  : result (loop_ctl (bool + compare_t)) :=
  match st with
  | inl v => Done (Exit (inl v))
  | inr st => lexer_compare_identifier_to_current_step mem st
  end.

(** Compares two identifiers: non-zero ([true]) if the input identifiers
    are the same. *)
Definition lexer_compare_identifier_to_current (mem : list Z) (ctx : parser_context_t)
  (right_ident : lexer_lit_location_t) : result bool :=
  let left_ident := lit_location (token ctx) in
  if negb (lit_length left_ident =? lit_length right_ident) then Done false
  else if negb (has_escape left_ident) && negb (has_escape right_ident) then
    left <- load_bytes mem (char_p left_ident) (Z.to_nat (lit_length left_ident)) ;;
    right <- load_bytes mem (char_p right_ident) (Z.to_nat (lit_length left_ident)) ;;
    Done (memcmp left right =? 0)
  else
    st <- run_loop (compare_loop_step mem)
                   (buffer_fuel mem 0)
                   (inr {| cmp_left_p := char_p left_ident;
                           cmp_right_p := char_p right_ident;
                           cmp_count := lit_length left_ident |}) ;;
    match st with
    | inl v => Done v
    | inr _ => Done true
    end.

(** Compares the current identifier in the context to the parameter
    identifier.  Escape sequences are not allowed. *)
Definition lexer_compare_raw_identifier_to_current (mem : list Z) (ctx : parser_context_t)
  (right_ident : string) (right_ident_length : Z) : result bool :=
  let left_ident := lit_location (token ctx) in
  if negb (lit_length left_ident =? right_ident_length) || has_escape left_ident then
    Done false
  else
    left <- load_bytes mem (char_p left_ident) (Z.to_nat right_ident_length) ;;
    Done (memcmp left (firstn (Z.to_nat right_ident_length) (bytes_of_string right_ident))
          =? 0).

Section Callers.

(** The functions [lexer_scan_identifier] and
    [lexer_expect_object_literal_id] hand a token over to when it does not
    start an identifier or a string: the general scanner and the number
    scanner of js-lexer.c, and the expression parser of js-parser-expr.c.
    They are left open here; what is proved holds whatever they do. *)
Variable lexer_next_token : list Z -> parser_context_t -> result parser_context_t.
Variable lexer_parse_number : list Z -> parser_context_t -> result parser_context_t.
Variable parser_parse_expression : list Z -> parser_context_t -> result parser_context_t.

(** [context_p->source_p < context_p->source_end_p
     && (util_is_identifier_start (context_p->source_p)
         || context_p->source_p[0] == '\\')] *)
Definition at_identifier (mem : list Z) (ctx : parser_context_t) : result bool :=
  if source_p ctx <? source_end_p ctx then
    if util_is_identifier_start mem (source_p ctx) then Done true
    else c <- read mem (source_p ctx) ;; Done (c =? 92 (* '\\' *))
  else Done false.

(** [context_p->source_p < context_p->source_end_p
     && context_p->source_p[0] != ':'] *)
Definition not_at_colon (mem : list Z) (ctx : parser_context_t) : result bool :=
  and_read (source_p ctx <? source_end_p ctx) mem (source_p ctx)
           (fun b => negb (b =? 58 (* ':' *))).

(** Next token must be an identifier. *)
Definition lexer_scan_identifier (mem : list Z) (ctx : parser_context_t)
  (property_name : bool) : result parser_context_t :=
  ctx <- lexer_skip_spaces mem ctx ;;
  let ctx := upd_token (set_token_line (line ctx)) ctx in
  let ctx := upd_token (set_token_column (column ctx)) ctx in
  ident <- at_identifier mem ctx ;;
  if ident : bool then
    ctx <- lexer_parse_identifier mem ctx false ;;
    if property_name && (lit_length (lit_location (token ctx)) =? 3) then
      ctx <- lexer_skip_spaces mem ctx ;;
      more <- not_at_colon mem ctx ;;
      if more : bool then
        getter <- lexer_compare_raw_identifier_to_current mem ctx "get" 3 ;;
        if getter : bool then Done (upd_token (set_token_type LEXER_PROPERTY_GETTER) ctx)
        else
          setter <- lexer_compare_raw_identifier_to_current mem ctx "set" 3 ;;
          if setter : bool then Done (upd_token (set_token_type LEXER_PROPERTY_SETTER) ctx)
          else Done ctx
      else Done ctx
    else Done ctx
  else
    ctx <- (if property_name then
              ctx <- lexer_next_token mem ctx ;;
              Done (ctx,
                    match token_type (token ctx) with
                    | LEXER_LITERAL | LEXER_LEFT_SQUARE | LEXER_RIGHT_BRACE => true
                    | _ => false
                    end)
            else Done (ctx, false)) ;;
    if snd ctx then Done (fst ctx)
    else parser_raise_error (fst ctx) PARSER_ERR_IDENTIFIER_EXPECTED.

(** Next token must be an identifier ([lexer_expect_object_literal_id]). *)
Definition lexer_expect_object_literal_id (mem : list Z) (ctx : parser_context_t)
  (ident_opts : Z) : result parser_context_t :=
  ctx <- lexer_skip_spaces mem ctx ;;
  let is_class_method :=
    has_flag ident_opts LEXER_OBJ_IDENT_CLASS_METHOD
    && negb (has_flag ident_opts LEXER_OBJ_IDENT_ONLY_IDENTIFIERS)
    && negb (lexer_token_type_t_beq (token_type (token ctx)) LEXER_KEYW_STATIC) in
  let ctx := upd_token (set_token_line (line ctx)) ctx in
  let ctx := upd_token (set_token_column (column ctx)) ctx in
  (* the statements from [if (create_literal_object)] on *)
  let create_literal_object (ctx : parser_context_t) : result parser_context_t :=
    constructor <-
      (if is_class_method
       then lexer_compare_raw_identifier_to_current mem ctx "constructor" 11
       else Done false) ;;
    if constructor : bool then Done (upd_token (set_token_type LEXER_CLASS_CONSTRUCTOR) ctx)
    else lexer_construct_literal_object mem ctx (lit_location (token ctx))
                                        LEXER_STRING_LITERAL in
  if source_p ctx <? source_end_p ctx then
    ident <- at_identifier mem ctx ;;
    c0 <- read mem (source_p ctx) ;;
    if ident : bool then
      ctx <- lexer_parse_identifier mem ctx false ;;
      '(ctx, accessor) <-
        (if negb (has_flag ident_opts LEXER_OBJ_IDENT_ONLY_IDENTIFIERS)
            && (lit_length (lit_location (token ctx)) =? 3)
         then
           ctx <- lexer_skip_spaces mem ctx ;;
           more <- not_at_colon mem ctx ;;
           if more : bool then
             getter <- lexer_compare_raw_identifier_to_current mem ctx "get" 3 ;;
             if getter : bool then Done (ctx, Some LEXER_PROPERTY_GETTER)
             else
               setter <- lexer_compare_raw_identifier_to_current mem ctx "set" 3 ;;
               if setter : bool then Done (ctx, Some LEXER_PROPERTY_SETTER)
               else Done (ctx, None)
           else Done (ctx, None)
         else Done (ctx, None)) ;;
      match accessor with
      | Some type => Done (upd_token (set_token_type type) ctx)
      | None =>
          static <-
            (if is_class_method
             then lexer_compare_raw_identifier_to_current mem ctx "static" 6
             else Done false) ;;
          if static : bool then Done (upd_token (set_token_type LEXER_KEYW_STATIC) ctx)
          else create_literal_object ctx
      end
    else if (c0 =? 34 (* double quote *)) || (c0 =? 39 (* single quote *)) then
      ctx <- lexer_parse_string mem ctx ;;
      create_literal_object ctx
    else if c0 =? 91 (* '[' *) then
      let ctx := with_source_p (source_p ctx + 1) ctx in
      let ctx := with_column (to_lc (column ctx + 1)) ctx in
      ctx <- lexer_next_token mem ctx ;;
      ctx <- parser_parse_expression mem ctx ;;
      match token_type (token ctx) with
      | LEXER_RIGHT_SQUARE => Done ctx
      | _ => parser_raise_error ctx PARSER_ERR_RIGHT_SQUARE_EXPECTED
      end
    else if negb (has_flag ident_opts LEXER_OBJ_IDENT_ONLY_IDENTIFIERS)
            && (c0 =? 125 (* '}' *)) then
      let ctx := upd_token (set_token_type LEXER_RIGHT_BRACE) ctx in
      let ctx := with_source_p (source_p ctx + 1) ctx in
      let ctx := with_column (to_lc (column ctx + 1)) ctx in
      Done ctx
    else
      let char_p_ := if c0 =? 46 (* '.' *) then source_p ctx + 1 else source_p ctx in
      digit <- and_read (char_p_ <? source_end_p ctx) mem char_p_
                        (fun b => (b >=? 48) && (b <=? 57)) ;;
      if digit : bool then
        ctx <- lexer_parse_number mem ctx ;;
        r <- lexer_construct_number_object mem ctx false false ;;
        Done (snd r)
      else parser_raise_error ctx PARSER_ERR_PROPERTY_IDENTIFIER_EXPECTED
  else parser_raise_error ctx PARSER_ERR_PROPERTY_IDENTIFIER_EXPECTED.

End Callers.

End JsLexer.

(** ** A build to run the model on *)

(** ASCII letters, [$] and [_] start an identifier; digits continue it. *)
Definition ascii_identifier_start_character (c : Z) : bool :=
  ((97 <=? c) && (c <=? 122)) || ((65 <=? c) && (c <=? 90)) || (c =? 36) || (c =? 95).

Definition ascii_identifier_part_character (c : Z) : bool :=
  ascii_identifier_start_character c || ((48 <=? c) && (c <=? 57)).

Definition byte_test (test : Z -> bool) (mem : list Z) (p : Z) : bool :=
  match read mem p with
  | Done b => test b
  | _ => false
  end.

(** The value of a run of decimal digits, [0x7fffffff] for anything else. *)
Fixpoint decimal_number (bytes : list Z) (value : Z) : Z :=
  match bytes with
  | [] => value
  | b :: rest =>
      if (48 <=? b) && (b <=? 57) && (value <? 100000000)
      then decimal_number rest (10 * value + (b - 48))
      else 0x7fffffff
  end.

(** The limits and flag bits of a default 32-bit build, ASCII identifier
    characters, and a heap that never runs out. *)
Definition reference_headers : js_parser_headers := {|
  size_t_bits := 32;
  PARSER_MAXIMUM_NUMBER_OF_LITERALS := 511;
  PARSER_MAXIMUM_IDENT_LENGTH := 255;
  PARSER_MAXIMUM_STRING_LENGTH := 65535;
  PARSER_IS_STRICT := 0x1;
  PARSER_INSIDE_WITH := 0x2;
  PARSER_ARGUMENTS_NEEDED := 0x4;
  PARSER_ARGUMENTS_NOT_NEEDED := 0x8;
  PARSER_LEXICAL_ENV_NEEDED := 0x10;
  LEXER_WAS_NEWLINE := 0x1;
  LEXER_NO_SKIP_SPACES := 0x2;
  LEXER_FLAG_NO_REG_STORE := 0x2;
  LEXER_FLAG_UNUSED_IDENT := 0x20;
  LEXER_FLAG_SOURCE_PTR := 0x40;
  LEXER_OBJ_IDENT_ONLY_IDENTIFIERS := 0x1;
  LEXER_OBJ_IDENT_CLASS_METHOD := 0x2;
  is_future_strict_reserved_word := fun type =>
    match type with
    | LEXER_KEYW_IMPLEMENTS | LEXER_KEYW_LET | LEXER_KEYW_PRIVATE | LEXER_KEYW_PUBLIC
    | LEXER_KEYW_YIELD | LEXER_KEYW_INTERFACE | LEXER_KEYW_PACKAGE
    | LEXER_KEYW_PROTECTED | LEXER_KEYW_STATIC => true
    | _ => false
    end;
  util_is_identifier_start := byte_test ascii_identifier_start_character;
  util_is_identifier_part := byte_test ascii_identifier_part_character;
  util_is_identifier_start_character := ascii_identifier_start_character;
  util_is_identifier_part_character := ascii_identifier_part_character;
  util_get_number := fun mem p n =>
    match load_bytes mem p (Z.to_nat n) with
    | Done bytes => decimal_number bytes 0
    | _ => 0x7fffffff
    end;
  jmem_heap_has_block := fun _ => true;
  util_set_number_literal := fun _ _ _ => 0;
  util_set_regexp_literal := fun _ _ _ => 0
|}.

(** A context at the start of the source [mem], with an empty pool. *)
Definition initial_context (mem : list Z) : parser_context_t := {|
  ctx_status_flags := 0;
  source_p := 0;
  source_end_p := Z.of_nat (List.length mem);
  line := 1;
  column := 1;
  token := {| token_type := LEXER_EOS; literal_is_reserved := false;
              token_flags := 0; token_line := 1; token_column := 1;
              lit_location := {| char_p := 0; lit_length := 0;
                                 lit_type := LEXER_UNUSED_LITERAL;
                                 has_escape := false |} |};
  lit_object := {| literal_p := None; lit_index := 0;
                   lit_object_type := LEXER_LITERAL_OBJECT_ANY |};
  literal_pool := [];
  literal_count := 0;
  allocated_buffer_p := false
|}.

(** ** Relations and invariants the proofs use *)

(** What stays of a context when only the cursor, the position, and the
    position or the flags of the token change. *)
Definition same_literal_token (c c' : parser_context_t) : Prop :=
  token_type (token c') = token_type (token c)
  /\ literal_is_reserved (token c') = literal_is_reserved (token c)
  /\ lit_location (token c') = lit_location (token c)
  /\ source_end_p c' = source_end_p c
  /\ ctx_status_flags c' = ctx_status_flags c
  /\ lit_object c' = lit_object c
  /\ literal_pool c' = literal_pool c
  /\ literal_count c' = literal_count c.

(** What the scanning loop of [lexer_parse_identifier] keeps true: the
    token stays an identifier literal, the cursor never moves back, and
    [has_escape] is set exactly when a backslash has been passed. *)
Definition ident_scan_inv (mem : list Z) (ctx0 : parser_context_t) (st : ident_scan_t)
  : Prop :=
  let c := is_ctx st in
  token_type (token c) = LEXER_LITERAL
  /\ literal_is_reserved (token c) = false
  /\ lit_type (lit_location (token c)) = LEXER_IDENT_LITERAL
  /\ source_end_p c = source_end_p ctx0
  /\ ctx_status_flags c = ctx_status_flags ctx0
  /\ column c = column ctx0
  /\ line c = line ctx0
  /\ lit_object c = lit_object ctx0
  /\ literal_pool c = literal_pool ctx0
  /\ literal_count c = literal_count ctx0
  /\ source_p ctx0 <= is_source_p st
  /\ (has_escape (lit_location (token c)) = true
      <-> exists p, source_p ctx0 <= p < is_source_p st /\ read mem p = Done 92).


(** The spelling that [lexer_scan_identifier] and
    [lexer_expect_object_literal_id] look for before they turn a literal
    into the token [type]. *)
Definition reclassified_name (type : lexer_token_type_t) : option string :=
  match type with
  | LEXER_PROPERTY_GETTER => Some "get"%string
  | LEXER_PROPERTY_SETTER => Some "set"%string
  | LEXER_KEYW_STATIC => Some "static"%string
  | LEXER_CLASS_CONSTRUCTOR => Some "constructor"%string
  | _ => None
  end.

(** The literal of the current token is escape-free and its bytes in the
    source are those of [name]. *)
Definition raw_spelling (mem : list Z) (ctx : parser_context_t) (name : string) : Prop :=
  has_escape (lit_location (token ctx)) = false
  /\ lit_length (lit_location (token ctx)) = Z.of_nat (String.length name)
  /\ load_bytes mem (char_p (lit_location (token ctx))) (String.length name)
     = Done (bytes_of_string name).





(** ** Source texts the model is run on *)

(** The statement [a=a;] with both identifiers spelled as the escape
    sequence of [a] (a backslash, [u] and four hexadecimal digits): the
    identifiers start at offsets 0 and 7. *)
Definition escaped_a_twice : list Z :=
  (92 :: bytes_of_string "u0061=") ++ (92 :: bytes_of_string "u0061;").

(** The location of an escaped identifier of one character at [p]. *)
Definition escaped_identifier_at (p : Z) : lexer_lit_location_t :=
  {| char_p := p; lit_length := 1; lit_type := LEXER_IDENT_LITERAL; has_escape := true |}.

(** [var] with its first letter spelled as an escape sequence. *)
Definition escaped_var : list Z := 92 :: bytes_of_string "u0076ar".

(** [get] with its first letter spelled as an escape sequence, and a
    property name after it. *)
Definition escaped_get : list Z := 92 :: bytes_of_string "u0067et x".

Definition open_string : list Z := [34; 97].

(** Callees for [lexer_scan_identifier] and
    [lexer_expect_object_literal_id] to run with: no token is read, and a
    number is a literal. *)
Definition no_token (_ : list Z) (ctx : parser_context_t) : result parser_context_t :=
  Done ctx.
Definition literal_token (_ : list Z) (ctx : parser_context_t) : result parser_context_t :=
  Done (upd_token (set_token_type LEXER_LITERAL) ctx).

(** * The remaining code of byte-code.h and js-lexer.c *)

(** ** byte-code.h: the packed flags and the forms of an opcode *)

Module CBCForms.

Import CBC.

Definition CBC_STACK_ADJUST_BASE : Z := 4.
Definition CBC_STACK_ADJUST_SHIFT : Z := 5.
Definition CBC_STACK_ADJUST_VALUE (value : Z) : Z :=
  Z.shiftr value CBC_STACK_ADJUST_SHIFT - CBC_STACK_ADJUST_BASE.

Definition CBC_ARG_TYPES : Z :=
  Z.lor (Z.lor (Z.lor CBC_HAS_LITERAL_ARG CBC_HAS_LITERAL_ARG2) CBC_HAS_BYTE_ARG)
        CBC_HAS_BRANCH_ARG.

Definition CBC_UNARY_LVALUE_WITH_IDENT : Z := 3.

Definition CBC_BINARY_WITH_LITERAL : Z := 1.
Definition CBC_BINARY_WITH_TWO_LITERALS : Z := 2.

Definition CBC_MAXIMUM_BYTE_VALUE : Z := 255.

(** The byte of [cbc_flags] or [cbc_ext_flags] for an opcode: its flags
    in the lower 5 bits and its stack change, moved up by
    [CBC_STACK_ADJUST_BASE], in the upper three, which is what
    [CBC_STACK_ADJUST_VALUE] reads back. *)
Definition packed_flags (e : cbc_opcode_entry) : Z :=
  Z.lor (op_flags e) (Z.shiftl (op_stack e + CBC_STACK_ADJUST_BASE) CBC_STACK_ADJUST_SHIFT).

(** [(cbc_flags[op1] & CBC_ARG_TYPES) == (cbc_flags[op2] & CBC_ARG_TYPES)],
    the test of [CBC_SAME_ARGS]. *)
Definition same_args (a b : cbc_opcode_entry) : bool :=
  Z.land (op_flags a) CBC_ARG_TYPES =? Z.land (op_flags b) CBC_ARG_TYPES.

Definition option_Z_eqb (a b : option Z) : bool :=
  match a, b with
  | Some x, Some y => x =? y
  | None, None => true
  | _, _ => false
  end.

(** An enumerator fits its table: its value is a byte, it is the only
    one of its name, its flags stay in the lower 5 bits and its stack
    change lies between -4 and 3. *)
Definition opcode_fits (l : list cbc_opcode_entry) (i : Z) (e : cbc_opcode_entry) : bool :=
  (i <=? CBC_MAXIMUM_BYTE_VALUE)
  && option_Z_eqb (opcode_ordinal l (op_name e)) (Some i)
  && (0 <=? op_flags e) && (op_flags e <? 2 ^ CBC_STACK_ADJUST_SHIFT)
  && (- CBC_STACK_ADJUST_BASE <=? op_stack e) && (op_stack e <=? 3).

(** The enumerator of value [j] in [l] is called [name], takes the
    arguments of [e] and changes the stack by [stack]. *)
Definition form_at (l : list cbc_opcode_entry) (j : Z) (name : string)
  (e : cbc_opcode_entry) (stack : Z) : bool :=
  match opcode_at l j with
  | Some f => String.eqb (op_name f) name && same_args e f && (op_stack f =? stack)
  | None => false
  end.

(** The forms of an opcode that has a [_PUSH_RESULT] form: that one
    follows it directly and leaves one value more on the stack, and the
    [_BLOCK] form comes next, with the stack change of the opcode itself. *)
Definition result_forms_ok (l : list cbc_opcode_entry) (i : Z) (e : cbc_opcode_entry)
  : bool :=
  match opcode_ordinal l (op_name e ++ "_PUSH_RESULT")%string with
  | Some j =>
      (j =? i + 1)
      && form_at l (i + 1) (op_name e ++ "_PUSH_RESULT")%string e (op_stack e + 1)
      && form_at l (i + 2) (op_name e ++ "_BLOCK")%string e (op_stack e)
  | None => true
  end.

(** The value of the enumerator [name]; the value of [CBC_END] or
    [CBC_EXT_END], the last one, for a name that is not in the list. *)
Definition enumerator (l : list cbc_opcode_entry) (name : string) : Z :=
  match opcode_ordinal l name with
  | Some i => i
  | None => Z.of_nat (List.length l) - 1
  end.

Section ExtendedOpcodes.

(** [PARSER_TO_EXT_OPCODE] of js-parser-internal.h, a header that is not
    part of the sources: the value that stands for an extended opcode
    where basic and extended opcodes share one variable. *)
Variable PARSER_TO_EXT_OPCODE : Z -> Z.

(** Checks whether the current opcode is a super constructor call. *)
Definition CBC_SUPER_CALL_OPERATION (opcode : Z) : bool :=
  (opcode >=? PARSER_TO_EXT_OPCODE (enumerator CBC_EXT_OPCODE_LIST "CBC_EXT_SUPER_CALL"%string))
  && (opcode <=? PARSER_TO_EXT_OPCODE
                   (enumerator CBC_EXT_OPCODE_LIST "CBC_EXT_SUPER_CALL_BLOCK"%string)).

Definition CBC_NO_RESULT_OPERATION (opcode : Z) : bool :=
  ((opcode >=? enumerator CBC_OPCODE_LIST "CBC_PRE_INCR"%string)
   && (opcode <? enumerator CBC_OPCODE_LIST "CBC_END"%string))
  || CBC_SUPER_CALL_OPERATION opcode.

End ExtendedOpcodes.

(** Whether the enumerator of value [i] has a [_PUSH_RESULT] form. *)
Definition has_result_form (l : list cbc_opcode_entry) (i : Z) : bool :=
  match opcode_at l i with
  | Some e => option_Z_eqb (opcode_ordinal l (op_name e ++ "_PUSH_RESULT")%string)
                           (Some (i + 1))
  | None => false
  end.

(** Whether the enumerator of value [i] is an opcode with a
    [_PUSH_RESULT] form, that form or the [_BLOCK] form after it. *)
Definition in_result_group (l : list cbc_opcode_entry) (i : Z) : bool :=
  has_result_form l i || has_result_form l (i - 1) || has_result_form l (i - 2).

(** The forms of a binary opcode and of a unary lvalue opcode with
    literal operands: [CBC_BINARY_WITH_LITERAL] and
    [CBC_BINARY_WITH_TWO_LITERALS] lead from a binary opcode to its
    [_RIGHT_LITERAL] and [_TWO_LITERALS] forms, which pop one and two
    values less; [CBC_UNARY_LVALUE_WITH_IDENT] leads from an opcode with a
    [_PUSH_RESULT] form to its [_IDENT] form, which pops two values less. *)
Definition literal_forms_ok (l : list cbc_opcode_entry) (i : Z) (e : cbc_opcode_entry)
  : bool :=
  let at_offset (suffix : string) (offset : Z) :=
    match opcode_ordinal l (op_name e ++ suffix)%string with
    | Some j =>
        (j =? i + offset)
        && match opcode_at l j with
           | Some f => op_stack f =? op_stack e + (if offset =? 1 then 1 else 2)
           | None => false
           end
    | None => true
    end in
  at_offset "_RIGHT_LITERAL"%string CBC_BINARY_WITH_LITERAL
  && at_offset "_TWO_LITERALS"%string CBC_BINARY_WITH_TWO_LITERALS
  && match opcode_ordinal l (op_name e ++ "_PUSH_RESULT")%string with
     | Some _ => at_offset "_IDENT"%string CBC_UNARY_LVALUE_WITH_IDENT
     | None => true
     end.

End CBCForms.

(** ** js-lexer.c: numbers, empty statements and the look-ahead checks *)

(** Error codes of [parser_error_t] that only the functions of this part
    pass to [parser_raise_error]. *)
Inductive parser_error_more_t : Type :=
| PARSER_ERR_INVALID_CHARACTER
| PARSER_ERR_INVALID_HEX_DIGIT
| PARSER_ERR_OCTAL_NUMBER_NOT_ALLOWED
| PARSER_ERR_INVALID_NUMBER
| PARSER_ERR_MISSING_EXPONENT
| PARSER_ERR_IDENTIFIER_AFTER_NUMBER
| PARSER_ERR_NUMBER_TOO_LONG
| PARSER_ERR_EVAL_NOT_ALLOWED
| PARSER_ERR_ARGUMENTS_NOT_ALLOWED.

(** How a function of this part ends when the outcome is [Done]: it
    returns, or it has called [parser_raise_error] with one of the codes
    above; [ctx] is the context as it was then. *)
Inductive ending (A : Type) : Type :=
| Returned (a : A)
| RaisedMore (e : parser_error_more_t) (ctx : parser_context_t).

Arguments Returned {A} a.
Arguments RaisedMore {A} e ctx.

Definition bind_ending {A B : Type} (r : result (ending A)) (k : A -> result (ending B))
  : result (ending B) :=
  x <- r ;;
  match x with
  | Returned a => k a
  | RaisedMore e ctx => Done (RaisedMore e ctx)
  end.

Notation "x <-- c ;; k" := (bind_ending c (fun x => k))
  (at level 61, c at next level, right associativity).

Notation "' pat <-- c ;; k" := (bind_ending c (fun x => match x with pat => k end))
  (at level 61, pat pattern, c at next level, right associativity).

(** A call of a function that raises only the codes of [parser_error_t]. *)
Definition returned {A : Type} (r : result A) : result (ending A) :=
  a <- r ;; Done (Returned a).

Definition parser_raise_more {A : Type} (ctx : parser_context_t) (e : parser_error_more_t)
  : result (ending A) :=
  Done (RaisedMore e ctx).

(** [token.extra_value] as [lexer_parse_number] sets it. *)
Inductive lexer_number_type_t : Type :=
| LEXER_NUMBER_DECIMAL
| LEXER_NUMBER_HEXADECIMAL
| LEXER_NUMBER_OCTAL.

(** Checks whether the character is hex digit. *)
Definition lexer_is_hex_digit (character : Z) : bool :=
  ((character >=? 48 (* '0' *)) && (character <=? 57 (* '9' *)))
  || ((Z.lor character 0x20 >=? 97 (* 'a' *)) && (Z.lor character 0x20 <=? 102 (* 'f' *))).

Definition is_decimal_digit (byte : Z) : bool := (byte >=? 48) && (byte <=? 57).

(** [while (source_p < source_end_p && test (source_p[0])) source_p++;]:
    the new [source_p]. *)
Fixpoint scan_while (fuel : nat) (mem : list Z) (source_end_p : Z) (test : Z -> bool)
  (source_p : Z) : result Z :=
  match fuel with
  | O => OutOfFuel
  | S fuel' =>
      more <- and_read (source_p <? source_end_p) mem source_p test ;;
      if more then scan_while fuel' mem source_end_p test (source_p + 1)
      else Done source_p
  end.

Section JsLexerMore.

Context {headers : js_parser_headers}.

(** Parse number.  [token.extra_value], which the token record of this
    development does not hold, is returned beside the context. *)
Definition lexer_parse_number (mem : list Z) (ctx : parser_context_t)
  : result (ending (lexer_number_type_t * parser_context_t)) :=
  let source_p_ := source_p ctx in
  let source_end_p := source_end_p ctx in
  let digits (test : Z -> bool) (p : Z) : result Z :=
    scan_while (scan_fuel p source_end_p) mem source_end_p test p in
  let ctx := upd_token (set_token_type LEXER_LITERAL) ctx in
  let ctx := upd_token (set_literal_is_reserved false) ctx in
  let ctx :=
    upd_lit_location
      (fun l => {| char_p := source_p_; lit_length := lit_length l;
                   lit_type := LEXER_NUMBER_LITERAL; has_escape := false |}) ctx in
  c0 <- read mem source_p_ ;;
  '(extra_value, can_be_float, p) <--
    (if (c0 =? 48 (* '0' *)) && (source_p_ + 1 <? source_end_p) then
       c1 <- read mem (source_p_ + 1) ;;
       if Z.lor c1 0x20 =? 120 (* 'x' *) then
         let p := source_p_ + 2 in
         hex <- and_read (p <? source_end_p) mem p lexer_is_hex_digit ;;
         if negb hex then parser_raise_more ctx PARSER_ERR_INVALID_HEX_DIGIT
         else
           p <- digits lexer_is_hex_digit (p + 1) ;;
           Done (Returned (LEXER_NUMBER_HEXADECIMAL, false, p))
       else if (c1 >=? 48 (* '0' *)) && (c1 <=? 55 (* '7' *)) then
         if has_flag (ctx_status_flags ctx) PARSER_IS_STRICT then
           parser_raise_more ctx PARSER_ERR_OCTAL_NUMBER_NOT_ALLOWED
         else
           p <- digits (fun b => (b >=? 48) && (b <=? 55)) (source_p_ + 1) ;;
           bad <- and_read (p <? source_end_p) mem p
                           (fun b => (b >=? 56 (* '8' *)) && (b <=? 57 (* '9' *))) ;;
           if bad then parser_raise_more ctx PARSER_ERR_INVALID_NUMBER
           else Done (Returned (LEXER_NUMBER_OCTAL, false, p))
       else if (c1 >=? 56 (* '8' *)) && (c1 <=? 57 (* '9' *)) then
         parser_raise_more ctx PARSER_ERR_INVALID_NUMBER
       else Done (Returned (LEXER_NUMBER_DECIMAL, true, source_p_ + 1))
     else
       p <- digits is_decimal_digit source_p_ ;;
       Done (Returned (LEXER_NUMBER_DECIMAL, true, p))) ;;
  p <--
    (if can_be_float : bool then
       dot <- and_read (p <? source_end_p) mem p (fun b => b =? 46 (* '.' *)) ;;
       p <- (if dot then digits is_decimal_digit (p + 1) else Done p) ;;
       exponent <- and_read (p <? source_end_p) mem p
                            (fun b => Z.lor b 0x20 =? 101 (* 'e' *)) ;;
       if exponent then
         let p := p + 1 in
         sign <- and_read (p <? source_end_p) mem p
                          (fun b => (b =? 43 (* '+' *)) || (b =? 45 (* '-' *))) ;;
         let p := if sign then p + 1 else p in
         digit <- and_read (p <? source_end_p) mem p is_decimal_digit ;;
         if negb digit then parser_raise_more ctx PARSER_ERR_MISSING_EXPONENT
         else
           p <- digits is_decimal_digit (p + 1) ;;
           Done (Returned p)
       else Done (Returned p)
     else Done (Returned p)) ;;
  ident <- (if p <? source_end_p then
              if util_is_identifier_start mem p then Done true
              else c <- read mem p ;; Done (c =? 92 (* '\\' *))
            else Done false) ;;
  if ident : bool then parser_raise_more ctx PARSER_ERR_IDENTIFIER_AFTER_NUMBER
  else
    let length := to_size_t (p - source_p ctx) in
    if length >? PARSER_MAXIMUM_IDENT_LENGTH then
      parser_raise_more ctx PARSER_ERR_NUMBER_TOO_LONG
    else
      let ctx :=
        upd_lit_location (fun l => set_char_p_length (char_p l) (to_uint16 length) l) ctx in
      let ctx := with_column (PARSER_PLUS_EQUAL_LC (column ctx) length) ctx in
      let ctx := with_source_p p ctx in
      Done (Returned (extra_value, ctx)).

(** One round of the loop of [lexer_skip_empty_statements], from its
    condition on. *)
Definition lexer_skip_empty_statements_step (mem : list Z) (ctx : parser_context_t)
  : result (loop_ctl parser_context_t) :=
  semicolon <- and_read (source_p ctx <? source_end_p ctx) mem (source_p ctx)
                        (fun b => b =? 59 (* ';' *)) ;;
  if semicolon then
    ctx <- lexer_skip_spaces mem (with_source_p (source_p ctx + 1) ctx) ;;
    Done (Next ctx)
  else Done (Exit ctx).

(** Skip all the continuous empty statements. *)
Definition lexer_skip_empty_statements (mem : list Z) (ctx : parser_context_t)
  : result parser_context_t :=
  ctx <- lexer_skip_spaces mem ctx ;;
  run_loop (lexer_skip_empty_statements_step mem)
           (scan_fuel (source_p ctx) (source_end_p ctx)) ctx.


End JsLexerMore.

(** ** js-lexer.c: the general scanner *)

(** The values of the enumerators of [lexer_token_type_t] that
    [lexer_token_type_t] above does not list: js-lexer.h is not part of
    the sources, so the value of an enumerator, given by its name, is a
    parameter. *)
Class js_lexer_tokens : Type := {
  token_code : string -> Z
}.

Section JsLexerTokens.

Context {headers : js_parser_headers} {tokens : js_lexer_tokens}.

Definition LEXER_LEFT_BRACE : lexer_token_type_t := LEXER_OTHER_TOKEN (token_code "LEXER_LEFT_BRACE").
Definition LEXER_LEFT_PAREN : lexer_token_type_t := LEXER_OTHER_TOKEN (token_code "LEXER_LEFT_PAREN").
Definition LEXER_RIGHT_PAREN : lexer_token_type_t := LEXER_OTHER_TOKEN (token_code "LEXER_RIGHT_PAREN").
Definition LEXER_SEMICOLON : lexer_token_type_t := LEXER_OTHER_TOKEN (token_code "LEXER_SEMICOLON").
Definition LEXER_COMMA : lexer_token_type_t := LEXER_OTHER_TOKEN (token_code "LEXER_COMMA").
Definition LEXER_THREE_DOTS : lexer_token_type_t := LEXER_OTHER_TOKEN (token_code "LEXER_THREE_DOTS").
Definition LEXER_DOT : lexer_token_type_t := LEXER_OTHER_TOKEN (token_code "LEXER_DOT").
Definition LEXER_LESS_EQUAL : lexer_token_type_t := LEXER_OTHER_TOKEN (token_code "LEXER_LESS_EQUAL").
Definition LEXER_ASSIGN_LEFT_SHIFT : lexer_token_type_t := LEXER_OTHER_TOKEN (token_code "LEXER_ASSIGN_LEFT_SHIFT").
Definition LEXER_LEFT_SHIFT : lexer_token_type_t := LEXER_OTHER_TOKEN (token_code "LEXER_LEFT_SHIFT").
Definition LEXER_LESS : lexer_token_type_t := LEXER_OTHER_TOKEN (token_code "LEXER_LESS").
Definition LEXER_GREATER_EQUAL : lexer_token_type_t := LEXER_OTHER_TOKEN (token_code "LEXER_GREATER_EQUAL").
Definition LEXER_ASSIGN_RIGHT_SHIFT : lexer_token_type_t := LEXER_OTHER_TOKEN (token_code "LEXER_ASSIGN_RIGHT_SHIFT").
Definition LEXER_ASSIGN_UNS_RIGHT_SHIFT : lexer_token_type_t := LEXER_OTHER_TOKEN (token_code "LEXER_ASSIGN_UNS_RIGHT_SHIFT").
Definition LEXER_UNS_RIGHT_SHIFT : lexer_token_type_t := LEXER_OTHER_TOKEN (token_code "LEXER_UNS_RIGHT_SHIFT").
Definition LEXER_RIGHT_SHIFT : lexer_token_type_t := LEXER_OTHER_TOKEN (token_code "LEXER_RIGHT_SHIFT").
Definition LEXER_GREATER : lexer_token_type_t := LEXER_OTHER_TOKEN (token_code "LEXER_GREATER").
Definition LEXER_STRICT_EQUAL : lexer_token_type_t := LEXER_OTHER_TOKEN (token_code "LEXER_STRICT_EQUAL").
Definition LEXER_EQUAL : lexer_token_type_t := LEXER_OTHER_TOKEN (token_code "LEXER_EQUAL").
Definition LEXER_ARROW : lexer_token_type_t := LEXER_OTHER_TOKEN (token_code "LEXER_ARROW").
Definition LEXER_ASSIGN : lexer_token_type_t := LEXER_OTHER_TOKEN (token_code "LEXER_ASSIGN").
Definition LEXER_STRICT_NOT_EQUAL : lexer_token_type_t := LEXER_OTHER_TOKEN (token_code "LEXER_STRICT_NOT_EQUAL").
Definition LEXER_NOT_EQUAL : lexer_token_type_t := LEXER_OTHER_TOKEN (token_code "LEXER_NOT_EQUAL").
Definition LEXER_LOGICAL_NOT : lexer_token_type_t := LEXER_OTHER_TOKEN (token_code "LEXER_LOGICAL_NOT").
Definition LEXER_ADD : lexer_token_type_t := LEXER_OTHER_TOKEN (token_code "LEXER_ADD").
Definition LEXER_ASSIGN_ADD : lexer_token_type_t := LEXER_OTHER_TOKEN (token_code "LEXER_ASSIGN_ADD").
Definition LEXER_INCREASE : lexer_token_type_t := LEXER_OTHER_TOKEN (token_code "LEXER_INCREASE").
Definition LEXER_SUBTRACT : lexer_token_type_t := LEXER_OTHER_TOKEN (token_code "LEXER_SUBTRACT").
Definition LEXER_ASSIGN_SUBTRACT : lexer_token_type_t := LEXER_OTHER_TOKEN (token_code "LEXER_ASSIGN_SUBTRACT").
Definition LEXER_DECREASE : lexer_token_type_t := LEXER_OTHER_TOKEN (token_code "LEXER_DECREASE").
Definition LEXER_MULTIPLY : lexer_token_type_t := LEXER_OTHER_TOKEN (token_code "LEXER_MULTIPLY").
Definition LEXER_ASSIGN_MULTIPLY : lexer_token_type_t := LEXER_OTHER_TOKEN (token_code "LEXER_ASSIGN_MULTIPLY").
Definition LEXER_MODULO : lexer_token_type_t := LEXER_OTHER_TOKEN (token_code "LEXER_MODULO").
Definition LEXER_ASSIGN_MODULO : lexer_token_type_t := LEXER_OTHER_TOKEN (token_code "LEXER_ASSIGN_MODULO").
Definition LEXER_BIT_AND : lexer_token_type_t := LEXER_OTHER_TOKEN (token_code "LEXER_BIT_AND").
Definition LEXER_ASSIGN_BIT_AND : lexer_token_type_t := LEXER_OTHER_TOKEN (token_code "LEXER_ASSIGN_BIT_AND").
Definition LEXER_LOGICAL_AND : lexer_token_type_t := LEXER_OTHER_TOKEN (token_code "LEXER_LOGICAL_AND").
Definition LEXER_BIT_OR : lexer_token_type_t := LEXER_OTHER_TOKEN (token_code "LEXER_BIT_OR").
Definition LEXER_ASSIGN_BIT_OR : lexer_token_type_t := LEXER_OTHER_TOKEN (token_code "LEXER_ASSIGN_BIT_OR").
Definition LEXER_LOGICAL_OR : lexer_token_type_t := LEXER_OTHER_TOKEN (token_code "LEXER_LOGICAL_OR").
Definition LEXER_BIT_XOR : lexer_token_type_t := LEXER_OTHER_TOKEN (token_code "LEXER_BIT_XOR").
Definition LEXER_ASSIGN_BIT_XOR : lexer_token_type_t := LEXER_OTHER_TOKEN (token_code "LEXER_ASSIGN_BIT_XOR").
Definition LEXER_BIT_NOT : lexer_token_type_t := LEXER_OTHER_TOKEN (token_code "LEXER_BIT_NOT").
Definition LEXER_QUESTION_MARK : lexer_token_type_t := LEXER_OTHER_TOKEN (token_code "LEXER_QUESTION_MARK").
Definition LEXER_COLON : lexer_token_type_t := LEXER_OTHER_TOKEN (token_code "LEXER_COLON").

(** How a case of the switch of [lexer_next_token] ends: with
    [context_p->token.type = type; length = n; break;], with a call of
    [lexer_parse_number] or of [lexer_parse_string], or in the default
    case. *)
Inductive switch_action : Type :=
| TokenOfLength (type : lexer_token_type_t) (length : Z)
| CallParseNumber
| CallParseString
| RaiseInvalidCharacter.

(** [length >= n && context_p->source_p[n - 1] == character] *)
Definition next_is (mem : list Z) (ctx : parser_context_t) (length n character : Z)
  : result bool :=
  and_read (length >=? n) mem (source_p ctx + (n - 1)) (fun b => b =? character).

Definition LEXER_TYPE_A_TOKEN (type1 : lexer_token_type_t) : result switch_action :=
  Done (TokenOfLength type1 1).

Definition LEXER_TYPE_B_TOKEN (mem : list Z) (ctx : parser_context_t) (length : Z)
  (type1 : lexer_token_type_t) (char2 : Z) (type2 : lexer_token_type_t)
  : result switch_action :=
  second <- next_is mem ctx length 2 char2 ;;
  if second then Done (TokenOfLength type2 2)
  else Done (TokenOfLength type1 1).

Definition LEXER_TYPE_C_TOKEN (mem : list Z) (ctx : parser_context_t) (length : Z)
  (type1 : lexer_token_type_t) (char2 : Z) (type2 : lexer_token_type_t)
  (char3 : Z) (type3 : lexer_token_type_t) : result switch_action :=
  second <- next_is mem ctx length 2 char2 ;;
  if second then Done (TokenOfLength type2 2)
  else
    second <- next_is mem ctx length 2 char3 ;;
    if second then Done (TokenOfLength type3 2)
    else Done (TokenOfLength type1 1).

(** The switch of [lexer_next_token] on [context_p->source_p[0]];
    [length] is the number of bytes left. *)
Definition lexer_next_token_switch (mem : list Z) (ctx : parser_context_t) (length : Z)
  : result switch_action :=
  let next_is := next_is mem ctx length in
  c0 <- read mem (source_p ctx) ;;
  if c0 =? 123 (* '{' *) then LEXER_TYPE_A_TOKEN LEXER_LEFT_BRACE
  else if c0 =? 40 (* '(' *) then LEXER_TYPE_A_TOKEN LEXER_LEFT_PAREN
  else if c0 =? 91 (* '[' *) then LEXER_TYPE_A_TOKEN LEXER_LEFT_SQUARE
  else if c0 =? 125 (* '}' *) then LEXER_TYPE_A_TOKEN LEXER_RIGHT_BRACE
  else if c0 =? 41 (* ')' *) then LEXER_TYPE_A_TOKEN LEXER_RIGHT_PAREN
  else if c0 =? 93 (* ']' *) then LEXER_TYPE_A_TOKEN LEXER_RIGHT_SQUARE
  else if c0 =? 59 (* ';' *) then LEXER_TYPE_A_TOKEN LEXER_SEMICOLON
  else if c0 =? 44 (* ',' *) then LEXER_TYPE_A_TOKEN LEXER_COMMA
  else if c0 =? 46 (* '.' *) then
    digit <- and_read (length >=? 2) mem (source_p ctx + 1) is_decimal_digit ;;
    if digit then Done CallParseNumber
    else
      dots <- (if length >=? 3 then
                 c1 <- read mem (source_p ctx + 1) ;;
                 if c1 =? 46 then c2 <- read mem (source_p ctx + 2) ;; Done (c2 =? 46)
                 else Done false
               else Done false) ;;
      if dots : bool then Done (TokenOfLength LEXER_THREE_DOTS 3)
      else Done (TokenOfLength LEXER_DOT 1)
  else if c0 =? 60 (* '<' *) then
    equal <- next_is 2 61 ;;
    if equal then Done (TokenOfLength LEXER_LESS_EQUAL 2)
    else
      less <- next_is 2 60 ;;
      if less then
        equal <- next_is 3 61 ;;
        if equal then Done (TokenOfLength LEXER_ASSIGN_LEFT_SHIFT 3)
        else Done (TokenOfLength LEXER_LEFT_SHIFT 2)
      else Done (TokenOfLength LEXER_LESS 1)
  else if c0 =? 62 (* '>' *) then
    equal <- next_is 2 61 ;;
    if equal then Done (TokenOfLength LEXER_GREATER_EQUAL 2)
    else
      greater <- next_is 2 62 ;;
      if greater then
        equal <- next_is 3 61 ;;
        if equal then Done (TokenOfLength LEXER_ASSIGN_RIGHT_SHIFT 3)
        else
          greater <- next_is 3 62 ;;
          if greater then
            equal <- next_is 4 61 ;;
            if equal then Done (TokenOfLength LEXER_ASSIGN_UNS_RIGHT_SHIFT 4)
            else Done (TokenOfLength LEXER_UNS_RIGHT_SHIFT 3)
          else Done (TokenOfLength LEXER_RIGHT_SHIFT 2)
      else Done (TokenOfLength LEXER_GREATER 1)
  else if c0 =? 61 (* '=' *) then
    equal <- next_is 2 61 ;;
    if equal then
      equal <- next_is 3 61 ;;
      if equal then Done (TokenOfLength LEXER_STRICT_EQUAL 3)
      else Done (TokenOfLength LEXER_EQUAL 2)
    else
      greater <- next_is 2 62 ;;
      if greater then Done (TokenOfLength LEXER_ARROW 2)
      else Done (TokenOfLength LEXER_ASSIGN 1)
  else if c0 =? 33 (* '!' *) then
    equal <- next_is 2 61 ;;
    if equal then
      equal <- next_is 3 61 ;;
      if equal then Done (TokenOfLength LEXER_STRICT_NOT_EQUAL 3)
      else Done (TokenOfLength LEXER_NOT_EQUAL 2)
    else Done (TokenOfLength LEXER_LOGICAL_NOT 1)
  else if c0 =? 43 (* '+' *) then
    LEXER_TYPE_C_TOKEN mem ctx length LEXER_ADD 61 LEXER_ASSIGN_ADD 43 LEXER_INCREASE
  else if c0 =? 45 (* '-' *) then
    LEXER_TYPE_C_TOKEN mem ctx length LEXER_SUBTRACT 61 LEXER_ASSIGN_SUBTRACT
                       45 LEXER_DECREASE
  else if c0 =? 42 (* '*' *) then
    LEXER_TYPE_B_TOKEN mem ctx length LEXER_MULTIPLY 61 LEXER_ASSIGN_MULTIPLY
  else if c0 =? 47 (* '/' *) then
    LEXER_TYPE_B_TOKEN mem ctx length LEXER_DIVIDE 61 LEXER_ASSIGN_DIVIDE
  else if c0 =? 37 (* '%' *) then
    LEXER_TYPE_B_TOKEN mem ctx length LEXER_MODULO 61 LEXER_ASSIGN_MODULO
  else if c0 =? 38 (* '&' *) then
    LEXER_TYPE_C_TOKEN mem ctx length LEXER_BIT_AND 61 LEXER_ASSIGN_BIT_AND
                       38 LEXER_LOGICAL_AND
  else if c0 =? 124 (* '|' *) then
    LEXER_TYPE_C_TOKEN mem ctx length LEXER_BIT_OR 61 LEXER_ASSIGN_BIT_OR
                       124 LEXER_LOGICAL_OR
  else if c0 =? 94 (* '^' *) then
    LEXER_TYPE_B_TOKEN mem ctx length LEXER_BIT_XOR 61 LEXER_ASSIGN_BIT_XOR
  else if c0 =? 126 (* '~' *) then LEXER_TYPE_A_TOKEN LEXER_BIT_NOT
  else if c0 =? 63 (* '?' *) then LEXER_TYPE_A_TOKEN LEXER_QUESTION_MARK
  else if c0 =? 58 (* ':' *) then LEXER_TYPE_A_TOKEN LEXER_COLON
  else if (c0 =? 39 (* single quote *)) || (c0 =? 34 (* double quote *))
          || (c0 =? 96 (* '`' *)) then
    Done CallParseString
  else Done RaiseInvalidCharacter.

(** Get next token.  [token.extra_value] is returned beside the context
    when [lexer_parse_number] has set it. *)
Definition lexer_next_token (mem : list Z) (ctx : parser_context_t)
  : result (ending (option lexer_number_type_t * parser_context_t)) :=
  let number (ctx : parser_context_t) :=
    '(extra_value, ctx) <-- lexer_parse_number mem ctx ;;
    Done (Returned (Some extra_value, ctx)) in
  ctx <- lexer_skip_spaces mem ctx ;;
  let ctx := upd_token (set_token_line (line ctx)) ctx in
  let ctx := upd_token (set_token_column (column ctx)) ctx in
  let length := to_size_t (source_end_p ctx - source_p ctx) in
  if length =? 0 then
    Done (Returned (None, upd_token (set_token_type LEXER_EOS) ctx))
  else
    ident <- (if util_is_identifier_start mem (source_p ctx) then Done true
              else c <- read mem (source_p ctx) ;; Done (c =? 92 (* '\\' *))) ;;
    if ident : bool then
      ctx <- lexer_parse_identifier mem ctx true ;;
      Done (Returned (None, ctx))
    else
      c0 <- read mem (source_p ctx) ;;
      if is_decimal_digit c0 then number ctx
      else
        action <- lexer_next_token_switch mem ctx length ;;
        match action with
        | TokenOfLength type length =>
            let ctx := upd_token (set_token_type type) ctx in
            let ctx := with_source_p (source_p ctx + length) ctx in
            let ctx := with_column (PARSER_PLUS_EQUAL_LC (column ctx) length) ctx in
            Done (Returned (None, ctx))
        | CallParseNumber => number ctx
        | CallParseString =>
            ctx <- lexer_parse_string mem ctx ;;
            Done (Returned (None, ctx))
        | RaiseInvalidCharacter => parser_raise_more ctx PARSER_ERR_INVALID_CHARACTER
        end.

(** Checks whether the next token is a type used for detecting arrow
    functions: the identified token type, and the context. *)
Definition lexer_check_arrow (mem : list Z) (ctx : parser_context_t)
  : result (lexer_token_type_t * parser_context_t) :=
  ctx <- lexer_skip_spaces mem ctx ;;
  let ctx :=
    upd_token
      (set_token_flags (to_uint8 (Z.lor (token_flags (token ctx)) LEXER_NO_SKIP_SPACES)))
      ctx in
  if source_p ctx <? source_end_p ctx then
    c0 <- read mem (source_p ctx) ;;
    if c0 =? 44 (* ',' *) then Done (LEXER_COMMA, ctx)
    else if c0 =? 41 (* ')' *) then Done (LEXER_RIGHT_PAREN, ctx)
    else if c0 =? 61 (* '=' *) then
      arrow <- (if negb (has_flag (token_flags (token ctx)) LEXER_WAS_NEWLINE) then
                  and_read (source_p ctx + 1 <? source_end_p ctx) mem (source_p ctx + 1)
                           (fun b => b =? 62 (* '>' *))
                else Done false) ;;
      if arrow : bool then Done (LEXER_ARROW, ctx) else Done (LEXER_EOS, ctx)
    else Done (LEXER_EOS, ctx)
  else Done (LEXER_EOS, ctx).

End JsLexerTokens.

Section JsLexerExpect.

Context {headers : js_parser_headers}.

(** Next token must be an identifier ([lexer_expect_identifier]). *)
Definition lexer_expect_identifier (mem : list Z) (ctx : parser_context_t)
  (literal_type : lexer_literal_type_t) : result (ending parser_context_t) :=
  ctx <- lexer_skip_spaces mem ctx ;;
  let ctx := upd_token (set_token_line (line ctx)) ctx in
  let ctx := upd_token (set_token_column (column ctx)) ctx in
  ident <- at_identifier mem ctx ;;
  if ident : bool then
    ctx <- lexer_parse_identifier mem ctx
             (negb (lexer_literal_type_t_beq literal_type LEXER_STRING_LITERAL)) ;;
    match token_type (token ctx) with
    | LEXER_LITERAL =>
        ctx <- lexer_construct_literal_object mem ctx (lit_location (token ctx))
                                              literal_type ;;
        if lexer_literal_type_t_beq literal_type LEXER_IDENT_LITERAL
           && has_flag (ctx_status_flags ctx) PARSER_IS_STRICT then
          match lit_object_type (lit_object ctx) with
          | LEXER_LITERAL_OBJECT_ANY =>
              Done (Returned (upd_lit_location (set_lit_type literal_type) ctx))
          | LEXER_LITERAL_OBJECT_EVAL =>
              parser_raise_more ctx PARSER_ERR_EVAL_NOT_ALLOWED
          | LEXER_LITERAL_OBJECT_ARGUMENTS =>
              parser_raise_more ctx PARSER_ERR_ARGUMENTS_NOT_ALLOWED
          end
        else Done (Returned (upd_lit_location (set_lit_type literal_type) ctx))
    | _ => returned (parser_raise_error ctx PARSER_ERR_IDENTIFIER_EXPECTED)
    end
  else returned (parser_raise_error ctx PARSER_ERR_IDENTIFIER_EXPECTED).

End JsLexerExpect.

(** ** What the remaining proofs speak of *)

(** [ends P R r]: the computation comes to an end, without a stray read
    and within its rounds; when it returns its value satisfies [P], when
    it raises an error the code and the context satisfy [R]. *)
Definition ends {A : Type} (P : A -> Prop) (R : parser_error_t -> parser_context_t -> Prop)
  (r : result A) : Prop :=
  match r with
  | Done a => P a
  | Raised e ctx => R e ctx
  | Fault => False
  | OutOfFuel => False
  end.

(** No error is raised. *)
Definition no_error (_ : parser_error_t) (_ : parser_context_t) : Prop := False.

(** The value of a hexadecimal digit and of a run of them. *)
Definition hex_digit_value (byte : Z) : Z :=
  if (byte >=? 48) && (byte <=? 57) then byte - 48 else Z.lor byte 0x20 - 87.

Definition hex_value_from (value : Z) (bytes : list Z) : Z :=
  fold_left (fun v b => 16 * v + hex_digit_value b) bytes value.

Definition hex_value (bytes : list Z) : Z := hex_value_from 0 bytes.

(** The bytes that [lexer_skip_spaces] passes one at a time. *)
Definition is_plain_space (byte : Z) : bool :=
  (byte =? LEXER_NEWLINE_CR) || (byte =? LEXER_NEWLINE_LF)
  || (byte =? 0x0b) || (byte =? 0x0c) || (byte =? 0x20) || (byte =? LEXER_TAB).

(** Every byte E2 of the source between [p] and [source_end_p], the
    first byte of a sequence of three, has the other two before
    [source_end_p], as in well-formed UTF-8. *)
Definition three_byte_sequences_complete (mem : list Z) (p source_end_p : Z) : Prop :=
  forall q, p <= q < source_end_p ->
            read mem q = Done LEXER_NEWLINE_LS_PS_BYTE_1 -> q + 2 < source_end_p.

(** The cursor is inside the source text. *)
Definition cursor_in_bounds (mem : list Z) (ctx : parser_context_t) : Prop :=
  0 <= source_p ctx <= source_end_p ctx
  /\ source_end_p ctx <= Z.of_nat (List.length mem).

Section JsLexerMoreSpec.

Context {headers : js_parser_headers}.

(** What [lexer_parse_number] leaves when it returns, for a call at the
    cursor [ctx]. *)
Definition number_token (ctx ctx' : parser_context_t) : Prop :=
  token_type (token ctx') = LEXER_LITERAL
  /\ literal_is_reserved (token ctx') = false
  /\ lit_location (token ctx')
     = {| char_p := source_p ctx; lit_length := source_p ctx' - source_p ctx;
          lit_type := LEXER_NUMBER_LITERAL; has_escape := false |}
  /\ source_p ctx <= source_p ctx' <= source_end_p ctx
  /\ source_p ctx' - source_p ctx <= PARSER_MAXIMUM_IDENT_LENGTH
  /\ column ctx' = to_lc (column ctx + (source_p ctx' - source_p ctx))
  /\ line ctx' = line ctx
  /\ source_end_p ctx' = source_end_p ctx
  /\ token_line (token ctx') = token_line (token ctx)
  /\ token_column (token ctx') = token_column (token ctx)
  /\ ctx_status_flags ctx' = ctx_status_flags ctx
  /\ lit_object ctx' = lit_object ctx
  /\ literal_pool ctx' = literal_pool ctx
  /\ literal_count ctx' = literal_count ctx.

End JsLexerMoreSpec.

(** The error codes that [lexer_parse_number] raises. *)
Definition is_number_error (e : parser_error_more_t) : Prop :=
  match e with
  | PARSER_ERR_INVALID_HEX_DIGIT | PARSER_ERR_OCTAL_NUMBER_NOT_ALLOWED
  | PARSER_ERR_INVALID_NUMBER | PARSER_ERR_MISSING_EXPONENT
  | PARSER_ERR_IDENTIFIER_AFTER_NUMBER | PARSER_ERR_NUMBER_TOO_LONG => True
  | _ => False
  end.

(** ** The keyword search *)

(** The comparison of one round of the keyword search of
    [lexer_parse_identifier]: the difference of the first bytes and,
    when they are the same, the result of [memcmp]. *)
Definition keyword_compare (ident keyword : list Z) : Z :=
  match ident, keyword with
  | c0 :: _, k0 :: _ => if c0 - k0 =? 0 then memcmp ident keyword else c0 - k0
  | _, _ => 0
  end.

(** A keyword group is in order for the search: its keywords have [n]
    bytes and each one compares below all those that follow it. *)
Fixpoint keyword_group_sorted (n : nat) (group : list keyword_string_t) : bool :=
  match group with
  | [] => true
  | k :: rest =>
      (List.length (bytes_of_string (keyword_p k)) =? n)%nat
      && forallb (fun k' =>
                    (keyword_compare (bytes_of_string (keyword_p k))
                                     (bytes_of_string (keyword_p k')) <? 0)
                    && (keyword_compare (bytes_of_string (keyword_p k'))
                                        (bytes_of_string (keyword_p k)) >? 0))
                 rest
      && keyword_group_sorted n rest
  end.

(** ** The punctuators of [lexer_next_token] *)

(** The bytes [bytes] start with the bytes [s]. *)
Fixpoint starts_with (s bytes : list Z) : bool :=
  match s, bytes with
  | [], _ => true
  | x :: s', b :: bytes' => (b =? x) && starts_with s' bytes'
  | _ :: _, [] => false
  end.

Section JsLexerPunctuators.

Context {tokens : js_lexer_tokens}.

(** The punctuators that the switch of [lexer_next_token] tells apart,
    each with the type of its token. *)
Definition punctuators : list (string * lexer_token_type_t) :=
  [ ("{", LEXER_LEFT_BRACE); ("(", LEXER_LEFT_PAREN); ("[", LEXER_LEFT_SQUARE);
    ("}", LEXER_RIGHT_BRACE); (")", LEXER_RIGHT_PAREN); ("]", LEXER_RIGHT_SQUARE);
    (";", LEXER_SEMICOLON); (",", LEXER_COMMA);
    (".", LEXER_DOT); ("...", LEXER_THREE_DOTS);
    ("<", LEXER_LESS); ("<=", LEXER_LESS_EQUAL); ("<<", LEXER_LEFT_SHIFT);
    ("<<=", LEXER_ASSIGN_LEFT_SHIFT);
    (">", LEXER_GREATER); (">=", LEXER_GREATER_EQUAL); (">>", LEXER_RIGHT_SHIFT);
    (">>=", LEXER_ASSIGN_RIGHT_SHIFT); (">>>", LEXER_UNS_RIGHT_SHIFT);
    (">>>=", LEXER_ASSIGN_UNS_RIGHT_SHIFT);
    ("=", LEXER_ASSIGN); ("==", LEXER_EQUAL); ("===", LEXER_STRICT_EQUAL);
    ("=>", LEXER_ARROW);
    ("!", LEXER_LOGICAL_NOT); ("!=", LEXER_NOT_EQUAL); ("!==", LEXER_STRICT_NOT_EQUAL);
    ("+", LEXER_ADD); ("+=", LEXER_ASSIGN_ADD); ("++", LEXER_INCREASE);
    ("-", LEXER_SUBTRACT); ("-=", LEXER_ASSIGN_SUBTRACT); ("--", LEXER_DECREASE);
    ("*", LEXER_MULTIPLY); ("*=", LEXER_ASSIGN_MULTIPLY);
    ("/", LEXER_DIVIDE); ("/=", LEXER_ASSIGN_DIVIDE);
    ("%", LEXER_MODULO); ("%=", LEXER_ASSIGN_MODULO);
    ("&", LEXER_BIT_AND); ("&=", LEXER_ASSIGN_BIT_AND); ("&&", LEXER_LOGICAL_AND);
    ("|", LEXER_BIT_OR); ("|=", LEXER_ASSIGN_BIT_OR); ("||", LEXER_LOGICAL_OR);
    ("^", LEXER_BIT_XOR); ("^=", LEXER_ASSIGN_BIT_XOR);
    ("~", LEXER_BIT_NOT); ("?", LEXER_QUESTION_MARK); (":", LEXER_COLON) ]%string.

End JsLexerPunctuators.

(** Token codes to run the model on: the name of the enumerator read as
    a number in base 256, so that two names never share a code. *)
Definition reference_tokens : js_lexer_tokens := {|
  token_code := fun name => fold_left (fun v b => 256 * v + b) (bytes_of_string name) 0
|}.

(** * Properties *)

Section JsLexerFacts.

Context {headers : js_parser_headers}.

(** ** Reading *)

Lemma read_in_bounds (mem : list Z) (p : Z) :
  0 <= p < Z.of_nat (List.length mem) -> exists b, read mem p = Done b.
Proof.
  intros [Hlo Hhi]. unfold read.
  destruct (Z.ltb_spec p 0) as [Hneg | _]; [lia |].
  destruct (nth_error mem (Z.to_nat p)) as [b |] eqn:Hnth.
  - now exists b.
  - apply nth_error_None in Hnth. lia.
Qed.



(** ** Tab stops *)










(** ** The literal pool *)

Lemma bytes_eqb_eq (a b : list Z) : bytes_eqb a b = true <-> a = b.
Proof.
  revert b. induction a as [| x a IH]; intros [| y b]; simpl; split;
    try discriminate; try reflexivity.
  - intros H. apply andb_true_iff in H as [Hxy Hab].
    apply Z.eqb_eq in Hxy. apply IH in Hab. now subst.
  - intros H. injection H as -> ->. rewrite Z.eqb_refl. simpl. now apply IH.
Qed.

Lemma lexer_literal_type_t_beq_eq (a b : lexer_literal_type_t) :
  lexer_literal_type_t_beq a b = true <-> a = b.
Proof. destruct a, b; simpl; split; intros H; try reflexivity; discriminate. Qed.

(** The test of the search loop is equality of type, length and content. *)
Lemma literal_matches_iff (e : lexer_literal_t) (chars : list Z) (length : Z)
  (type : lexer_literal_type_t) :
  literal_matches e chars length type = true
  <-> entry_type e = type /\ prop_length e = length /\ u_char_p e = chars.
Proof.
  unfold literal_matches, util_compare_char_literals.
  rewrite !andb_true_iff, lexer_literal_type_t_beq_eq, Z.eqb_eq, bytes_eqb_eq. tauto.
Qed.

Lemma find_char_literal_spec (chars : list Z) (length : Z) (type : lexer_literal_type_t) :
  forall (pool : list lexer_literal_t) (k : Z),
    0 <= k -> k + Z.of_nat (List.length pool) < 2 ^ 32 ->
    match find_char_literal pool chars length type k with
    | (true, index) =>
        exists (n : nat) (e : lexer_literal_t),
          index = k + Z.of_nat n
          /\ nth_error pool n = Some e
          /\ literal_matches e chars length type = true
          /\ forall (m : nat) (e' : lexer_literal_t),
               (m < n)%nat -> nth_error pool m = Some e' ->
               literal_matches e' chars length type = false
    | (false, index) =>
        index = k + Z.of_nat (List.length pool)
        /\ forall e, In e pool -> literal_matches e chars length type = false
    end.
Proof.
  induction pool as [| x pool IH]; intros k Hk Hbound.
  - simpl. split; [lia | intros e []].
  - simpl. destruct (literal_matches x chars length type) eqn:Hx.
    + exists O, x. repeat split; [lia | assumption | intros m e' Hm; lia].
    + assert (Hwrap : to_uint32 (k + 1) = k + 1).
      { unfold to_uint32. apply Z.mod_small. simpl List.length in Hbound. lia. }
      rewrite Hwrap.
      specialize (IH (k + 1)). simpl List.length in Hbound.
      destruct (find_char_literal pool chars length type (k + 1)) as [[|] index].
      * destruct IH as (n & e & Hindex & Hnth & Hmatch & Hfirst); [lia | lia |].
        exists (S n), e. repeat split; [lia | assumption | assumption |].
        intros [| m] e' Hm Hnth'.
        -- injection Hnth' as <-. exact Hx.
        -- apply (Hfirst m e'); [lia | exact Hnth'].
      * destruct IH as [Hindex Hnone]; [lia | lia |].
        split; [lia |]. intros e [<- | Hin]; [exact Hx | now apply Hnone].
Qed.

Lemma update_literal_nth (f : lexer_literal_t -> lexer_literal_t) :
  forall (pool : list lexer_literal_t) (n : nat) (e : lexer_literal_t),
    nth_error pool n = Some e ->
    nth_error (update_literal f n pool) n = Some (f e)
    /\ forall m, m <> n -> nth_error (update_literal f n pool) m = nth_error pool m.
Proof.
  induction pool as [| x pool IH]; intros n e Hnth.
  - destruct n; discriminate.
  - destruct n as [| n]; simpl.
    + injection Hnth as <-. split; [reflexivity |].
      intros [| m] Hm; [congruence | reflexivity].
    + simpl in Hnth. destruct (IH n e Hnth) as [Hn Hother].
      split; [exact Hn |]. intros [| m] Hm; [reflexivity |].
      simpl. apply Hother. congruence.
Qed.

Lemma first_match_unique (chars : list Z) (length : Z) (type : lexer_literal_type_t)
  (pool : list lexer_literal_t) (n n' : nat) (e e' : lexer_literal_t) :
  nth_error pool n = Some e ->
  literal_matches e chars length type = true ->
  (forall m x, (m < n)%nat -> nth_error pool m = Some x ->
               literal_matches x chars length type = false) ->
  nth_error pool n' = Some e' ->
  literal_matches e' chars length type = true ->
  (forall m x, (m < n')%nat -> nth_error pool m = Some x ->
               literal_matches x chars length type = false) ->
  n = n' /\ e = e'.
Proof.
  intros Hn He Hfirst Hn' He' Hfirst'.
  assert (n = n') as <-.
  { destruct (Nat.lt_trichotomy n n') as [Hlt | [Heq | Hgt]]; [| exact Heq |].
    - rewrite (Hfirst' n e Hlt Hn) in He. discriminate.
    - rewrite (Hfirst n' e' Hgt Hn') in He'. discriminate. }
  split; congruence.
Qed.

(** C3. [lexer_process_char_literal] on a pool that holds
    [literal_count] entries.  If an entry has the type, the length and
    the content of the query, the result points at the first such entry:
    [lit_object.index] is its index, its [LEXER_FLAG_UNUSED_IDENT] is
    cleared, nothing else changes in the pool and [literal_count] stays.
    If there is none and [literal_count] has reached
    [PARSER_MAXIMUM_NUMBER_OF_LITERALS], the call raises
    [PARSER_ERR_LITERAL_LIMIT_REACHED] and leaves the context as it was.
    Otherwise the pool grows by one entry at its end, whose index is the
    previous [literal_count], and [literal_count] grows by one (the call
    raises [PARSER_ERR_OUT_OF_MEMORY] instead when the buffer of an
    escape-bearing literal cannot be allocated). *)
Theorem lexer_process_char_literal_spec (ctx : parser_context_t) (chars : list Z)
  (length : Z) (literal_type : lexer_literal_type_t) (has_escape : bool) :
  Z.of_nat (List.length (literal_pool ctx)) = literal_count ctx ->
  literal_count ctx < 2 ^ 16 ->
  PARSER_MAXIMUM_NUMBER_OF_LITERALS < 2 ^ 16 ->
  let query := firstn (Z.to_nat length) chars in
  let same (e : lexer_literal_t) :=
    entry_type e = literal_type /\ prop_length e = length /\ u_char_p e = query in
  let call := lexer_process_char_literal ctx chars length literal_type has_escape in
  (forall (n : nat) (e : lexer_literal_t),
     nth_error (literal_pool ctx) n = Some e ->
     same e ->
     (forall m e', (m < n)%nat -> nth_error (literal_pool ctx) m = Some e' -> ~ same e') ->
     exists ctx',
       call = Done ctx'
       /\ lit_index (lit_object ctx') = Z.of_nat n
       /\ literal_p (lit_object ctx') = Some n
       /\ nth_error (literal_pool ctx') n
          = Some (set_literal_status_flags
                    (to_uint8 (Z.land (status_flags e) (Z.lnot LEXER_FLAG_UNUSED_IDENT))) e)
       /\ (forall m, m <> n ->
             nth_error (literal_pool ctx') m = nth_error (literal_pool ctx) m)
       /\ literal_count ctx' = literal_count ctx)
  /\ ((forall e, In e (literal_pool ctx) -> ~ same e) ->
      (literal_count ctx >= PARSER_MAXIMUM_NUMBER_OF_LITERALS ->
       call = Raised PARSER_ERR_LITERAL_LIMIT_REACHED ctx)
      /\ (literal_count ctx < PARSER_MAXIMUM_NUMBER_OF_LITERALS ->
          let entry :=
            {| u_char_p := [];
               prop_length := to_uint16 length;
               entry_type := literal_type;
               status_flags := if has_escape && negb (length =? 0) then 0
                               else LEXER_FLAG_SOURCE_PTR |} in
          (snd (util_set_char_literal entry query) = 0 ->
           exists ctx',
             call = Done ctx'
             /\ literal_pool ctx' = literal_pool ctx ++ [set_u_char_p query entry]
             /\ lit_index (lit_object ctx') = literal_count ctx
             /\ literal_p (lit_object ctx') = Some (List.length (literal_pool ctx))
             /\ literal_count ctx' = literal_count ctx + 1)
          /\ (snd (util_set_char_literal entry query) <> 0 ->
              exists ctx', call = Raised PARSER_ERR_OUT_OF_MEMORY ctx'))).
Proof.
  intros Hcount Hu16 Hmax query same call.
  assert (Hsame : forall e, same e <-> literal_matches e query length literal_type = true).
  { intros e. symmetry. apply literal_matches_iff. }
  pose proof (find_char_literal_spec query length literal_type (literal_pool ctx) 0
                ltac:(lia) ltac:(change (2 ^ 16) with 65536 in *;
                                 change (2 ^ 32) with 4294967296; lia)) as Hfind.
  subst call. unfold lexer_process_char_literal. fold query.
  destruct (find_char_literal (literal_pool ctx) query length literal_type 0)
    as [[|] index].
  - destruct Hfind as (n0 & e0 & Hindex & Hnth0 & Hmatch0 & Hfirst0).
    split.
    + intros n e Hnth He Hfirst.
      destruct (first_match_unique query length literal_type (literal_pool ctx)
                  n0 n e0 e Hnth0 Hmatch0 Hfirst0 Hnth (proj1 (Hsame e) He))
        as [-> ->].
      { intros m x Hm Hx. specialize (Hfirst m x Hm Hx).
        destruct (literal_matches x query length literal_type) eqn:Hmx; [| reflexivity].
        exfalso. apply Hfirst. now apply Hsame. }
      assert (Hn : Z.to_nat index = n) by lia. rewrite Hn.
      assert (Hlen : (n < List.length (literal_pool ctx))%nat)
        by (apply nth_error_Some; congruence).
      eexists. split; [reflexivity |].
      cbn [lit_object with_lit_object with_literal_pool lit_index literal_p
           literal_pool literal_count].
      destruct (update_literal_nth
                  (fun literal =>
                     set_literal_status_flags
                       (to_uint8 (Z.land (status_flags literal)
                                         (Z.lnot LEXER_FLAG_UNUSED_IDENT))) literal)
                  (literal_pool ctx) n e Hnth) as [Hupd Hother].
      split.
      { unfold to_uint16. rewrite Z.mod_small; [lia |].
        change (2 ^ 16) with 65536 in *. lia. }
      repeat split; assumption.
    + intros Hnone. exfalso.
      apply (Hnone e0); [eapply nth_error_In; eassumption | now apply Hsame].
  - destruct Hfind as [Hindex Hnone0]. rewrite Z.add_0_l in Hindex.
    split.
    + intros n e Hnth He _. exfalso.
      pose proof (proj1 (Hsame e) He) as Hm.
      rewrite (Hnone0 e (nth_error_In _ _ Hnth)) in Hm. discriminate.
    + intros _. rewrite Hindex, Hcount.
      split.
      * intros Hge.
        destruct (Z.geb_spec (literal_count ctx) PARSER_MAXIMUM_NUMBER_OF_LITERALS);
          [reflexivity | lia].
      * intros Hlt.
        destruct (Z.geb_spec (literal_count ctx) PARSER_MAXIMUM_NUMBER_OF_LITERALS);
          [lia |].
        assert (Hflag : (if length =? 0 then false else has_escape)
                        = has_escape && negb (length =? 0))
          by (destruct (length =? 0), has_escape; reflexivity).
        rewrite Hflag. cbv zeta.
        set (entry := {| u_char_p := []; prop_length := to_uint16 length;
                         entry_type := literal_type;
                         status_flags := if has_escape && negb (length =? 0) then 0
                                         else LEXER_FLAG_SOURCE_PTR |}).
        assert (Hset : util_set_char_literal entry query
                       = (set_u_char_p query entry, 0)
                         \/ util_set_char_literal entry query = (entry, 1)).
        { unfold util_set_char_literal.
          destruct (has_flag (status_flags entry) LEXER_FLAG_SOURCE_PTR); [now left |].
          destruct (jmem_heap_has_block (prop_length entry)); [now left | now right]. }
        split.
        -- intros Hok. destruct Hset as [Hset | Hset]; rewrite Hset in *;
             [| discriminate Hok].
           cbn [negb Z.eqb]. eexists. split; [reflexivity |].
           cbn [lit_object with_lit_object with_literal_count parser_list_append
                with_literal_pool lit_index literal_p literal_pool literal_count].
           repeat split.
           ++ unfold to_uint16. apply Z.mod_small. lia.
           ++ unfold to_uint16. apply Z.mod_small.
              change (2 ^ 16) with 65536 in *. lia.
        -- intros Hfail. destruct Hset as [Hset | Hset]; rewrite Hset in *;
             [now elim Hfail |].
           cbn [negb Z.eqb]. eexists. reflexivity.
Qed.

Lemma update_literal_length (f : lexer_literal_t -> lexer_literal_t) :
  forall (pool : list lexer_literal_t) (n : nat),
    List.length (update_literal f n pool) = List.length pool.
Proof.
  induction pool as [| x pool IH]; intros [| n]; simpl; try reflexivity.
  now rewrite IH.
Qed.

Lemma update_literal_last (f : lexer_literal_t -> lexer_literal_t) :
  forall (pool : list lexer_literal_t) (e : lexer_literal_t),
    update_literal f (List.length pool) (pool ++ [e]) = pool ++ [f e].
Proof.
  induction pool as [| x pool IH]; intros e; simpl; [reflexivity |].
  now rewrite IH.
Qed.

Lemma has_flag_diag (flag : Z) : flag <> 0 -> has_flag flag flag = true.
Proof.
  intros Hflag. unfold has_flag. rewrite Z.land_diag.
  destruct (Z.eqb_spec flag 0); [contradiction | reflexivity].
Qed.

(** C8. An entry that [lexer_process_char_literal] appends for a
    literal of length 0 carries [LEXER_FLAG_SOURCE_PTR] and no decoded
    bytes, whatever [has_escape] says; such a call never asks for a
    buffer, so it cannot fail with [PARSER_ERR_OUT_OF_MEMORY]. *)
Theorem empty_literal_is_source_backed (ctx : parser_context_t) (chars : list Z)
  (literal_type : lexer_literal_type_t) (has_escape : bool) :
  LEXER_FLAG_SOURCE_PTR <> 0 ->
  let call := lexer_process_char_literal ctx chars 0 literal_type has_escape in
  (forall ctx', call <> Raised PARSER_ERR_OUT_OF_MEMORY ctx')
  /\ forall ctx',
       call = Done ctx' ->
       List.length (literal_pool ctx') = S (List.length (literal_pool ctx)) ->
       exists e,
         literal_pool ctx' = literal_pool ctx ++ [e]
         /\ prop_length e = 0
         /\ entry_type e = literal_type
         /\ status_flags e = LEXER_FLAG_SOURCE_PTR
         /\ has_flag (status_flags e) LEXER_FLAG_SOURCE_PTR = true
         /\ u_char_p e = [].
Proof.
  intros Hflag call. subst call. unfold lexer_process_char_literal.
  change (firstn (Z.to_nat 0) chars) with (@nil Z).
  destruct (find_char_literal (literal_pool ctx) [] 0 literal_type 0) as [[|] index].
  - split; [intros ctx' H; discriminate |].
    intros ctx' Hdone Hgrow. injection Hdone as <-.
    cbn [literal_pool with_literal_pool with_lit_object] in Hgrow.
    rewrite update_literal_length in Hgrow. lia.
  - destruct (index >=? PARSER_MAXIMUM_NUMBER_OF_LITERALS).
    + split; intros ctx' H; discriminate.
    + change (0 =? 0) with true. cbv iota.
      unfold util_set_char_literal. cbn [status_flags].
      rewrite (has_flag_diag _ Hflag). cbn [negb Z.eqb].
      split; [intros ctx' H; discriminate |].
      intros ctx' Hdone _. injection Hdone as <-.
      eexists. split; [reflexivity |].
      cbn [prop_length entry_type status_flags u_char_p set_u_char_p].
      repeat split. apply has_flag_diag. exact Hflag.
Qed.

(** C9. [lexer_construct_number_object] returns [PARSER_TRUE] exactly
    when [is_expr] is set, the decoded integer is at most
    [CBC_PUSH_NUMBER_BYTE_RANGE_END] and it is not a negative zero; then
    [lit_object.index] is the decoded value and the pool is untouched.
    A negative zero never takes this path: when the call returns, a
    number entry has been appended at index [literal_count], and it does
    return when the pool has room and the number can be stored. *)
Theorem lexer_construct_number_object_small_number (mem : list Z) (ctx : parser_context_t)
  (is_expr is_negative_number : bool) :
  let location := lit_location (token ctx) in
  let number := util_get_number mem (char_p location) (lit_length location) in
  let call := lexer_construct_number_object mem ctx is_expr is_negative_number in
  ((exists ctx', call = Done (true, ctx'))
   <-> is_expr = true
       /\ number <= CBC.CBC_PUSH_NUMBER_BYTE_RANGE_END
       /\ ~ (number = 0 /\ is_negative_number = true))
  /\ (forall ctx',
        call = Done (true, ctx') ->
        lit_index (lit_object ctx') = to_uint16 number
        /\ (0 <= number -> lit_index (lit_object ctx') = number)
        /\ literal_pool ctx' = literal_pool ctx
        /\ literal_count ctx' = literal_count ctx)
  /\ (number = 0 -> is_negative_number = true ->
      (forall ctx', call <> Done (true, ctx'))
      /\ (forall ctx',
            call = Done (false, ctx') ->
            exists e,
              literal_pool ctx' = literal_pool ctx ++ [e]
              /\ entry_type e = LEXER_NUMBER_LITERAL
              /\ lit_index (lit_object ctx') = literal_count ctx
              /\ literal_p (lit_object ctx') = Some (List.length (literal_pool ctx)))
      /\ (literal_count ctx < PARSER_MAXIMUM_NUMBER_OF_LITERALS ->
          util_set_number_literal mem (char_p location) (lit_length location) = 0 ->
          exists ctx', call = Done (false, ctx'))).
Proof.
  intros location number call.
  assert (Hfast :
            is_expr && ((number <=? CBC.CBC_PUSH_NUMBER_BYTE_RANGE_END)
                        && (negb (number =? 0) || negb is_negative_number)) = true
            <-> is_expr = true
                /\ number <= CBC.CBC_PUSH_NUMBER_BYTE_RANGE_END
                /\ ~ (number = 0 /\ is_negative_number = true)).
  { rewrite !andb_true_iff, orb_true_iff, !negb_true_iff, Z.leb_le, Z.eqb_neq.
    destruct is_negative_number; intuition (try discriminate; try lia). }
  assert (Hslow :
            forall r ctx', call = Done (r, ctx') -> r = false ->
              exists e,
                literal_pool ctx' = literal_pool ctx ++ [e]
                /\ entry_type e = LEXER_NUMBER_LITERAL
                /\ lit_index (lit_object ctx') = literal_count ctx
                /\ literal_p (lit_object ctx') = Some (List.length (literal_pool ctx))).
  { intros r ctx' Hcall ->. subst call. unfold lexer_construct_number_object in Hcall.
    fold location number in Hcall.
    destruct (is_expr && _); [discriminate |].
    destruct (literal_count ctx >=? PARSER_MAXIMUM_NUMBER_OF_LITERALS); [discriminate |].
    destruct (negb (util_set_number_literal mem (char_p location) (lit_length location)
                    =? 0)); [discriminate |].
    injection Hcall as <-.
    cbn [literal_pool with_lit_object with_literal_pool with_literal_count
         parser_list_append lit_object lit_index literal_p].
    rewrite update_literal_last. eexists. repeat split. }
  split.
  { rewrite <- Hfast. subst call. unfold lexer_construct_number_object.
    fold location number.
    destruct (is_expr && _).
    - split; [reflexivity | intros _; eexists; reflexivity].
    - split; [| discriminate]. intros [ctx' Hcall].
      destruct (literal_count ctx >=? PARSER_MAXIMUM_NUMBER_OF_LITERALS);
        [discriminate |].
      destruct (negb (util_set_number_literal mem (char_p location)
                                              (lit_length location) =? 0));
        discriminate. }
  split.
  { intros ctx' Hcall. subst call. unfold lexer_construct_number_object in Hcall.
    fold location number in Hcall.
    destruct (is_expr && _).
    - injection Hcall as <-.
      cbn [lit_object with_lit_object lit_index literal_pool literal_count].
      repeat split. intros Hpos. unfold to_uint16. apply Z.mod_small.
      unfold CBC.CBC_PUSH_NUMBER_BYTE_RANGE_END in Hfast.
      destruct (proj1 Hfast eq_refl) as (_ & Hle & _). lia.
    - destruct (literal_count ctx >=? PARSER_MAXIMUM_NUMBER_OF_LITERALS);
        [discriminate |].
      destruct (negb (util_set_number_literal mem (char_p location)
                                              (lit_length location) =? 0));
        discriminate. }
  intros Hzero Hneg.
  assert (Hnot : is_expr && ((number <=? CBC.CBC_PUSH_NUMBER_BYTE_RANGE_END)
                             && (negb (number =? 0) || negb is_negative_number))
                 = false).
  { rewrite Hzero, Hneg. cbn. now rewrite !andb_false_r. }
  split.
  { intros ctx' Hcall. subst call. unfold lexer_construct_number_object in Hcall.
    fold location number in Hcall. rewrite Hnot in Hcall.
    destruct (literal_count ctx >=? PARSER_MAXIMUM_NUMBER_OF_LITERALS); [discriminate |].
    destruct (negb (util_set_number_literal mem (char_p location)
                                            (lit_length location) =? 0));
      discriminate. }
  split.
  { intros ctx' Hcall. now apply (Hslow false ctx'). }
  intros Hroom Hstored. subst call. unfold lexer_construct_number_object.
  fold location number. rewrite Hnot.
  destruct (Z.geb_spec (literal_count ctx) PARSER_MAXIMUM_NUMBER_OF_LITERALS); [lia |].
  rewrite Hstored. cbn [negb Z.eqb]. eexists. reflexivity.
Qed.

(** ** Loops and outcomes *)

Lemma run_loop_invariant {S : Type} (step : S -> result (loop_ctl S)) (P : S -> Prop) :
  (forall s c, P s -> step s = Done c ->
               match c with Next s' => P s' | Exit s' => P s' end) ->
  forall (fuel : nat) (s s' : S), P s -> run_loop step fuel s = Done s' -> P s'.
Proof.
  intros Hstep fuel. induction fuel as [| fuel IH]; intros s s' Hs Hrun; [discriminate |].
  simpl in Hrun. destruct (step s) as [c | | |] eqn:Hc; try discriminate.
  specialize (Hstep s c Hs Hc). simpl in Hrun. destruct c as [s1 | s1].
  - now apply (IH s1).
  - now injection Hrun as <-.
Qed.

Lemma run_loop_reaches {S : Type} (step : S -> result (loop_ctl S)) :
  forall (n : nat) (s s' : S),
    loop_reaches step n s s' ->
    forall fuel, run_loop step (n + fuel) s = run_loop step fuel s'.
Proof.
  induction n as [| n IH]; intros s s' Hreach fuel.
  - simpl in Hreach. now subst.
  - destruct Hreach as (s1 & Hstep & Hrest). simpl. rewrite Hstep. simpl.
    now apply IH.
Qed.

Lemma returns_bind {A B : Type} (P : B -> Prop) (r : result A) (k : A -> result B) :
  (forall a, r = Done a -> returns P (k a)) -> returns P (bind r k).
Proof. intros H. destruct r; simpl; auto. Qed.

Lemma returns_done {A : Type} (P : A -> Prop) (r : result A) (a : A) :
  returns P r -> r = Done a -> P a.
Proof. intros H ->. exact H. Qed.

Lemma returns_intro {A : Type} (P : A -> Prop) (r : result A) :
  (forall a, r = Done a -> P a) -> returns P r.
Proof. intros H. destruct r; simpl; auto. Qed.

(** One step along the head of a computation whose outcome is to satisfy
    a postcondition. *)
Ltac returns_step :=
  lazymatch goal with
  | |- returns _ (bind _ _) => apply returns_bind; intros ? ?
  | |- returns _ (Done _) => cbn [returns]
  | |- returns _ (Raised _ _) => exact I
  | |- returns _ (parser_raise_error _ _) => exact I
  | |- returns _ Fault => exact I
  | |- returns _ OutOfFuel => exact I
  | |- returns _ (if ?b then _ else _) => destruct b eqn:?
  | |- returns _ (match (if ?b then _ else _) with _ => _ end) => destruct b eqn:?
  | |- returns _ (match ?x with _ => _ end) => destruct x eqn:?
  end.

Ltac returns_cases := cbv beta iota zeta; repeat (returns_step; cbv beta iota zeta).

Lemma same_literal_token_refl (c : parser_context_t) : same_literal_token c c.
Proof. repeat split. Qed.

Lemma same_literal_token_trans (a b c : parser_context_t) :
  same_literal_token a b -> same_literal_token b c -> same_literal_token a c.
Proof.
  unfold same_literal_token. intros H1 H2.
  repeat match goal with H : _ /\ _ |- _ => destruct H end.
  repeat split; congruence.
Qed.

Lemma lexer_skip_spaces_step_same (mem : list Z) (c0 : parser_context_t)
  (st : skip_mode_t * parser_context_t) :
  same_literal_token c0 (snd st) ->
  returns (fun c => match c with
                    | Next s' => same_literal_token c0 (snd s')
                    | Exit s' => same_literal_token c0 (snd s')
                    end)
          (lexer_skip_spaces_step mem st).
Proof.
  intros Hsame. destruct st as [mode ctx]. simpl in Hsame.
  unfold lexer_skip_spaces_step.
  returns_cases; cbn [snd];
    try exact Hsame;
    (eapply same_literal_token_trans; [exact Hsame |]; repeat split).
Qed.

Lemma lexer_skip_spaces_same (mem : list Z) (ctx ctx' : parser_context_t) :
  lexer_skip_spaces mem ctx = Done ctx' -> same_literal_token ctx ctx'.
Proof.
  unfold lexer_skip_spaces. intros H.
  destruct (has_flag (token_flags (token ctx)) LEXER_NO_SKIP_SPACES).
  - injection H as <-. repeat split.
  - destruct (run_loop _ _ _) as [st | | |] eqn:Hrun; try discriminate.
    simpl in H. injection H as <-.
    apply (run_loop_invariant (lexer_skip_spaces_step mem)
             (fun st => same_literal_token ctx (snd st))) in Hrun.
    + exact Hrun.
    + intros s c Hs Hstep.
      exact (returns_done _ _ _ (lexer_skip_spaces_step_same mem ctx s Hs) Hstep).
    + repeat split.
Qed.

(** ** Identifiers *)

Lemma skip_intermediate_octets_span (mem : list Z) (source_end_p : Z) :
  forall (fuel : nat) (p len p' len' : Z),
    skip_intermediate_octets fuel mem source_end_p p len = Done (p', len') ->
    p <= p'
    /\ forall q, p <= q < p' ->
                 exists b, read mem q = Done b /\ IS_UTF8_INTERMEDIATE_OCTET b = true.
Proof.
  induction fuel as [| fuel IH]; intros p len p' len' Hskip; [discriminate |].
  simpl in Hskip. unfold and_read in Hskip.
  destruct (p <? source_end_p).
  - destruct (read mem p) as [b | | |] eqn:Hread; try discriminate.
    cbn [bind] in Hskip. destruct (IS_UTF8_INTERMEDIATE_OCTET b) eqn:Hb.
    + apply IH in Hskip as [Hle Hspan]. split; [lia |].
      intros q Hq. destruct (Z.eq_dec q p) as [-> | Hne].
      * now exists b.
      * apply Hspan. lia.
    + injection Hskip as <- <-. split; [lia | intros q Hq; lia].
  - cbn [bind] in Hskip. injection Hskip as <- <-. split; [lia | intros q Hq; lia].
Qed.

Lemma ident_scan_inv_escape (mem : list Z) (ctx0 : parser_context_t)
  (st st' : ident_scan_t) :
  ident_scan_inv mem ctx0 st ->
  read mem (is_source_p st) = Done 92 ->
  is_ctx st'
  = upd_token (set_token_column (is_column st))
      (with_source_p (is_source_p st)
         (upd_lit_location (set_has_escape true) (is_ctx st))) ->
  is_source_p st' = is_source_p st + 6 ->
  ident_scan_inv mem ctx0 st'.
Proof.
  intros Hinv Hread Hctx Hp.
  destruct Hinv as (Htype & Hres & Hlit & Hend & Hflags & Hcol & Hline & Hobj & Hpool
                    & Hcount & Hle & Hesc).
  unfold ident_scan_inv. rewrite Hctx, Hp. cbn.
  repeat match goal with |- _ /\ _ => split end; try assumption; try lia.
  split; [intros _ | reflexivity]. exists (is_source_p st). split; [lia | exact Hread].
Qed.

Lemma ident_scan_inv_character (mem : list Z) (ctx0 : parser_context_t)
  (st st' : ident_scan_t) (c0 : Z) (fuel : nat) (e len p' len' : Z) :
  ident_scan_inv mem ctx0 st ->
  read mem (is_source_p st) = Done c0 ->
  (c0 =? 92) = false ->
  skip_intermediate_octets fuel mem e (is_source_p st + 1) len = Done (p', len') ->
  is_ctx st' = is_ctx st ->
  is_source_p st' = p' ->
  ident_scan_inv mem ctx0 st'.
Proof.
  intros Hinv Hread Hc0 Hskip Hctx Hp. apply Z.eqb_neq in Hc0.
  destruct Hinv as (Htype & Hres & Hlit & Hend & Hflags & Hcol & Hline & Hobj & Hpool
                    & Hcount & Hle & Hesc).
  apply skip_intermediate_octets_span in Hskip as [Hle' Hspan].
  unfold ident_scan_inv. rewrite Hctx, Hp. cbn zeta.
  repeat match goal with |- _ /\ _ => split end; try assumption; try lia.
  rewrite Hesc. split; intros (q & Hq & Hq92); exists q; (split; [| exact Hq92]).
  - lia.
  - destruct (Z_lt_le_dec q (is_source_p st)) as [Hlt | Hge]; [lia | exfalso].
    destruct (Z.eq_dec q (is_source_p st)) as [-> | Hne].
    + rewrite Hread in Hq92. congruence.
    + destruct (Hspan q ltac:(lia)) as (b & Hb & Hinter).
      rewrite Hb in Hq92. injection Hq92 as ->. discriminate Hinter.
Qed.

Lemma lexer_parse_identifier_step_inv (mem : list Z) (ctx0 : parser_context_t)
  (st : ident_scan_t) :
  ident_scan_inv mem ctx0 st ->
  returns (fun c => match c with
                    | Next st' => ident_scan_inv mem ctx0 st'
                    | Exit st' => ident_scan_inv mem ctx0 st'
                    end)
          (lexer_parse_identifier_step mem st).
Proof.
  intros Hinv. unfold lexer_parse_identifier_step.
  returns_cases;
    match goal with
    | Hread : read mem (is_source_p st) = Done ?c, Hc : (?c =? 92) = true |- _ =>
        apply Z.eqb_eq in Hc; subst c;
        eapply (ident_scan_inv_escape mem ctx0 st); [exact Hinv | exact Hread | | ];
        reflexivity
    | Hread : read mem (is_source_p st) = Done ?c, Hc : (?c =? 92) = false,
      Hskip : skip_intermediate_octets _ _ _ _ _ = Done _ |- _ =>
        eapply (ident_scan_inv_character mem ctx0 st);
        [exact Hinv | exact Hread | exact Hc | exact Hskip | | ]; reflexivity
    end.
Qed.

Lemma lexer_parse_identifier_scan_inv (mem : list Z) (ctx : parser_context_t)
  (st : ident_scan_t) :
  lexer_parse_identifier_scan mem ctx = Done st -> ident_scan_inv mem ctx st.
Proof.
  unfold lexer_parse_identifier_scan. intros Hrun.
  apply (run_loop_invariant (lexer_parse_identifier_step mem) (ident_scan_inv mem ctx))
    in Hrun; [exact Hrun | |].
  - intros s c Hs Hstep.
    exact (returns_done _ _ _ (lexer_parse_identifier_step_inv mem ctx s Hs) Hstep).
  - unfold ident_scan_inv. cbn.
    repeat match goal with |- _ /\ _ => split end; try reflexivity; try lia.
    split; [discriminate | intros (p & Hp & _); lia].
Qed.

Lemma lexer_parse_identifier_keyword_same (mem : list Z) (ctx ctx' : parser_context_t)
  (ident_start_p length : Z) :
  lexer_parse_identifier_keyword mem ctx ident_start_p length = Done ctx' ->
  lit_location (token ctx') = lit_location (token ctx)
  /\ source_end_p ctx' = source_end_p ctx.
Proof.
  intros H.
  refine (returns_done (fun c => lit_location (token c) = lit_location (token ctx)
                                 /\ source_end_p c = source_end_p ctx) _ _ _ H).
  unfold lexer_parse_identifier_keyword.
  returns_cases; split; reflexivity.
Qed.

(** C6. The scan of an identifier sets [has_escape] exactly when its raw
    span contains a backslash, that is a \uHHHH escape sequence.  When
    [has_escape] is set (or the decoded length is outside 2..10, or
    keywords are not asked for) [lexer_parse_identifier] does not search
    the keyword tables: it returns the token as a [LEXER_LITERAL] that is
    not reserved, with the literal location filled in.  Conversely a
    token that comes back as a keyword or as reserved, and an error
    [PARSER_ERR_STRICT_IDENT_NOT_ALLOWED], are only seen for an
    escape-free identifier whose decoded length is between 2 and 10. *)
Theorem lexer_parse_identifier_escape_blocks_keywords (mem : list Z)
  (ctx : parser_context_t) (check_keywords : bool) (st : ident_scan_t) :
  lexer_parse_identifier_scan mem ctx = Done st ->
  let escaped := has_escape (lit_location (token (is_ctx st))) in
  let length := is_length st in
  let call := lexer_parse_identifier mem ctx check_keywords in
  (escaped = true
   <-> exists p, source_p ctx <= p < is_source_p st /\ read mem p = Done 92)
  /\ (length <= PARSER_MAXIMUM_IDENT_LENGTH ->
      escaped = true \/ length < 2 \/ 10 < length \/ check_keywords = false ->
      exists ctx',
        call = Done ctx'
        /\ token_type (token ctx') = LEXER_LITERAL
        /\ literal_is_reserved (token ctx') = false
        /\ lit_location (token ctx')
           = {| char_p := source_p ctx; lit_length := to_uint16 length;
                lit_type := LEXER_IDENT_LITERAL; has_escape := escaped |}
        /\ source_p ctx' = is_source_p st)
  /\ (forall ctx',
        call = Done ctx' ->
        token_type (token ctx') <> LEXER_LITERAL \/ literal_is_reserved (token ctx') = true ->
        check_keywords = true /\ escaped = false /\ 2 <= length <= 10)
  /\ (forall ctx',
        call = Raised PARSER_ERR_STRICT_IDENT_NOT_ALLOWED ctx' ->
        check_keywords = true /\ escaped = false /\ 2 <= length <= 10).
Proof.
  intros Hscan escaped length call.
  pose proof (lexer_parse_identifier_scan_inv mem ctx st Hscan) as Hinv.
  destruct Hinv as (Htype & Hres & Hlit & Hend & Hflags & Hcol & Hline & Hobj & Hpool
                    & Hcount & Hle & Hesc).
  fold escaped in Hesc.
  assert (Hguard :
            check_keywords && negb escaped && ((length >=? 2) && (length <=? 10)) = true
            <-> check_keywords = true /\ escaped = false /\ 2 <= length <= 10).
  { rewrite !andb_true_iff, negb_true_iff, Z.geb_le, Z.leb_le. tauto. }
  subst call. unfold lexer_parse_identifier. rewrite Hscan. cbn [bind].
  cbn [token with_source_p upd_token with_token lit_location set_token_column].
  fold escaped length.
  split; [exact Hesc |].
  split.
  { intros Hmax Hnosearch.
    destruct (Z.gtb_spec length PARSER_MAXIMUM_IDENT_LENGTH) as [Hgt | _]; [lia |].
    destruct (check_keywords && negb escaped && ((length >=? 2) && (length <=? 10)))
      eqn:Hg.
    - destruct (proj1 Hguard eq_refl) as (Hck & Hnot & Hrange).
      destruct Hnosearch as [H | [H | [H | H]]]; congruence || lia.
    - cbn [bind]. cbn [token with_source_p upd_token with_token token_type
                       set_token_column].
      rewrite Htype. eexists. split; [reflexivity |]. cbn.
      rewrite Htype, Hres. repeat split.
      unfold set_char_p_length. f_equal. exact Hlit. }
  split.
  { intros ctx' Hcall Hkeyword.
    destruct (length >? PARSER_MAXIMUM_IDENT_LENGTH); [discriminate |].
    destruct (check_keywords && negb escaped && ((length >=? 2) && (length <=? 10)))
      eqn:Hg; [exact (proj1 Hguard eq_refl) |].
    exfalso. cbn [bind] in Hcall.
    cbn [token with_source_p upd_token with_token token_type set_token_column] in Hcall.
    rewrite Htype in Hcall. injection Hcall as <-. cbn in Hkeyword.
    rewrite Htype, Hres in Hkeyword. destruct Hkeyword; congruence. }
  intros ctx' Hcall.
  destruct (length >? PARSER_MAXIMUM_IDENT_LENGTH); [discriminate |].
  destruct (check_keywords && negb escaped && ((length >=? 2) && (length <=? 10)))
    eqn:Hg; [exact (proj1 Hguard eq_refl) |].
  cbn [bind] in Hcall. discriminate.
Qed.

Lemma lexer_parse_identifier_no_keywords (mem : list Z) (ctx ctx' : parser_context_t) :
  lexer_parse_identifier mem ctx false = Done ctx' ->
  token_type (token ctx') = LEXER_LITERAL.
Proof.
  intros Hcall. unfold lexer_parse_identifier in Hcall.
  destruct (lexer_parse_identifier_scan mem ctx) as [st | | |] eqn:Hscan; try discriminate.
  pose proof (lexer_parse_identifier_scan_inv mem ctx st Hscan) as (Htype & _).
  cbn [bind] in Hcall.
  destruct (is_length st >? PARSER_MAXIMUM_IDENT_LENGTH); [discriminate |].
  cbn [andb bind] in Hcall.
  cbn [token with_source_p upd_token with_token token_type set_token_column] in Hcall.
  rewrite Htype in Hcall. injection Hcall as <-. cbn. exact Htype.
Qed.

(** ** Getters, setters, static and constructor *)

Lemma returns_bind_strong {A B : Type} (Q : A -> Prop) (P : B -> Prop) (r : result A)
  (k : A -> result B) :
  returns Q r -> (forall a, Q a -> returns P (k a)) -> returns P (bind r k).
Proof. intros Hr Hk. destruct r; simpl; auto. Qed.

Lemma load_bytes_length (mem : list Z) :
  forall (n : nat) (p : Z) (bytes : list Z),
    load_bytes mem p n = Done bytes -> List.length bytes = n.
Proof.
  induction n as [| n IH]; intros p bytes H; simpl in H.
  - now injection H as <-.
  - destruct (read mem p); try discriminate. cbn [bind] in H.
    destruct (load_bytes mem (p + 1) n) eqn:Hrest; try discriminate.
    cbn [bind] in H. injection H as <-. simpl. f_equal. now apply (IH (p + 1)).
Qed.

Lemma memcmp_eq :
  forall a b : list Z, List.length a = List.length b -> memcmp a b = 0 -> a = b.
Proof.
  induction a as [| x a IH]; intros [| y b] Hlen Hcmp; try discriminate; [reflexivity |].
  simpl in Hcmp.
  destruct (Z.ltb_spec x y); [discriminate |].
  destruct (Z.ltb_spec y x); [discriminate |].
  f_equal; [lia |]. apply IH; [now injection Hlen | exact Hcmp].
Qed.

Lemma bytes_of_string_length (s : string) :
  List.length (bytes_of_string s) = String.length s.
Proof. induction s as [| c s IH]; simpl; [reflexivity | now rewrite IH]. Qed.

(** [lexer_compare_raw_identifier_to_current] answers [true] only for an
    escape-free literal whose source bytes are the name. *)
Lemma lexer_compare_raw_identifier_true (mem : list Z) (ctx : parser_context_t)
  (name : string) :
  lexer_compare_raw_identifier_to_current mem ctx name (Z.of_nat (String.length name))
  = Done true ->
  raw_spelling mem ctx name.
Proof.
  unfold lexer_compare_raw_identifier_to_current, raw_spelling. intros H.
  destruct (Z.eqb_spec (lit_length (lit_location (token ctx)))
                       (Z.of_nat (String.length name))) as [Hlen | Hlen];
    [| discriminate].
  destruct (has_escape (lit_location (token ctx))); [discriminate |].
  cbn [negb orb] in H. rewrite Nat2Z.id in H.
  destruct (load_bytes mem _ _) as [left | | |] eqn:Hload; try discriminate.
  cbn [bind] in H. injection H as H. apply Z.eqb_eq in H.
  rewrite <- (bytes_of_string_length name), firstn_all in H.
  apply memcmp_eq in H.
  - subst left. repeat split; assumption.
  - apply load_bytes_length in Hload. now rewrite bytes_of_string_length.
Qed.

Lemma raw_spelling_same (mem : list Z) (ctx ctx' : parser_context_t) (name : string) :
  lit_location (token ctx') = lit_location (token ctx) ->
  raw_spelling mem ctx name -> raw_spelling mem ctx' name.
Proof. unfold raw_spelling. intros ->. exact (fun H => H). Qed.

Lemma lexer_process_char_literal_token (ctx : parser_context_t) (chars : list Z)
  (length : Z) (literal_type : lexer_literal_type_t) (escape : bool) :
  returns (fun ctx' => token ctx' = token ctx)
          (lexer_process_char_literal ctx chars length literal_type escape).
Proof. unfold lexer_process_char_literal. returns_cases; reflexivity. Qed.

Lemma or_literal_status_flags_token (flag : Z) (ctx : parser_context_t) :
  token (or_literal_status_flags flag ctx) = token ctx.
Proof. unfold or_literal_status_flags. now destruct (literal_p (lit_object ctx)). Qed.

Lemma lexer_construct_literal_object_token (mem : list Z) (ctx : parser_context_t)
  (literal : lexer_lit_location_t) (literal_type : lexer_literal_type_t) :
  returns (fun ctx' => token ctx' = token ctx)
          (lexer_construct_literal_object mem ctx literal literal_type).
Proof.
  unfold lexer_construct_literal_object.
  apply (returns_bind_strong (fun x => token (fst (fst x)) = token ctx)).
  { destruct (has_escape literal).
    - apply (returns_bind_strong (fun x => token (fst x) = token ctx)).
      + returns_cases; reflexivity.
      + intros [c h] Hc. cbn [fst] in Hc. returns_cases; cbn [fst]; exact Hc.
    - returns_cases; reflexivity. }
  intros [[c chars] heap] Hc. cbn [fst] in Hc. cbv beta iota zeta.
  apply (returns_bind_strong (fun c' => token c' = token ctx)).
  { pose proof (lexer_process_char_literal_token c chars (lit_length literal)
                  literal_type (has_escape literal)) as H.
    destruct (lexer_process_char_literal _ _ _ _ _); simpl in *; auto. congruence. }
  intros c' Hc'.
  cbv beta iota zeta. cbn [returns].
  repeat match goal with
         | |- context [if ?b then _ else _] => destruct b
         | |- context [match ?x with _ => _ end] => destruct x
         end;
    cbn [token with_allocated_buffer_p with_lit_object with_status_flags];
    rewrite ?or_literal_status_flags_token;
    cbn [token with_allocated_buffer_p with_lit_object with_status_flags];
    rewrite ?or_literal_status_flags_token;
    cbn [token with_allocated_buffer_p with_lit_object with_status_flags];
    exact Hc'.
Qed.

Lemma lexer_construct_number_object_token (mem : list Z) (ctx : parser_context_t)
  (is_expr is_negative_number : bool) :
  returns (fun r => token (snd r) = token ctx)
          (lexer_construct_number_object mem ctx is_expr is_negative_number).
Proof. unfold lexer_construct_number_object. returns_cases; reflexivity. Qed.

Lemma lexer_parse_string_token_type (mem : list Z) (ctx : parser_context_t) :
  returns (fun ctx' => token_type (token ctx') = LEXER_LITERAL
                       \/ token_type (token ctx') = LEXER_TEMPLATE_LITERAL)
          (lexer_parse_string mem ctx).
Proof.
  unfold lexer_parse_string. returns_cases; cbn;
    repeat match goal with |- context [if ?b then _ else _] => destruct b end; auto.
Qed.

Lemma reclassified_literal (mem : list Z) (ctx : parser_context_t) :
  token_type (token ctx) = LEXER_LITERAL
  \/ token_type (token ctx) = LEXER_TEMPLATE_LITERAL
  \/ token_type (token ctx) = LEXER_RIGHT_SQUARE
  \/ token_type (token ctx) = LEXER_RIGHT_BRACE
  \/ token_type (token ctx) = LEXER_LEFT_SQUARE ->
  forall name, reclassified_name (token_type (token ctx)) = Some name ->
               raw_spelling mem ctx name.
Proof.
  intros H name Hname.
  destruct H as [H | [H | [H | [H | H]]]]; rewrite H in Hname; discriminate.
Qed.

Lemma reclassified_by_compare (mem : list Z) (ctx : parser_context_t)
  (type : lexer_token_type_t) (spelling : string) :
  reclassified_name type = Some spelling ->
  lexer_compare_raw_identifier_to_current mem ctx spelling
    (Z.of_nat (String.length spelling)) = Done true ->
  forall name,
    reclassified_name (token_type (token (upd_token (set_token_type type) ctx)))
    = Some name ->
    raw_spelling mem (upd_token (set_token_type type) ctx) name.
Proof.
  intros Hspelling Hcompare name Hname. cbn in Hname.
  rewrite Hspelling in Hname. injection Hname as <-.
  apply (raw_spelling_same mem ctx); [reflexivity |].
  now apply lexer_compare_raw_identifier_true.
Qed.

Section CallersFacts.

Variable lexer_next_token : list Z -> parser_context_t -> result parser_context_t.
Variable lexer_parse_number : list Z -> parser_context_t -> result parser_context_t.
Variable parser_parse_expression : list Z -> parser_context_t -> result parser_context_t.

Lemma lexer_scan_identifier_reclassified (mem : list Z) (ctx : parser_context_t)
  (property_name : bool) :
  returns (fun ctx' =>
             forall name, reclassified_name (token_type (token ctx')) = Some name ->
                          raw_spelling mem ctx' name)
          (lexer_scan_identifier lexer_next_token mem ctx property_name).
Proof.
  unfold lexer_scan_identifier.
  apply returns_bind; intros ctx0 H0. cbv beta zeta.
  apply returns_bind; intros ident Hident. destruct ident.
  - apply returns_bind; intros ctx1 H1.
    pose proof (lexer_parse_identifier_no_keywords _ _ _ H1) as Htype1.
    destruct (property_name && _).
    + apply returns_bind; intros ctx2 H2.
      apply lexer_skip_spaces_same in H2 as (Htype2 & _ & Hloc2 & _).
      rewrite Htype1 in Htype2.
      apply returns_bind; intros more Hmore. destruct more.
      * apply returns_bind; intros getter Hget. destruct getter.
        { cbn [returns]. now apply (reclassified_by_compare mem ctx2 _ "get"). }
        apply returns_bind; intros setter Hset. destruct setter.
        { cbn [returns]. now apply (reclassified_by_compare mem ctx2 _ "set"). }
        cbn [returns]. apply reclassified_literal. now left.
      * cbn [returns]. apply reclassified_literal. now left.
    + cbn [returns]. apply reclassified_literal. now left.
  - apply returns_bind; intros [c b] Hc. cbn [fst snd].
    destruct b; [| exact I]. cbn [returns].
    destruct property_name; [| discriminate].
    destruct (lexer_next_token mem _) as [c' | | |]; try discriminate.
    cbn [bind] in Hc. injection Hc as -> Hb.
    apply reclassified_literal.
    destruct (token_type (token c)); try discriminate; auto.
Qed.

Lemma lexer_expect_object_literal_id_reclassified (mem : list Z) (ctx : parser_context_t)
  (ident_opts : Z) :
  (forall m c c', lexer_parse_number m c = Done c' ->
                  token_type (token c') = LEXER_LITERAL) ->
  returns (fun ctx' =>
             forall name, reclassified_name (token_type (token ctx')) = Some name ->
                          raw_spelling mem ctx' name)
          (lexer_expect_object_literal_id lexer_next_token lexer_parse_number
             parser_parse_expression mem ctx ident_opts).
Proof.
  intros Hnumber. unfold lexer_expect_object_literal_id.
  apply returns_bind; intros ctx0 H0. cbv beta zeta.
  set (is_class_method := has_flag ident_opts LEXER_OBJ_IDENT_CLASS_METHOD && _ && _).
  (* the statements from [if (create_literal_object)] on, for a literal token *)
  assert (Hcreate : forall c,
             token_type (token c) = LEXER_LITERAL
             \/ token_type (token c) = LEXER_TEMPLATE_LITERAL ->
             returns (fun ctx' =>
                        forall name,
                          reclassified_name (token_type (token ctx')) = Some name ->
                          raw_spelling mem ctx' name)
               (constructor <-
                  (if is_class_method
                   then lexer_compare_raw_identifier_to_current mem c "constructor" 11
                   else Done false) ;;
                if constructor : bool
                then Done (upd_token (set_token_type LEXER_CLASS_CONSTRUCTOR) c)
                else lexer_construct_literal_object mem c (lit_location (token c))
                                                    LEXER_STRING_LITERAL)).
  { intros c Hc. apply returns_bind; intros constructor Hcons. destruct constructor.
    - cbn [returns]. destruct is_class_method; [| discriminate].
      now apply (reclassified_by_compare mem c _ "constructor").
    - pose proof (lexer_construct_literal_object_token mem c (lit_location (token c))
                    LEXER_STRING_LITERAL) as Htoken.
      destruct (lexer_construct_literal_object _ _ _ _) as [c' | | |]; try exact I.
      cbn [returns] in *. apply reclassified_literal. rewrite Htoken. tauto. }
  destruct (source_p _ <? source_end_p _); [| exact I].
  apply returns_bind; intros ident Hident.
  apply returns_bind; intros c0 Hc0. destruct ident.
  - apply returns_bind; intros ctx1 H1.
    pose proof (lexer_parse_identifier_no_keywords _ _ _ H1) as Htype1.
    apply (returns_bind_strong
             (fun x => token_type (token (fst x)) = LEXER_LITERAL
                       /\ match snd x with
                          | Some type =>
                              exists spelling,
                                reclassified_name type = Some spelling
                                /\ lexer_compare_raw_identifier_to_current mem (fst x)
                                     spelling (Z.of_nat (String.length spelling))
                                   = Done true
                          | None => True
                          end)).
    + destruct (negb _ && _).
      * apply returns_bind; intros ctx2 H2.
        apply lexer_skip_spaces_same in H2 as (Htype2 & _ & Hloc2 & _).
        rewrite Htype1 in Htype2.
        apply returns_bind; intros more Hmore. destruct more.
        -- apply returns_bind; intros getter Hget. destruct getter.
           { cbn. split; [exact Htype2 |]. exists "get"%string. now split. }
           apply returns_bind; intros setter Hset. destruct setter.
           { cbn. split; [exact Htype2 |]. exists "set"%string. now split. }
           cbn. now split.
        -- cbn. now split.
      * cbn. now split.
    + intros [c accessor] [Htype Haccessor]. cbn [fst snd] in *.
      destruct accessor as [type |].
      * cbn [returns]. destruct Haccessor as (spelling & Hspelling & Hcompare).
        now apply (reclassified_by_compare mem c type spelling).
      * apply returns_bind; intros static Hstatic. destruct static.
        -- cbn [returns]. destruct is_class_method; [| discriminate].
           now apply (reclassified_by_compare mem c _ "static").
        -- apply Hcreate. now left.
  - destruct ((c0 =? 34) || (c0 =? 39)).
    + pose proof (lexer_parse_string_token_type mem
                    (upd_token (set_token_column (column ctx0))
                       (upd_token (set_token_line (line ctx0)) ctx0))) as Hstring.
      destruct (lexer_parse_string mem _) as [c | | |]; try exact I.
      cbn [bind returns] in *. now apply Hcreate.
    + destruct (c0 =? 91).
      * apply returns_bind; intros c1 H1. apply returns_bind; intros c2 H2.
        destruct (token_type (token c2)) eqn:Htype; try exact I.
        cbn [returns]. apply reclassified_literal. rewrite Htype. tauto.
      * destruct (negb _ && (c0 =? 125)).
        -- cbn [returns]. apply reclassified_literal. cbn. tauto.
        -- apply returns_bind; intros digit Hdigit. destruct digit; [| exact I].
           apply returns_bind; intros c1 H1. apply Hnumber in H1.
           pose proof (lexer_construct_number_object_token mem c1 false false) as Htoken.
           destruct (lexer_construct_number_object _ _ _ _) as [r | | |]; try exact I.
           cbn [bind returns] in *. apply reclassified_literal. rewrite Htoken. tauto.
Qed.

(** C10. [lexer_compare_raw_identifier_to_current] returns zero whenever
    the literal of the current token has [has_escape] set, whatever
    its content.  Consequently a token that [lexer_scan_identifier] or
    [lexer_expect_object_literal_id] returns as a getter, a setter,
    [static] or a class constructor is escape-free, with "get", "set",
    "static" or "constructor" as its bytes in the source; a literal with
    [has_escape] set is never turned into one of these.  The number
    scanner, which this development leaves open, is taken to return a
    [LEXER_LITERAL] token, as its first statement says. *)
Theorem escaped_identifier_is_not_reclassified (mem : list Z) :
  (forall m c c', lexer_parse_number m c = Done c' ->
                  token_type (token c') = LEXER_LITERAL) ->
  (forall ctx right_ident right_ident_length,
     has_escape (lit_location (token ctx)) = true ->
     lexer_compare_raw_identifier_to_current mem ctx right_ident right_ident_length
     = Done false)
  /\ (forall ctx property_name ctx',
        lexer_scan_identifier lexer_next_token mem ctx property_name = Done ctx' ->
        (forall name, reclassified_name (token_type (token ctx')) = Some name ->
                      raw_spelling mem ctx' name)
        /\ (has_escape (lit_location (token ctx')) = true ->
            reclassified_name (token_type (token ctx')) = None))
  /\ (forall ctx ident_opts ctx',
        lexer_expect_object_literal_id lexer_next_token lexer_parse_number
          parser_parse_expression mem ctx ident_opts = Done ctx' ->
        (forall name, reclassified_name (token_type (token ctx')) = Some name ->
                      raw_spelling mem ctx' name)
        /\ (has_escape (lit_location (token ctx')) = true ->
            reclassified_name (token_type (token ctx')) = None)).
Proof.
  intros Hnumber.
  assert (Hescaped : forall ctx',
             (forall name, reclassified_name (token_type (token ctx')) = Some name ->
                           raw_spelling mem ctx' name) ->
             has_escape (lit_location (token ctx')) = true ->
             reclassified_name (token_type (token ctx')) = None).
  { intros ctx' Hraw Hescape.
    destruct (reclassified_name (token_type (token ctx'))) as [name |]; [| reflexivity].
    destruct (Hraw name eq_refl) as (Hfree & _). congruence. }
  split.
  { intros ctx right_ident right_ident_length Hescape.
    unfold lexer_compare_raw_identifier_to_current. rewrite Hescape.
    now rewrite orb_true_r. }
  split.
  - intros ctx property_name ctx' Hcall.
    pose proof (returns_done _ _ _
                  (lexer_scan_identifier_reclassified mem ctx property_name) Hcall)
      as Hraw.
    split; [exact Hraw | now apply Hescaped].
  - intros ctx ident_opts ctx' Hcall.
    pose proof (returns_done _ _ _
                  (lexer_expect_object_literal_id_reclassified mem ctx ident_opts Hnumber)
                  Hcall) as Hraw.
    split; [exact Hraw | now apply Hescaped].
Qed.

End CallersFacts.

(** ** Strings *)

Lemma loop_reaches_snoc {S : Type} (step : S -> result (loop_ctl S)) :
  forall (n : nat) (s s' s'' : S),
    loop_reaches step n s s' -> step s' = Done (Next s'') ->
    loop_reaches step (Datatypes.S n) s s''.
Proof.
  induction n as [| n IH]; intros s s' s'' Hreach Hstep.
  - simpl in Hreach. subst. exists s''. split; [exact Hstep | reflexivity].
  - destruct Hreach as (s1 & Hs1 & Hrest). exists s1. split; [exact Hs1 |].
    now apply (IH s1 s').
Qed.

(** A round of the string scanner that goes round again started inside
    the source, moved the cursor forward and kept the end of the source. *)
Lemma lexer_parse_string_step_progress (mem : list Z)
  (str_end_character original_line original_column : Z) (st : string_scan_t) :
  returns (fun c => match c with
                    | Next st' =>
                        ss_source_p st < source_end_p (ss_ctx st)
                        /\ ss_source_p st < ss_source_p st'
                        /\ source_end_p (ss_ctx st') = source_end_p (ss_ctx st)
                    | Exit _ => True
                    end)
          (lexer_parse_string_step mem str_end_character original_line original_column st).
Proof.
  unfold lexer_parse_string_step.
  destruct (Z.geb_spec (ss_source_p st) (source_end_p (ss_ctx st))) as [Hge | Hlt];
    [exact I |].
  returns_cases; try exact I;
    repeat match goal with
           | H : skip_intermediate_octets _ _ _ _ _ = Done _ |- _ =>
               apply skip_intermediate_octets_span in H as [? _]
           end;
    cbn [ss_source_p ss_ctx];
    repeat match goal with |- context [if ?b then _ else _] => destruct b end;
    (split; [exact Hlt |]); (split; [lia | reflexivity]).
Qed.

Lemma lexer_parse_string_reach_bound (mem : list Z)
  (str_end_character original_line original_column : Z) :
  forall (n : nat) (st0 st : string_scan_t),
    loop_reaches
      (lexer_parse_string_step mem str_end_character original_line original_column)
      n st0 st ->
    source_end_p (ss_ctx st) = source_end_p (ss_ctx st0)
    /\ ss_source_p st0 + Z.of_nat n <= ss_source_p st
    /\ (n <> O -> Z.of_nat n <= source_end_p (ss_ctx st0) - ss_source_p st0).
Proof.
  induction n as [| n IH]; intros st0 st Hreach.
  - simpl in Hreach. subst. repeat split; [lia | congruence].
  - destruct Hreach as (s1 & Hstep & Hrest).
    pose proof (returns_done _ _ _
                  (lexer_parse_string_step_progress mem str_end_character original_line
                     original_column st0) Hstep) as (Hin & Hmove & Hend).
    destruct (IH s1 st Hrest) as (Hend' & Hle & Hbound).
    split; [congruence |]. split; [lia |]. intros _.
    destruct n as [| n]; [lia |].
    specialize (Hbound ltac:(discriminate)). lia.
Qed.

(** C4. Whenever the loop of [lexer_parse_string] comes to the end of
    the source before it has met the closing terminator (also after a
    lone backslash as the last byte), the call raises
    [PARSER_ERR_UNTERMINATED_STRING], and [token.line] and [token.column]
    are the line and the column of the opening quote, where the context
    stood when the function was called. *)
Theorem lexer_parse_string_unterminated (mem : list Z) (ctx : parser_context_t)
  (quote : Z) (n : nat) (st : string_scan_t) :
  0 <= column ctx < 2 ^ 32 ->
  read mem (source_p ctx) = Done quote ->
  let str_end_character := if quote =? 125 then 96 else quote in
  let step :=
    lexer_parse_string_step mem str_end_character (line ctx) (to_lc (column ctx + 1)) in
  loop_reaches step n
    {| ss_source_p := source_p ctx + 1; ss_line := line ctx;
       ss_column := to_lc (column ctx + 1); ss_length := 0;
       ss_has_escape := false; ss_ctx := ctx |}
    st ->
  ss_source_p st >= source_end_p ctx
  \/ (ss_source_p st + 1 >= source_end_p ctx
      /\ read mem (ss_source_p st) = Done 92 /\ str_end_character <> 92) ->
  exists ctx',
    lexer_parse_string mem ctx = Raised PARSER_ERR_UNTERMINATED_STRING ctx'
    /\ token_line (token ctx') = line ctx
    /\ token_column (token ctx') = column ctx.
Proof.
  intros Hcolumn Hquote str_end_character step Hreach Hend.
  set (st0 := {| ss_source_p := source_p ctx + 1; ss_line := line ctx;
                 ss_column := to_lc (column ctx + 1); ss_length := 0;
                 ss_has_escape := false; ss_ctx := ctx |}) in *.
  (* the state at the end of the source *)
  assert (Hlast : exists m st',
             loop_reaches step m st0 st' /\ ss_source_p st' >= source_end_p ctx).
  { destruct Hend as [Hend | (Hend & Hread & Hnot)].
    - now exists n, st.
    - destruct (lexer_parse_string_reach_bound mem _ _ _ n st0 st Hreach)
        as (Hsame & _ & _).
      cbn [st0 ss_ctx] in Hsame.
      destruct (Z_lt_le_dec (ss_source_p st) (source_end_p ctx)) as [Hin | Hout];
        [| exists n, st; split; [exact Hreach | lia]].
      eexists (S n), _. split.
      + apply (loop_reaches_snoc step n st0 st); [exact Hreach |].
        subst step. unfold lexer_parse_string_step. rewrite Hsame.
        destruct (Z.geb_spec (ss_source_p st) (source_end_p ctx)); [lia |].
        rewrite Hread. cbn [bind].
        destruct (Z.eqb_spec 92 str_end_character); [congruence |].
        change (92 =? 92) with true. cbv iota.
        destruct (Z.geb_spec (ss_source_p st + 1) (source_end_p ctx)); [| lia].
        reflexivity.
      + cbn [ss_source_p]. lia. }
  destruct Hlast as (m & st' & Hreach' & Hend').
  destruct (lexer_parse_string_reach_bound mem _ _ _ m st0 st' Hreach')
    as (Hsame & Hmove & Hbound).
  cbn [st0 ss_ctx ss_source_p] in Hsame, Hmove, Hbound.
  unfold lexer_parse_string. rewrite Hquote. cbn [bind]. cbv zeta.
  fold str_end_character. fold step. fold st0.
  assert (Hfuel : exists k,
             scan_fuel (source_p ctx + 1) (source_end_p ctx) = (m + S k)%nat).
  { unfold scan_fuel. destruct m as [| m].
    - eexists. reflexivity.
    - specialize (Hbound ltac:(discriminate)).
      exists (Z.to_nat (source_end_p ctx - (source_p ctx + 1)) - S m)%nat. lia. }
  destruct Hfuel as [k Hfuel]. rewrite Hfuel.
  rewrite (run_loop_reaches step m st0 st' Hreach'). simpl run_loop.
  subst step. unfold lexer_parse_string_step at 1. rewrite Hsame.
  destruct (Z.geb_spec (ss_source_p st') (source_end_p ctx)); [| lia].
  cbn [bind parser_raise_error]. eexists. split; [reflexivity |].
  cbn. split; [reflexivity |].
  unfold to_lc, to_uint32. change (2 ^ 32) with 4294967296 in *.
  destruct (Z.eq_dec (column ctx) 4294967295) as [-> | Hne]; [reflexivity |].
  rewrite (Z.mod_small (column ctx + 1)) by lia.
  replace (column ctx + 1 - 1) with (column ctx) by lia.
  apply Z.mod_small. lia.
Qed.

(** ** UTF-8 *)

Lemma land_shiftl_small (x y k : Z) :
  0 <= k -> 0 <= y < 2 ^ k -> Z.land (Z.shiftl x k) y = 0.
Proof.
  intros Hk Hy.
  rewrite <- (Z.mod_small y (2 ^ k)) by exact Hy.
  rewrite <- Z.land_ones by exact Hk.
  rewrite (Z.land_comm y), Z.land_assoc, Z.land_ones by exact Hk.
  rewrite Z.shiftl_mul_pow2 by exact Hk.
  now rewrite Z.mod_mul by lia.
Qed.

Lemma lor_shiftl_small (x y k : Z) :
  0 <= k -> 0 <= y < 2 ^ k -> Z.lor (Z.shiftl x k) y = x * 2 ^ k + y.
Proof.
  intros Hk Hy.
  pose proof (Z.add_lor_land (Z.shiftl x k) y) as Hadd.
  rewrite (land_shiftl_small x y k Hk Hy), Z.add_0_r in Hadd.
  rewrite Hadd. now rewrite Z.shiftl_mul_pow2.
Qed.








(** ** Computations that come to an end *)

Lemma ends_bind {A B : Type} (Q : A -> Prop) (P : B -> Prop)
  (R : parser_error_t -> parser_context_t -> Prop) (r : result A) (k : A -> result B) :
  ends Q R r -> (forall a, Q a -> ends P R (k a)) -> ends P R (bind r k).
Proof. intros Hr Hk. destruct r; simpl in *; auto. Qed.

Lemma ends_weaken {A : Type} (P P' : A -> Prop)
  (R R' : parser_error_t -> parser_context_t -> Prop) (r : result A) :
  ends P R r -> (forall a, P a -> P' a) -> (forall e c, R e c -> R' e c) -> ends P' R' r.
Proof. intros Hr HP HR. destruct r; simpl in *; auto. Qed.

Lemma ends_returns {A : Type} (P Q : A -> Prop)
  (R : parser_error_t -> parser_context_t -> Prop) (r : result A) :
  ends P R r -> returns Q r -> ends (fun a => P a /\ Q a) R r.
Proof. intros He Hr. destruct r; simpl in *; auto. Qed.

Lemma ends_read (mem : list Z) (p : Z)
  (R : parser_error_t -> parser_context_t -> Prop) :
  0 <= p < Z.of_nat (List.length mem) ->
  ends (fun b => read mem p = Done b) R (read mem p).
Proof.
  intros Hp. destruct (read_in_bounds mem p Hp) as [b Hb]. rewrite Hb. reflexivity.
Qed.

Lemma ends_and_read (limit : bool) (mem : list Z) (p : Z) (test : Z -> bool)
  (R : parser_error_t -> parser_context_t -> Prop) :
  (limit = true -> 0 <= p < Z.of_nat (List.length mem)) ->
  ends (fun r => and_read limit mem p test = Done r
                 /\ (r = true -> limit = true
                                 /\ exists b, read mem p = Done b /\ test b = true)
                 /\ (r = false -> limit = false
                                  \/ exists b, read mem p = Done b /\ test b = false))
       R (and_read limit mem p test).
Proof.
  intros Hp. unfold and_read. destruct limit.
  - destruct (read_in_bounds mem p (Hp eq_refl)) as [b Hb]. rewrite Hb. simpl.
    split; [reflexivity |]. split; intros Ht.
    + split; [reflexivity |]. now exists b.
    + right. now exists b.
  - simpl. split; [reflexivity |]. split; [discriminate |]. now left.
Qed.

(** A loop whose rounds keep [inv] and lower the measure [m] comes to
    an end within [m s] rounds, with what its last round gives. *)
Lemma run_loop_ends {S : Type} (step : S -> result (loop_ctl S)) (inv Q : S -> Prop)
  (R : parser_error_t -> parser_context_t -> Prop) (m : S -> nat) :
  (forall s, inv s ->
             ends (fun c => match c with
                            | Next s' => inv s' /\ (m s' < m s)%nat
                            | Exit s' => Q s'
                            end) R (step s)) ->
  forall (fuel : nat) (s : S), inv s -> (m s < fuel)%nat -> ends Q R (run_loop step fuel s).
Proof.
  intros Hstep fuel. induction fuel as [| fuel IH]; intros s Hs Hm; [lia |].
  simpl. specialize (Hstep s Hs).
  destruct (step s) as [c | e c | |]; simpl in *; try assumption.
  destruct c as [s' | s']; [| exact Hstep].
  destruct Hstep as [Hinv Hlt]. apply IH; [exact Hinv | lia].
Qed.

(** ** Hexadecimal digits *)

Lemma lor_0x20_bounds (b : Z) : 0 <= b -> b <= Z.lor b 0x20 <= b + 32.
Proof.
  intros Hb. pose proof (Z.add_lor_land b 0x20) as Hadd.
  assert (Hland : 0 <= Z.land b 0x20) by (apply Z.land_nonneg; lia).
  assert (Hsub : Z.land b 0x20 <= 0x20).
  { destruct (Z.testbit b 5) eqn:Hbit.
    - assert (H : Z.land b 0x20 = 0x20); [| lia].
      apply Z.bits_inj'. intros n Hn. rewrite Z.land_spec.
      destruct (Z.eq_dec n 5) as [-> | Hne]; [now rewrite Hbit |].
      replace (Z.testbit 0x20 n) with false; [now rewrite andb_false_r |].
      change 0x20 with (2 ^ 5). now rewrite Z.pow2_bits_eqb, (proj2 (Z.eqb_neq 5 n)) by lia.
    - assert (H : Z.land b 0x20 = 0); [| lia].
      apply Z.bits_inj'. intros n Hn. rewrite Z.land_spec, Z.bits_0.
      destruct (Z.eq_dec n 5) as [-> | Hne]; [now rewrite Hbit |].
      change 0x20 with (2 ^ 5). rewrite Z.pow2_bits_eqb, (proj2 (Z.eqb_neq 5 n)) by lia.
      now rewrite andb_false_r. }
  lia.
Qed.

Lemma lexer_is_hex_digit_value (b : Z) :
  lexer_is_hex_digit b = true -> 0 <= hex_digit_value b < 16.
Proof.
  unfold lexer_is_hex_digit, hex_digit_value. intros H.
  destruct ((b >=? 48) && (b <=? 57)) eqn:Hd.
  - apply andb_true_iff in Hd as [H1 H2]. lia.
  - simpl in H. apply andb_true_iff in H as [H1 H2]. lia.
Qed.

Lemma lexer_is_hex_digit_cases (b : Z) :
  lexer_is_hex_digit b
  = ((48 <=? b) && (b <=? 57)) || ((97 <=? Z.lor b 0x20) && (Z.lor b 0x20 <=? 102)).
Proof. unfold lexer_is_hex_digit. now rewrite !Z.geb_leb. Qed.

Lemma hex_digit_step (ctx : parser_context_t) (v b : Z) :
  0 <= v -> 16 * v + 16 <= 2 ^ 32 ->
  (if (48 <=? b) && (b <=? 57) then
     Done (to_uint32 (to_uint32 (Z.shiftl v 4) + (b - 48)))
   else
     if (97 <=? Z.lor b 0x20) && (Z.lor b 0x20 <=? 102) then
       Done (to_uint32 (to_uint32 (Z.shiftl v 4) + (Z.lor b 0x20 - (97 - 10))))
     else parser_raise_error ctx PARSER_ERR_INVALID_ESCAPE_SEQUENCE)
  = if lexer_is_hex_digit b then Done (16 * v + hex_digit_value b)
    else Raised PARSER_ERR_INVALID_ESCAPE_SEQUENCE ctx.
Proof.
  intros Hv Hmax. rewrite lexer_is_hex_digit_cases. unfold hex_digit_value.
  rewrite !Z.geb_leb. change (2 ^ 32) with 4294967296 in *.
  assert (Hshift : to_uint32 (Z.shiftl v 4) = 16 * v).
  { unfold to_uint32. rewrite Z.shiftl_mul_pow2 by lia. change (2 ^ 4) with 16.
    change (2 ^ 32) with 4294967296. rewrite Z.mod_small by lia. lia. }
  rewrite Hshift. unfold to_uint32. change (2 ^ 32) with 4294967296.
  destruct ((48 <=? b) && (b <=? 57)) eqn:Hd; cbn [orb].
  - apply andb_true_iff in Hd as [H1 H2]. apply Z.leb_le in H1, H2.
    rewrite Z.mod_small by lia. reflexivity.
  - destruct ((97 <=? Z.lor b 0x20) && (Z.lor b 0x20 <=? 102)) eqn:Hl; [| reflexivity].
    apply andb_true_iff in Hl as [H1 H2]. apply Z.leb_le in H1, H2.
    rewrite Z.mod_small by lia. f_equal; lia.
Qed.

Lemma lexer_hex_to_character_from_spec (mem : list Z) (ctx : parser_context_t) :
  forall (n : nat) (p v : Z) (bytes : list Z),
    load_bytes mem p (S n) = Done bytes ->
    0 <= v -> (v + 1) * 16 ^ Z.of_nat (S n) <= 2 ^ 32 ->
    (forallb lexer_is_hex_digit bytes = true ->
     lexer_hex_to_character_from mem ctx p (S n) v
     = Done (to_uint16 (hex_value_from v bytes))
     /\ v * 16 ^ Z.of_nat (S n) <= hex_value_from v bytes < (v + 1) * 16 ^ Z.of_nat (S n))
    /\ (forallb lexer_is_hex_digit bytes = false ->
        lexer_hex_to_character_from mem ctx p (S n) v
        = Raised PARSER_ERR_INVALID_ESCAPE_SEQUENCE ctx).
Proof.
  induction n as [| n IH]; intros p v bytes Hload Hv Hmax.
  - cbn [load_bytes] in Hload.
    destruct (read mem p) as [b | | |] eqn:Hb; try discriminate.
    cbn [bind] in Hload. injection Hload as <-.
    change (16 ^ Z.of_nat 1) with 16 in *.
    cbn [lexer_hex_to_character_from]. rewrite Hb. cbn [bind].
    rewrite hex_digit_step by lia.
    cbn [forallb hex_value_from fold_left]. rewrite andb_true_r.
    split; intros Hhex; rewrite Hhex; cbn [bind]; [| reflexivity].
    pose proof (lexer_is_hex_digit_value b Hhex). split; [reflexivity | lia].
  - assert (Hpow : 16 ^ Z.of_nat (S (S n)) = 16 * 16 ^ Z.of_nat (S n)).
    { rewrite (Nat2Z.inj_succ (S n)), Z.pow_succ_r by lia. reflexivity. }
    assert (Hpos : 0 < 16 ^ Z.of_nat (S n)) by (apply Z.pow_pos_nonneg; lia).
    rewrite Hpow in *.
    change (load_bytes mem p (S (S n)))
      with (b <- read mem p ;; rest <- load_bytes mem (p + 1) (S n) ;; Done (b :: rest))
      in Hload.
    destruct (read mem p) as [b | | |] eqn:Hb; try discriminate.
    cbn [bind] in Hload.
    destruct (load_bytes mem (p + 1) (S n)) as [rest | | |] eqn:Hrest; try discriminate.
    cbn [bind] in Hload. injection Hload as <-.
    change (lexer_hex_to_character_from mem ctx p (S (S n)) v)
      with (byte <- read mem p ;;
            value <-
              (if (48 <=? byte) && (byte <=? 57) then
                 Done (to_uint32 (to_uint32 (Z.shiftl v 4) + (byte - 48)))
               else
                 if (97 <=? Z.lor byte 0x20) && (Z.lor byte 0x20 <=? 102) then
                   Done (to_uint32 (to_uint32 (Z.shiftl v 4)
                                    + (Z.lor byte 0x20 - (97 - 10))))
                 else parser_raise_error ctx PARSER_ERR_INVALID_ESCAPE_SEQUENCE) ;;
            lexer_hex_to_character_from mem ctx (p + 1) (S n) value).
    rewrite Hb. cbn [bind]. rewrite hex_digit_step by nia.
    cbn [forallb hex_value_from fold_left].
    destruct (lexer_is_hex_digit b) eqn:Hhex; cbn [bind andb].
    + pose proof (lexer_is_hex_digit_value b Hhex) as Hdigit.
      destruct (IH (p + 1) (16 * v + hex_digit_value b) rest Hrest) as [Hgood Hbad];
        [lia | nia |].
      split; intros Hall.
      * destruct (Hgood Hall) as [Hcall Hrange]. split; [exact Hcall |].
        unfold hex_value_from in *. nia.
      * exact (Hbad Hall).
    + split; [discriminate | reflexivity].
Qed.

(** X1. [lexer_hex_to_character] on [n] bytes (1 to 4, as its callers ask
    for) that can be read: when all of them are hexadecimal digits it
    returns the number they spell, which is below [16 ^ n]; otherwise it
    raises [PARSER_ERR_INVALID_ESCAPE_SEQUENCE] and leaves the context as
    it was. *)
Theorem lexer_hex_to_character_value (mem : list Z) (ctx : parser_context_t) (p : Z)
  (n : nat) (bytes : list Z) :
  (1 <= n <= 4)%nat ->
  load_bytes mem p n = Done bytes ->
  (forallb lexer_is_hex_digit bytes = true ->
   lexer_hex_to_character mem ctx p n = Done (hex_value bytes)
   /\ 0 <= hex_value bytes < 16 ^ Z.of_nat n)
  /\ (forallb lexer_is_hex_digit bytes = false ->
      lexer_hex_to_character mem ctx p n = Raised PARSER_ERR_INVALID_ESCAPE_SEQUENCE ctx).
Proof.
  intros Hn Hload. destruct n as [| n]; [lia |].
  assert (Hpow : 16 ^ Z.of_nat (S n) <= 16 ^ 4).
  { apply Z.pow_le_mono_r; lia. }
  change (16 ^ 4) with 65536 in Hpow.
  destruct (lexer_hex_to_character_from_spec mem ctx n p 0 bytes Hload) as [Hgood Hbad];
    [lia | change (2 ^ 32) with 4294967296; lia |].
  unfold lexer_hex_to_character, hex_value. split; [| exact Hbad].
  intros Hall. destruct (Hgood Hall) as [Hcall Hrange]. rewrite Hcall.
  unfold to_uint16. change (2 ^ 16) with 65536.
  rewrite Z.mod_small by lia. split; [reflexivity | lia].
Qed.

Lemma lexer_decode_unicode_digit (chr b : Z) :
  0 <= chr -> 16 * chr + 16 <= 2 ^ 16 ->
  lexer_is_hex_digit b = true ->
  (if b <=? 57 then to_uint16 (to_uint16 (Z.shiftl chr 4) + b - 48)
   else to_uint16 (to_uint16 (Z.shiftl chr 4) + LEXER_TO_ASCII_LOWERCASE b - (97 - 10)))
  = 16 * chr + hex_digit_value b.
Proof.
  intros Hchr Hmax Hhex.
  pose proof (lexer_is_hex_digit_value b Hhex) as Hvalue.
  rewrite lexer_is_hex_digit_cases in Hhex. unfold hex_digit_value in *.
  rewrite !Z.geb_leb in *. unfold LEXER_TO_ASCII_LOWERCASE, to_uint16.
  change (2 ^ 16) with 65536 in *.
  rewrite Z.shiftl_mul_pow2 by lia. change (2 ^ 4) with 16.
  rewrite (Z.mod_small (chr * 16)) by lia.
  destruct ((48 <=? b) && (b <=? 57)) eqn:Hd.
  - apply andb_true_iff in Hd as [H1 H2]. rewrite H2.
    apply Z.leb_le in H1, H2. rewrite Z.mod_small by lia. lia.
  - cbn [orb] in Hhex. apply andb_true_iff in Hhex as [H1 H2].
    apply Z.leb_le in H1, H2.
    assert (Hb : 0 <= b).
    { destruct (Z.lor_nonneg b 0x20) as [Hnonneg _]. apply Hnonneg. lia. }
    pose proof (lor_0x20_bounds b Hb) as Hlor.
    destruct (Z.leb_spec b 57); [lia |].
    rewrite Z.mod_small by lia. lia.
Qed.

Lemma lexer_decode_unicode_sequence_from_spec (mem : list Z) :
  forall (n : nat) (p chr : Z) (bytes : list Z),
    load_bytes mem p n = Done bytes ->
    forallb lexer_is_hex_digit bytes = true ->
    0 <= chr -> (chr + 1) * 16 ^ Z.of_nat n <= 2 ^ 16 ->
    lexer_decode_unicode_sequence_from mem p n chr = Done (hex_value_from chr bytes)
    /\ hex_value_from chr bytes < (chr + 1) * 16 ^ Z.of_nat n.
Proof.
  induction n as [| n IH]; intros p chr bytes Hload Hall Hchr Hmax.
  - cbn [load_bytes] in Hload. injection Hload as <-.
    change (16 ^ Z.of_nat 0) with 1. cbn. split; [reflexivity | lia].
  - assert (Hpow : 16 ^ Z.of_nat (S n) = 16 * 16 ^ Z.of_nat n).
    { rewrite Nat2Z.inj_succ, Z.pow_succ_r by lia. reflexivity. }
    assert (Hpos : 0 < 16 ^ Z.of_nat n) by (apply Z.pow_pos_nonneg; lia).
    rewrite Hpow in *. cbn [load_bytes] in Hload.
    destruct (read mem p) as [b | | |] eqn:Hb; try discriminate.
    cbn [bind] in Hload.
    destruct (load_bytes mem (p + 1) n) as [rest | | |] eqn:Hrest; try discriminate.
    cbn [bind] in Hload. injection Hload as <-.
    cbn [forallb] in Hall. apply andb_true_iff in Hall as [Hhex Hall].
    pose proof (lexer_is_hex_digit_value b Hhex) as Hdigit.
    cbn [lexer_decode_unicode_sequence_from]. rewrite Hb. cbn [bind]. cbv zeta.
    rewrite (lexer_decode_unicode_digit chr b Hchr) by (assumption || nia).
    cbn [hex_value_from fold_left].
    destruct (IH (p + 1) (16 * chr + hex_digit_value b) rest Hrest Hall) as [Hcall Hlt];
      [lia | nia |].
    split; [exact Hcall |]. unfold hex_value_from in Hlt. nia.
Qed.

(** X2. on four hexadecimal digits [lexer_decode_unicode_sequence], which
    the comparison of identifiers uses and which checks nothing, gives
    the code unit that [lexer_hex_to_character], which the identifier
    scanner uses and which checks every digit, gives: the number the
    digits spell. *)
Theorem lexer_decode_unicode_sequence_agrees (mem : list Z) (ctx : parser_context_t)
  (p : Z) (bytes : list Z) :
  load_bytes mem (p + 2) 4 = Done bytes ->
  forallb lexer_is_hex_digit bytes = true ->
  lexer_decode_unicode_sequence mem p = Done (hex_value bytes)
  /\ lexer_hex_to_character mem ctx (p + 2) 4 = Done (hex_value bytes)
  /\ 0 <= hex_value bytes < 2 ^ 16.
Proof.
  intros Hload Hall.
  destruct (lexer_decode_unicode_sequence_from_spec mem 4 (p + 2) 0 bytes Hload Hall)
    as [Hdecode _]; [lia | vm_compute; discriminate |].
  destruct (lexer_hex_to_character_from_spec mem ctx 3 (p + 2) 0 bytes Hload) as [Hgood _];
    [lia | vm_compute; discriminate |].
  destruct (Hgood Hall) as [Hhex Hrange].
  change (16 ^ Z.of_nat 4) with 65536 in Hrange. change (2 ^ 16) with 65536.
  unfold lexer_decode_unicode_sequence, lexer_hex_to_character, hex_value.
  rewrite Hdecode, Hhex. unfold to_uint16. change (2 ^ 16) with 65536.
  rewrite Z.mod_small by lia. repeat split; lia.
Qed.

(** ** The space skipper *)

(** Comparisons that hold, as propositions. *)
Ltac to_prop :=
  repeat match goal with
         | H : (_ && _) = true |- _ => apply andb_true_iff in H; destruct H
         | H : (_ || _) = false |- _ => apply orb_false_iff in H; destruct H
         | H : negb _ = true |- _ => apply negb_true_iff in H
         | H : negb _ = false |- _ => apply negb_false_iff in H
         | H : (_ <? _) = true |- _ => apply Z.ltb_lt in H
         | H : (_ <? _) = false |- _ => apply Z.ltb_ge in H
         | H : (_ <=? _) = true |- _ => apply Z.leb_le in H
         | H : (_ <=? _) = false |- _ => apply Z.leb_gt in H
         | H : (_ >=? _) = _ |- _ => rewrite Z.geb_leb in H
         | H : (_ >? _) = _ |- _ => rewrite Z.gtb_ltb in H
         | H : (_ =? _) = true |- _ => apply Z.eqb_eq in H
         | H : (_ =? _) = false |- _ => apply Z.eqb_neq in H
         end.

Lemma ends_LEXER_NEWLINE_LS_PS_BYTE_23 (mem : list Z) (p : Z)
  (R : parser_error_t -> parser_context_t -> Prop) :
  0 <= p -> p + 2 < Z.of_nat (List.length mem) ->
  ends (fun _ => True) R (LEXER_NEWLINE_LS_PS_BYTE_23 mem p).
Proof.
  intros Hp Hend. unfold LEXER_NEWLINE_LS_PS_BYTE_23.
  eapply ends_bind; [apply ends_read; lia |]. intros b1 _.
  destruct (b1 =? 128); [| exact I].
  eapply ends_bind; [apply ends_read; lia |]. intros b2 _. exact I.
Qed.

(** One step along the head of a computation that is to come to an end;
    [bounds] proves that a read is inside the buffer. *)
Ltac ends_step bounds :=
  lazymatch goal with
  | |- ends _ _ (bind (read _ _) _) =>
      eapply ends_bind; [apply ends_read; bounds | intros ? ?]
  | |- ends _ _ (bind (and_read _ _ _ _) _) =>
      eapply ends_bind; [apply ends_and_read; intros ?; bounds | intros ? (? & ? & ?)]
  | |- ends _ _ (bind (LEXER_NEWLINE_LS_PS_BYTE_23 _ _) _) =>
      eapply ends_bind; [apply ends_LEXER_NEWLINE_LS_PS_BYTE_23; bounds | intros ? _]
  | |- ends _ _ (bind (if ?b then _ else _) _) => destruct b eqn:?
  | |- ends _ _ (bind (Done _) _) => cbn [bind]
  | |- ends _ _ (Done _) => cbn [ends]
  | |- ends _ _ (Raised _ _) => cbn [ends]
  | |- ends _ _ (parser_raise_error _ _) => unfold parser_raise_error; cbn [ends]
  | |- ends _ _ (if ?b then _ else _) => destruct b eqn:?
  | |- ends _ _ (match (if ?b then _ else _) with _ => _ end) => destruct b eqn:?
  | |- ends _ _ (match ?x with _ => _ end) => destruct x eqn:?
  end.

Ltac ends_cases bounds :=
  cbv beta iota zeta; repeat (ends_step bounds; cbv beta iota zeta).

(** What a round of the loop of [lexer_skip_spaces] keeps, and what
    holds when the loop is left. *)
Lemma lexer_skip_spaces_step_ends (mem : list Z) (p0 e : Z)
  (st : skip_mode_t * parser_context_t) :
  three_byte_sequences_complete mem p0 e ->
  e <= Z.of_nat (List.length mem) ->
  0 <= p0 <= source_p (snd st) /\ source_p (snd st) <= e /\ source_end_p (snd st) = e ->
  ends (fun c =>
          match c with
          | Next s' =>
              (0 <= p0 <= source_p (snd s') /\ source_p (snd s') <= e
               /\ source_end_p (snd s') = e)
              /\ (Z.to_nat (e - source_p (snd s')) < Z.to_nat (e - source_p (snd st)))%nat
          | Exit s' =>
              p0 <= source_p (snd s') <= e /\ source_end_p (snd s') = e
              /\ (source_p (snd s') = e
                  \/ exists b, read mem (source_p (snd s')) = Done b
                               /\ is_plain_space b = false)
          end)
       (fun err _ => err = PARSER_ERR_UNTERMINATED_MULTILINE_COMMENT)
       (lexer_skip_spaces_step mem st).
Proof.
  intros Hutf8 He (Hp0 & Hp & Hend). destruct st as [mode ctx]. cbn [snd] in *.
  unfold lexer_skip_spaces_step. rewrite Hend.
  destruct (Z.geb_spec (source_p ctx) e) as [Hge | Hlt].
  - destruct mode; cbn [ends snd]; try reflexivity;
      (split; [lia |]; split; [exact Hend |]; left; lia).
  - eapply ends_bind; [apply ends_read; lia |]. intros c0 Hc0.
    assert (Hstop : forall m : skip_mode_t,
               is_plain_space c0 = false ->
               ends (fun c =>
                       match c with
                       | Next s' =>
                           (0 <= p0 <= source_p (snd s') /\ source_p (snd s') <= e
                            /\ source_end_p (snd s') = e)
                           /\ (Z.to_nat (e - source_p (snd s'))
                               < Z.to_nat (e - source_p ctx))%nat
                       | Exit s' =>
                           p0 <= source_p (snd s') <= e /\ source_end_p (snd s') = e
                           /\ (source_p (snd s') = e
                               \/ exists b, read mem (source_p (snd s')) = Done b
                                            /\ is_plain_space b = false)
                       end)
                    (fun err _ => err = PARSER_ERR_UNTERMINATED_MULTILINE_COMMENT)
                    match mode with
                    | LEXER_SKIP_SPACES => Done (Exit (mode, ctx))
                    | _ =>
                        inter <- and_read (source_p (with_source_p (source_p ctx + 1) ctx)
                                           <? e) mem
                                          (source_p (with_source_p (source_p ctx + 1) ctx))
                                          IS_UTF8_INTERMEDIATE_OCTET ;;
                        if inter
                        then Done (Next (mode,
                                         with_column
                                           (to_lc (column (with_source_p (source_p ctx + 1)
                                                                         ctx) + 1))
                                           (with_source_p (source_p ctx + 1) ctx)))
                        else Done (Next (mode, with_source_p (source_p ctx + 1) ctx))
                    end).
    { intros _ Hplain. destruct mode; cbn [source_p with_source_p];
        ends_cases ltac:(to_prop; lia); cbn [snd source_p source_end_p with_column
                                             with_source_p];
        try (split; [lia |]; split; [exact Hend |]; right; exists c0; now split);
        (split; [lia | lia]). }
    assert (Hseq : c0 = LEXER_NEWLINE_LS_PS_BYTE_1 -> source_p ctx + 2 < e).
    { intros ->. apply Hutf8; [lia | exact Hc0]. }
    unfold is_plain_space in Hstop.
    ends_cases ltac:(cbn [source_p with_source_p] in *; to_prop;
                     try specialize (Hseq ltac:(assumption)); lia);
      cbn [snd source_p source_end_p with_column with_source_p with_line upd_token
               with_token] in *;
      try (apply (Hstop mode); to_prop;
           repeat match goal with
                  | H : _ <> _ |- _ => apply Z.eqb_neq in H; rewrite H
                  end; reflexivity);
      try (split; [lia | lia]).
Qed.

Lemma lexer_skip_spaces_ends (mem : list Z) (ctx : parser_context_t) :
  cursor_in_bounds mem ctx ->
  three_byte_sequences_complete mem (source_p ctx) (source_end_p ctx) ->
  ends (fun ctx' =>
          source_p ctx <= source_p ctx' <= source_end_p ctx
          /\ source_end_p ctx' = source_end_p ctx
          /\ (has_flag (token_flags (token ctx)) LEXER_NO_SKIP_SPACES = true ->
              source_p ctx' = source_p ctx)
          /\ (has_flag (token_flags (token ctx)) LEXER_NO_SKIP_SPACES = false ->
              source_p ctx' = source_end_p ctx
              \/ exists b, read mem (source_p ctx') = Done b /\ is_plain_space b = false))
       (fun e _ => e = PARSER_ERR_UNTERMINATED_MULTILINE_COMMENT)
       (lexer_skip_spaces mem ctx).
Proof.
  intros ((Hp0 & Hp) & He) Hutf8. unfold lexer_skip_spaces.
  destruct (has_flag (token_flags (token ctx)) LEXER_NO_SKIP_SPACES).
  - cbn [ends]. cbn. split; [lia |]. split; [reflexivity |].
    split; [reflexivity | discriminate].
  - eapply ends_bind.
    + apply (run_loop_ends (lexer_skip_spaces_step mem)
               (fun st => 0 <= source_p ctx <= source_p (snd st)
                          /\ source_p (snd st) <= source_end_p ctx
                          /\ source_end_p (snd st) = source_end_p ctx)
               (fun st => source_p ctx <= source_p (snd st) <= source_end_p ctx
                          /\ source_end_p (snd st) = source_end_p ctx
                          /\ (source_p (snd st) = source_end_p ctx
                              \/ exists b, read mem (source_p (snd st)) = Done b
                                           /\ is_plain_space b = false))
               _ (fun st => Z.to_nat (source_end_p ctx - source_p (snd st)))).
      * intros s Hs.
        exact (lexer_skip_spaces_step_ends mem (source_p ctx) (source_end_p ctx) s
                 Hutf8 He Hs).
      * cbn. lia.
      * cbn. unfold scan_fuel. lia.
    + intros st (Hrange & Hend & Hstop). cbn [ends].
      split; [lia |]. split; [exact Hend |]. split; [discriminate | intros _; exact Hstop].
Qed.

(** X3. [lexer_skip_spaces] on a cursor inside the source text, when every
    byte E2 ahead has its two continuation bytes before the end: the
    function comes to an end without reading outside the source; it
    returns with the cursor between where it was and the end of the
    source, or it raises [PARSER_ERR_UNTERMINATED_MULTILINE_COMMENT] and
    no other error.  With [LEXER_NO_SKIP_SPACES] set the cursor stays;
    otherwise the cursor stops at the end of the source or at a byte that
    is not a line end, a tab or one of the one-byte spaces. *)
Theorem lexer_skip_spaces_stays_in_source (mem : list Z) (ctx : parser_context_t) :
  cursor_in_bounds mem ctx ->
  three_byte_sequences_complete mem (source_p ctx) (source_end_p ctx) ->
  (exists ctx',
      lexer_skip_spaces mem ctx = Done ctx'
      /\ source_p ctx <= source_p ctx' <= source_end_p ctx
      /\ source_end_p ctx' = source_end_p ctx
      /\ (has_flag (token_flags (token ctx)) LEXER_NO_SKIP_SPACES = true ->
          source_p ctx' = source_p ctx)
      /\ (has_flag (token_flags (token ctx)) LEXER_NO_SKIP_SPACES = false ->
          source_p ctx' = source_end_p ctx
          \/ exists b, read mem (source_p ctx') = Done b /\ is_plain_space b = false))
  \/ (exists ctx',
         lexer_skip_spaces mem ctx = Raised PARSER_ERR_UNTERMINATED_MULTILINE_COMMENT ctx').
Proof.
  intros Hbounds Hutf8. pose proof (lexer_skip_spaces_ends mem ctx Hbounds Hutf8) as H.
  destruct (lexer_skip_spaces mem ctx) as [ctx' | err ctx' | |]; cbn [ends] in H;
    try contradiction.
  - left. exists ctx'. split; [reflexivity | exact H].
  - right. exists ctx'. now subst err.
Qed.

Lemma three_byte_sequences_complete_without (mem : list Z) (p e : Z) :
  forallb (fun b => negb (b =? LEXER_NEWLINE_LS_PS_BYTE_1)) mem = true ->
  three_byte_sequences_complete mem p e.
Proof.
  intros Hall q _ Hread. unfold read in Hread.
  destruct (q <? 0); [discriminate |].
  destruct (nth_error mem (Z.to_nat q)) as [b |] eqn:Hnth; [| discriminate].
  injection Hread as ->. apply nth_error_In in Hnth.
  rewrite forallb_forall in Hall. specialize (Hall _ Hnth).
  rewrite Z.eqb_refl in Hall. discriminate.
Qed.

(** ** Empty statements and the look-ahead checks *)

Lemma three_byte_sequences_complete_later (mem : list Z) (p p' e : Z) :
  p <= p' -> three_byte_sequences_complete mem p e ->
  three_byte_sequences_complete mem p' e.
Proof. intros Hle H q Hq. apply H. lia. Qed.

Lemma lexer_skip_empty_statements_step_ends (mem : list Z) (p0 e : Z)
  (ctx : parser_context_t) :
  three_byte_sequences_complete mem p0 e ->
  e <= Z.of_nat (List.length mem) ->
  0 <= p0 <= source_p ctx /\ source_p ctx <= e /\ source_end_p ctx = e ->
  ends (fun c =>
          match c with
          | Next ctx' =>
              (0 <= p0 <= source_p ctx' /\ source_p ctx' <= e /\ source_end_p ctx' = e)
              /\ (Z.to_nat (e - source_p ctx') < Z.to_nat (e - source_p ctx))%nat
          | Exit ctx' =>
              p0 <= source_p ctx' <= e /\ source_end_p ctx' = e
              /\ (source_p ctx' = e
                  \/ exists b, read mem (source_p ctx') = Done b /\ b <> 59)
          end)
       (fun err _ => err = PARSER_ERR_UNTERMINATED_MULTILINE_COMMENT)
       (lexer_skip_empty_statements_step mem ctx).
Proof.
  intros Hutf8 He (Hp0 & Hp & Hend). unfold lexer_skip_empty_statements_step.
  rewrite Hend.
  eapply ends_bind; [apply ends_and_read; intros Hlt; to_prop; lia |].
  intros semicolon (_ & Hyes & Hno). destruct semicolon.
  - destruct (Hyes eq_refl) as [Hlt _]. to_prop.
    eapply ends_bind.
    + apply lexer_skip_spaces_ends.
      * unfold cursor_in_bounds. cbn [source_p source_end_p with_source_p]. lia.
      * cbn [source_p source_end_p with_source_p]. rewrite Hend.
        apply (three_byte_sequences_complete_later mem p0); [lia | exact Hutf8].
    + cbn [source_p source_end_p with_source_p]. rewrite Hend.
      intros ctx' (Hrange & Hend' & _). cbn [ends]. split; [lia | lia].
  - cbn [ends]. split; [lia |]. split; [exact Hend |].
    destruct (Hno eq_refl) as [Hlimit | (b & Hb & Htest)].
    + left. to_prop. lia.
    + right. exists b. split; [exact Hb |]. now apply Z.eqb_neq.
Qed.

(** X4. [lexer_skip_empty_statements] on a cursor inside the source text,
    when every byte E2 ahead has its two continuation bytes before the
    end: the function comes to an end without reading outside the
    source; when it returns the cursor is not on a semicolon: it is at
    the end of the source or on another byte; the only error it raises
    is [PARSER_ERR_UNTERMINATED_MULTILINE_COMMENT]. *)
Theorem lexer_skip_empty_statements_leaves_no_semicolon (mem : list Z)
  (ctx : parser_context_t) :
  cursor_in_bounds mem ctx ->
  three_byte_sequences_complete mem (source_p ctx) (source_end_p ctx) ->
  (exists ctx',
      lexer_skip_empty_statements mem ctx = Done ctx'
      /\ source_p ctx <= source_p ctx' <= source_end_p ctx
      /\ source_end_p ctx' = source_end_p ctx
      /\ (source_p ctx' = source_end_p ctx
          \/ exists b, read mem (source_p ctx') = Done b /\ b <> 59))
  \/ (exists ctx',
         lexer_skip_empty_statements mem ctx
         = Raised PARSER_ERR_UNTERMINATED_MULTILINE_COMMENT ctx').
Proof.
  intros Hbounds Hutf8. pose proof Hbounds as ((Hp0 & Hp) & He).
  assert (H : ends (fun ctx' =>
                      source_p ctx <= source_p ctx' <= source_end_p ctx
                      /\ source_end_p ctx' = source_end_p ctx
                      /\ (source_p ctx' = source_end_p ctx
                          \/ exists b, read mem (source_p ctx') = Done b /\ b <> 59))
                   (fun e _ => e = PARSER_ERR_UNTERMINATED_MULTILINE_COMMENT)
                   (lexer_skip_empty_statements mem ctx)).
  { unfold lexer_skip_empty_statements.
    eapply ends_bind; [exact (lexer_skip_spaces_ends mem ctx Hbounds Hutf8) |].
    intros ctx1 (Hrange & Hend & _).
    apply (run_loop_ends (lexer_skip_empty_statements_step mem)
             (fun c => 0 <= source_p ctx <= source_p c
                       /\ source_p c <= source_end_p ctx
                       /\ source_end_p c = source_end_p ctx)
             _ _ (fun c => Z.to_nat (source_end_p ctx - source_p c))).
    - intros s Hs.
      exact (lexer_skip_empty_statements_step_ends mem (source_p ctx) (source_end_p ctx) s
               Hutf8 He Hs).
    - lia.
    - unfold scan_fuel. rewrite Hend. lia. }
  destruct (lexer_skip_empty_statements mem ctx) as [ctx' | err ctx' | |]; cbn [ends] in H;
    try contradiction.
  - left. exists ctx'. split; [reflexivity | exact H].
  - right. exists ctx'. now subst err.
Qed.

Lemma land_lor_absorb (a n : Z) : Z.land (Z.lor a n) n = n.
Proof.
  apply Z.bits_inj'. intros k Hk. rewrite Z.land_spec, Z.lor_spec.
  destruct (Z.testbit a k), (Z.testbit n k); reflexivity.
Qed.

Lemma land_byte (n : Z) : 0 <= n < 256 -> Z.land 255 n = n.
Proof.
  intros Hn. rewrite Z.land_comm. change 255 with (Z.ones 8).
  rewrite Z.land_ones by lia. apply Z.mod_small. change (2 ^ 8) with 256. lia.
Qed.

Lemma has_flag_set (flags n : Z) :
  0 < n < 256 -> has_flag (to_uint8 (Z.lor flags n)) n = true.
Proof.
  intros Hn. unfold has_flag, to_uint8.
  rewrite <- Z.land_ones by lia. change (Z.ones 8) with 255.
  rewrite <- Z.land_assoc, (land_byte n) by lia. rewrite land_lor_absorb.
  apply negb_true_iff. apply Z.eqb_neq. lia.
Qed.




(** ** Numbers *)

Lemma bind_assoc {A B C : Type} (r : result A) (k1 : A -> result B) (k2 : B -> result C) :
  bind (bind r k1) k2 = bind r (fun a => bind (k1 a) k2).
Proof. destruct r; reflexivity. Qed.

Lemma ends_scan_while (mem : list Z) (e : Z) (test : Z -> bool)
  (R : parser_error_t -> parser_context_t -> Prop) :
  e <= Z.of_nat (List.length mem) ->
  forall (fuel : nat) (p : Z),
    0 <= p <= e -> (Z.to_nat (e - p) < fuel)%nat ->
    ends (fun p' =>
            p <= p' <= e
            /\ (p' = e \/ exists b, read mem p' = Done b /\ test b = false)
            /\ forall q, p <= q < p' -> exists b, read mem q = Done b /\ test b = true)
         R (scan_while fuel mem e test p).
Proof.
  intros He. induction fuel as [| fuel IH]; intros p Hp Hfuel; [lia |].
  cbn [scan_while].
  eapply ends_bind; [apply ends_and_read; intros Hlt; to_prop; lia |].
  intros more (_ & Hyes & Hno). destruct more.
  - destruct (Hyes eq_refl) as [Hlt (b & Hb & Htest)]. to_prop.
    eapply ends_weaken; [apply (IH (p + 1)); lia | | auto].
    intros p' (Hrange & Hstop & Hall). split; [lia |]. split; [exact Hstop |].
    intros q Hq. destruct (Z.eq_dec q p) as [-> | Hne]; [now exists b |].
    apply Hall. lia.
  - cbn [ends]. split; [lia |]. split.
    + destruct (Hno eq_refl) as [Hlimit | Hbyte]; [left; to_prop; lia | now right].
    + intros q Hq. lia.
Qed.

(** What the reads made so far have found, for the branch taken. *)
Ltac use_reads :=
  repeat match goal with
         | H : ?a = true -> _, H' : ?a = true |- _ => specialize (H H')
         | H : ?a = false -> _, H' : ?a = false |- _ => specialize (H H')
         | H : ?a = true -> _, H' : ?a = false |- _ => clear H
         | H : ?a = false -> _, H' : ?a = true |- _ => clear H
         | H : _ /\ _ |- _ => destruct H
         | H : exists _, _ |- _ => destruct H
         end.

Ltac ends_step_more bounds :=
  lazymatch goal with
  | |- ends _ _ (bind (and_read ((if ?b then _ else _) <? _) _ _ _) _) =>
      destruct b eqn:?
  | |- ends _ _ (bind (bind _ _) _) => rewrite bind_assoc
  | |- ends _ _ (bind (scan_while _ _ _ _ _) _) =>
      eapply ends_bind;
      [apply ends_scan_while; [bounds | bounds | unfold scan_fuel; bounds]
      | intros ? (? & ? & ?)]
  | |- _ => ends_step bounds
  end.

Ltac ends_cases_more bounds :=
  cbv beta iota zeta; repeat (ends_step_more bounds; cbv beta iota zeta).

(** A leaf of [lexer_parse_number]: the token that a return leaves. *)
Ltac number_leaf :=
  cbn [source_p source_end_p upd_token upd_lit_location with_token with_column
                with_source_p] in *;
  unfold to_size_t in *; to_prop; use_reads; to_prop;
  match goal with
  | H : context [(?p - source_p ?c) mod 2 ^ size_t_bits] |- _ =>
      rewrite (Z.mod_small (p - source_p c) (2 ^ size_t_bits)) in * by lia
  end;
  unfold number_token, PARSER_PLUS_EQUAL_LC, to_uint16;
  cbn [source_p source_end_p upd_token upd_lit_location with_token with_column
                with_source_p token token_type literal_is_reserved lit_location
                set_token_type set_literal_is_reserved set_lit_location set_char_p_length
                char_p lit_length lit_type has_escape column line token_line
                token_column ctx_status_flags lit_object literal_pool literal_count];
  rewrite ?Z.mod_small by lia;
  split;
  [ repeat match goal with |- _ /\ _ => split end; try reflexivity; try lia
  | let c0 := fresh "c0" in
    let Hc0 := fresh "Hc0" in
    let Hdigit := fresh "Hdigit" in
    intros c0 Hc0 Hdigit; try lia;
    repeat match goal with
           | Hs : _ \/ _ |- _ => destruct Hs as [? | (? & ? & ?)]
           end; try lia;
    match type of Hc0 with
    | read _ ?sp = _ =>
        match goal with
        | Hr : read _ ?p = Done ?b, Hd : is_decimal_digit ?b = false |- _ =>
            destruct (Z.eq_dec p sp) as [Heq | Hne];
            [rewrite Heq in Hr; congruence | lia]
        end
    end ].

Lemma lexer_parse_number_ends (mem : list Z) (ctx : parser_context_t) :
  0 <= source_p ctx < source_end_p ctx ->
  source_end_p ctx <= Z.of_nat (List.length mem) ->
  source_end_p ctx - source_p ctx < 2 ^ size_t_bits ->
  PARSER_MAXIMUM_IDENT_LENGTH < 2 ^ 16 ->
  ends (fun r =>
          match r with
          | Returned (_, ctx') =>
              number_token ctx ctx'
              /\ (forall c0, read mem (source_p ctx) = Done c0 ->
                             is_decimal_digit c0 = true -> source_p ctx < source_p ctx')
          | RaisedMore e _ => is_number_error e
          end)
       no_error (lexer_parse_number mem ctx).
Proof.
  intros Hp He Hsize Hmax.
  unfold lexer_parse_number, bind_ending, parser_raise_more.
  cbn [source_p source_end_p upd_token upd_lit_location with_token].
  ends_cases_more ltac:(to_prop; use_reads; to_prop; lia);
    try exact I; number_leaf.
Qed.

(** X10. [lexer_parse_number] called with the cursor on a byte of the
    source (the size of the source fits [size_t] and
    [PARSER_MAXIMUM_IDENT_LENGTH] fits 16 bits) comes to an end without
    reading outside the source.  When it returns, the token is a
    [LEXER_LITERAL] that is not reserved, its literal is a number without
    escapes that starts where the cursor was and is as long as the cursor
    has moved, at most [PARSER_MAXIMUM_IDENT_LENGTH] bytes; the cursor has
    not left the source, the column has advanced by that length, and the
    line, the flags and the literal pool are as before; when the first
    byte is a decimal digit the cursor has moved.  Otherwise it raises one
    of the six errors of numbers. *)
Theorem lexer_parse_number_scans_a_literal (mem : list Z) (ctx : parser_context_t) :
  0 <= source_p ctx < source_end_p ctx ->
  source_end_p ctx <= Z.of_nat (List.length mem) ->
  source_end_p ctx - source_p ctx < 2 ^ size_t_bits ->
  PARSER_MAXIMUM_IDENT_LENGTH < 2 ^ 16 ->
  exists r,
    lexer_parse_number mem ctx = Done r
    /\ match r with
       | Returned (_, ctx') =>
           number_token ctx ctx'
           /\ (forall c0, read mem (source_p ctx) = Done c0 ->
                          is_decimal_digit c0 = true -> source_p ctx < source_p ctx')
       | RaisedMore e _ => is_number_error e
       end.
Proof.
  intros Hp He Hsize Hmax.
  pose proof (lexer_parse_number_ends mem ctx Hp He Hsize Hmax) as H.
  destruct (lexer_parse_number mem ctx) as [r | | |]; cbn [ends] in H; try contradiction.
  exists r. split; [reflexivity | exact H].
Qed.

Lemma lor_0x20_digit (c : Z) : 48 <= c <= 57 -> Z.lor c 0x20 = c.
Proof.
  intros Hc.
  assert (H : c = 48 \/ c = 49 \/ c = 50 \/ c = 51 \/ c = 52 \/ c = 53 \/ c = 54
              \/ c = 55 \/ c = 56 \/ c = 57) by lia.
  repeat (destruct H as [-> | H]; [reflexivity |]). now subst.
Qed.

(** X11. what [lexer_parse_number] rejects after a leading [0] that is not
    the last byte of the source: an octal digit in strict mode
    ([PARSER_ERR_OCTAL_NUMBER_NOT_ALLOWED]), the digits [8] and [9]
    ([PARSER_ERR_INVALID_NUMBER]), and an [x] or [X] that no hexadecimal
    digit follows ([PARSER_ERR_INVALID_HEX_DIGIT]). *)
Theorem lexer_parse_number_rejects_after_zero (mem : list Z) (ctx : parser_context_t)
  (c1 : Z) :
  read mem (source_p ctx) = Done 48 ->
  source_p ctx + 1 < source_end_p ctx ->
  read mem (source_p ctx + 1) = Done c1 ->
  (48 <= c1 <= 55 ->
   has_flag (ctx_status_flags ctx) PARSER_IS_STRICT = true ->
   exists ctx',
     lexer_parse_number mem ctx = Done (RaisedMore PARSER_ERR_OCTAL_NUMBER_NOT_ALLOWED ctx'))
  /\ (56 <= c1 <= 57 ->
      exists ctx',
        lexer_parse_number mem ctx = Done (RaisedMore PARSER_ERR_INVALID_NUMBER ctx'))
  /\ (c1 = 120 \/ c1 = 88 ->
      source_p ctx + 2 >= source_end_p ctx
      \/ (exists c2, read mem (source_p ctx + 2) = Done c2
                     /\ lexer_is_hex_digit c2 = false) ->
      exists ctx',
        lexer_parse_number mem ctx = Done (RaisedMore PARSER_ERR_INVALID_HEX_DIGIT ctx')).
Proof.
  intros H0 Hnext H1.
  assert (Hlt : (source_p ctx + 1 <? source_end_p ctx) = true) by (apply Z.ltb_lt; lia).
  unfold lexer_parse_number, bind_ending, parser_raise_more.
  cbn [source_p source_end_p upd_token upd_lit_location with_token ctx_status_flags].
  rewrite H0. cbn [bind]. change (48 =? 48) with true. rewrite Hlt. cbn [andb].
  rewrite H1. cbn [bind].
  split; [| split].
  - intros Hc1 Hstrict. rewrite (lor_0x20_digit c1) by lia.
    destruct (Z.eqb_spec c1 120); [lia |].
    destruct (Z.geb_spec c1 48); [| lia]. destruct (Z.leb_spec c1 55); [| lia].
    cbn [andb]. rewrite Hstrict. cbn [bind]. eexists. reflexivity.
  - intros Hc1. rewrite (lor_0x20_digit c1) by lia.
    destruct (Z.eqb_spec c1 120); [lia |].
    destruct (Z.geb_spec c1 48); [| lia]. destruct (Z.leb_spec c1 55); [lia |].
    destruct (Z.geb_spec c1 56); [| lia]. destruct (Z.leb_spec c1 57); [| lia].
    cbn [andb bind]. eexists. reflexivity.
  - intros Hx Hnone.
    assert (Hlor : (Z.lor c1 0x20 =? 120) = true) by (destruct Hx as [-> | ->]; reflexivity).
    rewrite Hlor. unfold and_read.
    destruct Hnone as [Hend | (c2 & H2 & Hhex)].
    + destruct (Z.ltb_spec (source_p ctx + 2) (source_end_p ctx)); [lia |].
      cbn [bind negb]. eexists. reflexivity.
    + destruct (source_p ctx + 2 <? source_end_p ctx).
      * rewrite H2. cbn [bind]. rewrite Hhex. cbn [bind negb]. eexists. reflexivity.
      * cbn [bind negb]. eexists. reflexivity.
Qed.

(** ** The keyword search *)

Lemma memcmp_refl (a : list Z) : memcmp a a = 0.
Proof.
  induction a as [| x a IH]; [reflexivity |].
  simpl. now rewrite Z.ltb_irrefl.
Qed.

Lemma keyword_compare_refl (a : list Z) : keyword_compare a a = 0.
Proof.
  destruct a as [| x a]; [reflexivity |].
  unfold keyword_compare. rewrite Z.sub_diag. cbn [Z.eqb]. apply memcmp_refl.
Qed.

Lemma keyword_compare_eq (a b : list Z) :
  List.length a = List.length b -> keyword_compare a b = 0 -> a = b.
Proof.
  intros Hlen Hcmp. destruct a as [| x a], b as [| y b]; try discriminate;
    [reflexivity |].
  unfold keyword_compare in Hcmp.
  destruct (Z.eqb_spec (x - y) 0) as [Hxy | Hxy]; [| contradiction].
  now apply memcmp_eq.
Qed.

Lemma keyword_group_sorted_spec (n : nat) (group : list keyword_string_t) :
  keyword_group_sorted n group = true ->
  (forall i k, nth_error group i = Some k ->
               List.length (bytes_of_string (keyword_p k)) = n)
  /\ (forall i j ki kj,
         (i < j)%nat ->
         nth_error group i = Some ki ->
         nth_error group j = Some kj ->
         keyword_compare (bytes_of_string (keyword_p ki))
                         (bytes_of_string (keyword_p kj)) < 0
         /\ keyword_compare (bytes_of_string (keyword_p kj))
                            (bytes_of_string (keyword_p ki)) > 0).
Proof.
  induction group as [| k rest IH]; intros Hsorted.
  - split; intros; destruct i; discriminate.
  - cbn [keyword_group_sorted] in Hsorted.
    apply andb_true_iff in Hsorted as [Hsorted Hrest].
    apply andb_true_iff in Hsorted as [Hlen Hbelow].
    apply Nat.eqb_eq in Hlen. destruct (IH Hrest) as [IHlen IHorder].
    rewrite forallb_forall in Hbelow.
    split.
    + intros [| i] k' Hk'; simpl in Hk'; [now injection Hk' as <- | eauto].
    + intros i j ki kj Hij Hi Hj.
      destruct j as [| j]; [lia |]. simpl in Hj.
      destruct i as [| i]; simpl in Hi.
      * injection Hi as <-.
        specialize (Hbelow kj (nth_error_In _ _ Hj)).
        apply andb_true_iff in Hbelow as [Hlt Hgt].
        apply Z.ltb_lt in Hlt. apply Z.gtb_lt in Hgt. lia.
      * apply (IHorder i j); [lia | assumption | assumption].
Qed.

Lemma keyword_groups_sorted (length : Z) :
  2 <= length <= 10 ->
  exists group,
    table_at keyword_strings_list (length - 2) = Done group
    /\ table_at keyword_lengths_list (length - 2) = Done (Z.of_nat (List.length group))
    /\ (0 < List.length group)%nat
    /\ keyword_group_sorted (Z.to_nat length) group = true.
Proof.
  intros Hlength.
  assert (H : length = 2 \/ length = 3 \/ length = 4 \/ length = 5 \/ length = 6
              \/ length = 7 \/ length = 8 \/ length = 9 \/ length = 10) by lia.
  repeat (destruct H as [-> | H]; [eexists; split; [reflexivity |]; split; [reflexivity |];
                                   split; [cbn; lia | vm_compute; reflexivity] |]).
  subst. eexists. split; [reflexivity |]. split; [reflexivity |].
  split; [cbn; lia | vm_compute; reflexivity].
Qed.

Lemma load_bytes_first (mem : list Z) (p : Z) (n : nat) (bytes : list Z) :
  (0 < n)%nat ->
  load_bytes mem p n = Done bytes ->
  exists c0 rest, bytes = c0 :: rest /\ read mem p = Done c0.
Proof.
  intros Hn Hload. destruct n as [| n]; [lia |]. simpl in Hload.
  destruct (read mem p) as [c0 | | |]; try discriminate. cbn [bind] in Hload.
  destruct (load_bytes mem (p + 1) n) as [rest | | |]; try discriminate.
  cbn [bind] in Hload. injection Hload as <-. now exists c0, rest.
Qed.

(** One round of the search, by the comparison it makes. *)
Lemma keyword_search_step_compare (mem : list Z) (group : list keyword_string_t)
  (ident_start_p length : Z) (ident : list Z) (st : keyword_search_t)
  (keyword : keyword_string_t) :
  (0 < Z.to_nat length)%nat ->
  load_bytes mem ident_start_p (Z.to_nat length) = Done ident ->
  table_at group (ks_middle st) = Done keyword ->
  List.length (bytes_of_string (keyword_p keyword)) = Z.to_nat length ->
  keyword_search_step mem group ident_start_p length st
  = let compare_result := keyword_compare ident (bytes_of_string (keyword_p keyword)) in
    if compare_result =? 0 then
      Done (Exit {| ks_start := ks_start st; ks_end := ks_end st;
                    ks_middle := ks_middle st; ks_found := Some keyword |})
    else
      let '(start, end_) :=
        if compare_result >? 0 then (ks_middle st + 1, ks_end st)
        else (ks_start st, ks_middle st) in
      let st := {| ks_start := start; ks_end := end_;
                   ks_middle := (start + end_) / 2; ks_found := None |} in
      if start <? end_ then Done (Next st) else Done (Exit st).
Proof.
  intros Hn Hload Hkeyword Hlen.
  destruct (load_bytes_first mem ident_start_p _ ident Hn Hload)
    as (c0 & rest & -> & Hread).
  unfold keyword_search_step. rewrite Hkeyword. cbn [bind]. rewrite Hread. cbn [bind].
  destruct (bytes_of_string (keyword_p keyword)) as [| k0 keyword_rest] eqn:Hbytes;
    [simpl in Hlen; lia |].
  cbn [table_at Z.ltb Z.compare Z.to_nat nth_error bind keyword_compare].
  destruct (c0 - k0 =? 0); [| reflexivity].
  rewrite Hload. reflexivity.
Qed.

Lemma keyword_search_finds (mem : list Z) (group : list keyword_string_t)
  (ident_start_p length : Z) (ident : list Z) :
  (0 < Z.to_nat length)%nat ->
  load_bytes mem ident_start_p (Z.to_nat length) = Done ident ->
  (0 < List.length group)%nat ->
  keyword_group_sorted (Z.to_nat length) group = true ->
  ends (fun st => match ks_found st with
                  | Some keyword =>
                      In keyword group /\ bytes_of_string (keyword_p keyword) = ident
                  | None =>
                      forall keyword, In keyword group ->
                                      bytes_of_string (keyword_p keyword) <> ident
                  end)
       no_error
       (run_loop (keyword_search_step mem group ident_start_p length)
                 (S (Z.to_nat (Z.of_nat (List.length group))))
                 {| ks_start := 0; ks_end := Z.of_nat (List.length group);
                    ks_middle := Z.of_nat (List.length group) / 2; ks_found := None |}).
Proof.
  intros Hn Hload Hgroup Hsorted.
  destruct (keyword_group_sorted_spec _ _ Hsorted) as [Hlens Horder].
  pose proof (load_bytes_length mem _ _ _ Hload) as Hident.
  set (len := Z.of_nat (List.length group)).
  apply (run_loop_ends
           (keyword_search_step mem group ident_start_p length)
           (fun st =>
              0 <= ks_start st < ks_end st /\ ks_end st <= len
              /\ ks_middle st = (ks_start st + ks_end st) / 2
              /\ forall i keyword,
                   nth_error group i = Some keyword ->
                   bytes_of_string (keyword_p keyword) = ident ->
                   ks_start st <= Z.of_nat i < ks_end st)
           _ _ (fun st => Z.to_nat (ks_end st - ks_start st))).
  - intros st (Hrange & Hend & Hmiddle & Hwhere).
    assert (Hmid : ks_start st <= ks_middle st < ks_end st).
    { rewrite Hmiddle. split.
      - apply Z.div_le_lower_bound; lia.
      - apply Z.div_lt_upper_bound; lia. }
    destruct (nth_error group (Z.to_nat (ks_middle st))) as [keyword |] eqn:Hnth.
    2:{ apply nth_error_None in Hnth. subst len. lia. }
    assert (Hkeyword : table_at group (ks_middle st) = Done keyword).
    { unfold table_at. destruct (Z.ltb_spec (ks_middle st) 0); [lia |]. now rewrite Hnth. }
    rewrite (keyword_search_step_compare mem group ident_start_p length ident st keyword
               Hn Hload Hkeyword (Hlens _ _ Hnth)).
    cbv zeta.
    assert (Hbelow : forall i k,
               nth_error group i = Some k ->
               bytes_of_string (keyword_p k) = ident ->
               Z.of_nat i < ks_middle st ->
               keyword_compare ident (bytes_of_string (keyword_p keyword)) < 0).
    { intros i k Hi Hk Hlt. rewrite <- Hk.
      apply (Horder i (Z.to_nat (ks_middle st)) k keyword); [lia | assumption | assumption]. }
    assert (Habove : forall i k,
               nth_error group i = Some k ->
               bytes_of_string (keyword_p k) = ident ->
               ks_middle st < Z.of_nat i ->
               keyword_compare ident (bytes_of_string (keyword_p keyword)) > 0).
    { intros i k Hi Hk Hlt. rewrite <- Hk.
      apply (Horder (Z.to_nat (ks_middle st)) i keyword k); [lia | assumption | assumption]. }
    assert (Hat : forall i k,
               nth_error group i = Some k ->
               bytes_of_string (keyword_p k) = ident ->
               Z.of_nat i = ks_middle st ->
               keyword_compare ident (bytes_of_string (keyword_p keyword)) = 0).
    { intros i k Hi Hk Heq. rewrite <- Heq, Nat2Z.id in Hnth.
      rewrite Hi in Hnth. injection Hnth as <-. rewrite Hk. apply keyword_compare_refl. }
    destruct (Z.eqb_spec (keyword_compare ident (bytes_of_string (keyword_p keyword))) 0)
      as [Hzero | Hnonzero].
    + cbn [ends ks_found]. split; [exact (nth_error_In _ _ Hnth) |].
      symmetry. apply keyword_compare_eq; [| exact Hzero].
      rewrite Hident. symmetry. exact (Hlens _ _ Hnth).
    + assert (Hnone : forall start end_,
                 (forall i k, nth_error group i = Some k ->
                              bytes_of_string (keyword_p k) = ident ->
                              start <= Z.of_nat i < end_) ->
                 ks_start st <= start -> end_ <= ks_end st ->
                 end_ - start < ks_end st - ks_start st -> 0 <= start ->
                 ends (fun c =>
                         match c with
                         | Next s' =>
                             (0 <= ks_start s' < ks_end s' /\ ks_end s' <= len
                              /\ ks_middle s' = (ks_start s' + ks_end s') / 2
                              /\ forall i keyword,
                                   nth_error group i = Some keyword ->
                                   bytes_of_string (keyword_p keyword) = ident ->
                                   ks_start s' <= Z.of_nat i < ks_end s')
                             /\ (Z.to_nat (ks_end s' - ks_start s')
                                 < Z.to_nat (ks_end st - ks_start st))%nat
                         | Exit s' =>
                             match ks_found s' with
                             | Some keyword =>
                                 In keyword group
                                 /\ bytes_of_string (keyword_p keyword) = ident
                             | None =>
                                 forall keyword,
                                   In keyword group ->
                                   bytes_of_string (keyword_p keyword) <> ident
                             end
                         end) no_error
                      (if start <? end_
                       then Done (Next {| ks_start := start; ks_end := end_;
                                          ks_middle := (start + end_) / 2;
                                          ks_found := None |})
                       else Done (Exit {| ks_start := start; ks_end := end_;
                                          ks_middle := (start + end_) / 2;
                                          ks_found := None |}))).
      { intros start end_ Hin Hs He Hless Hs0.
        destruct (Z.ltb_spec start end_) as [Hlt | Hge]; cbn [ends ks_start ks_end
                                                             ks_middle ks_found].
        - split; [| lia]. split; [lia |]. split; [lia |]. split; [reflexivity | exact Hin].
        - intros k Hk Hbytes. apply In_nth_error in Hk as [i Hi].
          specialize (Hin i k Hi Hbytes). lia. }
      destruct (Z.gtb_spec (keyword_compare ident (bytes_of_string (keyword_p keyword))) 0)
        as [Hpos | Hneg].
      * apply Hnone; try lia.
        intros i k Hi Hk. specialize (Hwhere i k Hi Hk).
        destruct (Z.lt_trichotomy (Z.of_nat i) (ks_middle st)) as [Hlt | [Heq | Hgt]].
        -- specialize (Hbelow i k Hi Hk Hlt). lia.
        -- specialize (Hat i k Hi Hk Heq). lia.
        -- lia.
      * apply Hnone; try lia.
        intros i k Hi Hk. specialize (Hwhere i k Hi Hk).
        destruct (Z.lt_trichotomy (Z.of_nat i) (ks_middle st)) as [Hlt | [Heq | Hgt]].
        -- lia.
        -- specialize (Hat i k Hi Hk Heq). lia.
        -- specialize (Habove i k Hi Hk Hgt). lia.
  - cbn [ks_start ks_end ks_middle]. split; [subst len; lia |]. split; [lia |].
    split; [reflexivity |].
    intros i k Hi _. assert (i < List.length group)%nat by (apply nth_error_Some; congruence).
    subst len. lia.
  - cbn [ks_start ks_end]. lia.
Qed.

(** X14. the keyword search of [lexer_parse_identifier] is a lookup in the
    keyword tables.  For an identifier of 2 to 10 readable bytes the
    binary search comes to an end; it finds a keyword exactly when the
    group of that length holds a keyword with these bytes, and then the
    token gets the type of that keyword, or, for a future reserved word
    of strict mode, the mark [literal_is_reserved] or, in strict mode,
    the error [PARSER_ERR_STRICT_IDENT_NOT_ALLOWED]; with no such
    keyword in the group the context is returned as it was. *)
Theorem keyword_search_is_table_lookup (mem : list Z) (ctx : parser_context_t)
  (ident_start_p length : Z) (ident : list Z) :
  2 <= length <= 10 ->
  load_bytes mem ident_start_p (Z.to_nat length) = Done ident ->
  exists group,
    table_at keyword_strings_list (length - 2) = Done group
    /\ ((exists keyword,
            In keyword group
            /\ bytes_of_string (keyword_p keyword) = ident
            /\ lexer_parse_identifier_keyword mem ctx ident_start_p length
               = if is_future_strict_reserved_word (keyword_type keyword) then
                   if has_flag (ctx_status_flags ctx) PARSER_IS_STRICT
                   then Raised PARSER_ERR_STRICT_IDENT_NOT_ALLOWED ctx
                   else Done (upd_token (set_literal_is_reserved true) ctx)
                 else Done (upd_token (set_token_type (keyword_type keyword)) ctx))
        \/ ((forall keyword, In keyword group ->
                             bytes_of_string (keyword_p keyword) <> ident)
            /\ lexer_parse_identifier_keyword mem ctx ident_start_p length = Done ctx)).
Proof.
  intros Hlength Hload.
  destruct (keyword_groups_sorted length Hlength)
    as (group & Hgroup & Hlen & Hnonempty & Hsorted).
  exists group. split; [exact Hgroup |].
  assert (Hn : (0 < Z.to_nat length)%nat) by lia.
  pose proof (keyword_search_finds mem group ident_start_p length ident
                Hn Hload Hnonempty Hsorted) as Hsearch.
  unfold lexer_parse_identifier_keyword. rewrite Hgroup, Hlen. cbn [bind].
  destruct (run_loop _ _ _) as [st | | |]; cbn [ends] in Hsearch; try contradiction.
  cbn [bind]. destruct (ks_found st) as [keyword |].
  - left. exists keyword. destruct Hsearch as [Hin Hbytes].
    split; [exact Hin |]. split; [exact Hbytes |]. reflexivity.
  - right. split; [exact Hsearch | reflexivity].
Qed.

(** ** The punctuators *)

Context {tokens : js_lexer_tokens}.

Lemma load_bytes_cons (mem : list Z) (p : Z) (n : nat) (bytes : list Z) :
  load_bytes mem p n = Done bytes ->
  match bytes with
  | [] => n = O
  | b :: rest =>
      exists n', n = S n' /\ read mem p = Done b /\ load_bytes mem (p + 1) n' = Done rest
  end.
Proof.
  intros Hload. destruct n as [| n]; simpl in Hload.
  - now injection Hload as <-.
  - destruct (read mem p) as [b | | |] eqn:Hread; try discriminate. cbn [bind] in Hload.
    destruct (load_bytes mem (p + 1) n) as [rest | | |] eqn:Hrest; try discriminate.
    cbn [bind] in Hload. injection Hload as <-. exists n. now repeat split.
Qed.

Lemma starts_with_first (x b : Z) (s bytes : list Z) :
  b <> x -> starts_with (x :: s) (b :: bytes) = false.
Proof. intros Hne. cbn [starts_with]. now rewrite (proj2 (Z.eqb_neq b x) Hne). Qed.

(** The byte strings of the punctuators, for the case analysis. *)
Ltac spell_out :=
  repeat match goal with
         | |- context [bytes_of_string ?s] =>
             let v := eval vm_compute in (bytes_of_string s) in
             change (bytes_of_string s) with v
         | H : context [bytes_of_string ?s] |- _ =>
             let v := eval vm_compute in (bytes_of_string s) in
             change (bytes_of_string s) with v in H
         end.

(** An entry of the table that the bytes at hand do not start with. *)
Ltac not_spelled H :=
  spell_out; cbn [starts_with] in H;
  first [ discriminate H | to_prop; first [lia | congruence] ].

(** No entry of the table that the bytes start with is longer than the
    one taken. *)
Ltac none_longer :=
  let s' := fresh "s'" in
  let type' := fresh "type'" in
  let Hin := fresh "Hin" in
  let Hstart := fresh "Hstart" in
  intros s' type' Hin Hstart; unfold punctuators in Hin; cbn [In] in Hin;
  repeat (let Heq := fresh "Heq" in
          destruct Hin as [Heq | Hin];
          [injection Heq as <- <-;
           first [ solve [cbn [String.length]; lia] | exfalso; not_spelled Hstart ] |]);
  destruct Hin.

(** No entry of the table starts with the byte at hand. *)
Ltac none_spelled :=
  let s := fresh "s" in
  let type := fresh "type" in
  let Hin := fresh "Hin" in
  intros s type Hin; unfold punctuators in Hin; cbn [In] in Hin;
  repeat (let Heq := fresh "Heq" in
          destruct Hin as [Heq | Hin];
          [injection Heq as <- <-; spell_out; apply starts_with_first;
           first [assumption | lia] |]);
  destruct Hin.

Ltac find_punctuator :=
  unfold punctuators; cbn [In]; repeat first [left; reflexivity | right].

(** The bytes that the switch looks at, as far as the source goes. *)
Ltac open_once bs n :=
  lazymatch n with
  | S ?n' =>
      lazymatch bs with
      | _ :: ?r => open_once r n'
      | [] => fail
      | _ => destruct bs
      end
  | O => fail
  end.

Ltac open_to k :=
  let n := eval vm_compute in (Z.to_nat k) in
  repeat match goal with
         | Hl : load_bytes _ _ _ = Done ?bs |- _ => open_once bs n
         end.

Ltac switch_test b :=
  lazymatch b with
  | Z.geb ?x ?k =>
      open_to k;
      try match goal with
          | Hl : _ = Z.to_nat _ |- _ => cbn [Datatypes.length] in Hl
          end;
      (destruct (Z.geb_spec x k);
       [first [exfalso; lia | idtac] | first [exfalso; lia | idtac]])
  | context [Z.eqb ?x ?k] =>
      let Heq := fresh "Heq" in
      let Hne := fresh "Hne" in
      destruct (Z.eqb_spec x k) as [Heq | Hne];
      [first [exfalso; lia | subst x | idtac] | first [exfalso; lia | idtac]];
      cbn [orb andb]
  | _ => let Hb := fresh "Hb" in destruct b eqn:Hb
  end.

Ltac switch_step :=
  cbn [bind];
  lazymatch goal with
  | |- exists action, Done _ = Done action /\ _ => fail "leaf"
  | |- exists action, (if ?b then _ else _) = Done action /\ _ => switch_test b
  | |- exists action, bind (if ?b then _ else _) _ = Done action /\ _ => switch_test b
  | |- exists action, bind (bind _ _) _ = Done action /\ _ => rewrite bind_assoc
  | |- exists action, bind (read _ (_ + ?k)) _ = Done action /\ _ =>
      match goal with
      | Hr : forall k b, 0 <= k -> nth_error _ _ = Some b -> read _ _ = Done b |- _ =>
          rewrite (Hr k _ ltac:(lia) eq_refl)
      end
  | |- exists action, bind (and_read _ _ _ _) _ = Done action /\ _ => unfold and_read at 1
  | |- exists action, bind (next_is _ _ _ _ _) _ = Done action /\ _ => unfold next_is at 1
  | |- exists action, LEXER_TYPE_A_TOKEN _ = Done action /\ _ => unfold LEXER_TYPE_A_TOKEN
  | |- exists action, LEXER_TYPE_B_TOKEN _ _ _ _ _ _ = Done action /\ _ =>
      unfold LEXER_TYPE_B_TOKEN
  | |- exists action, LEXER_TYPE_C_TOKEN _ _ _ _ _ _ _ _ = Done action /\ _ =>
      unfold LEXER_TYPE_C_TOKEN
  end.

Ltac switch_leaf :=
  cbn [bind]; eexists; split; [reflexivity |]; cbv beta iota;
  lazymatch goal with
  | |- (exists s, _) /\ _ =>
      split;
      [ eexists; split; [find_punctuator |]; split; [reflexivity |];
        split; [reflexivity | none_longer]
      | intros ? ? ?; congruence ]
  | |- exists c1 rest, _ = 46 :: c1 :: rest /\ _ =>
      do 2 eexists; split; [reflexivity | assumption]
  | |- exists c0 rest, _ = c0 :: rest /\ (_ \/ _) =>
      do 2 eexists; split; [reflexivity | lia]
  | |- (forall s type, _) /\ _ =>
      split; [none_spelled | do 2 eexists; split; [reflexivity | lia]]
  end.

(** X15. the switch of [lexer_next_token] takes the longest punctuator.
    With [bytes] the bytes of the source from the cursor on, it comes to
    an end without reading past them, and it gives a token of [n] bytes
    exactly for the punctuator of [n] bytes that the bytes start with
    when they start with no longer one (a dot before a digit excepted,
    which starts a number); it leaves a quote to [lexer_parse_string]
    and rejects a byte that starts no punctuator. *)
Theorem lexer_next_token_switch_takes_the_longest (mem : list Z) (ctx : parser_context_t)
  (length : Z) (bytes : list Z) :
  0 < length ->
  load_bytes mem (source_p ctx) (Z.to_nat length) = Done bytes ->
  exists action,
    lexer_next_token_switch mem ctx length = Done action
    /\ match action with
       | TokenOfLength type n =>
           (exists s,
               In (s, type) punctuators
               /\ n = Z.of_nat (String.length s)
               /\ starts_with (bytes_of_string s) bytes = true
               /\ forall s' type',
                    In (s', type') punctuators ->
                    starts_with (bytes_of_string s') bytes = true ->
                    (String.length s' <= String.length s)%nat)
           /\ forall c1 rest, bytes = 46 :: c1 :: rest -> is_decimal_digit c1 = false
       | CallParseNumber =>
           exists c1 rest, bytes = 46 :: c1 :: rest /\ is_decimal_digit c1 = true
       | CallParseString =>
           exists c0 rest, bytes = c0 :: rest /\ (c0 = 39 \/ c0 = 34 \/ c0 = 96)
       | RaiseInvalidCharacter =>
           (forall s type, In (s, type) punctuators ->
                           starts_with (bytes_of_string s) bytes = false)
           /\ exists c0 rest, bytes = c0 :: rest /\ c0 <> 39 /\ c0 <> 34 /\ c0 <> 96
       end.
Proof.
  intros Hlength Hload.
  pose proof (load_bytes_length mem _ _ _ Hload) as Hlen.
  assert (Hreads : forall k b, 0 <= k -> nth_error bytes (Z.to_nat k) = Some b ->
                               read mem (source_p ctx + k) = Done b).
  { assert (H : forall i b, nth_error bytes i = Some b ->
                            read mem (source_p ctx + Z.of_nat i) = Done b).
    { clear Hlen Hlength. revert Hload. generalize (source_p ctx) as p.
      generalize (Z.to_nat length) as n. clear length.
      induction bytes as [| b0 rest IH]; intros n p Hload i b Hi;
        [destruct i; discriminate |].
      pose proof (load_bytes_cons mem p n (b0 :: rest) Hload) as (n' & -> & Hread & Hrest).
      destruct i as [| i].
      - injection Hi as <-. now rewrite Z.add_0_r.
      - simpl in Hi. specialize (IH n' (p + 1) Hrest i b Hi).
        replace (p + Z.of_nat (S i)) with (p + 1 + Z.of_nat i) by lia. exact IH. }
    intros k b Hk Hnth. specialize (H _ _ Hnth). now rewrite Z2Nat.id in H by lia. }
  destruct bytes as [| c0 rest]; [simpl in Hlen; lia |].
  unfold lexer_next_token_switch. cbv zeta.
  pose proof (Hreads 0 c0 ltac:(lia) eq_refl) as H0. rewrite Z.add_0_r in H0.
  rewrite H0.
  repeat switch_step.
  all: switch_leaf.
Qed.

(** ** The line ends that [lexer_skip_spaces] passes *)

Lemma to_lc_succ (n k : Z) : to_lc (to_lc (n + k) + 1) = to_lc (n + (k + 1)).
Proof.
  unfold to_lc, to_uint32. rewrite Zplus_mod_idemp_l. f_equal. lia.
Qed.

Lemma to_lc_moved (n k : Z) : 1 <= k < 2 ^ 32 -> to_lc (n + k) <> n.
Proof.
  unfold to_lc, to_uint32. change (2 ^ 32) with 4294967296. intros Hk Heq.
  pose proof (Z.mod_pos_bound (n + k) 4294967296 ltac:(lia)) as Hrange.
  rewrite Heq in Hrange.
  rewrite <- (Z.mod_small n 4294967296) in Heq at 2 by lia.
  assert (H : (n + k - n) mod 4294967296 = 0).
  { rewrite Zminus_mod, Heq, Z.sub_diag. reflexivity. }
  replace (n + k - n) with k in H by lia. rewrite Z.mod_small in H by lia. lia.
Qed.

(** What a round of the loop of [lexer_skip_spaces] keeps: [token.flags]
    is 0 and the line is the one at the start, or [token.flags] is
    [LEXER_WAS_NEWLINE] and the line has advanced by the number of line
    ends passed, which is at most the number of bytes passed. *)
Lemma lexer_skip_spaces_step_newlines (mem : list Z) (p0 line0 : Z)
  (st : skip_mode_t * parser_context_t) :
  p0 <= source_p (snd st)
  /\ ((token_flags (token (snd st)) = 0 /\ line (snd st) = line0)
      \/ (token_flags (token (snd st)) = LEXER_WAS_NEWLINE
          /\ exists k, 1 <= k <= source_p (snd st) - p0
                       /\ line (snd st) = to_lc (line0 + k))) ->
  returns (fun c =>
             let s' := match c with Next s' => s' | Exit s' => s' end in
             p0 <= source_p (snd s')
             /\ ((token_flags (token (snd s')) = 0 /\ line (snd s') = line0)
                 \/ (token_flags (token (snd s')) = LEXER_WAS_NEWLINE
                     /\ exists k, 1 <= k <= source_p (snd s') - p0
                                  /\ line (snd s') = to_lc (line0 + k))))
          (lexer_skip_spaces_step mem st).
Proof.
  intros (Hp & Hinv). destruct st as [mode ctx]. cbn [snd] in *.
  unfold lexer_skip_spaces_step.
  destruct Hinv as [(Hflags & Hline) | (Hflags & k & Hk & Hline)];
    returns_cases;
    cbn [snd source_p line token token_flags with_source_p with_line with_column
             upd_token with_token set_token_flags set_token_line set_token_column];
    (split; [lia |]);
    first [ left; split; assumption
          | right; split; [assumption | exists k; split; [lia | assumption]]
          | right; split; [reflexivity |]; exists 1; split; [lia |];
            rewrite Hline; reflexivity
          | right; split; [reflexivity |]; exists (k + 1); split; [lia |];
            rewrite Hline; apply to_lc_succ ].
Qed.

(** X16. [lexer_skip_spaces] records in [token.flags] whether it has
    passed a line end.  Called without [LEXER_NO_SKIP_SPACES], on a
    cursor inside a source of less than 2^32 bytes in which every byte
    E2 has its two continuation bytes, it returns with [token.flags] 0
    and the line unchanged, or with [token.flags] [LEXER_WAS_NEWLINE]
    and another line. *)
Theorem lexer_skip_spaces_records_newlines (mem : list Z) (ctx ctx' : parser_context_t) :
  cursor_in_bounds mem ctx ->
  three_byte_sequences_complete mem (source_p ctx) (source_end_p ctx) ->
  source_end_p ctx - source_p ctx < 2 ^ 32 ->
  has_flag (token_flags (token ctx)) LEXER_NO_SKIP_SPACES = false ->
  lexer_skip_spaces mem ctx = Done ctx' ->
  (token_flags (token ctx') = 0 /\ line ctx' = line ctx)
  \/ (token_flags (token ctx') = LEXER_WAS_NEWLINE /\ line ctx' <> line ctx).
Proof.
  intros Hbounds Hutf8 Hsize Hskip Hcall.
  pose proof (lexer_skip_spaces_ends mem ctx Hbounds Hutf8) as Hends.
  rewrite Hcall in Hends. cbn [ends] in Hends. destruct Hends as (Hrange & _).
  unfold lexer_skip_spaces in Hcall. rewrite Hskip in Hcall.
  destruct (run_loop _ _ _) as [st | | |] eqn:Hrun; try discriminate.
  cbn [bind] in Hcall. injection Hcall as <-.
  apply (run_loop_invariant (lexer_skip_spaces_step mem)
           (fun st =>
              source_p ctx <= source_p (snd st)
              /\ ((token_flags (token (snd st)) = 0 /\ line (snd st) = line ctx)
                  \/ (token_flags (token (snd st)) = LEXER_WAS_NEWLINE
                      /\ exists k, 1 <= k <= source_p (snd st) - source_p ctx
                                   /\ line (snd st) = to_lc (line ctx + k)))))
    in Hrun.
  - destruct Hrun as (_ & [Hsame | (Hflags & k & Hk & Hline)]); [left; exact Hsame |].
    right. split; [exact Hflags |]. rewrite Hline. apply to_lc_moved. lia.
  - intros s c Hs Hstep.
    pose proof (returns_done _ _ _ (lexer_skip_spaces_step_newlines mem _ _ s Hs) Hstep)
      as H.
    destruct c; exact H.
  - cbn. split; [lia |]. left. split; reflexivity.
Qed.

(** ** The look-ahead for an arrow *)

Lemma has_flag_other (flags n w : Z) :
  0 < n < 256 -> Z.land n w = 0 ->
  has_flag (to_uint8 (Z.lor flags n)) w = has_flag (to_uint8 flags) w.
Proof.
  intros Hn Hdisjoint. unfold has_flag, to_uint8. f_equal. f_equal.
  rewrite <- !Z.land_ones by lia.
  apply Z.bits_inj'. intros k Hk.
  rewrite !Z.land_spec, Z.lor_spec.
  assert (Hbit : Z.testbit n k && Z.testbit w k = false).
  { rewrite <- Z.land_spec, Hdisjoint. apply Z.bits_0. }
  destruct (Z.testbit flags k), (Z.testbit n k), (Z.testbit w k), (Z.testbit (Z.ones 8) k);
    try reflexivity; discriminate Hbit.
Qed.

(** X17. [lexer_check_arrow] takes [=>] for an arrow only on the line of
    the token before it.  Called without [LEXER_NO_SKIP_SPACES] on a
    cursor inside the source, with [LEXER_WAS_NEWLINE] and
    [LEXER_NO_SKIP_SPACES] two different bits of [token.flags] and
    [LEXER_ARROW] an enumerator other than [LEXER_COMMA] and
    [LEXER_RIGHT_PAREN], it answers [LEXER_ARROW] exactly when, after the
    spaces, the line is unchanged and the two bytes [=>] are at the
    cursor; it moves the cursor no further than [lexer_skip_spaces] does
    and sets [LEXER_NO_SKIP_SPACES]. *)
Theorem lexer_check_arrow_needs_the_same_line (mem : list Z) (ctx ctx' : parser_context_t)
  (type : lexer_token_type_t) :
  cursor_in_bounds mem ctx ->
  three_byte_sequences_complete mem (source_p ctx) (source_end_p ctx) ->
  source_end_p ctx - source_p ctx < 2 ^ 32 ->
  has_flag (token_flags (token ctx)) LEXER_NO_SKIP_SPACES = false ->
  0 < LEXER_NO_SKIP_SPACES < 256 ->
  0 < LEXER_WAS_NEWLINE < 256 ->
  Z.land LEXER_NO_SKIP_SPACES LEXER_WAS_NEWLINE = 0 ->
  LEXER_ARROW <> LEXER_COMMA ->
  LEXER_ARROW <> LEXER_RIGHT_PAREN ->
  lexer_check_arrow mem ctx = Done (type, ctx') ->
  (type = LEXER_ARROW
   <-> line ctx' = line ctx
       /\ source_p ctx' + 1 < source_end_p ctx'
       /\ read mem (source_p ctx') = Done 61
       /\ read mem (source_p ctx' + 1) = Done 62)
  /\ has_flag (token_flags (token ctx')) LEXER_NO_SKIP_SPACES = true
  /\ exists ctx1,
       lexer_skip_spaces mem ctx = Done ctx1
       /\ ctx' = upd_token (set_token_flags (token_flags (token ctx'))) ctx1.
Proof.
  intros Hbounds Hutf8 Hsize Hskip Hno_skip Hnewline Hbits Hcomma Hparen Hcall.
  unfold lexer_check_arrow in Hcall.
  destruct (lexer_skip_spaces mem ctx) as [ctx1 | | |] eqn:Hspaces; try discriminate.
  cbn [bind] in Hcall.
  pose proof (lexer_skip_spaces_records_newlines mem ctx ctx1 Hbounds Hutf8 Hsize Hskip
                Hspaces) as Hline.
  set (ctx2 := upd_token
                 (set_token_flags
                    (to_uint8 (Z.lor (token_flags (token ctx1)) LEXER_NO_SKIP_SPACES)))
                 ctx1) in *.
  assert (Hset : has_flag (token_flags (token ctx2)) LEXER_NO_SKIP_SPACES = true).
  { subst ctx2. cbn. apply has_flag_set. exact Hno_skip. }
  assert (Hwas : has_flag (token_flags (token ctx2)) LEXER_WAS_NEWLINE = true
                 <-> line ctx1 <> line ctx).
  { subst ctx2. cbn [token token_flags upd_token with_token set_token_flags].
    rewrite (has_flag_other _ _ _ Hno_skip Hbits).
    destruct Hline as [(Hflags & Hsame) | (Hflags & Hmoved)]; rewrite Hflags.
    - split; [discriminate | congruence].
    - split; [intros _; exact Hmoved | intros _].
      unfold has_flag, to_uint8. change (2 ^ 8) with 256.
      rewrite Z.mod_small by lia. rewrite Z.land_diag.
      apply negb_true_iff. apply Z.eqb_neq. lia. }
  assert (Hsame : forall t, (t, ctx2) = (type, ctx') ->
                            has_flag (token_flags (token ctx')) LEXER_NO_SKIP_SPACES = true
                            /\ exists ctx1',
                                 Done ctx1 = Done ctx1'
                                 /\ ctx' = upd_token
                                             (set_token_flags (token_flags (token ctx')))
                                             ctx1').
  { intros t Heq. injection Heq as _ <-. split; [exact Hset |].
    exists ctx1. split; [reflexivity |]. subst ctx2. destruct ctx1. reflexivity. }
  assert (Hctx : line ctx2 = line ctx1 /\ source_p ctx2 = source_p ctx1
                 /\ source_end_p ctx2 = source_end_p ctx1) by (subst ctx2; now cbn).
  destruct Hctx as (Hl2 & Hp2 & He2).
  destruct (Z.ltb_spec (source_p ctx2) (source_end_p ctx2)) as [Hlt | Hge].
  2:{ injection Hcall as <- <-. split; [| exact (Hsame _ eq_refl)].
      split; [discriminate | intros (_ & Hnext & _); lia]. }
  destruct (read mem (source_p ctx2)) as [c0 | | |] eqn:Hc0; try discriminate.
  cbn [bind] in Hcall.
  destruct (Z.eqb_spec c0 44) as [-> | Hne44].
  { injection Hcall as <- <-. split; [| exact (Hsame _ eq_refl)].
    split; [intros H; symmetry in H; contradiction
           | intros (_ & _ & Hread & _); congruence]. }
  destruct (Z.eqb_spec c0 41) as [-> | Hne41].
  { injection Hcall as <- <-. split; [| exact (Hsame _ eq_refl)].
    split; [intros H; symmetry in H; contradiction
           | intros (_ & _ & Hread & _); congruence]. }
  destruct (Z.eqb_spec c0 61) as [-> | Hne61].
  2:{ injection Hcall as <- <-. split; [| exact (Hsame _ eq_refl)].
      split; [discriminate | intros (_ & _ & Hread & _); congruence]. }
  destruct (has_flag (token_flags (token ctx2)) LEXER_WAS_NEWLINE) eqn:Hflag;
    cbn [negb] in Hcall.
  { cbn [bind] in Hcall. injection Hcall as <- <-.
    split; [| exact (Hsame _ eq_refl)].
    split; [discriminate |]. intros (Hline2 & _).
    exfalso. apply (proj1 Hwas eq_refl). congruence. }
  assert (Hline1 : line ctx1 = line ctx).
  { destruct (Z.eq_dec (line ctx1) (line ctx)) as [Heq | Hneq]; [exact Heq |].
    apply (proj2 Hwas) in Hneq. discriminate Hneq. }
  unfold and_read in Hcall.
  destruct (Z.ltb_spec (source_p ctx2 + 1) (source_end_p ctx2)) as [Hlt1 | Hge1].
  2:{ cbn [bind] in Hcall. injection Hcall as <- <-.
      split; [| exact (Hsame _ eq_refl)].
      split; [discriminate | intros (_ & Hnext & _); lia]. }
  destruct (read mem (source_p ctx2 + 1)) as [c1 | | |] eqn:Hc1; try discriminate.
  cbn [bind] in Hcall.
  destruct (Z.eqb_spec c1 62) as [-> | Hne62].
  - injection Hcall as <- <-. split; [| exact (Hsame _ eq_refl)].
    split; [intros _ | reflexivity].
    split; [congruence |]. split; [exact Hlt1 |]. split; [exact Hc0 | exact Hc1].
  - injection Hcall as <- <-. split; [| exact (Hsame _ eq_refl)].
    split; [discriminate | intros (_ & _ & _ & Hread); congruence].
Qed.

(** ** A punctuator as the next token *)

Lemma punctuator_first_byte (s : string) (type : lexer_token_type_t) (c0 : Z)
  (rest : list Z) :
  In (s, type) punctuators ->
  starts_with (bytes_of_string s) (c0 :: rest) = true ->
  c0 <> 92 /\ is_decimal_digit c0 = false /\ c0 <> 39 /\ c0 <> 34 /\ c0 <> 96.
Proof.
  intros Hin Hstart. unfold punctuators in Hin. cbn [In] in Hin.
  repeat (let Heq := fresh "Heq" in
          destruct Hin as [Heq | Hin];
          [injection Heq as <- <-; spell_out; cbn [starts_with] in Hstart;
           apply andb_true_iff in Hstart as [Hc0 _]; apply Z.eqb_eq in Hc0; subst c0;
           repeat split; first [reflexivity | lia] |]).
  destruct Hin.
Qed.

(** X18. [lexer_next_token] reads the longest punctuator at the cursor.
    When [lexer_skip_spaces] has stopped inside the source on a byte
    that starts no identifier, and the bytes from there on start with a
    punctuator (and not with a dot and a digit), [lexer_next_token]
    returns: the token has the type of the longest punctuator that these
    bytes start with, the cursor and the column are past it, the line is
    unchanged, and [token.line] and [token.column] are the line and the
    column where the punctuator starts. *)
Theorem lexer_next_token_reads_a_punctuator (mem : list Z) (ctx ctx1 : parser_context_t)
  (bytes : list Z) (s : string) (type : lexer_token_type_t) :
  lexer_skip_spaces mem ctx = Done ctx1 ->
  0 < source_end_p ctx1 - source_p ctx1 < 2 ^ size_t_bits ->
  load_bytes mem (source_p ctx1) (Z.to_nat (source_end_p ctx1 - source_p ctx1))
  = Done bytes ->
  util_is_identifier_start mem (source_p ctx1) = false ->
  In (s, type) punctuators ->
  starts_with (bytes_of_string s) bytes = true ->
  (forall c1 rest, bytes = 46 :: c1 :: rest -> is_decimal_digit c1 = false) ->
  exists s' type' ctx',
    In (s', type') punctuators
    /\ starts_with (bytes_of_string s') bytes = true
    /\ (forall s'' type'',
           In (s'', type'') punctuators ->
           starts_with (bytes_of_string s'') bytes = true ->
           (String.length s'' <= String.length s')%nat)
    /\ lexer_next_token mem ctx = Done (Returned (None, ctx'))
    /\ token_type (token ctx') = type'
    /\ source_p ctx' = source_p ctx1 + Z.of_nat (String.length s')
    /\ column ctx' = to_lc (column ctx1 + Z.of_nat (String.length s'))
    /\ line ctx' = line ctx1
    /\ token_line (token ctx') = line ctx1
    /\ token_column (token ctx') = column ctx1.
Proof.
  intros Hskip Hlength Hload Hident Hin Hstart Hdot.
  destruct (lexer_next_token_switch_takes_the_longest
              mem ctx1 (source_end_p ctx1 - source_p ctx1) bytes ltac:(lia) Hload)
    as (action & Hswitch & Hspec).
  destruct bytes as [| c0 rest].
  { destruct (bytes_of_string s) eqn:Hs; [| discriminate Hstart].
    exfalso. unfold punctuators in Hin. cbn [In] in Hin.
    repeat (destruct Hin as [Heq | Hin]; [injection Heq as <- <-; discriminate Hs |]).
    destruct Hin. }
  destruct (punctuator_first_byte s type c0 rest Hin Hstart)
    as (Hslash & Hdigit & Hq1 & Hq2 & Hq3).
  pose proof (load_bytes_cons mem _ _ _ Hload) as (n' & _ & Hread & _).
  unfold lexer_next_token. rewrite Hskip. cbn [bind].
  cbn [source_p source_end_p line column upd_token with_token].
  unfold to_size_t. rewrite Z.mod_small by lia.
  destruct (Z.eqb_spec (source_end_p ctx1 - source_p ctx1) 0) as [Hzero | _]; [lia |].
  rewrite Hident, Hread. cbn [bind].
  rewrite (proj2 (Z.eqb_neq c0 92) Hslash), Hdigit.
  replace (lexer_next_token_switch mem _ (source_end_p ctx1 - source_p ctx1))
    with (lexer_next_token_switch mem ctx1 (source_end_p ctx1 - source_p ctx1))
    by reflexivity.
  rewrite Hswitch. cbn [bind].
  destruct action as [type' n | | |].
  - destruct Hspec as ((s' & Hin' & -> & Hstart' & Hlongest) & _).
    exists s', type'. eexists.
    split; [exact Hin' |]. split; [exact Hstart' |]. split; [exact Hlongest |].
    split; [reflexivity |]. cbn. repeat split.
  - exfalso. destruct Hspec as (c1 & rest' & Heq & Hnumber).
    rewrite (Hdot c1 rest' Heq) in Hnumber. discriminate Hnumber.
  - exfalso. destruct Hspec as (c0' & rest' & Heq & Hquote).
    injection Heq as <- <-. lia.
  - exfalso. destruct Hspec as (Hnone & _).
    rewrite (Hnone s type Hin) in Hstart. discriminate Hstart.
Qed.

(** ** An identifier where one is expected *)

Lemma or_literal_status_flags_lit_object (flag : Z) (ctx : parser_context_t) :
  lit_object (or_literal_status_flags flag ctx) = lit_object ctx.
Proof. unfold or_literal_status_flags. now destruct (literal_p (lit_object ctx)). Qed.

Lemma chars_spell_iff (chars : list Z) (length : Z) (name : string) :
  List.length chars = Z.to_nat length ->
  (0 < String.length name)%nat ->
  chars_spell chars length name = true <-> chars = bytes_of_string name.
Proof.
  intros Hlen Hname. unfold chars_spell. rewrite <- Hlen, firstn_all. split.
  - intros H. apply andb_true_iff in H as [_ H]. now apply bytes_eqb_eq.
  - intros ->. rewrite bytes_of_string_length in Hlen.
    apply andb_true_iff. split; [apply Z.eqb_eq; lia | now apply bytes_eqb_eq].
Qed.

(** What [lit_object.type] is after [lexer_construct_literal_object] on
    a literal without escapes. *)
Lemma lexer_construct_literal_object_kind (mem : list Z) (ctx ctx' : parser_context_t)
  (literal : lexer_lit_location_t) (literal_type : lexer_literal_type_t) :
  has_escape literal = false ->
  lexer_construct_literal_object mem ctx literal literal_type = Done ctx' ->
  exists chars,
    load_bytes mem (char_p literal) (Z.to_nat (lit_length literal)) = Done chars
    /\ lit_object_type (lit_object ctx')
       = if chars_spell chars (lit_length literal) "arguments"
         then LEXER_LITERAL_OBJECT_ARGUMENTS
         else if chars_spell chars (lit_length literal) "eval"
              then LEXER_LITERAL_OBJECT_EVAL
              else LEXER_LITERAL_OBJECT_ANY.
Proof.
  intros Hescape Hcall. unfold lexer_construct_literal_object in Hcall.
  rewrite Hescape in Hcall.
  destruct (load_bytes mem (char_p literal) (Z.to_nat (lit_length literal)))
    as [chars | | |]; try discriminate.
  cbn [bind] in Hcall.
  destruct (lexer_process_char_literal ctx chars (lit_length literal) literal_type false)
    as [ctxq | | |]; try discriminate.
  cbn [bind] in Hcall. cbv zeta in Hcall. injection Hcall as <-.
  exists chars. split; [reflexivity |].
  repeat match goal with
         | |- context [if ?b then _ else _] => destruct b eqn:?
         | |- context [match ?x with _ => _ end] => destruct x eqn:?
         end;
    cbn [lit_object lit_object_type with_lit_object set_lit_object_type with_status_flags
                    with_allocated_buffer_p];
    rewrite ?or_literal_status_flags_lit_object;
    cbn [lit_object lit_object_type with_lit_object set_lit_object_type with_status_flags
                    with_allocated_buffer_p];
    rewrite ?or_literal_status_flags_lit_object;
    cbn [lit_object lit_object_type with_lit_object set_lit_object_type with_status_flags
                    with_allocated_buffer_p];
    reflexivity.
Qed.

(** X19. what [lexer_expect_identifier] lets through.  When it returns,
    the token is a [LEXER_LITERAL] whose literal has the type asked for;
    asked for an identifier in strict mode, it does not return for an
    identifier without escapes spelled [eval] or [arguments], but raises
    [PARSER_ERR_EVAL_NOT_ALLOWED] or [PARSER_ERR_ARGUMENTS_NOT_ALLOWED],
    and it raises these two errors in no other case. *)
Theorem lexer_expect_identifier_in_strict_mode (mem : list Z) (ctx : parser_context_t)
  (literal_type : lexer_literal_type_t) (r : ending parser_context_t) :
  lexer_expect_identifier mem ctx literal_type = Done r ->
  match r with
  | Returned ctx' =>
      token_type (token ctx') = LEXER_LITERAL
      /\ lit_type (lit_location (token ctx')) = literal_type
      /\ (literal_type = LEXER_IDENT_LITERAL ->
          has_flag (ctx_status_flags ctx') PARSER_IS_STRICT = true ->
          has_escape (lit_location (token ctx')) = false ->
          exists chars,
            load_bytes mem (char_p (lit_location (token ctx')))
                       (Z.to_nat (lit_length (lit_location (token ctx')))) = Done chars
            /\ chars <> bytes_of_string "eval"
            /\ chars <> bytes_of_string "arguments")
  | RaisedMore e ctx' =>
      literal_type = LEXER_IDENT_LITERAL
      /\ has_flag (ctx_status_flags ctx') PARSER_IS_STRICT = true
      /\ token_type (token ctx') = LEXER_LITERAL
      /\ (e = PARSER_ERR_EVAL_NOT_ALLOWED \/ e = PARSER_ERR_ARGUMENTS_NOT_ALLOWED)
      /\ (has_escape (lit_location (token ctx')) = false ->
          exists chars,
            load_bytes mem (char_p (lit_location (token ctx')))
                       (Z.to_nat (lit_length (lit_location (token ctx')))) = Done chars
            /\ ((e = PARSER_ERR_EVAL_NOT_ALLOWED /\ chars = bytes_of_string "eval")
                \/ (e = PARSER_ERR_ARGUMENTS_NOT_ALLOWED
                    /\ chars = bytes_of_string "arguments")))
  end.
Proof.
  intros Hcall. unfold lexer_expect_identifier in Hcall.
  destruct (lexer_skip_spaces mem ctx) as [ctx1 | | |]; try discriminate.
  cbn [bind] in Hcall.
  destruct (at_identifier mem _) as [ident | | |]; try discriminate.
  cbn [bind] in Hcall.
  destruct ident; [| discriminate].
  destruct (lexer_parse_identifier mem _ _) as [ctxp | | |]; try discriminate.
  cbn [bind] in Hcall.
  destruct (token_type (token ctxp)) eqn:Htype; try discriminate.
  destruct (lexer_construct_literal_object mem ctxp (lit_location (token ctxp)) literal_type)
    as [ctxc | | |] eqn:Hconstruct; try discriminate.
  cbn [bind] in Hcall.
  pose proof (returns_done _ _ _
                (lexer_construct_literal_object_token mem ctxp (lit_location (token ctxp))
                                                      literal_type) Hconstruct) as Htoken.
  assert (Hkind : has_escape (lit_location (token ctxc)) = false ->
                  exists chars,
                    load_bytes mem (char_p (lit_location (token ctxc)))
                               (Z.to_nat (lit_length (lit_location (token ctxc))))
                    = Done chars
                    /\ (lit_object_type (lit_object ctxc) = LEXER_LITERAL_OBJECT_ANY ->
                        chars <> bytes_of_string "eval"
                        /\ chars <> bytes_of_string "arguments")
                    /\ (lit_object_type (lit_object ctxc) = LEXER_LITERAL_OBJECT_EVAL ->
                        chars = bytes_of_string "eval")
                    /\ (lit_object_type (lit_object ctxc) = LEXER_LITERAL_OBJECT_ARGUMENTS ->
                        chars = bytes_of_string "arguments")).
  { rewrite Htoken. intros Hescape.
    destruct (lexer_construct_literal_object_kind mem ctxp ctxc _ _ Hescape Hconstruct)
      as (chars & Hload & Hobject).
    exists chars. split; [exact Hload |].
    pose proof (load_bytes_length mem _ _ _ Hload) as Hlen.
    pose proof (chars_spell_iff chars (lit_length (lit_location (token ctxp))) "eval"
                  Hlen ltac:(cbn; lia)) as Heval.
    pose proof (chars_spell_iff chars (lit_length (lit_location (token ctxp))) "arguments"
                  Hlen ltac:(cbn; lia)) as Harguments.
    rewrite Hobject.
    destruct (chars_spell chars _ "arguments") eqn:Ha;
      destruct (chars_spell chars _ "eval") eqn:He;
      (split; [| split]); intros Hobj; try discriminate Hobj;
      first [ exact (proj1 Heval eq_refl)
            | exact (proj1 Harguments eq_refl)
            | split; intros Hc;
              [apply (proj2 Heval) in Hc | apply (proj2 Harguments) in Hc];
              discriminate Hc ]. }
  assert (Hlocation : forall c : parser_context_t,
             token_type (token (upd_lit_location (set_lit_type literal_type) c))
             = token_type (token c)
             /\ lit_type (lit_location (token (upd_lit_location (set_lit_type literal_type)
                                                                c))) = literal_type
             /\ has_escape (lit_location (token (upd_lit_location
                                                   (set_lit_type literal_type) c)))
                = has_escape (lit_location (token c))
             /\ char_p (lit_location (token (upd_lit_location (set_lit_type literal_type)
                                                              c)))
                = char_p (lit_location (token c))
             /\ lit_length (lit_location (token (upd_lit_location
                                                   (set_lit_type literal_type) c)))
                = lit_length (lit_location (token c))
             /\ ctx_status_flags (upd_lit_location (set_lit_type literal_type) c)
                = ctx_status_flags c).
  { intros c. repeat split. }
  assert (Hliteral : token_type (token ctxc) = LEXER_LITERAL) by (now rewrite Htoken).
  destruct (lexer_literal_type_t_beq literal_type LEXER_IDENT_LITERAL) eqn:Hident.
  - apply lexer_literal_type_t_beq_eq in Hident.
    destruct (has_flag (ctx_status_flags ctxc) PARSER_IS_STRICT) eqn:Hstrict;
      cbn [andb] in Hcall.
    + destruct (lit_object_type (lit_object ctxc)) eqn:Hobject.
      * injection Hcall as <-.
        destruct (Hlocation ctxc) as (-> & -> & -> & -> & -> & ->).
        split; [exact Hliteral |]. split; [reflexivity |].
        intros _ _ Hescape. destruct (Hkind Hescape) as (chars & Hload & Hany & _).
        exists chars. split; [exact Hload | exact (Hany eq_refl)].
      * unfold parser_raise_more in Hcall. injection Hcall as <-.
        split; [exact Hident |]. split; [exact Hstrict |]. split; [exact Hliteral |].
        split; [left; reflexivity |].
        intros Hescape. destruct (Hkind Hescape) as (chars & Hload & _ & Heval & _).
        exists chars. split; [exact Hload |]. left. split; [reflexivity | exact (Heval eq_refl)].
      * unfold parser_raise_more in Hcall. injection Hcall as <-.
        split; [exact Hident |]. split; [exact Hstrict |]. split; [exact Hliteral |].
        split; [right; reflexivity |].
        intros Hescape. destruct (Hkind Hescape) as (chars & Hload & _ & _ & Harguments).
        exists chars. split; [exact Hload |]. right.
        split; [reflexivity | exact (Harguments eq_refl)].
    + injection Hcall as <-.
      destruct (Hlocation ctxc) as (-> & -> & -> & -> & -> & ->).
      split; [exact Hliteral |]. split; [reflexivity |].
      intros _ Hs. rewrite Hstrict in Hs. discriminate Hs.
  - cbn [andb] in Hcall. injection Hcall as <-.
    destruct (Hlocation ctxc) as (-> & -> & -> & -> & -> & ->).
    split; [exact Hliteral |]. split; [reflexivity |].
    intros Heq. apply lexer_literal_type_t_beq_eq in Heq. rewrite Heq in Hident.
    discriminate Hident.
Qed.
End JsLexerFacts.

(** ** The layout of the branch opcodes *)

Section CbcFacts.

Import CBC.

Lemma forall_indexed_nth (P : Z -> cbc_opcode_entry -> bool) (l : list cbc_opcode_entry) :
  forall (k : Z) (n : nat) (e : cbc_opcode_entry),
    forall_indexed P k l = true ->
    nth_error l n = Some e ->
    P (k + Z.of_nat n) e = true.
Proof.
  induction l as [| x rest IH]; intros k n e Hall Hnth.
  - destruct n; discriminate.
  - simpl in Hall. apply andb_true_iff in Hall as [Hx Hrest].
    destruct n as [| n].
    + injection Hnth as <-. now rewrite Z.add_0_r.
    + simpl in Hnth. specialize (IH (k + 1) n e Hrest Hnth).
      replace (k + Z.of_nat (S n)) with (k + 1 + Z.of_nat n) by lia. exact IH.
Qed.

Lemma forall_indexed_at (P : Z -> cbc_opcode_entry -> bool) (l : list cbc_opcode_entry)
  (i : Z) (e : cbc_opcode_entry) :
  forall_indexed P 0 l = true -> opcode_at l i = Some e -> P i e = true.
Proof.
  intros Hall Hat. unfold opcode_at in Hat.
  destruct (Z.ltb_spec i 0) as [Hneg | Hpos]; [discriminate |].
  pose proof (forall_indexed_nth P l 0 (Z.to_nat i) e Hall Hat) as H.
  now rewrite Z.add_0_l, Z2Nat.id in H by lia.
Qed.

Lemma branch_forms_checked :
  forall_indexed (branch_forms_ok CBC_OPCODE_LIST) 0 CBC_OPCODE_LIST = true
  /\ forall_indexed (branch_forms_ok CBC_EXT_OPCODE_LIST) 0 CBC_EXT_OPCODE_LIST = true.
Proof. split; vm_compute; reflexivity. Qed.

Lemma backward_branches_checked :
  forall_indexed (backward_branch_ok CBC_OPCODE_LIST) 0 CBC_OPCODE_LIST = true.
Proof. vm_compute; reflexivity. Qed.

(** X12. for every branch opcode of [CBC_OPCODE_LIST] and of
    [CBC_EXT_OPCODE_LIST], [CBC_BRANCH_OFFSET_LENGTH] of its value is the
    width in bytes of its offset, from 1 to 3; the opcode with the offset
    of one byte comes [width - 1] opcodes before it and has the same
    name without the suffix [_2] or [_3], the same flags and the same
    stack change. *)
Theorem branch_offset_length_is_the_width (l : list cbc_opcode_entry) (i : Z)
  (e : cbc_opcode_entry) :
  l = CBC_OPCODE_LIST \/ l = CBC_EXT_OPCODE_LIST ->
  opcode_at l i = Some e ->
  is_branch e = true ->
  CBC_BRANCH_OFFSET_LENGTH i = branch_offset_width e
  /\ 1 <= branch_offset_width e <= 3
  /\ exists first,
       opcode_at l (i - (branch_offset_width e - 1)) = Some first
       /\ op_name e = (op_name first ++ branch_width_suffix (branch_offset_width e))%string
       /\ op_flags first = op_flags e
       /\ op_stack first = op_stack e.
Proof.
  intros Hl Hat Hbranch.
  assert (Hok : branch_forms_ok l i e = true).
  { destruct branch_forms_checked as [Hbase Hext]. destruct Hl as [-> | ->].
    - exact (forall_indexed_at (branch_forms_ok CBC_OPCODE_LIST) CBC_OPCODE_LIST i e
               Hbase Hat).
    - exact (forall_indexed_at (branch_forms_ok CBC_EXT_OPCODE_LIST) CBC_EXT_OPCODE_LIST
               i e Hext Hat). }
  unfold branch_forms_ok in Hok. rewrite Hbranch in Hok. cbn [implb] in Hok.
  apply andb_true_iff in Hok as [Hok Hfirst].
  apply andb_true_iff in Hok as [Hok Hle3].
  apply andb_true_iff in Hok as [Hwidth Hge1].
  apply Z.eqb_eq in Hwidth. apply Z.leb_le in Hge1. apply Z.leb_le in Hle3.
  split; [exact Hwidth |]. split; [lia |].
  destruct (opcode_at l (i - (branch_offset_width e - 1))) as [first |]; [| discriminate].
  apply andb_true_iff in Hfirst as [Hfirst Hstack].
  apply andb_true_iff in Hfirst as [Hname Hflags].
  apply String.eqb_eq in Hname. apply Z.eqb_eq in Hflags, Hstack.
  exists first. auto.
Qed.

(** X13. every backward branch of [CBC_OPCODE_LIST] (a branch opcode for
    whose flags [CBC_BRANCH_IS_BACKWARD] holds) has bit 2 of its value
    set, and the opcode 4 positions before it, in the same group of 8,
    is the forward branch of the matching name (FORWARD for BACKWARD),
    with an offset of the same width and bit 2 of its value clear. *)
Theorem backward_branch_follows_its_forward_branch (i : Z) (e : cbc_opcode_entry) :
  opcode_at CBC_OPCODE_LIST i = Some e ->
  is_branch e = true ->
  CBC_BRANCH_IS_BACKWARD (op_flags e) i = true ->
  Z.land i 0x4 = 0x4
  /\ exists f,
       opcode_at CBC_OPCODE_LIST (i - 4) = Some f
       /\ is_branch f = true
       /\ CBC_BRANCH_IS_FORWARD (op_flags f) = true
       /\ matching_backward_name (op_name f) = Some (op_name e)
       /\ branch_offset_width f = branch_offset_width e
       /\ Z.land (i - 4) 0x4 = 0
       /\ (i - 4) / 8 = i / 8.
Proof.
  intros Hat Hbranch Hbackward.
  pose proof (forall_indexed_at (backward_branch_ok CBC_OPCODE_LIST) CBC_OPCODE_LIST i e
                backward_branches_checked Hat) as Hok.
  unfold backward_branch_ok in Hok. rewrite Hbranch, Hbackward in Hok.
  cbn [andb implb] in Hok.
  apply andb_true_iff in Hok as [Hbit Hf]. apply Z.eqb_eq in Hbit.
  split; [exact Hbit |].
  destruct (opcode_at CBC_OPCODE_LIST (i - 4)) as [f |]; [| discriminate].
  apply andb_true_iff in Hf as [Hf Hname].
  apply andb_true_iff in Hf as [Hf Hwidth].
  apply andb_true_iff in Hf as [Hf Hgroup].
  apply andb_true_iff in Hf as [Hf Hclear].
  apply andb_true_iff in Hf as [Hfbranch Hforward].
  apply Z.eqb_eq in Hwidth, Hgroup, Hclear.
  exists f. split; [reflexivity |]. split; [exact Hfbranch |]. split; [exact Hforward |].
  split; [| auto].
  destruct (matching_backward_name (op_name f)) as [backward |]; [| discriminate].
  apply String.eqb_eq in Hname. now subst backward.
Qed.

(** C1.  The header says of a group of 8 branch opcodes that its 6th to
    8th opcode are backward branches and that bit 2 of the opcode tells
    a forward branch (bit clear) from a backward one.  The list does not
    keep to it: [CBC_BRANCH_IF_LOGICAL_TRUE], of value 29 and so the 6th
    opcode of its group, carries [CBC_FORWARD_BRANCH_ARG] and is a
    forward branch for [CBC_BRANCH_IS_FORWARD] and
    [CBC_BRANCH_IS_BACKWARD], and the opcode 4 positions after it is one
    more forward branch; in the extended list
    [CBC_EXT_BRANCH_IF_FOR_IN_HAS_NEXT], of value 9, is a backward branch
    with bit 2 clear.  So bit 2 is not clear exactly for the forward
    branches. *)
Theorem branch_direction_bit_fails :
  (exists e,
      opcode_at CBC_OPCODE_LIST 29 = Some e
      /\ op_name e = "CBC_BRANCH_IF_LOGICAL_TRUE"%string
      /\ is_branch e = true
      /\ CBC_BRANCH_IS_FORWARD (op_flags e) = true
      /\ CBC_BRANCH_IS_BACKWARD (op_flags e) 29 = false
      /\ 29 mod 8 = 5
      /\ Z.land 29 0x4 = 0x4
      /\ exists later,
           opcode_at CBC_OPCODE_LIST (29 + 4) = Some later
           /\ op_name later = "CBC_BRANCH_IF_LOGICAL_FALSE"%string
           /\ CBC_BRANCH_IS_FORWARD (op_flags later) = true)
  /\ (exists e,
         opcode_at CBC_EXT_OPCODE_LIST 9 = Some e
         /\ op_name e = "CBC_EXT_BRANCH_IF_FOR_IN_HAS_NEXT"%string
         /\ is_branch e = true
         /\ CBC_BRANCH_IS_BACKWARD (op_flags e) 9 = true
         /\ Z.land 9 0x4 = 0)
  /\ ~ (forall (i : Z) (e : cbc_opcode_entry),
          opcode_at CBC_OPCODE_LIST i = Some e ->
          is_branch e = true ->
          (Z.land i 0x4 = 0 <-> CBC_BRANCH_IS_FORWARD (op_flags e) = true)).
Proof.
  split; [| split].
  - eexists. split; [reflexivity |]. repeat (split; [reflexivity |]).
    eexists. repeat split; reflexivity.
  - eexists. split; [reflexivity |]. repeat split; reflexivity.
  - intros Hclaim.
    destruct (Hclaim 29 {| op_name := "CBC_BRANCH_IF_LOGICAL_TRUE";
                           op_flags := Z.lor CBC_HAS_BRANCH_ARG CBC_FORWARD_BRANCH_ARG;
                           op_stack := -1 |} eq_refl eq_refl) as [_ Hbit].
    specialize (Hbit eq_refl). discriminate Hbit.
Qed.

End CbcFacts.

(** ** The packed flags and the forms of an opcode *)

Section CbcFormsFacts.

Import CBC CBCForms.

Lemma packed_flags_fields (flags stack : Z) :
  0 <= flags < 2 ^ CBC_STACK_ADJUST_SHIFT ->
  - CBC_STACK_ADJUST_BASE <= stack <= 3 ->
  let value := Z.lor flags (Z.shiftl (stack + CBC_STACK_ADJUST_BASE) CBC_STACK_ADJUST_SHIFT) in
  0 <= value <= 255
  /\ CBC_STACK_ADJUST_VALUE value = stack
  /\ Z.land value 0x1f = flags.
Proof.
  unfold CBC_STACK_ADJUST_VALUE, CBC_STACK_ADJUST_SHIFT, CBC_STACK_ADJUST_BASE.
  change (2 ^ 5) with 32. intros Hflags Hstack. cbv zeta.
  assert (Hvalue : Z.lor flags (Z.shiftl (stack + 4) 5) = (stack + 4) * 32 + flags).
  { rewrite Z.lor_comm, lor_shiftl_small by (change (2 ^ 5) with 32; lia).
    reflexivity. }
  rewrite Hvalue. split; [lia |]. split.
  - rewrite Z.shiftr_div_pow2 by lia. change (2 ^ 5) with 32.
    rewrite Z.div_add_l by lia. rewrite Z.div_small by lia. lia.
  - change 0x1f with (Z.ones 5). rewrite Z.land_ones by lia. change (2 ^ 5) with 32.
    rewrite Z.add_comm, Z.mod_add by lia. apply Z.mod_small. lia.
Qed.

Lemma opcodes_fit_checked :
  forall_indexed (opcode_fits CBC_OPCODE_LIST) 0 CBC_OPCODE_LIST = true
  /\ forall_indexed (opcode_fits CBC_EXT_OPCODE_LIST) 0 CBC_EXT_OPCODE_LIST = true.
Proof. split; vm_compute; reflexivity. Qed.

Lemma result_forms_checked :
  forall_indexed (result_forms_ok CBC_OPCODE_LIST) 0 CBC_OPCODE_LIST = true
  /\ forall_indexed (result_forms_ok CBC_EXT_OPCODE_LIST) 0 CBC_EXT_OPCODE_LIST = true.
Proof. split; vm_compute; reflexivity. Qed.

Lemma literal_forms_checked :
  forall_indexed (literal_forms_ok CBC_OPCODE_LIST) 0 CBC_OPCODE_LIST = true
  /\ forall_indexed (literal_forms_ok CBC_EXT_OPCODE_LIST) 0 CBC_EXT_OPCODE_LIST = true.
Proof. split; vm_compute; reflexivity. Qed.

Lemma result_groups_checked :
  forall_indexed (fun i _ =>
                    (i <=? 212)
                    && Bool.eqb ((i >=? 149) && (i <? 212))
                                (in_result_group CBC_OPCODE_LIST i))
                 0 CBC_OPCODE_LIST = true
  /\ forall_indexed (fun j _ =>
                       (j <=? 60)
                       && Bool.eqb ((49 <=? j) && (j <=? 51))
                                   (in_result_group CBC_EXT_OPCODE_LIST j))
                    0 CBC_EXT_OPCODE_LIST = true.
Proof. split; vm_compute; reflexivity. Qed.

Lemma result_range_enumerators :
  enumerator CBC_OPCODE_LIST "CBC_PRE_INCR"%string = 149
  /\ enumerator CBC_OPCODE_LIST "CBC_END"%string = 212
  /\ enumerator CBC_EXT_OPCODE_LIST "CBC_EXT_SUPER_CALL"%string = 49
  /\ enumerator CBC_EXT_OPCODE_LIST "CBC_EXT_SUPER_CALL_BLOCK"%string = 51
  /\ enumerator CBC_EXT_OPCODE_LIST "CBC_EXT_END"%string = 60.
Proof. repeat split; vm_compute; reflexivity. Qed.

Lemma option_Z_eqb_eq (a b : option Z) : option_Z_eqb a b = true -> a = b.
Proof.
  destruct a, b; simpl; try discriminate; try reflexivity.
  intros H. apply Z.eqb_eq in H. now subst.
Qed.

Lemma form_at_spec (l : list cbc_opcode_entry) (j : Z) (name : string)
  (e : cbc_opcode_entry) (stack : Z) :
  form_at l j name e stack = true ->
  exists f, opcode_at l j = Some f /\ op_name f = name /\ same_args e f = true
            /\ op_stack f = stack.
Proof.
  unfold form_at. destruct (opcode_at l j) as [f |]; [| discriminate].
  intros H. apply andb_true_iff in H as [H Hstack].
  apply andb_true_iff in H as [Hname Hargs].
  apply String.eqb_eq in Hname. apply Z.eqb_eq in Hstack. now exists f.
Qed.

(** X6. every opcode of [CBC_OPCODE_LIST] and of [CBC_EXT_OPCODE_LIST] fits
    the tables of flags: its value is a byte, no other enumerator has its
    name, and its flags and its stack change pack into one byte from
    which [CBC_STACK_ADJUST_VALUE] reads the stack change back and the
    lower 5 bits give the flags. *)
Theorem opcode_flags_fit_a_byte (l : list cbc_opcode_entry) (i : Z) (e : cbc_opcode_entry) :
  l = CBC_OPCODE_LIST \/ l = CBC_EXT_OPCODE_LIST ->
  opcode_at l i = Some e ->
  0 <= i <= CBC_MAXIMUM_BYTE_VALUE
  /\ opcode_ordinal l (op_name e) = Some i
  /\ 0 <= packed_flags e <= 255
  /\ CBC_STACK_ADJUST_VALUE (packed_flags e) = op_stack e
  /\ Z.land (packed_flags e) 0x1f = op_flags e.
Proof.
  intros Hl Hat.
  assert (Hok : opcode_fits l i e = true).
  { destruct opcodes_fit_checked as [Hbase Hext]. destruct Hl as [-> | ->].
    - exact (forall_indexed_at (opcode_fits CBC_OPCODE_LIST) CBC_OPCODE_LIST i e
               Hbase Hat).
    - exact (forall_indexed_at (opcode_fits CBC_EXT_OPCODE_LIST) CBC_EXT_OPCODE_LIST i e
               Hext Hat). }
  unfold opcode_fits in Hok.
  apply andb_true_iff in Hok as [Hok Hstack3].
  apply andb_true_iff in Hok as [Hok Hstack4].
  apply andb_true_iff in Hok as [Hok Hflags32].
  apply andb_true_iff in Hok as [Hok Hflags0].
  apply andb_true_iff in Hok as [Hbyte Hname].
  apply Z.leb_le in Hbyte, Hflags0, Hstack4, Hstack3. apply Z.ltb_lt in Hflags32.
  apply option_Z_eqb_eq in Hname.
  assert (Hi : 0 <= i).
  { unfold opcode_at in Hat. destruct (Z.ltb_spec i 0); [discriminate | assumption]. }
  split; [lia |]. split; [exact Hname |].
  apply (packed_flags_fields (op_flags e) (op_stack e)); lia.
Qed.

(** X7. an opcode of either list that has a [_PUSH_RESULT] form is
    followed directly by it and then by its [_BLOCK] form, so that adding
    1 to the opcode gives the form that pushes the result; both forms
    take the arguments of the opcode, the first leaves one value more on
    the stack and the second as many as the opcode itself. *)
Theorem push_result_form_follows (l : list cbc_opcode_entry) (i j : Z)
  (e : cbc_opcode_entry) :
  l = CBC_OPCODE_LIST \/ l = CBC_EXT_OPCODE_LIST ->
  opcode_at l i = Some e ->
  opcode_ordinal l (op_name e ++ "_PUSH_RESULT")%string = Some j ->
  j = i + 1
  /\ (exists r, opcode_at l (i + 1) = Some r
                /\ op_name r = (op_name e ++ "_PUSH_RESULT")%string
                /\ same_args e r = true
                /\ op_stack r = op_stack e + 1)
  /\ (exists b, opcode_at l (i + 2) = Some b
                /\ op_name b = (op_name e ++ "_BLOCK")%string
                /\ same_args e b = true
                /\ op_stack b = op_stack e).
Proof.
  intros Hl Hat Hform.
  assert (Hok : result_forms_ok l i e = true).
  { destruct result_forms_checked as [Hbase Hext]. destruct Hl as [-> | ->].
    - exact (forall_indexed_at (result_forms_ok CBC_OPCODE_LIST) CBC_OPCODE_LIST i e
               Hbase Hat).
    - exact (forall_indexed_at (result_forms_ok CBC_EXT_OPCODE_LIST) CBC_EXT_OPCODE_LIST
               i e Hext Hat). }
  unfold result_forms_ok in Hok. rewrite Hform in Hok.
  apply andb_true_iff in Hok as [Hok Hblock].
  apply andb_true_iff in Hok as [Hj Hresult].
  apply Z.eqb_eq in Hj.
  split; [exact Hj |]. split; eapply form_at_spec; eassumption.
Qed.

(** X8. [CBC_NO_RESULT_OPERATION] singles out the opcodes whose result
    can still be asked for.  [PARSER_TO_EXT_OPCODE] is not part of the
    sources; provided that it sends the extended opcodes past [CBC_END]
    and keeps their order, the macro holds of an opcode of
    [CBC_OPCODE_LIST] exactly when that opcode has a [_PUSH_RESULT] form
    or is the [_PUSH_RESULT] or the [_BLOCK] form that follows such an
    opcode, and it holds of [PARSER_TO_EXT_OPCODE] of an extended opcode
    exactly when that one does, which are the three opcodes of
    [CBC_SUPER_CALL_OPERATION]; that macro holds of no opcode of
    [CBC_OPCODE_LIST]. *)
Theorem no_result_range_is_the_result_groups (PARSER_TO_EXT_OPCODE : Z -> Z) :
  (forall j, 0 <= j <= enumerator CBC_EXT_OPCODE_LIST "CBC_EXT_END"%string ->
             enumerator CBC_OPCODE_LIST "CBC_END"%string < PARSER_TO_EXT_OPCODE j) ->
  (forall a b, 0 <= a <= enumerator CBC_EXT_OPCODE_LIST "CBC_EXT_END"%string ->
               0 <= b <= enumerator CBC_EXT_OPCODE_LIST "CBC_EXT_END"%string ->
               (a <= b <-> PARSER_TO_EXT_OPCODE a <= PARSER_TO_EXT_OPCODE b)) ->
  (forall i e,
      opcode_at CBC_OPCODE_LIST i = Some e ->
      CBC_NO_RESULT_OPERATION PARSER_TO_EXT_OPCODE i = in_result_group CBC_OPCODE_LIST i
      /\ CBC_SUPER_CALL_OPERATION PARSER_TO_EXT_OPCODE i = false)
  /\ (forall j e,
         opcode_at CBC_EXT_OPCODE_LIST j = Some e ->
         CBC_NO_RESULT_OPERATION PARSER_TO_EXT_OPCODE (PARSER_TO_EXT_OPCODE j)
         = in_result_group CBC_EXT_OPCODE_LIST j
         /\ CBC_SUPER_CALL_OPERATION PARSER_TO_EXT_OPCODE (PARSER_TO_EXT_OPCODE j)
            = in_result_group CBC_EXT_OPCODE_LIST j).
Proof.
  destruct result_range_enumerators as (Hincr & Hend & Hcall & Hblock & Hextend).
  rewrite Hend, Hextend. intros Hpast Horder.
  destruct result_groups_checked as [Hbase Hext].
  assert (Hnonneg : forall l k f, opcode_at l k = Some f -> 0 <= k).
  { intros l k f Hat. unfold opcode_at in Hat.
    destruct (Z.ltb_spec k 0); [discriminate | assumption]. }
  split.
  - intros i e Hat.
    pose proof (forall_indexed_at _ CBC_OPCODE_LIST i e Hbase Hat) as Hok.
    cbv beta in Hok. apply andb_true_iff in Hok as [Hi Hgroup].
    apply Z.leb_le in Hi. apply Bool.eqb_prop in Hgroup.
    assert (Hsuper : CBC_SUPER_CALL_OPERATION PARSER_TO_EXT_OPCODE i = false).
    { unfold CBC_SUPER_CALL_OPERATION. rewrite Hcall.
      pose proof (Hpast 49 ltac:(lia)).
      destruct (Z.geb_spec i (PARSER_TO_EXT_OPCODE 49)); [lia | reflexivity]. }
    split; [| exact Hsuper].
    unfold CBC_NO_RESULT_OPERATION. rewrite Hsuper, Hincr, Hend, Bool.orb_false_r.
    exact Hgroup.
  - intros j e Hat.
    pose proof (forall_indexed_at _ CBC_EXT_OPCODE_LIST j e Hext Hat) as Hok.
    cbv beta in Hok. apply andb_true_iff in Hok as [Hj Hgroup].
    apply Z.leb_le in Hj. apply Bool.eqb_prop in Hgroup.
    pose proof (Hnonneg _ _ _ Hat) as Hj0.
    assert (Hsuper : CBC_SUPER_CALL_OPERATION PARSER_TO_EXT_OPCODE (PARSER_TO_EXT_OPCODE j)
                     = in_result_group CBC_EXT_OPCODE_LIST j).
    { rewrite <- Hgroup. unfold CBC_SUPER_CALL_OPERATION. rewrite Hcall, Hblock.
      pose proof (Horder 49 j ltac:(lia) ltac:(lia)) as Hlow.
      pose proof (Horder j 51 ltac:(lia) ltac:(lia)) as Hhigh.
      destruct (Z.geb_spec (PARSER_TO_EXT_OPCODE j) (PARSER_TO_EXT_OPCODE 49)),
               (Z.leb_spec (PARSER_TO_EXT_OPCODE j) (PARSER_TO_EXT_OPCODE 51)),
               (Z.leb_spec 49 j), (Z.leb_spec j 51);
        try reflexivity; exfalso; intuition lia. }
    split; [| exact Hsuper].
    unfold CBC_NO_RESULT_OPERATION. rewrite Hsuper, Hend.
    pose proof (Hpast j ltac:(lia)).
    destruct (Z.ltb_spec (PARSER_TO_EXT_OPCODE j) 212); [lia |].
    now rewrite Bool.andb_false_r.
Qed.

(** X9. the constants that lead from an opcode to its forms with literal
    operands are right for every opcode of the lists: the
    [_RIGHT_LITERAL] form of a binary opcode is [CBC_BINARY_WITH_LITERAL]
    opcodes later and pops one value less, its [_TWO_LITERALS] form is
    [CBC_BINARY_WITH_TWO_LITERALS] later and pops two less, and the
    [_IDENT] form of an opcode with a [_PUSH_RESULT] form is
    [CBC_UNARY_LVALUE_WITH_IDENT] later and pops two less. *)
Theorem literal_forms_follow (l : list cbc_opcode_entry) (i : Z) (e : cbc_opcode_entry) :
  l = CBC_OPCODE_LIST \/ l = CBC_EXT_OPCODE_LIST ->
  opcode_at l i = Some e ->
  (forall j, opcode_ordinal l (op_name e ++ "_RIGHT_LITERAL")%string = Some j ->
             j = i + CBC_BINARY_WITH_LITERAL
             /\ exists f, opcode_at l j = Some f /\ op_stack f = op_stack e + 1)
  /\ (forall j, opcode_ordinal l (op_name e ++ "_TWO_LITERALS")%string = Some j ->
                j = i + CBC_BINARY_WITH_TWO_LITERALS
                /\ exists f, opcode_at l j = Some f /\ op_stack f = op_stack e + 2)
  /\ (forall j r, opcode_ordinal l (op_name e ++ "_IDENT")%string = Some j ->
                  opcode_ordinal l (op_name e ++ "_PUSH_RESULT")%string = Some r ->
                  j = i + CBC_UNARY_LVALUE_WITH_IDENT
                  /\ exists f, opcode_at l j = Some f /\ op_stack f = op_stack e + 2).
Proof.
  intros Hl Hat.
  assert (Hok : literal_forms_ok l i e = true).
  { destruct literal_forms_checked as [Hbase Hext]. destruct Hl as [-> | ->].
    - exact (forall_indexed_at (literal_forms_ok CBC_OPCODE_LIST) CBC_OPCODE_LIST i e
               Hbase Hat).
    - exact (forall_indexed_at (literal_forms_ok CBC_EXT_OPCODE_LIST) CBC_EXT_OPCODE_LIST
               i e Hext Hat). }
  unfold literal_forms_ok in Hok.
  apply andb_true_iff in Hok as [Hok Hident].
  apply andb_true_iff in Hok as [Hright Htwo].
  assert (Hform : forall (suffix : string) (offset j : Z),
             match opcode_ordinal l (op_name e ++ suffix) with
             | Some j =>
                 (j =? i + offset)
                 && match opcode_at l j with
                    | Some f => op_stack f =? op_stack e + (if offset =? 1 then 1 else 2)
                    | None => false
                    end
             | None => true
             end = true ->
             opcode_ordinal l (op_name e ++ suffix) = Some j ->
             j = i + offset
             /\ exists f, opcode_at l j = Some f
                          /\ op_stack f = op_stack e + (if offset =? 1 then 1 else 2)).
  { intros suffix offset j Hcheck Hord. rewrite Hord in Hcheck.
    apply andb_true_iff in Hcheck as [Hj Hstack]. apply Z.eqb_eq in Hj.
    split; [exact Hj |].
    destruct (opcode_at l j) as [f |]; [| discriminate].
    apply Z.eqb_eq in Hstack. now exists f. }
  split; [| split].
  - intros j Hord. exact (Hform _ _ j Hright Hord).
  - intros j Hord. exact (Hform _ _ j Htwo Hord).
  - intros j r Hord Hresult. rewrite Hresult in Hident.
    exact (Hform _ _ j Hident Hord).
Qed.

End CbcFormsFacts.

(** * The statements at concrete inputs *)

Section ReferenceBuild.

Existing Instance reference_headers.

(** C2.  Both identifiers of [escaped_a_twice] are the escape sequence of
    [a]: [lexer_parse_identifier] scans the first one as an escaped
    identifier of length 1, interning the two gives the same pool entry
    (index 0, the byte [a]), and yet
    [lexer_compare_identifier_to_current] answers that they differ: the
    branch for two escape sequences adds the length of the character to
    [count] where its sibling branch subtracts it, so the loop goes on to
    compare the [=] and the [;] that follow the identifiers. *)
Theorem escaped_identifiers_compare_unequal :
  let mem := escaped_a_twice in
  let ctx := upd_lit_location (fun _ => escaped_identifier_at 0) (initial_context mem) in
  (exists ctx0,
      lexer_parse_identifier mem (initial_context mem) true = Done ctx0
      /\ lit_location (token ctx0) = escaped_identifier_at 0)
  /\ lexer_compare_identifier_to_current mem ctx (escaped_identifier_at 7) = Done false
  /\ exists c1 c2,
       lexer_construct_literal_object mem ctx (escaped_identifier_at 0) LEXER_IDENT_LITERAL
       = Done c1
       /\ lexer_construct_literal_object mem c1 (escaped_identifier_at 7) LEXER_IDENT_LITERAL
          = Done c2
       /\ lit_index (lit_object c1) = 0
       /\ lit_index (lit_object c2) = 0
       /\ option_map u_char_p (nth_error (literal_pool c2) 0) = Some [97]
       /\ literal_count c2 = 1.
Proof.
  cbv zeta. split; [| split].
  - eexists. split; vm_compute; reflexivity.
  - vm_compute. reflexivity.
  - do 2 eexists. split; [vm_compute; reflexivity |].
    split; [vm_compute; reflexivity |]. repeat split.
Qed.

(** An empty pool misses the identifier [a]: it is appended at index 0. *)
Lemma lexer_process_char_literal_first_literal :
  exists ctx',
    lexer_process_char_literal (initial_context []) [97] 1 LEXER_IDENT_LITERAL false
    = Done ctx'
    /\ lit_index (lit_object ctx') = 0
    /\ literal_count ctx' = 1.
Proof.
  assert (Hcount : literal_count (initial_context []) < 2 ^ 16) by reflexivity.
  assert (Hlimit : PARSER_MAXIMUM_NUMBER_OF_LITERALS < 2 ^ 16) by reflexivity.
  destruct (lexer_process_char_literal_spec (initial_context []) [97] 1
              LEXER_IDENT_LITERAL false eq_refl Hcount Hlimit) as [_ Hmiss].
  destruct (Hmiss (fun e Hin => match Hin with end)) as [_ Hroom].
  destruct (Hroom eq_refl) as [Hstored _].
  destruct (Hstored eq_refl) as (ctx' & Hcall & _ & Hindex & _ & Hgrown).
  exists ctx'. split; [exact Hcall |]. split; [exact Hindex | exact Hgrown].
Defined.

(** A string that is opened at line 1, column 1 and never closed. *)
Lemma lexer_parse_string_unterminated_open_string :
  exists ctx',
    lexer_parse_string open_string (initial_context open_string)
    = Raised PARSER_ERR_UNTERMINATED_STRING ctx'
    /\ token_line (token ctx') = 1
    /\ token_column (token ctx') = 1.
Proof.
  apply (lexer_parse_string_unterminated open_string (initial_context open_string) 34 1
           {| ss_source_p := 2; ss_line := 1; ss_column := 3; ss_length := 1;
              ss_has_escape := false; ss_ctx := initial_context open_string |}).
  - split; [discriminate | reflexivity].
  - reflexivity.
  - eexists. split; [vm_compute; reflexivity | reflexivity].
  - left. discriminate.
Defined.


(** [var] spelled with an escape sequence is an identifier, not the
    keyword. *)
Lemma escaped_var_is_an_identifier :
  exists ctx',
    lexer_parse_identifier escaped_var (initial_context escaped_var) true = Done ctx'
    /\ token_type (token ctx') = LEXER_LITERAL
    /\ literal_is_reserved (token ctx') = false.
Proof.
  assert (Hscan : exists st,
             lexer_parse_identifier_scan escaped_var (initial_context escaped_var) = Done st
             /\ has_escape (lit_location (token (is_ctx st))) = true
             /\ is_length st <= PARSER_MAXIMUM_IDENT_LENGTH).
  { eexists. split; [vm_compute; reflexivity |]. split; [reflexivity | discriminate]. }
  destruct Hscan as (st & Hscan & Hescaped & Hlength).
  destruct (lexer_parse_identifier_escape_blocks_keywords
              escaped_var (initial_context escaped_var) true st Hscan)
    as (_ & Hliteral & _).
  destruct (Hliteral Hlength (or_introl Hescaped)) as (ctx' & Hcall & Htype & Hreserved & _).
  exists ctx'. split; [exact Hcall |]. split; [exact Htype | exact Hreserved].
Defined.


(** The empty string literal, even when it is marked as escaped, is
    stored with [LEXER_FLAG_SOURCE_PTR]. *)
Lemma empty_string_literal_is_source_backed :
  exists ctx' e,
    lexer_process_char_literal (initial_context []) [] 0 LEXER_STRING_LITERAL true
    = Done ctx'
    /\ literal_pool ctx' = [e]
    /\ status_flags e = LEXER_FLAG_SOURCE_PTR.
Proof.
  assert (Hcall : exists ctx',
             lexer_process_char_literal (initial_context []) [] 0 LEXER_STRING_LITERAL true
             = Done ctx'
             /\ List.length (literal_pool ctx') = 1%nat).
  { eexists. split; vm_compute; reflexivity. }
  destruct Hcall as (ctx' & Hcall & Hlength).
  assert (Hflag : LEXER_FLAG_SOURCE_PTR <> 0) by discriminate.
  destruct (empty_literal_is_source_backed (initial_context []) [] LEXER_STRING_LITERAL true
              Hflag) as [_ Hentry].
  destruct (Hentry ctx' Hcall Hlength) as (e & Hpool & _ & _ & Hflags & _).
  exists ctx', e. split; [exact Hcall |]. split; [exact Hpool | exact Hflags].
Defined.

(** [get] spelled with an escape sequence in front of a property name
    stays a literal: it is not turned into [LEXER_PROPERTY_GETTER]. *)
Lemma escaped_get_is_not_reclassified :
  exists ctx',
    lexer_scan_identifier no_token escaped_get (initial_context escaped_get) true
    = Done ctx'
    /\ has_escape (lit_location (token ctx')) = true
    /\ reclassified_name (token_type (token ctx')) = None.
Proof.
  assert (Hscan : exists ctx',
             lexer_scan_identifier no_token escaped_get (initial_context escaped_get) true
             = Done ctx'
             /\ has_escape (lit_location (token ctx')) = true).
  { eexists. split; vm_compute; reflexivity. }
  destruct Hscan as (ctx' & Hscan & Hescaped).
  assert (Hnumber : forall m c c',
             literal_token m c = Done c' -> token_type (token c') = LEXER_LITERAL).
  { intros m c c' Hdone. injection Hdone as <-. reflexivity. }
  destruct (escaped_identifier_is_not_reclassified no_token literal_token no_token
              escaped_get Hnumber) as (_ & Hident & _).
  exists ctx'. split; [exact Hscan |]. split; [exact Hescaped |].
  exact (proj2 (Hident (initial_context escaped_get) true ctx' Hscan) Hescaped).
Defined.

End ReferenceBuild.

(** * The further properties at concrete inputs *)

Section ReferenceBuildMore.

Existing Instance reference_headers.

(** The digits [00e9] spell 233. *)
Lemma lexer_hex_to_character_00e9 :
  lexer_hex_to_character (bytes_of_string "00e9") (initial_context []) 0 4 = Done 233.
Proof.
  assert (Hn : (1 <= 4 <= 4)%nat) by lia.
  exact (proj1 (proj1 (lexer_hex_to_character_value
                         (bytes_of_string "00e9") (initial_context []) 0 4
                         [48; 48; 101; 57] Hn eq_refl) eq_refl)).
Defined.

(** The escape sequence at the start of [escaped_var] is the letter [v]. *)
Lemma lexer_decode_unicode_sequence_escaped_var :
  lexer_decode_unicode_sequence escaped_var 0 = Done 118.
Proof.
  exact (proj1 (lexer_decode_unicode_sequence_agrees
                  escaped_var (initial_context escaped_var) 0 [48; 48; 55; 54]
                  eq_refl eq_refl)).
Defined.

(** Two spaces and a comment in front of [x]. *)
Lemma lexer_skip_spaces_over_a_comment :
  exists ctx',
    lexer_skip_spaces (bytes_of_string "  /* c */ x")
                      (initial_context (bytes_of_string "  /* c */ x")) = Done ctx'
    /\ source_p ctx' = 10.
Proof.
  assert (Hbounds : cursor_in_bounds (bytes_of_string "  /* c */ x")
                      (initial_context (bytes_of_string "  /* c */ x"))).
  { split; [split |]; vm_compute; discriminate. }
  assert (Hutf8 : three_byte_sequences_complete
                    (bytes_of_string "  /* c */ x")
                    (source_p (initial_context (bytes_of_string "  /* c */ x")))
                    (source_end_p (initial_context (bytes_of_string "  /* c */ x"))))
    by (apply three_byte_sequences_complete_without; reflexivity).
  destruct (lexer_skip_spaces_stays_in_source _ _ Hbounds Hutf8)
    as [(ctx' & Hcall & _) | (ctx' & Hcall)].
  - exists ctx'. split; [exact Hcall |].
    vm_compute in Hcall. injection Hcall as <-. reflexivity.
  - vm_compute in Hcall. discriminate Hcall.
Defined.

(** Two empty statements in front of [x]. *)
Lemma lexer_skip_empty_statements_twice :
  exists ctx',
    lexer_skip_empty_statements (bytes_of_string ";; x")
                                (initial_context (bytes_of_string ";; x")) = Done ctx'
    /\ source_p ctx' = 3.
Proof.
  assert (Hbounds : cursor_in_bounds (bytes_of_string ";; x")
                      (initial_context (bytes_of_string ";; x"))).
  { split; [split |]; vm_compute; discriminate. }
  assert (Hutf8 : three_byte_sequences_complete
                    (bytes_of_string ";; x")
                    (source_p (initial_context (bytes_of_string ";; x")))
                    (source_end_p (initial_context (bytes_of_string ";; x"))))
    by (apply three_byte_sequences_complete_without; reflexivity).
  destruct (lexer_skip_empty_statements_leaves_no_semicolon _ _ Hbounds Hutf8)
    as [(ctx' & Hcall & _) | (ctx' & Hcall)].
  - exists ctx'. split; [exact Hcall |].
    vm_compute in Hcall. injection Hcall as <-. reflexivity.
  - vm_compute in Hcall. discriminate Hcall.
Defined.


End ReferenceBuildMore.

Section CbcFormsInstances.

Import CBC CBCForms.

(** [CBC_JUMP_FORWARD]: flags 0x18 and no stack change pack into 0x98. *)
Lemma opcode_flags_of_jump_forward :
  exists e,
    opcode_at CBC_OPCODE_LIST 1 = Some e
    /\ packed_flags e = 0x98
    /\ CBC_STACK_ADJUST_VALUE (packed_flags e) = op_stack e.
Proof.
  eexists. split; [reflexivity |]. split; [reflexivity |].
  apply (opcode_flags_fit_a_byte CBC_OPCODE_LIST 1 _ (or_introl eq_refl) eq_refl).
Defined.

(** [CBC_CALL] is followed by [CBC_CALL_PUSH_RESULT]. *)
Lemma push_result_form_of_call :
  exists i, opcode_ordinal CBC_OPCODE_LIST "CBC_CALL"%string = Some i
            /\ opcode_ordinal CBC_OPCODE_LIST "CBC_CALL_PUSH_RESULT"%string = Some (i + 1).
Proof.
  exists 173. split; [reflexivity |].
  assert (Hform : opcode_ordinal CBC_OPCODE_LIST "CBC_CALL_PUSH_RESULT"%string = Some 174)
    by reflexivity.
  destruct (push_result_form_follows CBC_OPCODE_LIST 173 174
              {| op_name := "CBC_CALL"%string; op_flags := CBC_HAS_POP_STACK_BYTE_ARG;
                 op_stack := -1 |} (or_introl eq_refl) eq_refl Hform) as [Hnext _].
  exact (eq_trans Hform (f_equal Some Hnext)).
Defined.

(** [CBC_ADD_RIGHT_LITERAL] is [CBC_ADD + CBC_BINARY_WITH_LITERAL]. *)
Lemma literal_forms_of_add :
  exists i, opcode_ordinal CBC_OPCODE_LIST "CBC_ADD"%string = Some i
            /\ opcode_ordinal CBC_OPCODE_LIST "CBC_ADD_RIGHT_LITERAL"%string
               = Some (i + CBC_BINARY_WITH_LITERAL).
Proof.
  exists 132. split; [reflexivity |].
  assert (Hform : opcode_ordinal CBC_OPCODE_LIST "CBC_ADD_RIGHT_LITERAL"%string = Some 133)
    by reflexivity.
  destruct (literal_forms_follow CBC_OPCODE_LIST 132
              {| op_name := "CBC_ADD"%string; op_flags := CBC_NO_FLAG; op_stack := -1 |}
              (or_introl eq_refl) eq_refl) as [Hright _].
  destruct (Hright 133 Hform) as [Hnext _].
  exact (eq_trans Hform (f_equal Some Hnext)).
Defined.

(** [CBC_BRANCH_IF_TRUE_FORWARD_3], of value 11: an offset of three
    bytes, two opcodes after [CBC_BRANCH_IF_TRUE_FORWARD]. *)
Lemma branch_offset_length_of_branch_if_true_forward_3 :
  CBC_BRANCH_OFFSET_LENGTH 11 = 3
  /\ exists first,
       opcode_at CBC_OPCODE_LIST 9 = Some first
       /\ op_name first = "CBC_BRANCH_IF_TRUE_FORWARD"%string.
Proof.
  destruct (branch_offset_length_is_the_width CBC_OPCODE_LIST 11
              {| op_name := "CBC_BRANCH_IF_TRUE_FORWARD_3"%string;
                 op_flags := Z.lor CBC_HAS_BRANCH_ARG CBC_FORWARD_BRANCH_ARG;
                 op_stack := -1 |} (or_introl eq_refl) eq_refl eq_refl)
    as (Hwidth & _ & first & Hat & _).
  split; [exact Hwidth |].
  exists first. split; [exact Hat |].
  vm_compute in Hat. injection Hat as <-. reflexivity.
Defined.

(** [CBC_JUMP_BACKWARD_2], of value 6, comes 4 opcodes after
    [CBC_JUMP_FORWARD_2]. *)
Lemma backward_branch_of_jump_forward_2 :
  Z.land 6 0x4 = 0x4
  /\ exists f,
       opcode_at CBC_OPCODE_LIST 2 = Some f
       /\ op_name f = "CBC_JUMP_FORWARD_2"%string
       /\ CBC_BRANCH_IS_FORWARD (op_flags f) = true.
Proof.
  destruct (backward_branch_follows_its_forward_branch 6
              {| op_name := "CBC_JUMP_BACKWARD_2"%string;
                 op_flags := CBC_HAS_BRANCH_ARG; op_stack := 0 |}
              eq_refl eq_refl eq_refl)
    as (Hbit & f & Hat & _ & Hforward & _).
  split; [exact Hbit |].
  exists f. split; [exact Hat |]. split; [| exact Hforward].
  vm_compute in Hat. injection Hat as <-. reflexivity.
Defined.

(** With extended opcodes 256 past the basic ones, in 16 bits:
    [CBC_EXT_SUPER_CALL_PUSH_RESULT] stands as 306 and is an operation
    without result for the macro; [CBC_CALL], of value 173, is one too,
    and no super constructor call. *)
Lemma no_result_operation_of_super_call :
  CBC_NO_RESULT_OPERATION (fun opcode => to_uint16 (opcode + 256)) 306 = true
  /\ CBC_NO_RESULT_OPERATION (fun opcode => to_uint16 (opcode + 256)) 173 = true
  /\ CBC_SUPER_CALL_OPERATION (fun opcode => to_uint16 (opcode + 256)) 173 = false.
Proof.
  assert (Hpast : forall j,
             0 <= j <= enumerator CBC_EXT_OPCODE_LIST "CBC_EXT_END"%string ->
             enumerator CBC_OPCODE_LIST "CBC_END"%string < to_uint16 (j + 256)).
  { change (enumerator CBC_EXT_OPCODE_LIST "CBC_EXT_END"%string) with 60.
    change (enumerator CBC_OPCODE_LIST "CBC_END"%string) with 212.
    intros j Hj. unfold to_uint16. change (2 ^ 16) with 65536.
    rewrite Z.mod_small; lia. }
  assert (Horder : forall a b,
             0 <= a <= enumerator CBC_EXT_OPCODE_LIST "CBC_EXT_END"%string ->
             0 <= b <= enumerator CBC_EXT_OPCODE_LIST "CBC_EXT_END"%string ->
             (a <= b <-> to_uint16 (a + 256) <= to_uint16 (b + 256))).
  { change (enumerator CBC_EXT_OPCODE_LIST "CBC_EXT_END"%string) with 60.
    intros a b Ha Hb. unfold to_uint16. change (2 ^ 16) with 65536.
    rewrite !Z.mod_small; lia. }
  destruct (no_result_range_is_the_result_groups (fun opcode => to_uint16 (opcode + 256))
              Hpast Horder) as [Hbase Hext].
  destruct (Hext 50 {| op_name := "CBC_EXT_SUPER_CALL_PUSH_RESULT"%string;
                       op_flags := CBC_HAS_POP_STACK_BYTE_ARG; op_stack := 0 |} eq_refl)
    as [Hsuper _].
  destruct (Hbase 173 {| op_name := "CBC_CALL"%string;
                         op_flags := CBC_HAS_POP_STACK_BYTE_ARG; op_stack := -1 |} eq_refl)
    as [Hcall Hnot].
  split; [exact Hsuper |]. split; [exact Hcall | exact Hnot].
Defined.

End CbcFormsInstances.

(** * The number scanner at concrete inputs *)

Section ReferenceBuildNumbers.

Existing Instance reference_headers.

(** [12.5e3] in front of a semicolon is a decimal number of six bytes. *)
Lemma lexer_parse_number_12_5e3 :
  exists ctx',
    lexer_parse_number (bytes_of_string "12.5e3;")
                       (initial_context (bytes_of_string "12.5e3;"))
    = Done (Returned (LEXER_NUMBER_DECIMAL, ctx'))
    /\ source_p ctx' = 6
    /\ lit_length (lit_location (token ctx')) = 6.
Proof.
  assert (Hp : 0 <= source_p (initial_context (bytes_of_string "12.5e3;"))
               < source_end_p (initial_context (bytes_of_string "12.5e3;")))
    by (split; vm_compute; [discriminate | reflexivity]).
  assert (He : source_end_p (initial_context (bytes_of_string "12.5e3;"))
               <= Z.of_nat (List.length (bytes_of_string "12.5e3;")))
    by (vm_compute; discriminate).
  assert (Hsize : source_end_p (initial_context (bytes_of_string "12.5e3;"))
                  - source_p (initial_context (bytes_of_string "12.5e3;"))
                  < 2 ^ size_t_bits) by reflexivity.
  assert (Hmax : PARSER_MAXIMUM_IDENT_LENGTH < 2 ^ 16) by reflexivity.
  destruct (lexer_parse_number_scans_a_literal _ _ Hp He Hsize Hmax) as (r & Hcall & _).
  vm_compute in Hcall. injection Hcall as <-.
  eexists. split; [vm_compute; reflexivity |]. split; reflexivity.
Defined.

(** [09] is not a number. *)
Lemma lexer_parse_number_09 :
  exists ctx',
    lexer_parse_number (bytes_of_string "09") (initial_context (bytes_of_string "09"))
    = Done (RaisedMore PARSER_ERR_INVALID_NUMBER ctx').
Proof.
  assert (Hnext : source_p (initial_context (bytes_of_string "09")) + 1
                  < source_end_p (initial_context (bytes_of_string "09")))
    by reflexivity.
  assert (Hc1 : 56 <= 57 <= 57) by lia.
  exact (proj1 (proj2 (lexer_parse_number_rejects_after_zero
                         (bytes_of_string "09") (initial_context (bytes_of_string "09"))
                         57 eq_refl Hnext eq_refl)) Hc1).
Defined.

End ReferenceBuildNumbers.

Section ReferenceBuildKeywords.

Existing Instance reference_headers.

(** [while] is found in the group of the keywords of 5 bytes. *)
Lemma keyword_search_of_while :
  lexer_parse_identifier_keyword (bytes_of_string "while")
                                 (initial_context (bytes_of_string "while")) 0 5
  = Done (upd_token (set_token_type LEXER_KEYW_WHILE)
                    (initial_context (bytes_of_string "while"))).
Proof.
  assert (Hlength : 2 <= 5 <= 10) by lia.
  destruct (keyword_search_is_table_lookup
              (bytes_of_string "while") (initial_context (bytes_of_string "while"))
              0 5 (bytes_of_string "while") Hlength eq_refl)
    as (group & Hgroup & [(keyword & Hin & Hbytes & Hcall) | (Hnone & _)]).
  - injection Hgroup as <-.
    repeat (destruct Hin as [<- | Hin]; [try discriminate Hbytes; exact Hcall |]).
    destruct Hin.
  - injection Hgroup as <-. exfalso.
    apply (Hnone (LEXER_KEYWORD "while" LEXER_KEYW_WHILE)); [| reflexivity].
    cbn. tauto.
Defined.

(** In strict mode [eval] is no name to bind. *)
Lemma lexer_expect_identifier_eval :
  exists ctx',
    lexer_expect_identifier (bytes_of_string "eval")
                            (with_status_flags PARSER_IS_STRICT
                                               (initial_context (bytes_of_string "eval")))
                            LEXER_IDENT_LITERAL
    = Done (RaisedMore PARSER_ERR_EVAL_NOT_ALLOWED ctx')
    /\ has_flag (ctx_status_flags ctx') PARSER_IS_STRICT = true.
Proof.
  assert (Hcall : exists ctx',
             lexer_expect_identifier
               (bytes_of_string "eval")
               (with_status_flags PARSER_IS_STRICT
                                  (initial_context (bytes_of_string "eval")))
               LEXER_IDENT_LITERAL
             = Done (RaisedMore PARSER_ERR_EVAL_NOT_ALLOWED ctx')).
  { eexists. vm_compute. reflexivity. }
  destruct Hcall as (ctx' & Hcall). exists ctx'. split; [exact Hcall |].
  exact (proj1 (proj2 (lexer_expect_identifier_in_strict_mode _ _ _ _ Hcall))).
Defined.

End ReferenceBuildKeywords.

Section ReferenceBuildTokens.

Existing Instance reference_headers.
Existing Instance reference_tokens.

(** The four bytes of [>>>=] are one token. *)
Lemma lexer_next_token_switch_of_uns_right_shift :
  lexer_next_token_switch (bytes_of_string ">>>= 1")
                          (initial_context (bytes_of_string ">>>= 1")) 6
  = Done (TokenOfLength LEXER_ASSIGN_UNS_RIGHT_SHIFT 4).
Proof.
  assert (Hlength : 0 < 6) by lia.
  destruct (lexer_next_token_switch_takes_the_longest
              (bytes_of_string ">>>= 1") (initial_context (bytes_of_string ">>>= 1"))
              6 (bytes_of_string ">>>= 1") Hlength eq_refl)
    as (action & Hcall & _).
  rewrite Hcall. vm_compute in Hcall. injection Hcall as <-. vm_compute. reflexivity.
Defined.

(** A line feed between two spaces in front of [x]. *)
Lemma lexer_skip_spaces_over_a_line_feed :
  exists ctx',
    lexer_skip_spaces [32; 10; 32; 120] (initial_context [32; 10; 32; 120]) = Done ctx'
    /\ token_flags (token ctx') = LEXER_WAS_NEWLINE
    /\ line ctx' <> line (initial_context [32; 10; 32; 120]).
Proof.
  assert (Hcall : exists ctx',
             lexer_skip_spaces [32; 10; 32; 120] (initial_context [32; 10; 32; 120])
             = Done ctx').
  { eexists. vm_compute. reflexivity. }
  destruct Hcall as (ctx' & Hcall).
  assert (Hbounds : cursor_in_bounds [32; 10; 32; 120]
                      (initial_context [32; 10; 32; 120])).
  { split; [split |]; vm_compute; discriminate. }
  assert (Hutf8 : three_byte_sequences_complete
                    [32; 10; 32; 120]
                    (source_p (initial_context [32; 10; 32; 120]))
                    (source_end_p (initial_context [32; 10; 32; 120])))
    by (apply three_byte_sequences_complete_without; reflexivity).
  assert (Hsize : source_end_p (initial_context [32; 10; 32; 120])
                  - source_p (initial_context [32; 10; 32; 120]) < 2 ^ 32) by reflexivity.
  exists ctx'. split; [exact Hcall |].
  destruct (lexer_skip_spaces_records_newlines _ _ ctx' Hbounds Hutf8 Hsize eq_refl Hcall)
    as [(Hflags & _) | Hnewline]; [| exact Hnewline].
  vm_compute in Hcall. injection Hcall as <-. discriminate Hflags.
Defined.

(** An arrow after a space, on the line of the cursor. *)
Lemma lexer_check_arrow_on_the_same_line :
  exists ctx',
    lexer_check_arrow (bytes_of_string " => x")
                      (initial_context (bytes_of_string " => x"))
    = Done (LEXER_ARROW, ctx')
    /\ line ctx' = line (initial_context (bytes_of_string " => x")).
Proof.
  assert (Hcall : exists ctx',
             lexer_check_arrow (bytes_of_string " => x")
                               (initial_context (bytes_of_string " => x"))
             = Done (LEXER_ARROW, ctx')).
  { eexists. vm_compute. reflexivity. }
  destruct Hcall as (ctx' & Hcall).
  assert (Hbounds : cursor_in_bounds (bytes_of_string " => x")
                      (initial_context (bytes_of_string " => x"))).
  { split; [split |]; vm_compute; discriminate. }
  assert (Hutf8 : three_byte_sequences_complete
                    (bytes_of_string " => x")
                    (source_p (initial_context (bytes_of_string " => x")))
                    (source_end_p (initial_context (bytes_of_string " => x"))))
    by (apply three_byte_sequences_complete_without; reflexivity).
  assert (Hsize : source_end_p (initial_context (bytes_of_string " => x"))
                  - source_p (initial_context (bytes_of_string " => x")) < 2 ^ 32)
    by reflexivity.
  assert (Hno_skip : 0 < LEXER_NO_SKIP_SPACES < 256) by (split; reflexivity).
  assert (Hnewline : 0 < LEXER_WAS_NEWLINE < 256) by (split; reflexivity).
  assert (Hcomma : LEXER_ARROW <> LEXER_COMMA) by (vm_compute; discriminate).
  assert (Hparen : LEXER_ARROW <> LEXER_RIGHT_PAREN) by (vm_compute; discriminate).
  destruct (lexer_check_arrow_needs_the_same_line
              _ _ ctx' LEXER_ARROW Hbounds Hutf8 Hsize eq_refl Hno_skip Hnewline eq_refl
              Hcomma Hparen Hcall) as (Harrow & _).
  exists ctx'. split; [exact Hcall |]. exact (proj1 (proj1 Harrow eq_refl)).
Defined.

(** After a space, [>>=] is one token of three bytes, not [>>]. *)
Lemma lexer_next_token_of_assign_right_shift :
  exists ctx',
    lexer_next_token (bytes_of_string " >>= 2")
                     (initial_context (bytes_of_string " >>= 2"))
    = Done (Returned (None, ctx'))
    /\ token_type (token ctx') = LEXER_ASSIGN_RIGHT_SHIFT
    /\ source_p ctx' = 4.
Proof.
  assert (Hskip : exists ctx1,
             lexer_skip_spaces (bytes_of_string " >>= 2")
                               (initial_context (bytes_of_string " >>= 2")) = Done ctx1
             /\ source_p ctx1 = 1 /\ source_end_p ctx1 = 6).
  { eexists. split; [vm_compute; reflexivity |]. split; reflexivity. }
  destruct Hskip as (ctx1 & Hskip & Hp & He).
  assert (Hlength : 0 < source_end_p ctx1 - source_p ctx1 < 2 ^ size_t_bits).
  { rewrite Hp, He. split; reflexivity. }
  assert (Hload : load_bytes (bytes_of_string " >>= 2") (source_p ctx1)
                             (Z.to_nat (source_end_p ctx1 - source_p ctx1))
                  = Done (bytes_of_string ">>= 2")).
  { rewrite Hp, He. reflexivity. }
  assert (Hident : util_is_identifier_start (bytes_of_string " >>= 2") (source_p ctx1)
                   = false).
  { rewrite Hp. reflexivity. }
  assert (Hin : In (">>"%string, LEXER_RIGHT_SHIFT) punctuators).
  { unfold punctuators. cbn [In]. do 16 right. left. reflexivity. }
  assert (Hdot : forall c1 rest,
             bytes_of_string ">>= 2" = 46 :: c1 :: rest -> is_decimal_digit c1 = false).
  { intros c1 rest Heq. discriminate Heq. }
  destruct (lexer_next_token_reads_a_punctuator
              _ _ ctx1 _ _ _ Hskip Hlength Hload Hident Hin eq_refl Hdot)
    as (s' & type' & ctx' & _ & _ & _ & Hcall & _).
  exists ctx'. split; [exact Hcall |].
  vm_compute in Hcall. injection Hcall as <-. split; vm_compute; reflexivity.
Defined.

End ReferenceBuildTokens.
